(* ===== verification/_CoqProject ===== *)
-Q . S2P
Prelude.v
GoStrings.v
Base64.v
Memory.v
Sha2.v
Crypto.v
Json.v
Keys.v
Db.v
Calls.v
Store.v
Minio.v
Dispatch.v
Dispatcher.v
Env.v
Groups.v
Sql.v
System.v
Link.v
Http.v
Auth.v
TokenStore.v
Jobs.v
Admin.v
Main.v
Printer.v
Pipeline.v
Client.v
Wire.v
Scenarios.v
HttpScenarios.v
MainScenarios.v
PrinterScenarios.v
