(* ===== verification/Prelude.v ===== *)
(** * Automail: a verification development of the Go services

    Automail delivers documents to the printers of mailboxes.  A sender's browser
    encrypts a document with a fresh AES key, wraps that key for the recipient's
    printer, uploads the ciphertext to object storage and submits a job.  Any
    number of identical cloud nodes (services/cloud) share one Postgres, one Redis
    and one MinIO; each printer (services/printer) holds one WebSocket open to
    some node.  A job goes out as a dispatch frame over that socket, is decrypted
    and printed by the printer, and comes back as status frames.

    ** How programs are modelled

    A Go function is a program ([prog], below) over the calls it makes of its
    environment: SQL statements, Redis commands, socket and file operations,
    clock, randomness, log lines, response writes.  The calls of the cloud are the
    constructors of [Calls.cloud_call], those of the printer
    [Printer.printer_call].  [exec p t a] says that [p] can make exactly the calls
    of the trace [t], with the answers recorded there, and return [a].  Answers
    are unconstrained unless a theorem says otherwise, so a theorem about all runs
    holds whatever the network, the stores, the peers and other nodes do: errors,
    lost replies and timeouts are answers like any other.  [wp] is the matching
    postcondition, [interp] runs a program against a concrete environment.  An
    [error] is a value; a deferred call is written out on every return; blocking
    [select] statements are calls that answer which case fired; a [go] statement is
    a call, and the goroutine's body is a program of its own.  Integers carry their
    width where the code relies on it ([int64], [wrap_signed]).  Code that
    overwrites secrets works on a heap of byte arrays ([Memory]).

    ** The files

    - Prelude, GoStrings, Base64, Json, Sha2, Memory: programs, traces and their
      automation; the parts of Go's library the services use.
    - Db, Sql: db/models.go and every statement of db/queries.sql.go, as functions
      on the tables of db/schema.sql.
    - Calls, Env: what the cloud asks of its environment; a reference environment.
    - Keys, Store, Minio: store/keys.go, store/redis.go, minioclient/client.go.
    - Dispatch: dispatch/route.go.  [claimJob] claims a row, [attemptDispatch]
      claims and publishes, [TryDispatch] and [Retry] are its two callers.
    - Dispatcher, Groups: dispatch/dispatcher.go, the goroutine that serves the
      stream of blocked jobs, first over any environment; then against a consumer
      group's pending list kept by Redis's rules, alone and interleaved with
      whatever other clients do to it.
    - System: any number of nodes interleaved, call by call, over one Postgres with
      row locks and transactions, with crashes, lost connections and lost replies,
      of Postgres and of PUBLISH.
    - Link: link/frames.go, registry.go and hub.go, the cloud's end of a printer's
      socket.
    - Http, Auth, TokenStore, Jobs, Admin: the middleware, probes, tokens and
      shutdown runner; handlers/auth.go and tokens.go; handlers/jobs.go;
      handlers/admin.go and recipients.go.
    - Main: main.go and pprof.go of the cloud, start-up, routes and shutdown.
    - Printer, Crypto, Pipeline, Client: services/printer: frames, configuration and
      slots; crypto.go; one job from dispatch to delivery and the loading of the
      key (print.go, main.go); the connection and the process (wsclient.go,
      keepalive.go, mtls.go, health.go, main.go).
    - Wire: the cloud's encoders against the printer's decoders and back, and the
      dispatch frame put in front of the pipeline.
    - Scenarios, HttpScenarios, MainScenarios, PrinterScenarios: concrete instances
      of every parameter and runs, evaluated, to which each theorem is applied.

    ** What the theorems show

    - A job goes out once, but for two exceptions.  [System.at_most_one_frame]
      bounds the deliveries of a job's frame over every reachable state of the
      whole system: one, and one more for each PUBLISH of it answered with an error
      and each report of a claimable status for it; it counts PUBLISHes that reached
      a subscriber.  [System.dispatch_code_disciplined] proves that the dispatch
      code is one of the programs it speaks of, [Link.Accept_lawful] and
      [Jobs.CreateJob_lawful] that a printer's socket and a submission are; the
      other handlers make no call the protocol constrains.  Dispatch's theorems say
      what one attempt does with its claim on every path.
    - A queued job is acknowledged only when a frame went out or its row was found
      beyond claiming ([Dispatcher]), and [Groups.pending_entries_accounted] lists
      every way an entry can leave the pending list while other clients act on it,
      of which one, a race between the check and the deletion of a stale consumer,
      loses it.
    - A sent document is the printed one, and its plaintext is wiped ([Wire],
      [Pipeline], [Crypto], [Memory]): what a good job does, that every run wipes
      every buffer it allocated, when a file may stay on the tmpfs, that a report
      goes out after the wipe and carries no internal text, that keys produced the
      standard way load, what exactly loading one leaves in memory, that PBKDF2 is
      RFC 8018's.
    - Each socket is set up and torn down in order, reports are relayed and
      delivered blobs deleted ([Link], [Client]); both ends read each other's
      frames ([Wire]).
    - The HTTP surface: login, registration, rotation and single use of refresh
      tokens by requests that do not overlap, job validation and submission, who
      may watch a job and what the stream sends, which routes need which token,
      paging when creation times are distinct ([Auth], [TokenStore], [Jobs], [Main],
      [Sql], [Admin]).
    - The process: nothing is served before everything is in place, and a signal
      drains the node in order ([Main], [Http]); the same of the printer
      ([Client.main_loads_key_first]).

    ** Fuel and bounds

    A Go loop without a bound ([loop]) takes fuel and returns [None] when it runs
    out.  Where the loop serves a peer for ever (readLoop, keepalive, pumpDispatch,
    StreamJob, the dispatcher's Run, the printer's runClient) the fuel is the number
    of turns observed and the theorems hold for every value.  The reclaim loop is the
    one that must end: [Groups.reclaim_terminates] gives the fuel that is enough
    when the server's cursors advance.  [Dispatcher.maxDrainBatches] is the code's own
    bound of 20.  Everything else is structural recursion.

    ** Parameters and hypotheses

    [UuidLib] and [UuidLaws] (google/uuid: parsing what was printed), [HttpLib]
    (mail addresses, Unicode case, RFC 3339), [BootLib] (PEM, x509, durations),
    [CryptoLib] and [CryptoLaws] (RSA-OAEP, AES, the hashes' lengths, decryption
    undoing encryption), pgcrypto, the collation and the order of tied rows
    ([Sql.Planner]) in [Sql], Redis's glob matching on patterns with one star and no
    other special character ([Keys]).  Hypotheses on the environment are named:
    Redis's pending list ([Groups]: [redis_group] for one client alone, [own_step]
    and [other_step] for many), the token statements ([TokenStore], discharged from
    [Sql]), Postgres's locks and transactions ([System]).  All are instantiated in the scenario files.

    ** What is not modelled

    JSON as text: documents are syntax trees, and a body is its first value.  HTTP and
    TLS below the handlers: [Main] models ServeMux on cleaned paths and records the
    listener's policy; a handshake is not a program here.  Context deadlines show as
    error answers, goroutine scheduling as the interleaving of calls.  The value of
    an erased Go string (it cannot be wiped) and copies made inside library calls.
    bcrypt, JWT verification and rand are calls.  The portal (TypeScript), the system
    test harness and the deployment files are left out.

    ** What modelling showed

    A PUBLISH whose reply is lost is taken for one that failed, and the job goes out
    again ([Scenarios.lost_reply_dispatches_twice]); a fresh job whose publish failed
    is left queued without a stream entry ([Dispatch.fresh_job_out_or_queued]); a
    consumer given an entry between its check and its deletion is deleted with it
    ([Scenarios.reap_race_loses_entry]); paging by creation time alone can repeat one
    job and miss another ([MainScenarios.tied_jobs_repeat]).
    Two concurrent refreshes with one cookie both succeed
    ([HttpScenarios.refresh_race]); a printer may report any status and so make a
    dispatched job claimable again ([Scenarios.rogue_report_reopens]); a huge page
    number wraps to a negative offset ([Admin.huge_page_rejected]); a failed tmpfs
    write leaves the file behind ([Pipeline.write_error_no_cleanup]); the last PBKDF2
    block is not wiped ([Crypto.derived_key_copy_survives]); a listener's failure
    exits without the shutdown sequence its comment promises
    ([Main.fatal_exit_drains_nothing]); a still-blocked entry waits for the sweep
    ([Groups.drain_never_retries_pending]); the reconnect counter never resets
    ([Client.client_turn]); the printer never reports that it is printing
    ([Printer.slots_after_deliveries]); a job id is not sanitised before it names a
    file ([Pipeline.job_id_escapes_tmpfs]). *)

From stdpp Require Export base tactics option list gmap strings.
From Stdlib Require Export ZArith Lia.

#[global] Arguments Z.eqb : simpl never.
#[global] Arguments Z.ltb : simpl never.
#[global] Arguments Z.leb : simpl never.
#[global] Arguments Z.pow : simpl never.

(** ** Errors and results

    A Go function returning [(T, error)] becomes a function into [result T].
    The constructors of [error] are the error values the code inspects with
    [errors.Is], [errors.As] or [minio.ToErrorResponse]; every other error is
    an opaque text. *)

Inductive error : Type :=
| ErrNoRows                               (* sql.ErrNoRows *)
| ErrRedisNil                             (* redis.Nil *)
| ErrPq (code msg : string)               (* *pq.Error *)
| ErrMinio (code msg : string)            (* minio.ErrorResponse *)
| ErrText (msg : string)                  (* errors.New, any other library error *)
| ErrWrap (prefix : string) (e : error).  (* fmt.Errorf("prefix: %w", e) *)

Inductive result (A : Type) : Type :=
| Ok (a : A)
| Err (e : error).
Arguments Ok {A} a.
Arguments Err {A} e.

#[export] Instance result_mret : MRet result := fun A a => Ok a.
#[export] Instance result_mbind : MBind result := fun A B f r =>
  match r with Ok a => f a | Err e => Err e end.

(** The text [err.Error()] returns. *)
Fixpoint err_text (e : error) : string :=
  match e with
  | ErrNoRows => "sql: no rows in result set"
  | ErrRedisNil => "redis: nil"
  | ErrPq _ msg => "pq: " +:+ msg
  | ErrMinio _ msg => msg
  | ErrText msg => msg
  | ErrWrap p e => p +:+ ": " +:+ err_text e
  end.

#[export] Instance error_eq_dec : EqDecision error.
Proof. solve_decision. Defined.

(** ** Programs over external calls

    A signature lists the calls a component makes to its environment (SQL
    statements, Redis commands, object storage, sockets, clocks, log lines)
    and the type of the answer to each.  A [prog] is the code itself: it
    either returns or makes one call and continues on the answer. *)

Record sig : Type := Sig {
  sig_call : Type;
  sig_res : sig_call -> Type
}.

Inductive prog (S : sig) (A : Type) : Type :=
| Ret (a : A)
| Vis (c : sig_call S) (k : sig_res S c -> prog S A).
Arguments Ret {S A} a.
Arguments Vis {S A} c k.

Fixpoint prog_bind {S A B} (f : A -> prog S B) (p : prog S A) : prog S B :=
  match p with
  | Ret a => f a
  | Vis c k => Vis c (fun r => prog_bind f (k r))
  end.

#[export] Instance prog_ret S : MRet (prog S) := fun A a => Ret a.
#[export] Instance prog_mbind S : MBind (prog S) := fun A B f p => prog_bind f p.

(** One external call, returning its answer. *)
Definition call {S : sig} (c : sig_call S) : prog S (sig_res S c) := Vis c (fun r => Ret r).

(** A loop with fuel: [inl] continues with a new loop state, [inr] leaves.
    [None] is the fuel running out. *)
Fixpoint loop {S St A} (fuel : nat) (body : St -> prog S (St + A)) (s : St)
    : prog S (option A) :=
  match fuel with
  | O => Ret None
  | Datatypes.S n =>
      body s ≫= fun x =>
      match x with
      | inl s' => loop n body s'
      | inr a => Ret (Some a)
      end
  end.

(** ** Runs and traces

    An event is a call together with the answer it got.  [exec p t a] says
    that [p] can return [a] after making exactly the calls of [t] and getting
    the answers recorded there: the environment is unconstrained. *)

Definition event (S : sig) : Type := { c : sig_call S & sig_res S c }.
Abbreviation trace S := (list (event S)).

Definition Ev {S : sig} (c : sig_call S) (r : sig_res S c) : event S := existT c r.

Fixpoint exec {S A} (p : prog S A) (t : trace S) (a : A) : Prop :=
  match p with
  | Ret b => t = [] /\ a = b
  | Vis c k =>
      match t with
      | [] => False
      | e :: t' => exists r, e = Ev c r /\ exec (k r) t' a
      end
  end.

(** [wp p Q]: every run of [p] ends with a trace and a value in [Q]. *)
Fixpoint wp {S A} (p : prog S A) (Q : trace S -> A -> Prop) : Prop :=
  match p with
  | Ret a => Q [] a
  | Vis c k => forall r, wp (k r) (fun t a => Q (Ev c r :: t) a)
  end.

(** Running a program against a concrete environment: a handler that answers
    each call and changes the environment's state. *)
Fixpoint interp {S A W} (h : W -> forall c, W * sig_res S c) (p : prog S A) (w : W)
    : W * trace S * A :=
  match p with
  | Ret a => (w, [], a)
  | Vis c k =>
      let '(w1, r) := h w c in
      let '(w2, t, a) := interp h (k r) w1 in
      (w2, Ev c r :: t, a)
  end.

(** The events of a trace whose call satisfies a test. *)
Definition ev_call {S : sig} (e : event S) : sig_call S := projT1 e.

Definition count {S : sig} (P : event S -> bool) (t : trace S) : nat :=
  length (List.filter P t).

(** ** Machine integers *)

(** Two's-complement wrap-around to [w] bits. *)
Definition wrap_signed (w : Z) (z : Z) : Z :=
  (z + 2 ^ (w - 1)) mod 2 ^ w - 2 ^ (w - 1).

Abbreviation int64 := (wrap_signed 64).
Abbreviation int32 := (wrap_signed 32).

(** Go durations are int64 nanoseconds. *)
Definition second : Z := 1000000000.
Definition minute : Z := 60 * second.

(** ** Lemmas on programs *)

Section prog_lemmas.
Context {S : sig}.

Lemma bind_ret_l {A B} (a : A) (f : A -> prog S B) : (Ret a ≫= f) = f a.
Proof. reflexivity. Qed.

Lemma bind_vis {A B} c (k : sig_res S c -> prog S A) (f : A -> prog S B) :
  (Vis c k ≫= f) = Vis c (fun r => k r ≫= f).
Proof. reflexivity. Qed.

Lemma wp_mono {A} (p : prog S A) (Q Q' : trace S -> A -> Prop) :
  (forall t a, Q t a -> Q' t a) -> wp p Q -> wp p Q'.
Proof.
  revert Q Q'. induction p as [a|c k IH]; cbn; intros Q Q' HQ Hp; [auto|].
  intros r. eapply IH; [|apply Hp]. cbn. auto.
Qed.

Lemma wp_bind {A B} (p : prog S A) (f : A -> prog S B) Q :
  wp p (fun t a => wp (f a) (fun t' b => Q (t ++ t') b)) -> wp (p ≫= f) Q.
Proof.
  revert Q. induction p as [a|c k IH]; cbn; intros Q Hp; [exact Hp|].
  intros r. apply IH, Hp.
Qed.

Lemma wp_exec {A} (p : prog S A) Q t a : wp p Q -> exec p t a -> Q t a.
Proof.
  revert Q t. induction p as [b|c k IH]; cbn; intros Q t Hp He.
  - destruct He as [-> ->]. exact Hp.
  - destruct t as [|e t]; [done|]. destruct He as (r & -> & He).
    exact (IH r _ t (Hp r) He).
Qed.

Lemma wp_runs {A} (p : prog S A) (Q : trace S -> A -> Prop) :
  wp p Q -> forall t a, exec p t a -> Q t a.
Proof. intros Hp t a. by apply wp_exec. Qed.

Lemma exec_wp {A} (p : prog S A) Q : (forall t a, exec p t a -> Q t a) -> wp p Q.
Proof.
  revert Q. induction p as [b|c k IH]; cbn; intros Q H; [by apply H|].
  intros r. apply IH. intros t a Ht. apply H. eauto.
Qed.

(** Combining what is known of a subprogram with the rest of the code. *)
Lemma wp_bind_spec {A B} (p : prog S A) (f : A -> prog S B) (P : trace S -> A -> Prop) Q :
  wp p P ->
  (forall t a, P t a -> wp (f a) (fun t' b => Q (t ++ t') b)) ->
  wp (p ≫= f) Q.
Proof. intros Hp Hf. apply wp_bind. eapply wp_mono; [|exact Hp]. exact Hf. Qed.

Lemma wp_and {A} (p : prog S A) Q1 Q2 :
  wp p Q1 -> wp p Q2 -> wp p (fun t a => Q1 t a /\ Q2 t a).
Proof.
  intros H1 H2. apply exec_wp. intros t a Ht.
  split; eapply wp_exec; eauto.
Qed.

Lemma exec_bind {A B} (p : prog S A) (f : A -> prog S B) t b :
  exec (p ≫= f) t b <-> exists t1 t2 a, t = t1 ++ t2 /\ exec p t1 a /\ exec (f a) t2 b.
Proof.
  revert t. induction p as [a|c k IH]; cbn; intros t; split.
  - intros H. exists [], t, a. auto.
  - intros (t1 & t2 & a' & -> & [-> ->] & H). exact H.
  - destruct t as [|e t]; [done|]. intros (r & -> & H).
    apply IH in H as (t1 & t2 & a & -> & H1 & H2).
    exists (Ev c r :: t1), t2, a. eauto.
  - intros (t1 & t2 & a & -> & H1 & H2). destruct t1 as [|e t1]; [done|].
    destruct H1 as (r & -> & H1). exists r. split; [done|].
    apply IH. eauto 6.
Qed.

(** What [interp] records is a run. *)
Lemma interp_exec {A W} (h : W -> forall c, W * sig_res S c) (p : prog S A) w :
  exec p (interp h p w).1.2 (interp h p w).2.
Proof.
  revert w. induction p as [a|c k IH]; cbn; intros w; [done|].
  destruct (h w c) as [w1 r]. specialize (IH r w1).
  destruct (interp h (k r) w1) as [[w2 t] a]. cbn in *. eauto.
Qed.

Lemma interp_bind {A B W} (h : W -> forall c, W * sig_res S c) (p : prog S A) (f : A -> prog S B) w :
  interp h (p ≫= f) w =
    (let '(w1, t1, a) := interp h p w in
     let '(w2, t2, b) := interp h (f a) w1 in (w2, t1 ++ t2, b)).
Proof.
  revert w. induction p as [a|c k IH]; intros w.
  - cbn. by destruct (interp h (f a) w) as [[w2 t2] b].
  - rewrite bind_vis. cbn [interp]. destruct (h w c) as [w1 r]. rewrite IH.
    destruct (interp h (k r) w1) as [[w2 t2] a].
    by destruct (interp h (f a) w2) as [[w3 t3] b].
Qed.

(** What a run from a given world ends in. *)
Definition wps {A W} (h : W -> forall c, W * sig_res S c) (p : prog S A) (w : W)
    (Q : W -> trace S -> A -> Prop) : Prop :=
  Q (interp h p w).1.1 (interp h p w).1.2 (interp h p w).2.

Lemma wps_bind {A B W} (h : W -> forall c, W * sig_res S c) (p : prog S A) (f : A -> prog S B) w Q :
  wps h p w (fun w1 t1 a => wps h (f a) w1 (fun w2 t2 b => Q w2 (t1 ++ t2) b)) ->
  wps h (p ≫= f) w Q.
Proof.
  unfold wps. rewrite interp_bind.
  destruct (interp h p w) as [[w1 t1] a]. cbn.
  by destruct (interp h (f a) w1) as [[w2 t2] b].
Qed.

Lemma wps_mono {A W} (h : W -> forall c, W * sig_res S c) (p : prog S A) w (Q Q' : W -> trace S -> A -> Prop) :
  (forall w' t a, Q w' t a -> Q' w' t a) -> wps h p w Q -> wps h p w Q'.
Proof. unfold wps. auto. Qed.

Lemma wps_vis {A W} (h : W -> forall c, W * sig_res S c) c (k : sig_res S c -> prog S A) w Q :
  wps h (k (h w c).2) (h w c).1 (fun w' t a => Q w' (Ev c (h w c).2 :: t) a) -> wps h (Vis c k) w Q.
Proof.
  unfold wps. cbn. destruct (h w c) as [w1 r]. cbn.
  by destruct (interp h (k r) w1) as [[w2 t2] a].
Qed.

(** What holds of every run holds of a run from a world. *)
Lemma wps_wp {A W} (h : W -> forall c, W * sig_res S c) (p : prog S A) w (Q : trace S -> A -> Prop) :
  wp p Q -> wps h p w (fun _ t a => Q t a).
Proof. intros Hp. unfold wps. exact (wp_exec _ _ _ _ Hp (interp_exec h p w)). Qed.

Lemma wps_and {A W} (h : W -> forall c, W * sig_res S c) (p : prog S A) w Q1 Q2 :
  wps h p w Q1 -> wps h p w Q2 -> wps h p w (fun w' t a => Q1 w' t a /\ Q2 w' t a).
Proof. done. Qed.

(** An environment invariant is kept by a run all of whose calls keep it. *)
Lemma interp_inv {A W} (h : W -> forall c, W * sig_res S c) (I : W -> Prop)
    (G : sig_call S -> Prop) (p : prog S A) w :
  (forall w c, G c -> I w -> I (h w c).1) ->
  wp p (fun t _ => Forall (fun e => G (ev_call e)) t) -> I w -> I (interp h p w).1.1.
Proof.
  intros HG Hp. pose proof (wp_exec _ _ _ _ Hp (interp_exec h p w)) as Ht. cbn in Ht. clear Hp.
  revert w Ht. induction p as [a|c k IH]; cbn; intros w Ht Hw; [done|].
  specialize (HG w c). destruct (h w c) as [w1 r]. specialize (IH r w1).
  destruct (interp h (k r) w1) as [[w2 t2] a]. cbn in *.
  apply Forall_cons in Ht as [Hc Ht]. auto.
Qed.

(** A loop invariant: [I n s] holds of the loop state with [n] rounds left. *)
Lemma wp_loop {St A} (body : St -> prog S (St + A)) (I : trace S -> St -> Prop)
    (Q : trace S -> option A -> Prop) :
  (forall t s, I t s -> Q t None) ->
  (forall t s, I t s ->
     wp (body s) (fun t' x => match x with
                              | inl s' => I (t ++ t') s'
                              | inr a => Q (t ++ t') (Some a)
                              end)) ->
  forall fuel t s, I t s -> wp (loop fuel body s) (fun t' a => Q (t ++ t') a).
Proof.
  intros Hout Hbody. induction fuel as [|n IH]; intros t s Hs; cbn.
  - rewrite app_nil_r. eauto.
  - eapply wp_bind_spec; [apply (Hbody t s Hs)|].
    intros t1 [s'|a] H1; cbn.
    + eapply wp_mono; [|apply (IH _ _ H1)]. cbn. intros t2 o. by rewrite app_assoc.
    + by rewrite app_nil_r.
Qed.

Lemma count_app (P : event S -> bool) t1 t2 : count P (t1 ++ t2) = (count P t1 + count P t2)%nat.
Proof. unfold count. by rewrite List.filter_app, length_app. Qed.

Lemma count_nil (P : event S -> bool) : count P [] = 0%nat.
Proof. reflexivity. Qed.

Lemma count_cons (P : event S -> bool) e t :
  count P (e :: t) = ((if P e then 1 else 0) + count P t)%nat.
Proof. unfold count. cbn. by destruct (P e). Qed.

End prog_lemmas.

#[global] Arguments count : simpl never.

(** ** Trace predicates

    [after P Q t]: every event of [t] that satisfies [Q] comes after one that
    satisfies [P]. *)
Section trace_predicates.
Context {S : sig}.
Implicit Types (t : trace S) (e : event S).

Definition after (P Q : event S -> bool) t : Prop :=
  forall t1 e t2, t = t1 ++ e :: t2 -> Q e = true -> exists e', e' ∈ t1 /\ P e' = true.

(** The same, computed along the trace; [seen] says whether [P] has happened. *)
Fixpoint after_b (P Q : event S -> bool) (seen : bool) t : bool :=
  match t with
  | [] => true
  | e :: t' => (negb (Q e) || seen) && after_b P Q (seen || P e) t'
  end.

Lemma after_b_spec P Q t :
  after_b P Q false t = true -> after P Q t.
Proof.
  assert (forall seen t, after_b P Q seen t = true -> forall t1 e t2, t = t1 ++ e :: t2 ->
    Q e = true -> seen = true \/ exists e', e' ∈ t1 /\ P e' = true) as H.
  { intros seen t0. revert seen. induction t0 as [|x t0 IH]; intros seen Hb t1 e t2 Ht HQ.
    - by destruct t1.
    - cbn in Hb. apply andb_true_iff in Hb as [Hx Hb]. destruct t1 as [|y t1].
      + injection Ht as -> ->. rewrite HQ in Hx. cbn in Hx. by left.
      + injection Ht as -> ->. destruct (IH _ Hb t1 e t2 eq_refl HQ) as [Hs|(e' & He' & HP)].
        * apply orb_true_iff in Hs as [->|Hy]; [by left|]. right. exists y. split; [left|done].
        * right. exists e'. split; [by right|done]. }
  intros Hb t1 e t2 Ht HQ. by destruct (H _ _ Hb t1 e t2 Ht HQ).
Qed.

Lemma after_b_app P Q seen t1 t2 :
  after_b P Q seen (t1 ++ t2)
  = after_b P Q seen t1 && after_b P Q (seen || List.existsb P t1) t2.
Proof.
  revert seen. induction t1 as [|e t1 IH]; intros seen; cbn.
  - by rewrite orb_false_r.
  - rewrite IH, <- andb_assoc. f_equal. by rewrite orb_assoc.
Qed.

Lemma count_0 (P : event S -> bool) t : Forall (fun e => P e = false) t <-> count P t = 0%nat.
Proof.
  induction t as [|e t IH]; [done|]. rewrite Forall_cons, count_cons, IH.
  destruct (P e); split; [intros [? _]; done|lia|intros [_ ->]; done|done].
Qed.

Lemma count_quiet (R : event S -> Prop) (P : event S -> bool) t :
  (forall e, R e -> P e = false) -> Forall R t -> count P t = 0%nat.
Proof. intros H Ht. apply count_0. eapply Forall_impl; eauto. Qed.

Lemma existsb_count (P : event S -> bool) t : count P t = 0%nat -> List.existsb P t = false.
Proof.
  intros H%count_0. induction H as [|e t He _ IH]; [done|]. cbn. by rewrite He, IH.
Qed.

Lemma after_b_quiet P Q seen t : count Q t = 0%nat -> after_b P Q seen t = true.
Proof.
  intros H%count_0. revert seen. induction H as [|e t He _ IH]; intros seen; [done|].
  cbn. by rewrite He, IH.
Qed.

Lemma after_b_seen P Q t : after_b P Q true t = true.
Proof. induction t as [|e t IH]; [done|]. cbn. by rewrite orb_true_r, IH. Qed.

End trace_predicates.

(** ** Automation *)

Create HintDb automail.
Create HintDb prog.
Create Rewrite HintDb automail.
#[export] Hint Resolve app_nil_r : automail.
#[export] Hint Rewrite @count_app @count_nil @count_cons @app_nil_r : automail.

#[export] Hint Unfold call mret mbind prog_ret prog_mbind : prog.

(** Prove [wp] of straight-line code: answer every call, follow every branch,
    and leave the facts about the finished traces.  Names to see through are
    hints of the database [prog]. *)
Ltac wp_step :=
  match goal with
  | |- wp (Ret _) _ => cbn [wp]
  | |- wp (Vis _ _) _ => cbn [wp]; intros
  | |- wp (prog_bind _ (match ?x with _ => _ end)) _ => destruct x eqn:?
  | |- wp (prog_bind _ (prog_bind _ (match ?x with _ => _ end))) _ => destruct x eqn:?
  | |- wp (prog_bind _ _) _ => progress cbn [prog_bind]
  | |- wp (match ?x with _ => _ end) _ => destruct x eqn:?
  end.
Ltac wp_steps := autounfold with prog; repeat wp_step.

(** ** Lemmas on machine integers *)

Lemma wrap_signed_id w z : (0 < w)%Z -> (- 2 ^ (w - 1) <= z < 2 ^ (w - 1))%Z -> wrap_signed w z = z.
Proof.
  intros Hw Hz. unfold wrap_signed.
  assert (2 ^ w = 2 * 2 ^ (w - 1))%Z.
  { rewrite <- Z.pow_succ_r by lia. f_equal. lia. }
  rewrite Z.mod_small by lia. lia.
Qed.

Lemma wrap_signed_range w z : (0 < w)%Z -> (- 2 ^ (w - 1) <= wrap_signed w z < 2 ^ (w - 1))%Z.
Proof.
  intros Hw. unfold wrap_signed.
  assert (2 ^ w = 2 * 2 ^ (w - 1))%Z.
  { rewrite <- Z.pow_succ_r by lia. f_equal. lia. }
  assert (0 < 2 ^ w)%Z by (apply Z.pow_pos_nonneg; lia).
  pose proof (Z.mod_pos_bound (z + 2 ^ (w - 1)) (2 ^ w)). lia.
Qed.

(** ** Lists cut into pages *)

Lemma join_pages {A} (size : nat) (l : list A) n :
  mjoin ((fun k => take size (drop (size * k) l)) <$> seq 0 n) = take (size * n) l.
Proof.
  induction n as [|n IH]; [by rewrite Nat.mul_0_r|].
  rewrite seq_S, fmap_app, join_app, IH. cbn. rewrite app_nil_r, take_take_drop.
  f_equal. lia.
Qed.
