(* ===== verification/GoStrings.v ===== *)
(** * Go string functions

    The parts of Go's [strings], [sort] and [strconv] packages the services
    use.  A Go string is a sequence of bytes, here a Rocq [string]. *)

From S2P Require Import Prelude.
From stdpp Require Import sorting.
From Stdlib Require Import Ascii.

(** [strings.HasPrefix], [strings.CutPrefix] *)
Fixpoint cut_prefix (s pre : string) {struct pre} : option string :=
  match pre with
  | EmptyString => Some s
  | String p pre' =>
      match s with
      | String c s' => if Ascii.eqb c p then cut_prefix s' pre' else None
      | EmptyString => None
      end
  end.

Definition has_prefix (s pre : string) : bool := bool_decide (is_Some (cut_prefix s pre)).

(** [strings.HasSuffix] *)
Definition has_suffix (s suf : string) : bool :=
  (String.length suf <=? String.length s)%nat
  && String.eqb (String.substring (String.length s - String.length suf) (String.length suf) s) suf.

(** [strings.Contains] *)
Fixpoint contains (s sub : string) : bool :=
  has_prefix s sub ||
  match s with
  | EmptyString => false
  | String _ s' => contains s' sub
  end.

(** [strings.IndexByte], with [None] for -1 *)
Fixpoint index_byte (s : string) (b : Ascii.ascii) : option nat :=
  match s with
  | EmptyString => None
  | String c s' => if Ascii.eqb c b then Some 0%nat else S <$> index_byte s' b
  end.

(** UTF-8, as far as the code looks into it. *)

(** How many bytes [utf8.DecodeRuneInString] takes: 1 for an ill-formed
    sequence, 0 for the empty string. *)
Definition cont (lo hi : N) (s : string) : option string :=
  match s with
  | String c s' => let n := Ascii.N_of_ascii c in if ((lo <=? n) && (n <=? hi))%N then Some s' else None
  | EmptyString => None
  end.

Definition rune_size (s : string) : nat :=
  match s with
  | EmptyString => 0
  | String c s1 =>
      let b := Ascii.N_of_ascii c in
      let two lo hi := if cont lo hi s1 is Some _ then 2%nat else 1%nat in
      let three lo hi :=
        match cont lo hi s1 with
        | Some s2 => if cont 128 191 s2 is Some _ then 3%nat else 1%nat
        | None => 1%nat
        end in
      let four lo hi :=
        match cont lo hi s1 with
        | Some s2 => match cont 128 191 s2 with
                     | Some s3 => if cont 128 191 s3 is Some _ then 4%nat else 1%nat
                     | None => 1%nat
                     end
        | None => 1%nat
        end in
      if (b <? 194)%N then 1
      else if (b <? 224)%N then two 128%N 191%N
      else if (b =? 224)%N then three 160%N 191%N
      else if (b =? 237)%N then three 128%N 159%N
      else if (b <? 240)%N then three 128%N 191%N
      else if (b =? 240)%N then four 144%N 191%N
      else if (b <? 244)%N then four 128%N 191%N
      else if (b =? 244)%N then four 128%N 143%N
      else 1
  end%nat.

Definition drop_bytes (n : nat) (s : string) : string := String.substring n (String.length s - n) s.

(** [len([]rune(s))]; every rune takes at least one byte, so the length is
    enough fuel. *)
Fixpoint count_runes (fuel : nat) (s : string) : nat :=
  match fuel, s with
  | S n, String _ _ => S (count_runes n (drop_bytes (rune_size s) s))
  | _, _ => 0
  end.
Definition rune_count (s : string) : nat := count_runes (String.length s) s.

(** How many bytes of white space ([unicode.IsSpace]) the string starts with, in
    its first rune; 0 if that rune is none. *)
Definition space_size (s : string) : nat :=
  match s with
  | String "009" _ | String "010" _ | String "011" _ | String "012" _ | String "013" _ | String " " _ => 1
  | String "194" (String "133" _) | String "194" (String "160" _) => 2
  | String "225" (String "154" (String "128" _)) => 3
  | String "226" (String "128" (String c _)) =>
      let n := Ascii.N_of_ascii c in
      if ((128 <=? n) && (n <=? 138) || (n =? 168) || (n =? 169) || (n =? 175))%N then 3 else 0
  | String "226" (String "129" (String "159" _)) => 3
  | String "227" (String "128" (String "128" _)) => 3
  | _ => 0
  end%nat.

(** [strings.Fields]; [cur] is the field being read.  Every step takes at least
    one byte, so the length is enough fuel. *)
Fixpoint fields_from (fuel : nat) (cur s : string) : list string :=
  let flush := match cur with EmptyString => [] | _ => [cur] end in
  match fuel, s with
  | S n, String c s' =>
      match space_size s with
      | 0%nat => fields_from n (cur +:+ String c EmptyString) s'
      | k => flush ++ fields_from n EmptyString (drop_bytes k s)
      end
  | _, _ => flush
  end.
Definition fields (s : string) : list string := fields_from (String.length s) EmptyString s.

(** [sort.Strings]: bytewise order *)
Definition string_le (s1 s2 : string) : Prop := String.leb s1 s2 = true.

#[export] Instance string_le_dec : RelDecision string_le.
Proof. intros s1 s2. unfold string_le. apply _. Defined.

Definition sort_strings (l : list string) : list string := merge_sort string_le l.

(** [strconv.Atoi]: an optional sign, then one or more decimal digits whose
    value fits an int64. *)
Definition digit (c : Ascii.ascii) : option Z :=
  let n := Z.of_N (Ascii.N_of_ascii c) in
  if ((48 <=? n) && (n <=? 57))%Z then Some (n - 48)%Z else None.

Fixpoint digits (acc : Z) (s : string) : option Z :=
  match s with
  | EmptyString => Some acc
  | String c s' =>
      match digit c with
      | Some d => digits (10 * acc + d) s'
      | None => None
      end
  end.

Definition sign_split (s : string) : bool * string :=
  match s with
  | String "-"%char s' => (true, s')
  | String "+"%char s' => (false, s')
  | _ => (false, s)
  end.

Definition atoi (s : string) : option Z :=
  let '(neg, ds) := sign_split s in
  match ds with
  | EmptyString => None
  | _ =>
      match digits 0 ds with
      | None => None
      | Some n =>
          let v := if neg then (- n)%Z else n in
          if ((- 2 ^ 63 <=? v) && (v <? 2 ^ 63))%Z then Some v else None
      end
  end.

(** ** Lemmas *)

Lemma append_cons c (s t : string) : String c s +:+ t = String c (s +:+ t).
Proof. done. Qed.

Lemma append_nil_r (s : string) : s +:+ EmptyString = s.
Proof. induction s as [|c s IH]; [done|]. rewrite append_cons. by rewrite IH. Qed.

Lemma append_assoc (s t u : string) : (s +:+ t) +:+ u = s +:+ (t +:+ u).
Proof. induction s as [|c s IH]; [done|]. rewrite !append_cons. by rewrite IH. Qed.

Lemma length_append (s t : string) :
  String.length (s +:+ t) = (String.length s + String.length t)%nat.
Proof. induction s as [|c s IH]; [done|]. rewrite append_cons. cbn. by rewrite IH. Qed.

Lemma append_inj_l (s t u : string) : s +:+ t = s +:+ u -> t = u.
Proof. induction s as [|c s IH]; [done|]. rewrite !append_cons. intros [= H]. auto. Qed.

Lemma append_inj_len (a b x y : string) :
  String.length x = String.length y -> a +:+ x = b +:+ y -> a = b /\ x = y.
Proof.
  intros Hlen. revert b.
  assert (forall s t : string, s = t -> String.length s = String.length t) as Hl by congruence.
  induction a as [|c a IH]; intros [|d b] H; [done| | |].
  - exfalso. apply Hl in H. rewrite !length_append in H. cbn in H. lia.
  - exfalso. apply Hl in H. rewrite !length_append in H. cbn in H. lia.
  - rewrite !append_cons in H. injection H as -> H. destruct (IH b H) as [-> ->]. done.
Qed.

Lemma append_inj_r (a b x : string) : a +:+ x = b +:+ x -> a = b.
Proof. intros H. by apply append_inj_len in H as [? _]. Qed.

Lemma cut_prefix_Some s pre s' : cut_prefix s pre = Some s' <-> s = pre +:+ s'.
Proof.
  revert s. induction pre as [|p pre IH]; intros s; cbn.
  - split; [by intros [= ->] | by intros ->].
  - destruct s as [|c s]; [by split|].
    destruct (Ascii.eqb_spec c p) as [->|Hne].
    + rewrite IH. split; [by intros -> | by intros [= ->]].
    + split; [done|]. intros [= -> _]. done.
Qed.

Lemma has_prefix_app pre s : has_prefix (pre +:+ s) pre = true.
Proof. apply bool_decide_eq_true. exists s. by apply cut_prefix_Some. Qed.

Lemma has_prefix_true s pre : has_prefix s pre = true <-> exists s', s = pre +:+ s'.
Proof.
  unfold has_prefix. rewrite bool_decide_eq_true. unfold is_Some.
  setoid_rewrite cut_prefix_Some. done.
Qed.

Lemma substring_append (a b : string) n :
  String.substring (String.length a) n (a +:+ b) = String.substring 0 n b.
Proof. induction a as [|c a IH]; [done|]. rewrite append_cons. cbn. exact IH. Qed.

Lemma substring_all (s : string) : String.substring 0 (String.length s) s = s.
Proof. induction s as [|c s IH]; [done|]. cbn. by rewrite IH. Qed.

Lemma has_suffix_app s suf : has_suffix (s +:+ suf) suf = true.
Proof.
  unfold has_suffix. rewrite length_append.
  replace (String.length s + String.length suf - String.length suf)%nat with (String.length s) by lia.
  rewrite substring_append, substring_all, String.eqb_refl, andb_true_r.
  apply Nat.leb_le. lia.
Qed.

Lemma substring_split (s : string) n :
  (n <= String.length s)%nat ->
  s = String.substring 0 n s +:+ String.substring n (String.length s - n) s.
Proof.
  revert n. induction s as [|c s IH]; intros [|n] Hn; cbn in *; try done; try lia.
  - f_equal. by rewrite substring_all.
  - rewrite append_cons. f_equal. apply IH. lia.
Qed.

Lemma has_suffix_true s suf : has_suffix s suf = true <-> exists m, s = m +:+ suf.
Proof.
  split.
  - unfold has_suffix. intros [Hl%Nat.leb_le Hs%String.eqb_eq]%andb_true_iff.
    exists (String.substring 0 (String.length s - String.length suf) s).
    rewrite (substring_split s (String.length s - String.length suf)) at 1 by lia.
    f_equal. replace (String.length s - (String.length s - String.length suf))%nat
      with (String.length suf) by lia. exact Hs.
  - intros [m ->]. apply has_suffix_app.
Qed.

Lemma string_leb_total s1 s2 : string_le s1 s2 \/ string_le s2 s1.
Proof. apply String.leb_total. Qed.

Lemma sort_strings_perm l : sort_strings l ≡ₚ l.
Proof. apply merge_sort_Permutation. Qed.

Lemma sort_strings_sorted l : Sorted string_le (sort_strings l).
Proof. apply Sorted_merge_sort. intros s1 s2. apply string_leb_total. Qed.

Lemma atoi_range s n : atoi s = Some n -> (- 2 ^ 63 <= n < 2 ^ 63)%Z.
Proof.
  unfold atoi. destruct (sign_split s) as [neg ds].
  destruct ds; [done|]. destruct (digits 0 _) as [m|]; [|done].
  case_match; [|done]. intros [= <-].
  match goal with H : (_ && _)%bool = true |- _ => apply andb_true_iff in H as [?%Z.leb_le ?%Z.ltb_lt] end. done.
Qed.

#[export] Hint Resolve append_nil_r has_prefix_app has_suffix_app sort_strings_sorted : automail.
