(* ===== verification/Base64.v ===== *)
(** * Base64

    [encoding/base64]: [StdEncoding] carries the RSA-wrapped document key in
    requests, stream entries and dispatch frames; [RawURLEncoding] renders
    opaque tokens and their digests.  Bytes are [Byte.byte]; [byte_Z] and
    [Z_byte] convert to their values. *)

From S2P Require Import Prelude GoStrings.
From Stdlib Require Import Ascii.
From Stdlib.Strings Require Byte.

Abbreviation bytes := (list Byte.byte).

Definition byte_Z (b : Byte.byte) : Z := Z.of_N (Byte.to_N b).

Definition Z_byte (z : Z) : Byte.byte :=
  match Byte.of_N (Z.to_N (z mod 256)) with
  | Some b => b
  | None => Byte.x00
  end.

(** [[]byte(s)] and [string(b)] *)
Definition string_bytes (s : string) : bytes := String.list_byte_of_string s.
Definition bytes_string (b : bytes) : string := String.string_of_list_byte b.

(** An encoding is its 62nd and 63rd letters; the others are A-Z a-z 0-9. *)
Record alphabet := Alphabet { letter62 : ascii; letter63 : ascii }.
Definition std_alphabet : alphabet := Alphabet "+" "/".
Definition url_alphabet : alphabet := Alphabet "-" "_".

Definition enc_letter (al : alphabet) (n : Z) : ascii :=
  if (n <? 26)%Z then ascii_of_N (Z.to_N (65 + n))
  else if (n <? 52)%Z then ascii_of_N (Z.to_N (97 + (n - 26)))
  else if (n <? 62)%Z then ascii_of_N (Z.to_N (48 + (n - 52)))
  else if (n =? 62)%Z then letter62 al
  else letter63 al.

Definition dec_letter (al : alphabet) (c : ascii) : option Z :=
  let n := Z.of_N (N_of_ascii c) in
  if ((65 <=? n) && (n <=? 90))%Z then Some (n - 65)%Z
  else if ((97 <=? n) && (n <=? 122))%Z then Some (n - 97 + 26)%Z
  else if ((48 <=? n) && (n <=? 57))%Z then Some (n - 48 + 52)%Z
  else if Ascii.eqb c (letter62 al) then Some 62%Z
  else if Ascii.eqb c (letter63 al) then Some 63%Z
  else None.

Section encoding.
Context (al : alphabet) (padding : bool).

Definition pad (n : nat) : string :=
  if padding then String.string_of_list_ascii (repeat "="%char n) else EmptyString.

(** [EncodeToString]: three bytes become four letters. *)
Fixpoint encode (bs : bytes) : string :=
  match bs with
  | [] => EmptyString
  | [a] =>
      let a := byte_Z a in
      String (enc_letter al (a / 4)) (String (enc_letter al (a mod 4 * 16)) (pad 2))
  | [a; b] =>
      let a := byte_Z a in
      let b := byte_Z b in
      String (enc_letter al (a / 4))
        (String (enc_letter al (a mod 4 * 16 + b / 16))
          (String (enc_letter al (b mod 16 * 4)) (pad 1)))
  | a :: b :: c :: bs' =>
      let a := byte_Z a in
      let b := byte_Z b in
      let c := byte_Z c in
      String (enc_letter al (a / 4))
        (String (enc_letter al (a mod 4 * 16 + b / 16))
          (String (enc_letter al (b mod 16 * 4 + c / 64))
            (String (enc_letter al (c mod 64)) (encode bs'))))
  end.

End encoding.

(** Line breaks are skipped wherever they stand. *)
Fixpoint strip_newlines (s : string) : string :=
  match s with
  | EmptyString => EmptyString
  | String c s' =>
      if Ascii.eqb c "010" || Ascii.eqb c "013" then strip_newlines s'
      else String c (strip_newlines s')
  end.

(** [StdEncoding.DecodeString]: padded, and not strict about the unused low
    bits of the last letter. *)
Fixpoint decode_quads (s : string) : option bytes :=
  match s with
  | EmptyString => Some []
  | String c1 (String c2 (String c3 (String c4 s'))) =>
      match dec_letter std_alphabet c1, dec_letter std_alphabet c2 with
      | Some v1, Some v2 =>
          let b1 := Z_byte (v1 * 4 + v2 / 16) in
          match dec_letter std_alphabet c3, dec_letter std_alphabet c4 with
          | Some v3, Some v4 =>
              (fun bs => b1 :: Z_byte (v2 mod 16 * 16 + v3 / 4) :: Z_byte (v3 mod 4 * 64 + v4) :: bs)
              <$> decode_quads s'
          | Some v3, None =>
              if Ascii.eqb c4 "=" && String.eqb s' EmptyString
              then Some [b1; Z_byte (v2 mod 16 * 16 + v3 / 4)] else None
          | None, _ =>
              if Ascii.eqb c3 "=" && Ascii.eqb c4 "=" && String.eqb s' EmptyString
              then Some [b1] else None
          end
      | _, _ => None
      end
  | _ => None
  end.

Definition std_encode : bytes -> string := encode std_alphabet true.
Definition std_decode (s : string) : option bytes := decode_quads (strip_newlines s).
Definition raw_url_encode : bytes -> string := encode url_alphabet false.

(** ** Lemmas *)

Lemma byte_Z_range b : (0 <= byte_Z b < 256)%Z.
Proof. unfold byte_Z. pose proof (Byte.to_N_bounded b). lia. Qed.

Lemma Z_byte_Z b z : z = byte_Z b -> Z_byte z = b.
Proof.
  intros ->. unfold Z_byte. rewrite Z.mod_small by apply byte_Z_range.
  unfold byte_Z. by rewrite N2Z.id, Byte.of_to_N.
Qed.

Lemma byte_Z_byte z : (0 <= z < 256)%Z -> byte_Z (Z_byte z) = z.
Proof.
  intros Hz. unfold Z_byte. rewrite Z.mod_small by done.
  destruct (Byte.of_N (Z.to_N z)) as [b|] eqn:Hb.
  - apply Byte.to_of_N in Hb. unfold byte_Z. rewrite Hb. lia.
  - apply Byte.of_N_None_iff in Hb. lia.
Qed.

Lemma byte_Z_inj b1 b2 : byte_Z b1 = byte_Z b2 -> b1 = b2.
Proof. intros H. rewrite <- (Z_byte_Z b1 _ eq_refl), H. by apply Z_byte_Z. Qed.

(** The 64 values, one by one. *)
Lemma sextet_cases (P : Z -> Prop) :
  Forall P (seqZ 0 64) -> forall n, (0 <= n < 64)%Z -> P n.
Proof. intros HP n Hn. eapply Forall_forall; [exact HP|]. apply elem_of_seqZ. lia. Qed.

Lemma dec_enc_letter n : (0 <= n < 64)%Z -> dec_letter std_alphabet (enc_letter std_alphabet n) = Some n.
Proof.
  revert n. apply sextet_cases. cbn [seqZ]. repeat constructor.
Qed.

Lemma enc_letter_not_newline n : (0 <= n < 64)%Z ->
  Ascii.eqb (enc_letter std_alphabet n) "010" || Ascii.eqb (enc_letter std_alphabet n) "013" = false.
Proof. revert n. apply sextet_cases. repeat constructor. Qed.

(** Induction three bytes at a time. *)
Lemma bytes_ind3 (P : bytes -> Prop) :
  P [] -> (forall a, P [a]) -> (forall a b, P [a; b]) ->
  (forall a b c bs, P bs -> P (a :: b :: c :: bs)) -> forall bs, P bs.
Proof.
  intros H0 H1 H2 H3 bs.
  assert (P bs /\ (forall a, P (a :: bs)) /\ (forall a b, P (a :: b :: bs))) as [H _]; [|exact H].
  induction bs as [|c bs (IH1 & IH2 & IH3)]; auto.
Qed.

(** The bytes a group of sextets stands for. *)
Lemma join_sextets a b c :
  let '(x, y, z) := (byte_Z a, byte_Z b, byte_Z c) in
  Z_byte (x / 4 * 4 + (x mod 4 * 16 + y / 16) / 16) = a
  /\ Z_byte ((x mod 4 * 16 + y / 16) mod 16 * 16 + (y mod 16 * 4 + z / 64) / 4) = b
  /\ Z_byte ((y mod 16 * 4 + z / 64) mod 4 * 64 + z mod 64) = c.
Proof.
  pose proof (byte_Z_range a). pose proof (byte_Z_range b). pose proof (byte_Z_range c).
  repeat split; apply Z_byte_Z; Z.div_mod_to_equations; lia.
Qed.

Ltac sextet_range :=
  repeat match goal with
  | b : Byte.byte |- _ => pose proof (byte_Z_range b); generalize dependent (byte_Z b); clear b; intros
  end; Z.div_mod_to_equations; lia.

Lemma strip_newlines_encode bs : strip_newlines (std_encode bs) = std_encode bs.
Proof.
  unfold std_encode. induction bs as [|a|a b|a b c bs IH] using bytes_ind3; [done| | |];
    cbn [encode strip_newlines];
    rewrite !enc_letter_not_newline by sextet_range; cbn; [done|done|].
  by rewrite IH.
Qed.

Lemma decode_quads_encode bs : decode_quads (std_encode bs) = Some bs.
Proof.
  unfold std_encode. induction bs as [|a|a b|a b c bs IH] using bytes_ind3; [done| | |].
  - cbn [encode decode_quads pad]. rewrite !dec_enc_letter by sextet_range. cbn.
    destruct (join_sextets a Byte.x00 Byte.x00) as (Ha & _ & _). cbn in Ha.
    change (byte_Z Byte.x00) with 0%Z in Ha. rewrite Z.div_0_l, Z.add_0_r in Ha by done.
    by rewrite Ha.
  - cbn [encode decode_quads pad]. rewrite !dec_enc_letter by sextet_range. cbn.
    destruct (join_sextets a b Byte.x00) as (Ha & Hb & _). cbn in Ha, Hb.
    change (byte_Z Byte.x00) with 0%Z in Hb. rewrite Z.div_0_l, Z.add_0_r in Hb by done.
    by rewrite Ha, Hb.
  - cbn [encode decode_quads]. rewrite !dec_enc_letter by sextet_range.
    destruct (join_sextets a b c) as (-> & -> & ->). by rewrite IH.
Qed.

(** [StdEncoding.DecodeString] undoes [EncodeToString]. *)
Theorem std_decode_encode bs : std_decode (std_encode bs) = Some bs.
Proof. unfold std_decode. rewrite strip_newlines_encode. apply decode_quads_encode. Qed.
