(* ===== verification/Memory.v ===== *)
(** * Byte buffers

    The Go services overwrite secrets in place, so the code that handles them
    is modelled over a heap of byte arrays: a slice is an array, an offset and a
    length, two slices may share an array, and [zeroBytes] writes through the
    slice it is given. *)

From S2P Require Import Prelude Base64.
From Stdlib Require Import Init.Byte.

Abbreviation heap := (list bytes).

(** A slice header. *)
Record slice : Type := Slice {
  sl_buf : nat;
  sl_off : nat;
  sl_len : nat
}.

(** A slice within the bounds of its array. *)
Definition valid (h : heap) (s : slice) : Prop :=
  exists b, h !! sl_buf s = Some b /\ sl_off s + sl_len s <= length b.

(** The bytes a slice shows. *)
Definition load (h : heap) (s : slice) : bytes :=
  match h !! sl_buf s with
  | Some b => take (sl_len s) (drop (sl_off s) b)
  | None => []
  end.

(** A new array, and the slice of all of it. *)
Definition alloc (b : bytes) (h : heap) : heap * slice := (h ++ [b], Slice (length h) 0 (length b)).

(** [s[lo:hi]]: the same array. *)
Definition subslice (s : slice) (lo hi : nat) : slice := Slice (sl_buf s) (sl_off s + lo) (hi - lo).

(** [s[i] = v] *)
Definition store (s : slice) (i : nat) (v : byte) (h : heap) : heap :=
  alter (fun b : bytes => <[sl_off s + i := v]> b) (sl_buf s) h.

(** services/printer/crypto.go, zeroBytes. *)
Definition zeroBytes (s : slice) (h : heap) : heap :=
  foldl (fun h i => store s i x00 h) h (seq 0 (sl_len s)).

(** ** Lemmas *)

Definition blank (b : bytes) : Prop := Forall (fun x => x = x00) b.

Lemma load_alloc b h : load (alloc b h).1 (alloc b h).2 = b.
Proof.
  unfold load, alloc. cbn. rewrite lookup_app_r, Nat.sub_diag by lia. cbn.
  rewrite drop_0. apply firstn_all.
Qed.

Lemma load_app h h' s : sl_buf s < length h -> load (h ++ h') s = load h s.
Proof. intros Hs. unfold load. by rewrite lookup_app_l. Qed.

Lemma valid_lt h s : valid h s -> sl_buf s < length h.
Proof. intros (b & Hb & _). by eapply lookup_lt_Some. Qed.

Lemma valid_length h s : valid h s -> length (load h s) = sl_len s.
Proof.
  intros (b & Hb & Hle). unfold load. rewrite Hb, length_take, length_drop. lia.
Qed.

Lemma load_subslice h s lo hi :
  hi <= sl_len s -> load h (subslice s lo hi) = take (hi - lo) (drop lo (load h s)).
Proof.
  intros Hle. unfold load, subslice. cbn. destruct (h !! sl_buf s) as [b|]; [|by rewrite drop_nil, take_nil].
  rewrite skipn_firstn_comm, take_take, drop_drop. rewrite Nat.min_l by lia. done.
Qed.

Lemma foldl_store_alter s k (f : bytes -> nat -> bytes) h l :
  (forall (g : heap) i, k g i = alter (fun b => f b i) (sl_buf s) g) ->
  foldl k h l = alter (fun b => foldl f b l) (sl_buf s) h.
Proof.
  intros Hk. revert h. induction l as [|i l IH]; intros h; cbn.
  - apply list_eq. intros j. rewrite list_lookup_alter. case_decide; [subst j|done]. by destruct (h !! sl_buf s).
  - rewrite Hk, IH. apply list_eq. intros j. rewrite !list_lookup_alter.
    repeat case_decide; subst; try done. by destruct (h !! sl_buf s).
Qed.

Lemma foldl_zero (b : bytes) off n :
  off + n <= length b ->
  foldl (fun b i => <[off + i := x00]> b) b (seq 0 n) = take off b ++ replicate n x00 ++ drop (off + n) b.
Proof.
  induction n as [|n IH]; intros Hle.
  - cbn. by rewrite Nat.add_0_r, take_drop.
  - rewrite seq_S, foldl_app, IH by lia. cbn [foldl Nat.add].
    rewrite insert_app_r_alt by (rewrite length_take; lia). f_equal.
    rewrite length_take, Nat.min_l by lia. replace (off + n - off) with n by lia.
    rewrite insert_app_r_alt by (rewrite length_replicate; lia).
    rewrite length_replicate, Nat.sub_diag.
    replace (replicate (S n) x00) with (replicate n x00 ++ [x00]).
    2:{ change [x00] with (replicate 1 x00). rewrite <- replicate_add. f_equal. lia. }
    rewrite <- app_assoc. f_equal.
    destruct (drop (off + n) b) as [|y l] eqn:Hd.
    + apply (f_equal length) in Hd. rewrite length_drop in Hd. cbn in Hd. lia.
    + cbn. f_equal. replace (off + S n) with (1 + (off + n)) by lia.
      rewrite Nat.add_comm, <- drop_drop, Hd. done.
Qed.

(** [zeroBytes] overwrites exactly the bytes of its slice. *)
Lemma zeroBytes_spec s h :
  valid h s ->
  zeroBytes s h = alter (fun b => take (sl_off s) b ++ replicate (sl_len s) x00 ++ drop (sl_off s + sl_len s) b)
                    (sl_buf s) h.
Proof.
  intros (b & Hb & Hle). unfold zeroBytes.
  rewrite (foldl_store_alter s _ (fun (b : bytes) i => <[sl_off s + i := x00]> b)) by done.
  apply list_eq. intros i. rewrite !list_lookup_alter.
  case_decide as Hi; [|done]. subst i. rewrite Hb. cbn. f_equal. by apply foldl_zero.
Qed.

Lemma zeroBytes_length s h : length (zeroBytes s h) = length h.
Proof.
  unfold zeroBytes. generalize (seq 0 (sl_len s)). intros l. revert h.
  induction l as [|i l IH]; intros h; cbn; [done|]. rewrite IH. apply length_alter.
Qed.

(** The buffers between two heaps that only wiped what they added: everything
    after [h] in [h'] is zeroes, and [h] is untouched. *)
Definition wiped_since (h h' : heap) : Prop := exists new, h' = h ++ new /\ Forall blank new.

Lemma zeroBytes_prefix h b rest n :
  n <= length b ->
  zeroBytes (Slice (length h) 0 n) (h ++ b :: rest) = h ++ (replicate n x00 ++ drop n b) :: rest.
Proof.
  intros Hn. rewrite zeroBytes_spec.
  - cbn. apply list_eq. intros i. rewrite list_lookup_alter. case_decide as Hi.
    + subst i. rewrite !lookup_app_r, Nat.sub_diag by lia. done.
    + destruct (decide (i < length h)).
      * by rewrite !lookup_app_l by lia.
      * rewrite !lookup_app_r by lia. destruct (i - length h) eqn:He; [lia|done].
  - exists b. cbn. split; [|done]. rewrite lookup_app_r, Nat.sub_diag by lia. done.
Qed.

Lemma zeroBytes_whole h b new :
  zeroBytes (Slice (length h) 0 (length b)) (h ++ b :: new) = h ++ replicate (length b) x00 :: new.
Proof. rewrite zeroBytes_prefix by done. by rewrite drop_all, app_nil_r. Qed.

Lemma load_new h b rest n : load (h ++ b :: rest) (Slice (length h) 0 n) = take n b.
Proof. unfold load. cbn. rewrite lookup_app_r, Nat.sub_diag by lia. cbn. by rewrite drop_0. Qed.

Lemma blank_replicate n : blank (replicate n x00).
Proof. apply Forall_replicate. done. Qed.

(** Allocating a buffer and deferring its wipe around code that wipes all it
    adds wipes all that was added. *)
Lemma wiped_defer h b h' :
  wiped_since (h ++ [b]) h' -> wiped_since h (zeroBytes (Slice (length h) 0 (length b)) h').
Proof.
  intros (new & -> & Hnew). rewrite <- app_assoc. cbn [app]. rewrite zeroBytes_whole.
  eexists. split; [done|]. constructor; [apply blank_replicate|done].
Qed.

Lemma wiped_refl h : wiped_since h h.
Proof. exists []. by rewrite app_nil_r. Qed.

#[export] Hint Resolve wiped_refl wiped_defer blank_replicate : automail.

Lemma zeroBytes_other s h i : i <> sl_buf s -> zeroBytes s h !! i = h !! i.
Proof.
  intros Hi. unfold zeroBytes. generalize (seq 0 (sl_len s)). intros l. revert h.
  induction l as [|k l IH]; intros h; cbn; [done|]. rewrite IH. unfold store.
  rewrite list_lookup_alter. by rewrite decide_False.
Qed.
