(* ===== verification/Sha2.v ===== *)
(** * SHA-256 and HMAC

    Go's crypto/sha256 and crypto/hmac as the services use them: an executable
    SHA-256 (FIPS 180-4) on bytes, and HMAC (RFC 2104) over any hash.  The
    development's reference environments use them where a theorem is evaluated
    on a concrete input. *)

From S2P Require Import Prelude Base64.
From Stdlib Require Import Init.Byte.

(** ** 32-bit words *)

Definition mask32 : Z := 2 ^ 32 - 1.
Definition add32 (x y : Z) : Z := Z.land (x + y) mask32.
Definition rotr (x n : Z) : Z := Z.lor (Z.shiftr x n) (Z.land (Z.shiftl x (32 - n)) mask32).
Definition bsig0 (x : Z) : Z := Z.lxor (rotr x 2) (Z.lxor (rotr x 13) (rotr x 22)).
Definition bsig1 (x : Z) : Z := Z.lxor (rotr x 6) (Z.lxor (rotr x 11) (rotr x 25)).
Definition ssig0 (x : Z) : Z := Z.lxor (rotr x 7) (Z.lxor (rotr x 18) (Z.shiftr x 3)).
Definition ssig1 (x : Z) : Z := Z.lxor (rotr x 17) (Z.lxor (rotr x 19) (Z.shiftr x 10)).
Definition choose (x y z : Z) : Z := Z.lxor (Z.land x y) (Z.land (Z.lxor x mask32) z).
Definition majority (x y z : Z) : Z := Z.lxor (Z.land x y) (Z.lxor (Z.land x z) (Z.land y z)).

(** The fractional parts of the cube roots of the first 64 primes, and of the
    square roots of the first 8. *)
Definition round_constants : list Z :=
  ([1116352408; 1899447441; 3049323471; 3921009573; 961987163; 1508970993;
   2453635748; 2870763221; 3624381080; 310598401; 607225278; 1426881987;
   1925078388; 2162078206; 2614888103; 3248222580; 3835390401; 4022224774;
   264347078; 604807628; 770255983; 1249150122; 1555081692; 1996064986;
   2554220882; 2821834349; 2952996808; 3210313671; 3336571891; 3584528711;
   113926993; 338241895; 666307205; 773529912; 1294757372; 1396182291;
   1695183700; 1986661051; 2177026350; 2456956037; 2730485921; 2820302411;
   3259730800; 3345764771; 3516065817; 3600352804; 4094571909; 275423344;
   430227734; 506948616; 659060556; 883997877; 958139571; 1322822218;
   1537002063; 1747873779; 1955562222; 2024104815; 2227730452; 2361852424;
   2428436474; 2756734187; 3204031479; 3329325298])%Z.
Definition initial_hash : list Z :=
  ([1779033703; 3144134277; 1013904242; 2773480762; 1359893119; 2600822924;
   528734635; 1541459225])%Z.

(** One round on the eight working variables; [w] is the window of the next
    sixteen message-schedule words. *)
Definition sha_round (st : list Z * list Z) (k : Z) : list Z * list Z :=
  match st with
  | ([a; b; c; d; e; f; g; h], w) =>
      let w0 := nth 0 w 0%Z in
      let t1 := add32 (add32 (add32 (add32 h (bsig1 e)) (choose e f g)) k) w0 in
      let t2 := add32 (bsig0 a) (majority a b c) in
      let next := add32 (add32 (add32 (ssig1 (nth 14 w 0%Z)) (nth 9 w 0%Z)) (ssig0 (nth 1 w 0%Z))) w0 in
      ([add32 t1 t2; a; b; c; add32 d t1; e; f; g], tail w ++ [next])
  | _ => st
  end.

(** Big-endian words. *)
Fixpoint to_words (b : bytes) : list Z :=
  match b with
  | b0 :: b1 :: b2 :: b3 :: b' =>
      Z.lor (Z.shiftl (byte_Z b0) 24) (Z.lor (Z.shiftl (byte_Z b1) 16)
        (Z.lor (Z.shiftl (byte_Z b2) 8) (byte_Z b3))) :: to_words b'
  | _ => []
  end.

Definition word_bytes (w : Z) : bytes :=
  [Z_byte (Z.shiftr w 24 mod 256); Z_byte (Z.shiftr w 16 mod 256); Z_byte (Z.shiftr w 8 mod 256); Z_byte (w mod 256)].

Definition sha_block (h : list Z) (block : bytes) : list Z :=
  zip_with add32 h (foldl sha_round (h, to_words block) round_constants).1.

(** The message, a one bit, zeroes, and the bit length in 64 bits. *)
Definition sha_pad (m : bytes) : bytes :=
  let len := Z.of_nat (length m) in
  let zeros := Z.to_nat ((55 - len) mod 64) in
  m ++ x80 :: replicate zeros x00 ++ word_bytes (Z.shiftr (8 * len) 32) ++ word_bytes (8 * len).

Fixpoint sha_blocks (n : nat) (h : list Z) (m : bytes) : list Z :=
  match n with
  | O => h
  | S n' => sha_blocks n' (sha_block h (take 64 m)) (drop 64 m)
  end.

Definition sha256_sum (m : bytes) : bytes :=
  let p := sha_pad m in concat (map word_bytes (sha_blocks (length p / 64) initial_hash p)).

(** ** HMAC *)

Definition bxor (a b : byte) : byte := Z_byte (Z.lxor (byte_Z a) (byte_Z b)).

Definition hmac_of (sum : bytes -> bytes) (block_size : nat) (key msg : bytes) : bytes :=
  let key := if Nat.ltb block_size (length key) then sum key else key in
  let padded := key ++ replicate (block_size - length key) x00 in
  sum (map (bxor x5c) padded ++ sum (map (bxor x36) padded ++ msg)).

(** ** Test vectors *)

Definition hex_digit (n : Z) : Ascii.ascii :=
  Ascii.ascii_of_N (Z.to_N (if (n <? 10)%Z then 48 + n else 87 + n)).
Definition hex (b : bytes) : string :=
  fold_right (fun x s => String (hex_digit (byte_Z x / 16)) (String (hex_digit (byte_Z x mod 16)) s))
    EmptyString b.

Example sha256_abc :
  hex (sha256_sum (string_bytes "abc")) = "ba7816bf8f01cfea414140de5dae2223b00361a396177a9cb410ff61f20015ad".
Proof. vm_compute. reflexivity. Qed.

(** RFC 4231, test case 2. *)
Example hmac_sha256_jefe :
  hex (hmac_of sha256_sum 64 (string_bytes "Jefe") (string_bytes "what do ya want for nothing?"))
  = "5bdcc146bf60754e6a042426089575c75a003f089d2739839dec58b964ec3843".
Proof. vm_compute. reflexivity. Qed.

(** ** Lengths *)

Lemma sha256_length m : length (sha256_sum m) = 32.
Proof.
  unfold sha256_sum. set (p := sha_pad m).
  assert (forall n h (m : bytes), length h = 8 -> length (sha_blocks n h m) = 8) as Hlen.
  { induction n as [|n IH]; intros h q Hh; cbn; [done|]. apply IH. unfold sha_block.
    rewrite length_zip_with, Hh.
    assert (forall ks st, length st.1 = 8 -> length (foldl sha_round st ks).1 = 8) as Hr.
    { induction ks as [|k ks IHk]; intros st Hst; cbn; [done|]. apply IHk.
      destruct st as [l w]. cbn in Hst. do 9 (destruct l as [|? l]; [done|]). done. }
    by rewrite Hr. }
  specialize (Hlen (length p / 64) initial_hash p eq_refl). revert Hlen. generalize (sha_blocks (length p / 64) initial_hash p).
  intros l Hl. do 9 (destruct l as [|? l]; [done|]). done.
Qed.
