(* ===== verification/Crypto.v ===== *)
(** * The printer's cryptography

    services/printer/crypto.go: the unwrapping of the per-job key, the document
    decryption, and the loading of an encrypted PKCS#8 key: PBES2, PBKDF2 and
    PKCS#7 padding, over the buffers of [Memory]. *)

From S2P Require Import Prelude GoStrings Base64 Memory Sha2.
From stdpp Require Import pretty.
From Stdlib Require Import Init.Byte.

(** ** Library parameters *)

Inductive hash : Type := SHA1 | SHA256 | SHA512.

#[export] Instance hash_eq_dec : EqDecision hash.
Proof. solve_decision. Defined.

(** [hash.Hash]'s Size and BlockSize. *)
Definition hash_size (f : hash) : nat :=
  match f with SHA1 => 20 | SHA256 => 32 | SHA512 => 64 end.
Definition hash_block (f : hash) : nat :=
  match f with SHA512 => 128 | _ => 64 end.

Abbreviation oid := (list Z).

(** asn1 structures: [ai_FullBytes] is Parameters.FullBytes. *)
Record algorithmIdentifier : Type := {
  ai_Algorithm : oid;
  ai_FullBytes : bytes
}.

Record encryptedPrivateKeyInfo : Type := {
  epki_Algo : algorithmIdentifier;
  epki_EncryptedData : bytes
}.

Record pbes2Params : Type := {
  pb_KDF : algorithmIdentifier;
  pb_Enc : algorithmIdentifier
}.

Record pbkdf2Params : Type := {
  kd_Salt : bytes;
  kd_Iterations : Z;
  kd_KeyLength : Z;
  kd_PRF : algorithmIdentifier
}.

(** The hash functions, AES in CBC and GCM mode, RSA-OAEP with SHA-256 and an
    empty label, PEM, DER and PKCS#8 parsing.  [parse_pkcs8] answers [Ok None]
    for a key that is not an RSA key. *)
Class CryptoLib : Type := {
  hash_sum : hash -> bytes -> bytes;
  cbc_decrypt : bytes -> bytes -> bytes -> bytes;
  gcm_open : bytes -> bytes -> bytes -> result bytes;
  rsa_key : Type;
  rsa_decrypt_oaep : rsa_key -> bytes -> result bytes;
  pem_decode : bytes -> option (string * bytes);
  parse_pkcs8 : bytes -> result (option rsa_key);
  unmarshal_epki : bytes -> result encryptedPrivateKeyInfo;
  unmarshal_pbes2 : bytes -> result pbes2Params;
  unmarshal_pbkdf2 : bytes -> result pbkdf2Params;
  unmarshal_octets : bytes -> result bytes
}.

(** A computation on the heap. *)
Definition mem (A : Type) : Type := heap -> heap * A.
#[export] Instance mem_ret : MRet mem := fun A a h => (h, a).
#[export] Instance mem_bind : MBind mem := fun A B f m h => let '(h', a) := m h in f a h'.
Definition read (s : slice) : mem bytes := fun h => (h, load h s).
Definition new (b : bytes) : mem slice := alloc b.
Definition wipe (s : slice) : mem unit := fun h => (zeroBytes s h, tt).

(** [defer d()] around the rest of a function. *)
Definition deferring {A} (d : mem unit) (body : mem A) : mem A := r ← body; d;; mret r.

Section crypto.
Context {C : CryptoLib}.

Definition hmac (f : hash) : bytes -> bytes -> bytes := hmac_of (hash_sum f) (hash_block f).

(** [aes.NewCipher]: only the key length can fail. *)
Definition aes_NewCipher (key : bytes) : result unit :=
  match length key with
  | 16 | 24 | 32 => Ok tt
  | n => Err (ErrText ("crypto/aes: invalid key size " +:+ pretty n))
  end.

Definition aes_BlockSize : nat := 16.

(** [cipher.NewGCM]'s NonceSize. *)
Definition gcm_nonce_size : nat := 12.

(** ** Per-job decryption *)

Record printerKey : Type := { pk_rsa : rsa_key }.

Definition DecryptAESKey (k : printerKey) (encryptedKey : bytes) : result bytes :=
  rsa_decrypt_oaep (pk_rsa k) encryptedKey.

Definition DecryptDocument (ciphertext aesKey : bytes) : result bytes :=
  if negb (Nat.eqb (length aesKey) 32) then
    Err (ErrText ("aes key is " +:+ pretty (length aesKey) +:+ " bytes, want 32 (AES-256)"))
  else
    match aes_NewCipher aesKey with
    | Err e => Err e
    | Ok _ =>
        let ivLen := gcm_nonce_size in
        if Nat.ltb (length ciphertext) ivLen then
          Err (ErrText ("ciphertext is " +:+ pretty (length ciphertext) +:+ " bytes, shorter than the "
                        +:+ pretty ivLen +:+ "-byte IV"))
        else
          let iv := take ivLen ciphertext in
          let ct := drop ivLen ciphertext in
          gcm_open aesKey iv ct
    end.

(** ** PBKDF2 *)

(** byte(i>>24), byte(i>>16), byte(i>>8), byte(i) *)
Definition blockIdx (i : Z) : bytes :=
  [Z_byte (Z.shiftr i 24 mod 256); Z_byte (Z.shiftr i 16 mod 256);
   Z_byte (Z.shiftr i 8 mod 256); Z_byte (i mod 256)].

(** The loop over n: u and t after [k] more rounds. *)
Fixpoint pbkdf2_rounds (prf : bytes -> bytes) (k : nat) (u t : bytes) : bytes * bytes :=
  match k with
  | O => (u, t)
  | S k' =>
      let u := prf u in
      pbkdf2_rounds prf k' u (zip_with bxor t u)
  end.

(** The loop over i: [n] more blocks from block [i] on. *)
Fixpoint pbkdf2_blocks (prf : bytes -> bytes) (salt : bytes) (iter : Z) (n : nat) (i : Z)
    (dk u t : bytes) : bytes * bytes * bytes :=
  match n with
  | O => (dk, u, t)
  | S n' =>
      let u := prf (salt ++ blockIdx i) in
      let t := u in
      let '(u, t) := pbkdf2_rounds prf (Z.to_nat (iter - 1)) u t in
      pbkdf2_blocks prf salt iter n' (i + 1)%Z (dk ++ t) u t
  end.

(** The derived bytes and what the two work buffers hold at the end. *)
Definition pbkdf2Bytes (f : hash) (password salt : bytes) (iter keyLen : Z) : bytes * bytes * bytes :=
  let hashLen := Z.of_nat (hash_size f) in
  let numBlocks := Z.quot (int64 (int64 (keyLen + hashLen) - 1)) hashLen in
  pbkdf2_blocks (hmac f password) salt iter (Z.to_nat numBlocks) 1 []
    (replicate (hash_size f) x00) (replicate (hash_size f) x00).

(** [pbkdf2Key]: dk, u and t are arrays of their own; the slice returned is the
    first keyLen bytes of dk. *)
Definition pbkdf2Key (f : hash) (password : slice) (salt : bytes) (iter keyLen : Z) : mem slice :=
  p ← read password;
  let '(dk, u, t) := pbkdf2Bytes f p salt iter keyLen in
  sdk ← new dk;
  new u;;
  new t;;
  mret (subslice sdk 0 (Z.to_nat keyLen)).

(** ** PKCS#7 *)

Definition pkcs7Unpad (s : slice) (blockSize : nat) : mem (result slice) :=
  b ← read s;
  let n := length b in
  mret
    (if Nat.eqb n 0 || negb (Nat.eqb (n mod blockSize) 0) then
       Err (ErrText "pkcs7: data is not a whole number of blocks")
     else
       let pad := Z.to_nat (byte_Z (nth (n - 1) b x00)) in
       if Nat.eqb pad 0 || Nat.ltb blockSize pad || Nat.ltb n pad then
         Err (ErrText "pkcs7: invalid padding length")
       else if forallb (fun c => Nat.eqb (Z.to_nat (byte_Z c)) pad) (drop (n - pad) b) then
         Ok (subslice s 0 (n - pad))
       else Err (ErrText "pkcs7: inconsistent padding bytes")).

(** ** PBES2 *)

Definition oidPBES2 : oid := [1; 2; 840; 113549; 1; 5; 13]%Z.
Definition oidPBKDF2 : oid := [1; 2; 840; 113549; 1; 5; 12]%Z.
Definition oidHMACWithSHA1 : oid := [1; 2; 840; 113549; 2; 7]%Z.
Definition oidHMACWithSHA256 : oid := [1; 2; 840; 113549; 2; 9]%Z.
Definition oidHMACWithSHA512 : oid := [1; 2; 840; 113549; 2; 11]%Z.
Definition oidAES128CBC : oid := [2; 16; 840; 1; 101; 3; 4; 1; 2]%Z.
Definition oidAES192CBC : oid := [2; 16; 840; 1; 101; 3; 4; 1; 22]%Z.
Definition oidAES256CBC : oid := [2; 16; 840; 1; 101; 3; 4; 1; 42]%Z.

(** [ObjectIdentifier.String] *)
Fixpoint oid_String (o : oid) : string :=
  match o with
  | [] => EmptyString
  | [x] => pretty x
  | x :: o' => pretty x +:+ "." +:+ oid_String o'
  end.

Definition prfHashes : gmap string hash :=
  {[ oid_String oidHMACWithSHA1 := SHA1; oid_String oidHMACWithSHA256 := SHA256;
     oid_String oidHMACWithSHA512 := SHA512 ]}.

Definition aesCBCKeyLen : gmap string Z :=
  {[ oid_String oidAES128CBC := 16%Z; oid_String oidAES192CBC := 24%Z; oid_String oidAES256CBC := 32%Z ]}.

Definition prfOf (kdf : pbkdf2Params) : result hash :=
  match ai_Algorithm (kd_PRF kdf) with
  | [] => Ok SHA1
  | _ =>
      match prfHashes !! oid_String (ai_Algorithm (kd_PRF kdf)) with
      | Some f => Ok f
      | None => Err (ErrText ("unsupported PBKDF2 PRF " +:+ oid_String (ai_Algorithm (kd_PRF kdf))))
      end
  end.

Definition keyLenOf (enc : algorithmIdentifier) (kdf : pbkdf2Params) : result Z :=
  match aesCBCKeyLen !! oid_String (ai_Algorithm enc) with
  | None => Err (ErrText ("unsupported encryption scheme " +:+ oid_String (ai_Algorithm enc)
                          +:+ ": only AES-CBC is supported"))
  | Some keyLen => Ok (if (0 <? kd_KeyLength kdf)%Z then kd_KeyLength kdf else keyLen)
  end.

(** What the key derivation and the decryption need, read out of the DER. *)
Record pbes2Plan : Type := {
  pl_prf : hash;
  pl_salt : bytes;
  pl_iter : Z;
  pl_keyLen : Z;
  pl_iv : bytes;
  pl_ct : bytes
}.

(** The checks of decryptPBES2 before any secret is derived, in order. *)
Definition parsePBES2 (der : bytes) : result pbes2Plan :=
  match unmarshal_epki der with
  | Err e => Err (ErrWrap "parse EncryptedPrivateKeyInfo" e)
  | Ok epki =>
      if negb (bool_decide (ai_Algorithm (epki_Algo epki) = oidPBES2)) then
        Err (ErrText ("unsupported key encryption " +:+ oid_String (ai_Algorithm (epki_Algo epki))
                      +:+ ": only PBES2 is supported"))
      else
        match unmarshal_pbes2 (ai_FullBytes (epki_Algo epki)) with
        | Err e => Err (ErrWrap "parse PBES2 parameters" e)
        | Ok params =>
            if negb (bool_decide (ai_Algorithm (pb_KDF params) = oidPBKDF2)) then
              Err (ErrText ("unsupported KDF " +:+ oid_String (ai_Algorithm (pb_KDF params))
                            +:+ ": only PBKDF2 is supported"))
            else
              match unmarshal_pbkdf2 (ai_FullBytes (pb_KDF params)) with
              | Err e => Err (ErrWrap "parse PBKDF2 parameters" e)
              | Ok kdf =>
                  match prfOf kdf with
                  | Err e => Err e
                  | Ok prf =>
                      match keyLenOf (pb_Enc params) kdf with
                      | Err e => Err e
                      | Ok keyLen =>
                          match unmarshal_octets (ai_FullBytes (pb_Enc params)) with
                          | Err e => Err (ErrWrap "parse AES-CBC IV" e)
                          | Ok iv =>
                              if negb (Nat.eqb (length iv) aes_BlockSize) then
                                Err (ErrText ("AES-CBC IV is " +:+ pretty (length iv) +:+ " bytes, want "
                                              +:+ pretty aes_BlockSize))
                              else Ok {| pl_prf := prf; pl_salt := kd_Salt kdf; pl_iter := kd_Iterations kdf;
                                         pl_keyLen := keyLen; pl_iv := iv; pl_ct := epki_EncryptedData epki |}
                          end
                      end
                  end
              end
        end
  end.

(** [plain] and what [pkcs7Unpad] leaves of it share one array. *)
Definition decryptPBES2 (der : bytes) (passphrase : slice) : mem (result slice) :=
  match parsePBES2 der with
  | Err e => mret (Err e)
  | Ok pl =>
      dk ← pbkdf2Key (pl_prf pl) passphrase (pl_salt pl) (pl_iter pl) (pl_keyLen pl);
      deferring (wipe dk)
        (key ← read dk;
         match aes_NewCipher key with
         | Err e => mret (Err e)
         | Ok _ =>
             let ct := pl_ct pl in
             if Nat.eqb (length ct) 0 || negb (Nat.eqb (length ct mod aes_BlockSize) 0) then
               mret (Err (ErrText ("AES-CBC ciphertext length " +:+ pretty (length ct)
                                   +:+ " is not a block multiple")))
             else
               plain ← new (cbc_decrypt key (pl_iv pl) ct);
               u ← pkcs7Unpad plain aes_BlockSize;
               match u with
               | Err e => wipe plain;; mret (Err e)
               | Ok unpadded => mret (Ok unpadded)
               end
         end)
  end.

(** ** Loading the key *)

Definition parsedKey (der : bytes) : result printerKey :=
  match parse_pkcs8 der with
  | Err e => Err (ErrWrap "parse PKCS#8 private key" e)
  | Ok None => Err (ErrText "private key is not *rsa.PrivateKey")
  | Ok (Some k) => Ok {| pk_rsa := k |}
  end.

Definition loadPrinterPrivateKey (pemBytes : bytes) (passphrase : slice) : mem (result printerKey) :=
  match pem_decode pemBytes with
  | None => mret (Err (ErrText "no PEM block found in private key file"))
  | Some (type, body) =>
      if String.eqb type "ENCRYPTED PRIVATE KEY" then
        d ← decryptPBES2 body passphrase;
        match d with
        | Err e => mret (Err (ErrWrap "decrypt private key" e))
        | Ok der => deferring (wipe der) (b ← read der; mret (parsedKey b))
        end
      else if String.eqb type "PRIVATE KEY" then mret (parsedKey body)
      else mret (Err (ErrText ("unexpected PEM type " +:+ type +:+ " (want ENCRYPTED PRIVATE KEY)")))
  end.

End crypto.

(** ** PBKDF2 is RFC 8018's *)

(** RFC 8018, section 5.2: [INT i] is the four-octet big-endian encoding of i,
    [F] the exclusive-or of the first c iterates, and the derived key the first
    dkLen octets of the first ceil(dkLen/hLen) blocks. *)
Definition INT (i : Z) : bytes := map (fun k => Z_byte (i / 256 ^ k mod 256)) [3; 2; 1; 0]%Z.

Definition F (prf : bytes -> bytes) (salt : bytes) (c : nat) (i : Z) : bytes :=
  let U j := Nat.iter j prf (prf (salt ++ INT i)) in
  foldl (zip_with bxor) (U 0) (map U (seq 1 (c - 1))).

Definition PBKDF2 (prf : bytes -> bytes) (hLen : nat) (salt : bytes) (c dkLen : nat) : bytes :=
  take dkLen (concat (map (fun i => F prf salt c (Z.of_nat i)) (seq 1 ((dkLen + hLen - 1) / hLen)))).

Lemma blockIdx_INT i : blockIdx i = INT i.
Proof.
  unfold blockIdx, INT. cbn [map]. rewrite !Z.shiftr_div_pow2 by lia.
  change (256 ^ 3)%Z with (2 ^ 24)%Z. change (256 ^ 2)%Z with (2 ^ 16)%Z. change (256 ^ 1)%Z with (2 ^ 8)%Z.
  change (256 ^ 0)%Z with 1%Z. by rewrite Z.div_1_r.
Qed.

Lemma pbkdf2_rounds_spec prf k u t :
  pbkdf2_rounds prf k u t
  = (Nat.iter k prf u, foldl (zip_with bxor) t (map (fun j => Nat.iter j prf u) (seq 1 k))).
Proof.
  revert u t. induction k as [|k IH]; intros u t; [done|].
  cbn [pbkdf2_rounds]. rewrite IH. f_equal.
  - by rewrite <- Nat.iter_succ_r.
  - cbn [seq map foldl]. rewrite <- (seq_shift k 1), map_map. cbn [Nat.iter nat_rect]. f_equal.
    apply map_ext. intros j. symmetry. apply Nat.iter_succ_r.
Qed.

Lemma pbkdf2_blocks_dk prf salt iter n i dk u t :
  (pbkdf2_blocks prf salt iter n i dk u t).1.1
  = dk ++ concat (map (fun j => F prf salt (Z.to_nat iter) (i + Z.of_nat j)) (seq 0 n)).
Proof.
  revert i dk u t. induction n as [|n IH]; intros i dk u t; cbn -[pbkdf2_rounds seq].
  - by rewrite app_nil_r.
  - rewrite pbkdf2_rounds_spec, IH. cbn [seq map concat]. rewrite <- app_assoc. f_equal. f_equal.
    + unfold F. rewrite Z.add_0_r, blockIdx_INT. f_equal. f_equal. f_equal. lia.
    + f_equal. rewrite <- seq_shift, map_map. apply map_ext. intros j. f_equal. lia.
Qed.

(** The t buffer ends holding the last block. *)
Lemma pbkdf2_blocks_one prf salt iter i dk u t :
  (pbkdf2_blocks prf salt iter 1 i dk u t).1.1 = dk ++ (pbkdf2_blocks prf salt iter 1 i dk u t).2.
Proof. cbn -[pbkdf2_rounds]. by destruct (pbkdf2_rounds _ _ _ _). Qed.

(** Every library function returns values of its documented shape. *)
Class CryptoLaws (C : CryptoLib) : Prop := {
  hash_sum_length : forall f m, length (hash_sum f m) = hash_size f;
  cbc_decrypt_length : forall k iv ct, length (cbc_decrypt k iv ct) = length ct
}.

Section laws.
Context {C : CryptoLib} `{!CryptoLaws C}.

Lemma hmac_length f k m : length (hmac f k m) = hash_size f.
Proof. apply hash_sum_length. Qed.

Lemma F_length f p salt c i : length (F (hmac f p) salt c i) = hash_size f.
Proof.
  unfold F. assert (forall l t, length t = hash_size f -> Forall (fun u => length u = hash_size f) l ->
    length (foldl (zip_with bxor) t l) = hash_size f) as H.
  { induction l as [|u l IH]; intros t Ht Hl; cbn; [done|]. apply Forall_cons in Hl as [Hu Hl].
    apply IH; [|done]. rewrite length_zip_with. lia. }
  apply H; [apply hmac_length|]. apply Forall_forall. intros u Hu.
  apply list_elem_of_In, in_map_iff in Hu as (j & <- & _). destruct j; apply hmac_length.
Qed.

Lemma concat_length_const {A} (l : list (list A)) n :
  Forall (fun x => length x = n) l -> length (concat l) = length l * n.
Proof. induction 1 as [|x l Hx _ IH]; cbn; [done|]. rewrite length_app, IH, Hx. done. Qed.

Lemma hash_size_bounds f : 20 <= hash_size f <= 64.
Proof. destruct f; cbn; lia. Qed.

Lemma numBlocks_ceil f keyLen :
  (0 < keyLen < 2 ^ 62)%Z ->
  Z.to_nat (Z.quot (int64 (int64 (keyLen + Z.of_nat (hash_size f)) - 1)) (Z.of_nat (hash_size f)))
  = (Z.to_nat keyLen + hash_size f - 1) / hash_size f.
Proof.
  intros Hk. pose proof (hash_size_bounds f) as Hf.
  assert (2 ^ 62 = 4611686018427387904)%Z as H62 by done. assert (2 ^ 63 = 9223372036854775808)%Z as H63 by done.
  assert (int64 (keyLen + Z.of_nat (hash_size f)) = keyLen + Z.of_nat (hash_size f))%Z as H1.
  { apply wrap_signed_id; [lia|]. change (64 - 1)%Z with 63%Z. lia. }
  rewrite H1, wrap_signed_id; [|lia|change (64 - 1)%Z with 63%Z; lia].
  rewrite Z.quot_div_nonneg by lia. apply Nat2Z.inj. rewrite Z2Nat.id by (apply Z.div_pos; lia).
  rewrite Nat2Z.inj_div. f_equal. lia.
Qed.

Lemma pbkdf2_dk_length f p salt iter keyLen :
  (0 < keyLen < 2 ^ 62)%Z -> Z.to_nat keyLen <= length (pbkdf2Bytes f p salt iter keyLen).1.1.
Proof.
  intros Hk. unfold pbkdf2Bytes. rewrite numBlocks_ceil by done. rewrite pbkdf2_blocks_dk. cbn [app].
  rewrite (concat_length_const _ (hash_size f)).
  - rewrite length_map, length_seq. pose proof (hash_size_bounds f).
    pose proof (Nat.div_mod_eq (Z.to_nat keyLen + hash_size f - 1) (hash_size f)).
    pose proof (Nat.mod_upper_bound (Z.to_nat keyLen + hash_size f - 1) (hash_size f)). lia.
  - apply Forall_forall. intros x Hx. apply list_elem_of_In, in_map_iff in Hx as (j & <- & _). apply F_length.
Qed.

Lemma pbkdf2Key_eq f password salt iter keyLen h :
  let b := pbkdf2Bytes f (load h password) salt iter keyLen in
  pbkdf2Key f password salt iter keyLen h
  = (h ++ [b.1.1; b.1.2; b.2], Slice (length h) 0 (Z.to_nat keyLen)).
Proof.
  cbn zeta. unfold pbkdf2Key, mbind, mem_bind, read, new, alloc, mret, mem_ret.
  destruct (pbkdf2Bytes _ _ _ _ _) as [[dk u] t]. unfold subslice. cbn.
  rewrite <- !app_assoc, Nat.sub_0_r. done.
Qed.

(** C28: The hand-written key derivation is PBKDF2 of RFC 8018 with HMAC as its
    pseudo-random function.  Whatever the passphrase, the salt, an iteration
    count of at least 1 and a key length that fits, the slice returned shows
    exactly the octets the RFC defines, keyLen of them, in a new array; no
    existing array is written. *)
Theorem pbkdf2_is_rfc8018 f h password salt iter keyLen :
  (1 <= iter)%Z -> (0 < keyLen < 2 ^ 62)%Z ->
  let '(h', dk) := pbkdf2Key f password salt iter keyLen h in
  load h' dk = PBKDF2 (hmac f (load h password)) (hash_size f) salt (Z.to_nat iter) (Z.to_nat keyLen)
  /\ length (load h' dk) = Z.to_nat keyLen
  /\ h `prefix_of` h' /\ sl_buf dk = length h.
Proof.
  intros Hi Hk. rewrite pbkdf2Key_eq. cbn -[pbkdf2Bytes Nat.div].
  pose proof (pbkdf2_dk_length f (load h password) salt iter keyLen Hk) as Hlen.
  rewrite load_new. split_and!; [|rewrite length_take; lia|by eexists|done].
  unfold PBKDF2. f_equal. unfold pbkdf2Bytes. rewrite numBlocks_ceil by done.
  rewrite pbkdf2_blocks_dk. cbn [app]. f_equal.
  rewrite <- (seq_shift _ 0), map_map. apply map_ext. intros j. f_equal. lia.
Qed.

(** A key of exactly one hash is one block, and is what t ends up holding. *)
Lemma pbkdf2_one_block f p salt iter :
  let b := pbkdf2Bytes f p salt iter (Z.of_nat (hash_size f)) in b.1.1 = b.2 /\ length b.1.1 = hash_size f.
Proof.
  pose proof (hash_size_bounds f) as Hf. assert (2 ^ 62 = 4611686018427387904)%Z as H62 by done.
  cbn zeta. unfold pbkdf2Bytes. rewrite numBlocks_ceil, Nat2Z.id by lia.
  assert ((hash_size f + hash_size f - 1) / hash_size f = 1) as ->.
  { symmetry. apply (Nat.div_unique _ _ _ (hash_size f - 1)); lia. }
  split; [apply pbkdf2_blocks_one|].
  rewrite pbkdf2_blocks_dk. cbn [seq map concat app]. rewrite app_nil_r. apply F_length.
Qed.

(** Wiping the derived key does not remove it from memory.  When the key is
    exactly one hash long (PBKDF2 with HMAC-SHA256 for AES-256, which openssl
    emits), the work buffer t that pbkdf2Key allocates still holds the whole
    derived key after the caller has zeroed the slice it got. *)
Theorem derived_key_copy_survives f h password salt iter :
  let keyLen := Z.of_nat (hash_size f) in
  let '(h1, dk) := pbkdf2Key f password salt iter keyLen h in
  let h2 := zeroBytes dk h1 in
  blank (load h2 dk) /\ h2 !! (length h + 2) = Some (load h1 dk).
Proof.
  cbn zeta. rewrite pbkdf2Key_eq. pose proof (pbkdf2_one_block f (load h password) salt iter) as Hb.
  destruct (pbkdf2Bytes _ _ _ _ _) as [[dk u] t]. cbn in Hb. destruct Hb as [<- Hlen]. cbn [fst snd].
  rewrite Nat2Z.id, <- Hlen, zeroBytes_whole, !load_new, firstn_all. split.
  - rewrite firstn_all2 by (rewrite length_replicate; lia). apply blank_replicate.
  - rewrite lookup_app_r by lia. by replace (length h + 2 - length h) with 2 by lia.
Qed.

(** ** PKCS#7 *)

(** RFC 5652, section 6.3: pad with p copies of p to the next multiple. *)
Definition pkcs7Pad (blockSize : nat) (x : bytes) : bytes :=
  let p := blockSize - length x mod blockSize in x ++ replicate p (Z_byte (Z.of_nat p)).

Lemma all_pad_1 m l :
  forallb (fun c => Nat.eqb (Z.to_nat (byte_Z c)) m) l = true -> l = replicate (length l) (Z_byte (Z.of_nat m)).
Proof.
  induction l as [|c l IH]; cbn; [done|].
  intros [Hc%Nat.eqb_eq Hl]%andb_true_iff. rewrite <- IH by done. f_equal.
  symmetry. apply Z_byte_Z. pose proof (byte_Z_range c). lia.
Qed.

Lemma all_pad_2 m k :
  m < 256 -> forallb (fun c => Nat.eqb (Z.to_nat (byte_Z c)) m) (replicate k (Z_byte (Z.of_nat m))) = true.
Proof.
  intros Hm. induction k as [|k IH]; cbn; [done|]. rewrite IH, byte_Z_byte, Nat2Z.id, Nat.eqb_refl by lia. done.
Qed.

Lemma pkcs7Pad_length bs x :
  0 < bs -> length (pkcs7Pad bs x) <> 0 /\ length (pkcs7Pad bs x) mod bs = 0.
Proof.
  intros Hbs. unfold pkcs7Pad. rewrite length_app, length_replicate.
  pose proof (Nat.mod_upper_bound (length x) bs). pose proof (Nat.div_mod_eq (length x) bs).
  split; [lia|]. apply Nat.Div0.mod_divides. exists (length x / bs + 1). lia.
Qed.

(** C31: Unpadding inverts PKCS#7 padding and accepts nothing else.  For a block
    size below 256, pkcs7Unpad returns a slice exactly when the input is the
    padding of some data, the slice shows that data in the same array, and no
    array is written. *)
Theorem pkcs7_unpad_exact h s bs s' :
  valid h s -> 0 < bs < 256 ->
  ((pkcs7Unpad s bs h).2 = Ok s' <-> exists x, load h s = pkcs7Pad bs x /\ s' = subslice s 0 (length x))
  /\ (pkcs7Unpad s bs h).1 = h.
Proof.
  intros Hv Hbs. split; [|done]. unfold pkcs7Unpad, mbind, mem_bind, read, mret, mem_ret. cbn [snd].
  generalize (load h s). intros b. set (n := length b). split.
  - destruct (Nat.eqb_spec n 0) as [|Hn]; [done|].
    destruct (Nat.eqb_spec (n mod bs) 0) as [Hm|]; [|done]. cbn [negb orb].
    set (pad := Z.to_nat (byte_Z (nth (n - 1) b x00))).
    destruct (Nat.eqb_spec pad 0) as [|Hp]; [done|]. destruct (Nat.ltb_spec bs pad) as [|Hle]; [done|].
    destruct (Nat.ltb_spec n pad) as [|Hpn]; [done|]. cbn [orb].
    destruct (forallb _ _) eqn:Hall; [|done]. intros [= <-].
    exists (take (n - pad) b). assert (length (take (n - pad) b) = n - pad) as Hlen by (rewrite length_take; lia).
    rewrite Hlen. split; [|done].
    unfold pkcs7Pad. rewrite Hlen.
    assert ((n - pad) mod bs = bs - pad \/ (pad = bs /\ (n - pad) mod bs = 0)) as Hmod.
    { apply Nat.Div0.mod_divides in Hm as [q Hq].
      destruct q as [|q]; [lia|]. destruct (decide (pad = bs)) as [->|Hne].
      - right. split; [done|]. replace (n - bs) with (q * bs) by lia. apply Nat.Div0.mod_mul.
      - left. symmetry. apply (Nat.mod_unique _ _ q); lia. }
    assert (bs - (n - pad) mod bs = pad) as -> by (destruct Hmod as [->|[-> ->]]; lia).
    rewrite <- (take_drop (n - pad) b) at 1. f_equal.
    assert (length (drop (n - pad) b) = pad) as Hd by (rewrite length_drop; lia).
    by rewrite (all_pad_1 _ _ Hall), Hd.
  - intros (x & Hb & ->). unfold pkcs7Pad in Hb. set (p := bs - length x mod bs) in *.
    pose proof (Nat.mod_upper_bound (length x) bs). assert (0 < p <= bs) as Hp by lia.
    assert (n = length x + p) as Hn. { unfold n. rewrite Hb, length_app, length_replicate. done. }
    assert (n mod bs = 0) as Hm by (unfold n; rewrite Hb; apply pkcs7Pad_length; lia).
    destruct (Nat.eqb_spec n 0); [lia|]. rewrite Hm. cbn [Nat.eqb negb orb].
    assert (nth (n - 1) b x00 = Z_byte (Z.of_nat p)) as Hlast.
    { rewrite Hb, app_nth2 by lia. replace (n - 1 - length x) with (p - 1) by lia.
      apply nth_lookup_Some. apply lookup_replicate_2. lia. }
    rewrite Hlast, byte_Z_byte, Nat2Z.id by lia.
    destruct (Nat.eqb_spec p 0); [lia|]. destruct (Nat.ltb_spec bs p); [lia|].
    destruct (Nat.ltb_spec n p); [lia|]. cbn [orb].
    replace (n - p) with (length x) by lia. rewrite Hb, drop_app_length.
    by rewrite all_pad_2 by lia.
Qed.

(** ** Loading an encrypted key *)

(** What one run of decryptPBES2 adds to the heap: the derived key's array, the
    two work buffers, and the decrypted array if it got that far. *)
Lemma decryptPBES2_eq body pl passphrase h :
  parsePBES2 body = Ok pl -> (0 < pl_keyLen pl < 2 ^ 62)%Z ->
  let b := pbkdf2Bytes (pl_prf pl) (load h passphrase) (pl_salt pl) (pl_iter pl) (pl_keyLen pl) in
  let n := Z.to_nat (pl_keyLen pl) in
  let key := take n b.1.1 in
  let used := [replicate n x00 ++ drop n b.1.1; b.1.2; b.2] in
  let plain := cbc_decrypt key (pl_iv pl) (pl_ct pl) in
  let n' := length (pl_ct pl) in
  decryptPBES2 body passphrase h =
    match aes_NewCipher key with
    | Err e => (h ++ used, Err e)
    | Ok _ =>
        if Nat.eqb n' 0 || negb (Nat.eqb (n' mod aes_BlockSize) 0) then
          (h ++ used, Err (ErrText ("AES-CBC ciphertext length " +:+ pretty n' +:+ " is not a block multiple")))
        else
          match (pkcs7Unpad (Slice (length h + 3) 0 (length plain)) aes_BlockSize
                   ((h ++ [b.1.1; b.1.2; b.2]) ++ [plain])).2 with
          | Err e => (h ++ used ++ [replicate (length plain) x00], Err e)
          | Ok s => (h ++ used ++ [plain], Ok s)
          end
    end.
Proof.
  intros Hparse Hk. cbn zeta. unfold decryptPBES2. rewrite Hparse.
  pose proof (pbkdf2_dk_length (pl_prf pl) (load h passphrase) (pl_salt pl) (pl_iter pl) _ Hk) as Hlen.
  unfold mbind, mem_bind. rewrite pbkdf2Key_eq.
  destruct (pbkdf2Bytes _ _ _ _ _) as [[dk u] t]. cbn [fst snd] in *.
  unfold deferring, mbind, mem_bind, mret, mem_ret, read, wipe. rewrite load_new.
  destruct (aes_NewCipher _) as [[]|e]; [|by rewrite zeroBytes_prefix].
  destruct (_ || _); [by rewrite zeroBytes_prefix|].
  unfold new, alloc. set (plain := cbc_decrypt _ _ _). rewrite length_app. cbn [length].
  destruct (pkcs7Unpad _ _ _) as [h2 r] eqn:Hu. cbn [snd].
  assert (h2 = (h ++ [dk; u; t]) ++ [plain]) as -> by (by unfold pkcs7Unpad in Hu; injection Hu).
  destruct r as [s|e].
  - rewrite <- app_assoc. cbn [app]. by rewrite zeroBytes_prefix.
  - replace (length h + 3) with (length (h ++ [dk; u; t])) by (rewrite length_app; done).
    rewrite zeroBytes_whole, <- app_assoc. cbn [app]. by rewrite zeroBytes_prefix.
Qed.

(** The shape of the keys gen-printer-keys.sh makes: PBES2 with
    PBKDF2-HMAC-SHA256, no explicit key length, and AES-256-CBC. *)
Definition openssl_der (body salt : bytes) (iter : Z) (iv ct : bytes) : Prop :=
  exists a k e p,
    unmarshal_epki body = Ok {| epki_Algo := {| ai_Algorithm := oidPBES2; ai_FullBytes := a |};
                                epki_EncryptedData := ct |}
    /\ unmarshal_pbes2 a = Ok {| pb_KDF := {| ai_Algorithm := oidPBKDF2; ai_FullBytes := k |};
                                 pb_Enc := {| ai_Algorithm := oidAES256CBC; ai_FullBytes := e |} |}
    /\ unmarshal_pbkdf2 k = Ok {| kd_Salt := salt; kd_Iterations := iter; kd_KeyLength := 0;
                                  kd_PRF := {| ai_Algorithm := oidHMACWithSHA256; ai_FullBytes := p |} |}
    /\ unmarshal_octets e = Ok iv.

Lemma parse_openssl body salt iter iv ct :
  openssl_der body salt iter iv ct -> length iv = aes_BlockSize ->
  parsePBES2 body = Ok {| pl_prf := SHA256; pl_salt := salt; pl_iter := iter; pl_keyLen := 32;
                          pl_iv := iv; pl_ct := ct |}.
Proof.
  intros (a & k & e & p & H1 & H2 & H3 & H4) Hiv. unfold parsePBES2.
  rewrite H1. cbn [epki_Algo ai_Algorithm ai_FullBytes]. rewrite bool_decide_eq_true_2 by done. cbn [negb].
  rewrite H2. cbn [pb_KDF pb_Enc ai_Algorithm ai_FullBytes]. rewrite bool_decide_eq_true_2 by done. cbn [negb].
  rewrite H3, H4, Hiv. cbn [epki_EncryptedData kd_Salt kd_Iterations].
  assert (prfOf {| kd_Salt := salt; kd_Iterations := iter; kd_KeyLength := 0;
                   kd_PRF := {| ai_Algorithm := oidHMACWithSHA256; ai_FullBytes := p |} |} = Ok SHA256) as ->.
  { unfold prfOf. cbn [kd_PRF ai_Algorithm]. by vm_compute (prfHashes !! _). }
  assert (keyLenOf {| ai_Algorithm := oidAES256CBC; ai_FullBytes := e |}
    {| kd_Salt := salt; kd_Iterations := iter; kd_KeyLength := 0;
       kd_PRF := {| ai_Algorithm := oidHMACWithSHA256; ai_FullBytes := p |} |} = Ok 32%Z) as ->.
  { unfold keyLenOf. cbn [ai_Algorithm kd_KeyLength]. by vm_compute (aesCBCKeyLen !! _). }
  by rewrite Nat.eqb_refl.
Qed.

(** The array that holds what was decrypted, and what unpadding makes of it. *)
Lemma unpad_last h der :
  let padded := pkcs7Pad aes_BlockSize der in
  let sp := Slice (length h) 0 (length padded) in
  (pkcs7Unpad sp aes_BlockSize (h ++ [padded])).2 = Ok (Slice (length h) 0 (length der)).
Proof.
  cbn zeta. set (padded := pkcs7Pad _ _). set (sp := Slice _ _ _).
  assert (load (h ++ [padded]) sp = padded) as Hload by (unfold sp; by rewrite load_new, firstn_all).
  assert (valid (h ++ [padded]) sp) as Hv.
  { exists padded. cbn. split; [|done]. by rewrite lookup_app_r, Nat.sub_diag by lia. }
  apply (pkcs7_unpad_exact _ sp aes_BlockSize _ Hv); [unfold aes_BlockSize; lia|].
  exists der. rewrite Hload. split; [done|]. unfold subslice, sp. cbn. f_equal; lia.
Qed.

(** decryptPBES2 on such a key: the DER, in the array before its padding. *)
Lemma decrypt_openssl (cbc_encrypt : bytes -> bytes -> bytes -> bytes) body passphrase h der salt iter iv :
  let key := PBKDF2 (hmac SHA256 (load h passphrase)) 32 salt (Z.to_nat iter) 32 in
  let padded := pkcs7Pad aes_BlockSize der in
  let ct := cbc_encrypt key iv padded in
  cbc_decrypt key iv ct = padded -> length ct = length padded ->
  (1 <= iter)%Z -> length iv = aes_BlockSize -> openssl_der body salt iter iv ct ->
  exists u t, decryptPBES2 body passphrase h
    = (h ++ [replicate 32 x00; u; t] ++ [padded], Ok (Slice (length h + 3) 0 (length der))).
Proof.
  cbn zeta. set (key := PBKDF2 _ _ _ _ _). set (padded := pkcs7Pad _ _).
  intros Hdec Hct Hiter Hiv Hder.
  destruct (pkcs7Pad_length aes_BlockSize der) as [Hne Hmod]; [unfold aes_BlockSize; lia|]. fold padded in Hne, Hmod.
  pose proof (parse_openssl _ _ _ _ _ Hder Hiv) as Hparse.
  pose proof (decryptPBES2_eq _ _ passphrase h Hparse ltac:(cbn; lia)) as Heq.
  cbn zeta in Heq. cbn [pl_prf pl_salt pl_iter pl_keyLen pl_iv pl_ct] in Heq.
  pose proof (pbkdf2_is_rfc8018 SHA256 h passphrase salt iter 32 Hiter ltac:(lia)) as Hrfc.
  rewrite pbkdf2Key_eq, load_new in Hrfc.
  pose proof (pbkdf2_one_block SHA256 (load h passphrase) salt iter) as [_ Hlen].
  change (Z.of_nat (hash_size SHA256)) with 32%Z in Hlen.
  destruct (pbkdf2Bytes _ _ _ _ _) as [[dk u] t]. cbn [fst snd] in *.
  change (Z.to_nat 32) with 32 in *. change (hash_size SHA256) with 32 in *.
  destruct Hrfc as (Hkey & Hklen & _ & _). fold key in Hkey.
  assert (dk = key) as -> by (rewrite <- Hkey; symmetry; apply firstn_all2; lia).
  rewrite Hkey in *. unfold aes_NewCipher in Heq. rewrite Hklen, Hct, Hdec, Hmod in Heq.
  destruct (Nat.eqb_spec (length padded) 0) as [|_]; [done|]. cbn [orb negb Nat.eqb] in Heq.
  replace (length h + 3) with (length (h ++ [key; u; t])) in * by (rewrite length_app; done).
  unfold padded in Heq. rewrite unpad_last in Heq. fold padded in Heq.
  exists u, t. rewrite Heq. rewrite (drop_ge key) by lia. by rewrite app_nil_r.
Qed.

(** C29: The printer loads the keys its key-generation script makes.  If the PEM
    block holds a DER key encrypted with PBES2 under PBKDF2-HMAC-SHA256 and
    AES-256-CBC with PKCS#7 padding, and the passphrase is the one it was
    encrypted under, then the loader parses exactly that DER; and afterwards the
    array that held the decrypted DER is zero up to its padding, and the derived
    key's own array is zero. *)
Theorem openssl_key_loads (cbc_encrypt : bytes -> bytes -> bytes -> bytes) pem body passphrase h der salt iter iv :
  (forall k iv x, length x mod aes_BlockSize = 0 ->
     cbc_decrypt k iv (cbc_encrypt k iv x) = x /\ length (cbc_encrypt k iv x) = length x) ->
  (1 <= iter)%Z -> length iv = aes_BlockSize ->
  pem_decode pem = Some ("ENCRYPTED PRIVATE KEY", body) ->
  openssl_der body salt iter iv
    (cbc_encrypt (PBKDF2 (hmac SHA256 (load h passphrase)) 32 salt (Z.to_nat iter) 32) iv (pkcs7Pad aes_BlockSize der)) ->
  let '(h', r) := loadPrinterPrivateKey pem passphrase h in
  r = parsedKey der
  /\ h' !! length h = Some (replicate 32 x00)
  /\ h' !! (length h + 3) = Some (replicate (length der) x00
                                  ++ drop (length der) (pkcs7Pad aes_BlockSize der)).
Proof.
  intros Hinv Hiter Hiv Hpem Hder. set (padded := pkcs7Pad aes_BlockSize der) in *.
  destruct (pkcs7Pad_length aes_BlockSize der) as [_ Hmod]; [unfold aes_BlockSize; lia|]. fold padded in Hmod.
  destruct (Hinv (PBKDF2 (hmac SHA256 (load h passphrase)) 32 salt (Z.to_nat iter) 32) iv padded Hmod) as [Hdec Hct].
  destruct (decrypt_openssl cbc_encrypt body passphrase h der salt iter iv Hdec Hct Hiter Hiv Hder) as (u & t & Heq).
  unfold loadPrinterPrivateKey. rewrite Hpem. cbn [String.eqb Ascii.eqb Bool.eqb].
  unfold mbind, mem_bind. rewrite Heq. unfold deferring, mbind, mem_bind, read, wipe, mret, mem_ret.
  fold padded. rewrite app_assoc. set (g := h ++ [replicate 32 x00; u; t]).
  assert (length g = length h + 3) as Hg by (unfold g; rewrite length_app; done).
  rewrite <- Hg, load_new, zeroBytes_prefix.
  2:{ unfold padded, pkcs7Pad. rewrite length_app. lia. }
  assert (take (length der) padded = der) as -> by apply take_app_length.
  split_and!; [done| |].
  - unfold g. by rewrite <- app_assoc, lookup_app_r, Nat.sub_diag by lia.
  - by rewrite lookup_app_r, Nat.sub_diag by lia.
Qed.

(** C30: What loading an encrypted key leaves in memory, to the byte, on every
    path.  Whatever the file holds and whichever step fails, existing arrays are
    not written.  If the file does not parse nothing is added.  Otherwise the
    loader leaves the derived key's own array, zero in all the bytes of the key;
    the two scratch arrays u and t of the key derivation, which are never wiped
    and hold exactly what it left in them; and, if a ciphertext was decrypted,
    its array, all zero when the padding was refused, and else zero up to the
    padding.  So the decrypted key is wiped on every path, but the derived key
    is not when it is one block of the hash (as for AES-256 under SHA-256): t is
    then a copy of it. *)
Theorem loadKey_leaves pem body passphrase h :
  pem_decode pem = Some ("ENCRYPTED PRIVATE KEY", body) ->
  (forall pl, parsePBES2 body = Ok pl -> 0 < pl_keyLen pl < 2 ^ 62)%Z ->
  let h' := (loadPrinterPrivateKey pem passphrase h).1 in
  match parsePBES2 body with
  | Err _ => h' = h
  | Ok pl =>
      let b := pbkdf2Bytes (pl_prf pl) (load h passphrase) (pl_salt pl) (pl_iter pl) (pl_keyLen pl) in
      let n := Z.to_nat (pl_keyLen pl) in
      let key := take n b.1.1 in
      let plain := cbc_decrypt key (pl_iv pl) (pl_ct pl) in
      (exists rest,
        h' = h ++ (replicate n x00 ++ drop n b.1.1) :: b.1.2 :: b.2 :: rest
        /\ (rest = [] /\ ((exists e, aes_NewCipher key = Err e) \/ pl_ct pl = [] \/ length (pl_ct pl) mod aes_BlockSize <> 0)
            \/ rest = [replicate (length plain) x00]
            \/ exists der, plain = pkcs7Pad aes_BlockSize der
                 /\ rest = [replicate (length der) x00 ++ drop (length der) plain]))
      /\ (pl_keyLen pl = Z.of_nat (hash_size (pl_prf pl)) -> b.2 = key)
  end.
Proof.
  intros Hpem Hk. unfold loadPrinterPrivateKey. rewrite Hpem. cbn [String.eqb Ascii.eqb Bool.eqb].
  destruct (parsePBES2 body) as [pl|e] eqn:Hparse.
  2:{ unfold mbind, mem_bind, decryptPBES2. by rewrite Hparse. }
  specialize (Hk pl eq_refl). pose proof (decryptPBES2_eq _ _ passphrase h Hparse Hk) as Heq. cbn zeta in Heq |- *.
  split.
  2:{ intros Hn. rewrite Hn. pose proof (pbkdf2_one_block (pl_prf pl) (load h passphrase) (pl_salt pl) (pl_iter pl)) as Hb.
      cbn zeta in Hb. destruct Hb as [Hb Hl]. rewrite Nat2Z.id, take_ge by (rewrite Hl; lia). by symmetry. }
  pose proof (pbkdf2_dk_length (pl_prf pl) (load h passphrase) (pl_salt pl) (pl_iter pl) _ Hk) as Hlen.
  destruct (pbkdf2Bytes _ _ _ _ _) as [[dk u] t]. cbn [fst snd] in *.
  set (n := Z.to_nat (pl_keyLen pl)) in *. set (dk0 := replicate n x00 ++ drop n dk) in *.
  set (plain := cbc_decrypt _ _ _) in *.
  replace (length h + 3) with (length (h ++ [dk; u; t])) in Heq by (rewrite length_app; done).
  unfold mbind, mem_bind. rewrite Heq. clear Heq.
  destruct (aes_NewCipher _) as [[]|e] eqn:Haes; [|exists []; split; [done|left; split; [done|left; by eexists]]].
  destruct (Nat.eqb_spec (length (pl_ct pl)) 0) as [Hct|Hct]; cbn [orb].
  { exists []. split; [done|]. left. split; [done|]. right. left. by apply length_zero_iff_nil. }
  destruct (Nat.eqb_spec (length (pl_ct pl) mod aes_BlockSize) 0) as [Hmod|Hmod]; cbn [negb].
  2:{ exists []. split; [done|]. left. auto. }
  set (sp := Slice _ 0 (length plain)). set (h2 := (h ++ [dk; u; t]) ++ [plain]).
  assert (valid h2 sp) as Hv.
  { exists plain. cbn. split; [|done]. unfold h2. by rewrite lookup_app_r, Nat.sub_diag by lia. }
  destruct (pkcs7Unpad sp aes_BlockSize h2).2 as [s'|e] eqn:Hu.
  - apply (pkcs7_unpad_exact h2 sp aes_BlockSize _ Hv) in Hu as (x & Hload & ->); [|unfold aes_BlockSize; lia].
    unfold h2, sp in Hload. rewrite load_new, firstn_all in Hload.
    unfold deferring, mbind, mem_bind, read, wipe, mret, mem_ret. cbn [fst].
    rewrite app_assoc. set (g := h ++ [dk0; u; t]).
    assert (subslice sp 0 (length x) = Slice (length g) 0 (length x)) as ->.
    { unfold subslice, sp, g. cbn. rewrite !length_app. cbn. f_equal; lia. }
    rewrite zeroBytes_prefix by (rewrite Hload; unfold pkcs7Pad; rewrite length_app; lia).
    eexists. unfold g. rewrite <- app_assoc. split; [reflexivity|]. right. right. by exists x.
  - eexists. split; [reflexivity|]. right. by left.
Qed.

(** Arrays that existed before are not written. *)
Definition keeps {A} (m : mem A) (h : heap) : Prop := forall i, i < length h -> (m h).1 !! i = h !! i.

Lemma decryptPBES2_keeps body passphrase h :
  keeps (decryptPBES2 body passphrase) h
  /\ forall s, (decryptPBES2 body passphrase h).2 = Ok s -> length h <= sl_buf s.
Proof.
  unfold keeps, decryptPBES2. destruct (parsePBES2 body) as [pl|e]; [|done].
  unfold mbind, mem_bind. rewrite pbkdf2Key_eq. destruct (pbkdf2Bytes _ _ _ _ _) as [[dk u] t]. cbn [fst snd].
  unfold deferring, mbind, mem_bind, mret, mem_ret, read, wipe, new, alloc.
  destruct (aes_NewCipher _) as [[]|e].
  2:{ split; [|done]. intros i Hi. cbn [fst]. rewrite zeroBytes_other by (cbn; lia). by apply lookup_app_l. }
  destruct (_ || _).
  1:{ split; [|done]. intros i Hi. cbn [fst]. rewrite zeroBytes_other by (cbn; lia). by apply lookup_app_l. }
  destruct (pkcs7Unpad _ _ _) as [h2 r] eqn:Hu.
  assert (h2 = (h ++ [dk; u; t]) ++ [cbc_decrypt (load (h ++ [dk; u; t]) (Slice (length h) 0 (Z.to_nat (pl_keyLen pl))))
            (pl_iv pl) (pl_ct pl)]) as -> by (by unfold pkcs7Unpad in Hu; injection Hu).
  unfold pkcs7Unpad, mbind, mem_bind, read, mret, mem_ret in Hu. injection Hu as Hu.
  destruct r as [s|e]; cbn [fst snd].
  - split.
    + intros i Hi. rewrite zeroBytes_other by (cbn; lia). rewrite <- app_assoc. by apply lookup_app_l.
    + intros s' [= <-]. repeat case_match; simplify_eq. cbn. rewrite length_app. lia.
  - split; [|done]. intros i Hi. rewrite zeroBytes_other by (cbn; lia).
    rewrite zeroBytes_other by (cbn; rewrite length_app; lia). rewrite <- app_assoc. by apply lookup_app_l.
Qed.

Lemma loadPrinterPrivateKey_keeps pem passphrase h : keeps (loadPrinterPrivateKey pem passphrase) h.
Proof.
  unfold keeps, loadPrinterPrivateKey. intros i Hi. destruct (pem_decode pem) as [[type body]|]; [|done].
  destruct (String.eqb type _); [|by destruct (String.eqb type _)].
  destruct (decryptPBES2_keeps body passphrase h) as [Hk Hs]. specialize (Hk i Hi).
  unfold mbind, mem_bind. destruct (decryptPBES2 body passphrase h) as [h1 [s|e]]; cbn [fst snd] in *; [|done].
  specialize (Hs s eq_refl). unfold deferring, mbind, mem_bind, read, wipe, mret, mem_ret. cbn [fst]. rewrite zeroBytes_other by lia. done.
Qed.

(** ** The document *)

(** A blob decrypts exactly when it has the wire format: the key has 32
    bytes and the blob is a 12-byte IV followed by a ciphertext that GCM opens
    under that key and IV; the document is what GCM returns. *)
Theorem document_format ciphertext aesKey pdf :
  DecryptDocument ciphertext aesKey = Ok pdf
  <-> length aesKey = 32 /\ exists iv ct, ciphertext = iv ++ ct /\ length iv = 12 /\ gcm_open aesKey iv ct = Ok pdf.
Proof.
  unfold DecryptDocument, aes_NewCipher, gcm_nonce_size. destruct (Nat.eqb_spec (length aesKey) 32) as [Hk|Hk]; cbn [negb].
  2:{ split; [done|]. by intros [? _]. }
  rewrite Hk. destruct (Nat.ltb_spec (length ciphertext) 12) as [Hl|Hl].
  - split; [done|]. intros (_ & iv & ct & -> & Hiv & _). rewrite length_app in Hl. lia.
  - split.
    + intros Ho. split; [done|]. exists (take 12 ciphertext), (drop 12 ciphertext).
      rewrite take_drop, length_take. split_and!; [done|lia|done].
    + intros (_ & iv & ct & -> & Hiv & Ho). rewrite <- Hiv at 1 2. by rewrite take_app_length, drop_app_length.
Qed.

End laws.
