(* ===== verification/Json.v ===== *)
(** * JSON values and Go's struct codecs

    Messages that cross a socket, a Redis channel or a Redis key are JSON
    documents.  A document is modelled by its syntax tree ([JRaw] is text that
    is not a JSON document); the byte-level printer and scanner of
    encoding/json are not modelled.  The rules by which encoding/json maps a
    tree to a Go struct and back are: members are matched to fields by exact
    name and failing that case-insensitively, unknown members are ignored, a
    repeated member overwrites, [null] leaves the field as it is, any other
    mismatch is an error, and [omitempty] fields at their zero value are left
    out. *)

From S2P Require Import Prelude GoStrings.
From stdpp Require Import sorting.
From Stdlib Require Import Ascii.

Inductive json : Type :=
| JNull
| JBool (b : bool)
| JInt (z : Z)             (* a number literal without fraction or exponent *)
| JNum (lit : string)      (* any other number literal *)
| JStr (s : string)
| JArr (l : list json)
| JObj (ms : list (string * json))
| JRaw (s : string).

(** ** Field names

    encoding/json folds member names with Unicode simple folding.  Struct
    field names here are ASCII; the only non-ASCII runes folding to ASCII
    letters are U+017F (to S) and U+212A (to K). *)

Definition upper (c : ascii) : ascii :=
  let n := N_of_ascii c in
  if ((97 <=? n) && (n <=? 122))%N then ascii_of_N (n - 32) else c.

Fixpoint fold_name (s : string) : string :=
  match s with
  | String "197" (String "191" s') => String "S" (fold_name s')
  | String "226" (String "132" (String "170" s')) => String "K" (fold_name s')
  | String c s' => String (upper c) (fold_name s')
  | EmptyString => EmptyString
  end.

(** ** Decoding

    A decoder updates the Go value it decodes into. *)

Definition decoder (A : Type) : Type := A -> json -> option A.

Definition dec_string : decoder string := fun old j =>
  match j with
  | JNull => Some old
  | JStr s => Some s
  | _ => None
  end.

Definition dec_int : decoder Z := fun old j =>
  match j with
  | JNull => Some old
  | JInt z => if ((- 2 ^ 63 <=? z) && (z <? 2 ^ 63))%Z then Some z else None
  | _ => None
  end.

(** A Go map: each member is decoded into a fresh zero value and stored. *)
Fixpoint dec_members {V} (d : decoder V) (zero : V) (ms : list (string * json))
    (m : gmap string V) : option (gmap string V) :=
  match ms with
  | [] => Some m
  | (k, j) :: ms' =>
      match d zero j with
      | Some v => dec_members d zero ms' (<[k := v]> m)
      | None => None
      end
  end.

Definition dec_map {V} (d : decoder V) (zero : V) : decoder (gmap string V) := fun old j =>
  match j with
  | JNull => Some ∅
  | JObj ms => dec_members d zero ms old
  | _ => None
  end.

Definition find_field {A} (fields : list (string * decoder A)) (k : string) : option (decoder A) :=
  match List.find (fun f => String.eqb f.1 k) fields with
  | Some f => Some f.2
  | None => snd <$> List.find (fun f => String.eqb (fold_name f.1) (fold_name k)) fields
  end.

Fixpoint dec_fields {A} (fields : list (string * decoder A)) (ms : list (string * json)) (a : A)
    : option A :=
  match ms with
  | [] => Some a
  | (k, j) :: ms' =>
      match find_field fields k with
      | None => dec_fields fields ms' a
      | Some d =>
          match d a j with
          | Some a' => dec_fields fields ms' a'
          | None => None
          end
      end
  end.

Definition dec_struct {A} (fields : list (string * decoder A)) : decoder A := fun old j =>
  match j with
  | JNull => Some old
  | JObj ms => dec_fields fields ms old
  | _ => None
  end.

(** ** Encoding *)

(** A Go map is written with its keys sorted. *)
Definition enc_map {V} (enc : V -> json) (m : gmap string V) : json :=
  JObj (omap (fun k => (fun v => (k, enc v)) <$> m !! k) (sort_strings (elements (dom m)))).

Definition omitempty_string (name : string) (s : string) : list (string * json) :=
  match s with EmptyString => [] | _ => [(name, JStr s)] end.

Definition omitempty_map {V} (name : string) (enc : V -> json) (m : gmap string V)
    : list (string * json) :=
  if decide (m = ∅) then [] else [(name, enc_map enc m)].

(** ** Lemmas *)

(** A decoder reads back what an encoder wrote, whatever it decodes into. *)
Definition dec_enc {A} (d : decoder A) (enc : A -> json) (P : A -> Prop) : Prop :=
  forall old a, P a -> d old (enc a) = Some a.

Lemma dec_members_enc {V} (d : decoder V) (enc : V -> json) zero P (m : gmap string V) ks m0 :
  dec_enc d enc P -> NoDup ks -> map_Forall (fun _ => P) m ->
  dec_members d zero (omap (fun k => (fun v => (k, enc v)) <$> m !! k) ks) m0
  = Some (filter (fun kv => kv.1 ∈ ks) m ∪ m0).
Proof.
  intros Hd Hks HP. revert m0. induction Hks as [|k ks Hk Hks IH]; intros m0; cbn.
  - f_equal. apply map_eq. intros i. rewrite lookup_union.
    assert (filter (fun kv : string * V => kv.1 ∈ ([] : list string)) m !! i = None) as ->.
    { apply map_lookup_filter_None. right. intros v _. cbn. set_solver. }
    by destruct (m0 !! i).
  - destruct (m !! k) as [v|] eqn:Hmk; cbn.
    + rewrite (Hd zero v) by (by eapply HP). rewrite IH. f_equal. apply map_eq. intros i.
      rewrite !lookup_union, lookup_insert, !map_lookup_filter.
      destruct (m !! i) as [w|] eqn:Hmi; cbn.
      * destruct (decide (k = i)) as [->|Hne].
        -- rewrite Hmi in Hmk. injection Hmk as ->.
           rewrite option_guard_False, option_guard_True by set_solver. cbn. by destruct (m0 !! i).
        -- destruct (decide (i ∈ ks)) as [Hi|Hi].
           ++ rewrite !option_guard_True by set_solver. done.
           ++ rewrite !option_guard_False by set_solver. done.
      * destruct (decide (k = i)) as [->|Hne]; [by rewrite Hmi in Hmk|done].
    + rewrite IH. f_equal. apply map_eq. intros i.
      rewrite !lookup_union, !map_lookup_filter.
      destruct (m !! i) as [w|] eqn:Hmi; cbn; [|done].
      destruct (decide (i ∈ ks)) as [Hi|Hi].
      * rewrite !option_guard_True by set_solver. done.
      * rewrite !option_guard_False by set_solver. done.
Qed.

Lemma dec_map_enc {V} (d : decoder V) (enc : V -> json) zero P :
  dec_enc d enc P -> forall m : gmap string V,
  map_Forall (fun _ => P) m -> dec_map d zero ∅ (enc_map enc m) = Some m.
Proof.
  intros Hd m HP. unfold enc_map, dec_map.
  rewrite (dec_members_enc d enc zero P m _ ∅ Hd); [| |done].
  - rewrite map_union_empty. f_equal. apply map_filter_id. intros i v Hi. cbn.
    rewrite sort_strings_perm. apply elem_of_elements, elem_of_dom. eauto.
  - rewrite sort_strings_perm. apply NoDup_elements.
Qed.
