(* ===== verification/Keys.v ===== *)
(** * Redis key and channel names

    services/cloud/store/keys.go: the names the cloud server's packages use to
    find each other, and the pattern one dispatcher listens on for every
    mailbox. *)

From S2P Require Import Prelude GoStrings.
From Stdlib Require Import Ascii.

Definition KeyPrinterState (mailboxID : string) : string := "mailbox:" +:+ mailboxID +:+ ":state".
Definition ChanDispatch (mailboxID : string) : string := "mailbox:" +:+ mailboxID +:+ ":dispatch".
Definition ChanAvailable (mailboxID : string) : string := "mailbox:" +:+ mailboxID +:+ ":available".
Definition PatternAvailable : string := "mailbox:*:available".
Definition ChanJobStatus (jobID : string) : string := "job:" +:+ jobID +:+ ":status".

(** ** Lemmas *)

Lemma KeyPrinterState_inj a b : KeyPrinterState a = KeyPrinterState b -> a = b.
Proof. intros H%append_inj_l%append_inj_r. exact H. Qed.

Lemma ChanDispatch_inj a b : ChanDispatch a = ChanDispatch b -> a = b.
Proof. intros H%append_inj_l%append_inj_r. exact H. Qed.

Lemma ChanJobStatus_inj a b : ChanJobStatus a = ChanJobStatus b -> a = b.
Proof. intros H%append_inj_l%append_inj_r. exact H. Qed.

(** Two strings whose ends differ at some distance from the end differ. *)
Lemma ends_differ (a b x y : string) n :
  (n <= String.length x)%nat -> (n <= String.length y)%nat ->
  String.substring (String.length x - n) n x <> String.substring (String.length y - n) n y ->
  a +:+ x <> b +:+ y.
Proof.
  intros Hx Hy Hne H. apply Hne.
  assert (forall s t, (n <= String.length t)%nat ->
    String.substring (String.length (s +:+ t) - n) n (s +:+ t)
    = String.substring (String.length t - n) n t) as Hsub.
  { intros s t Ht. rewrite length_append.
    replace (String.length s + String.length t - n)%nat
      with (String.length s + (String.length t - n))%nat by lia.
    induction s as [|c s IH]; [done|]. rewrite append_cons. cbn. exact IH. }
  rewrite <- (Hsub a x Hx), <- (Hsub b y Hy). by rewrite H.
Qed.

Lemma dispatch_not_available a b : ChanDispatch a <> ChanAvailable b.
Proof.
  unfold ChanDispatch, ChanAvailable. rewrite <- !append_assoc.
  apply (ends_differ _ _ _ _ 5); cbn; [lia|lia|done].
Qed.

Lemma state_not_available a b : KeyPrinterState a <> ChanAvailable b.
Proof.
  unfold KeyPrinterState, ChanAvailable. rewrite <- !append_assoc.
  apply (ends_differ _ _ _ _ 5); cbn; [lia|lia|done].
Qed.

Lemma jobstatus_not_available a b : ChanJobStatus a <> ChanAvailable b.
Proof. done. Qed.

Lemma dispatch_not_jobstatus a b : ChanDispatch a <> ChanJobStatus b.
Proof. done. Qed.

(** The characters Redis's glob patterns give a meaning to. *)
Definition glob_special (c : ascii) : bool :=
  Ascii.eqb c "*" || Ascii.eqb c "?" || Ascii.eqb c "[" || Ascii.eqb c "]" || Ascii.eqb c "\".

(** A text without any of them. *)
Fixpoint glob_plain (s : string) : bool :=
  match s with
  | EmptyString => true
  | String c s' => negb (glob_special c) && glob_plain s'
  end.

Lemma glob_plain_no_star s : glob_plain s = true -> index_byte s "*"%char = None.
Proof.
  induction s as [|c s IH]; [done|]. cbn. intros [Hc Hs]%andb_true_iff. rewrite (IH Hs).
  unfold glob_special in Hc. by destruct (Ascii.eqb c "*").
Qed.

Section psubscribe.
(** Redis's glob matching, of which one documented rule is used: a star stands
    for any text, and in a pattern that has no other special character (no
    further star, no question mark, bracket or backslash) all else stands for
    itself. *)
Variable redis_glob : string -> string -> bool.
Hypothesis redis_glob_star : forall pre suf s,
  glob_plain pre = true -> glob_plain suf = true ->
  redis_glob (pre +:+ "*" +:+ suf) s = true <-> exists mid, s = pre +:+ mid +:+ suf.

(** C40: The dispatcher's single PSUBSCRIBE hears exactly the channels on which
    printers announce that they are available: every [ChanAvailable] channel
    matches [PatternAvailable], and a channel matches only if it is the
    [ChanAvailable] of some mailbox id; in particular no dispatch channel, job
    status channel or printer state key wakes the dispatcher. *)
Theorem pattern_hears_exactly_available s :
  (redis_glob PatternAvailable s = true <-> exists mailboxID, s = ChanAvailable mailboxID)
  /\ (forall id, redis_glob PatternAvailable (ChanDispatch id) = false)
  /\ (forall id, redis_glob PatternAvailable (ChanJobStatus id) = false)
  /\ (forall id, redis_glob PatternAvailable (KeyPrinterState id) = false).
Proof.
  assert (forall s, redis_glob PatternAvailable s = true <-> exists m, s = ChanAvailable m) as H.
  { intros s'. by apply (redis_glob_star "mailbox:" ":available"). }
  split; [apply H|].
  repeat split; intros id; apply not_true_iff_false; rewrite H; intros [m Hm].
  - by apply dispatch_not_available in Hm.
  - by apply jobstatus_not_available in Hm.
  - by apply state_not_available in Hm.
Qed.

End psubscribe.

(** A matcher for patterns with one star and no other special character. *)
Fixpoint star_glob (p s : string) : bool :=
  match p with
  | EmptyString => String.eqb s EmptyString
  | String c p' =>
      if Ascii.eqb c "*" then has_suffix s p'
      else match s with
           | EmptyString => false
           | String d s' => Ascii.eqb c d && star_glob p' s'
           end
  end.

Lemma star_glob_star pre suf s :
  glob_plain pre = true -> glob_plain suf = true ->
  star_glob (pre +:+ "*" +:+ suf) s = true <-> exists mid, s = pre +:+ mid +:+ suf.
Proof.
  intros Hpre%glob_plain_no_star _. revert s Hpre. induction pre as [|c pre IH]; intros s Hpre.
  - apply has_suffix_true.
  - cbn [index_byte] in Hpre. destruct (Ascii.eqb c "*") eqn:Hc; [done|].
    destruct (index_byte pre "*"); [done|].
    rewrite append_cons. cbn [star_glob]. rewrite Hc.
    destruct s as [|d s].
    + split; [done|]. intros [mid [=]].
    + destruct (Ascii.eqb_spec c d) as [<-|Hd]; cbn [andb].
      * rewrite (IH s eq_refl). split; intros [mid Hm]; exists mid; rewrite append_cons in *; congruence.
      * split; [done|]. intros [mid [= -> _]]. done.
Qed.

Lemma pattern_hears_exactly_available_witness :
  star_glob PatternAvailable (ChanAvailable "42") = true
  /\ star_glob PatternAvailable (ChanDispatch "42") = false.
Proof.
  destruct (pattern_hears_exactly_available star_glob star_glob_star (ChanAvailable "42")) as (H1 & H2 & _).
  split; [apply H1; by exists "42"|apply H2].
Defined.
