(* ===== verification/Db.v ===== *)
(** * Database rows

    services/cloud/db/models.go and the parameter and row structs of
    services/cloud/db/queries.sql.go.  A [time.Time] is an instant in
    nanoseconds, [sql.NullTime], [uuid.NullUUID] and [sql.NullString] are
    options. *)

From S2P Require Import Prelude Base64.

(** A uuid.UUID is 16 bytes; only equality of two of them matters here. *)
Record uuid : Type := Uuid { uuid_bits : N }.

#[export] Instance uuid_eq_dec : EqDecision uuid.
Proof. solve_decision. Defined.

#[export] Instance uuid_countable : Countable uuid.
Proof. apply (inj_countable' uuid_bits Uuid). by intros []. Defined.

#[export] Instance byte_eq_dec : EqDecision Byte.byte.
Proof. intros a b. apply Byte.byte_eq_dec. Defined.

(** The text form of a UUID belongs to github.com/google/uuid: a parameter.
    The code relies on one documented fact, that Parse reads what String
    writes. *)
Class UuidLib : Type := {
  uuid_string : uuid -> string;
  uuid_parse : string -> result uuid
}.

Class UuidLaws {U : UuidLib} : Prop := {
  uuid_parse_string : forall u, uuid_parse (uuid_string u) = Ok u
}.

(** A job row, models.go's Job. *)
Record Job : Type := {
  job_ID : uuid;
  job_SenderID : option uuid;
  job_GuestTokenHash : option string;
  job_MailboxID : uuid;
  job_SlotID : uuid;
  job_EncryptedKey : bytes;
  job_BlobRef : string;
  job_PageCount : Z;
  job_Status : string;
  job_RetryCount : Z;
  job_BlobExpiresAt : option Z;
  job_BlobDeletedAt : option Z;
  job_CreatedAt : Z;
  job_DeliveredAt : option Z
}.

Record AuditEvent : Type := {
  audit_JobID : uuid;
  audit_Action : string;
  audit_ActorID : option uuid
}.

(** Query parameters and result rows. *)
Record LockJobForDispatchRow : Type := {
  lock_ID : uuid;
  lock_MailboxID : uuid;
  lock_SlotID : uuid;
  lock_EncryptedKey : bytes;
  lock_BlobRef : string;
  lock_Status : string
}.

Record UpdateJobStatusRow : Type := {
  upd_ID : uuid;
  upd_MailboxID : uuid;
  upd_BlobRef : string;
  upd_Status : string
}.

Record InsertJobParams : Type := {
  ins_SenderID : option uuid;
  ins_GuestTokenHash : option string;
  ins_MailboxID : uuid;
  ins_SlotID : uuid;
  ins_EncryptedKey : bytes;
  ins_BlobRef : string;
  ins_PageCount : Z
}.

Record InsertJobRow : Type := {
  insr_ID : uuid;
  insr_Status : string
}.

Record GetJobForStreamRow : Type := {
  str_ID : uuid;
  str_SenderID : option uuid;
  str_GuestTokenHash : option string;
  str_Status : string
}.

Record ResolveRecipientRow : Type := {
  res_RecipientID : uuid;
  res_SlotID : uuid;
  res_MailboxID : uuid;
  res_PublicKeyPem : string
}.

Record GetActiveRefreshTokenRow : Type := {
  act_ID : uuid;
  act_SenderID : uuid;
  act_ExpiresAt : Z
}.

Record GetSenderByEmailRow : Type := {
  snd_ID : uuid;
  snd_EmailEnc : bytes;
  snd_PasswordHash : string;
  snd_Role : string
}.

Record GetSenderByIDRow : Type := {
  sid_ID : uuid;
  sid_PasswordHash : string;
  sid_Role : string
}.

Record InsertSenderRow : Type := {
  inss_ID : uuid;
  inss_Role : string
}.

Record InsertRefreshTokenParams : Type := {
  irt_SenderID : uuid;
  irt_TokenHash : string;
  irt_ExpiresAt : Z
}.

Record AdminListJobsParams : Type := {
  alj_Status : string;
  alj_RowOffset : Z;
  alj_RowLimit : Z
}.

Record AdminListJobsRow : Type := {
  aljr_ID : uuid;
  aljr_SlotID : uuid;
  aljr_SlotNumber : Z;
  aljr_Status : string;
  aljr_PageCount : Z;
  aljr_CreatedAt : Z;
  aljr_DeliveredAt : option Z
}.

Record SearchRecipientsRow : Type := {
  sr_RecipientID : uuid;
  sr_FullName : string;
  sr_BuildingAddress : string
}.

Record GetJobsBySenderRow : Type := {
  gjs_ID : uuid;
  gjs_Status : string;
  gjs_PageCount : Z;
  gjs_CreatedAt : Z;
  gjs_DeliveredAt : option Z
}.

Record AdminListMailboxesRow : Type := {
  alm_MailboxID : uuid;
  alm_BuildingAddress : string;
  alm_Status : string;
  alm_LastHeartbeatAt : option Z
}.

Record AdminListSlotsRow : Type := {
  als_ID : uuid;
  als_MailboxID : uuid;
  als_SlotNumber : Z;
  als_MaxCount : Z
}.

Record AdminJobStatusCountsRow : Type := {
  ajs_Status : string;
  ajs_Count : Z
}.
