(* ===== verification/Calls.v ===== *)
(** * What the cloud server asks of its environment

    One constructor per SQL statement, Redis command, object-storage request,
    socket operation, clock reading, random draw, log line and response write
    the code makes, and the type of its answer.  The answers are chosen by the
    environment: a theorem about all runs of a program holds whatever Postgres,
    Redis, MinIO and the peers do. *)

From S2P Require Import Prelude Base64 Json Db.

(** A log argument. *)
Inductive logarg : Type :=
| LStr (s : string)
| LErr (e : error)
| LInt (z : Z)
| LStrs (l : list string)
| LSlots (m : gmap string (Z * Z)).

(** A stream message: redis.XMessage.  Values are [interface{}]. *)
Inductive xvalue : Type :=
| XStr (s : string)
| XOther.

Record XMessage : Type := {
  msg_ID : string;
  msg_Values : gmap string xvalue
}.

Record XReadGroupArgs : Type := {
  xrg_Group : string;
  xrg_Consumer : string;
  xrg_Streams : list string;
  xrg_Count : Z;
  xrg_Block : Z
}.

Record XAutoClaimArgs : Type := {
  xac_Stream : string;
  xac_Group : string;
  xac_Consumer : string;
  xac_MinIdle : Z;
  xac_Start : string;
  xac_Count : Z
}.

Record XPendingExtArgs : Type := {
  xpe_Stream : string;
  xpe_Group : string;
  xpe_Start : string;
  xpe_End : string;
  xpe_Count : Z;
  xpe_Consumer : string
}.

Record XInfoConsumer : Type := {
  xic_Name : string;
  xic_Pending : Z;
  xic_Idle : Z
}.

Abbreviation txid := Z (only parsing).
Abbreviation conn := Z (only parsing).
Abbreviation subid := Z (only parsing).
Abbreviation client := Z (only parsing).   (* an object-storage client *)

(** What the blocking select statements wait for. *)
Inductive run_event : Type :=
| RunDone                (* ctx.Done() *)
| RunMsg (ok : bool)     (* a message on the subscription, or its close *)
| RunSweep.              (* the sweep ticker *)

Inductive pump_event : Type :=
| PumpDone
| PumpMsg (m : option json).

Inductive stream_event : Type :=
| StreamCtxDone
| StreamDrain
| StreamMsg (m : option json).

Inductive cloud_call : Type :=
(* Postgres: transactions *)
| TxBegin
| TxLockJobForDispatch (tx : txid) (id : uuid)
| TxMarkJobDispatching (tx : txid) (id : uuid)
| TxCommit (tx : txid)
| TxRollback (tx : txid)
(* Postgres: single statements *)
| QRequeueJob (id : uuid)
| QInsertAuditEvent (ev : AuditEvent)
| QUpdateJobStatus (status : string) (id : uuid)
| QSetJobBlobDeleted (id : uuid)
| QUpdateMailboxLiveness (status : string) (id : uuid)
| QInsertJob (p : InsertJobParams)
| QResolveRecipient (id : uuid)
| QGetJobForStream (id : uuid)
| QAdminListJobs (p : AdminListJobsParams)
| QAdminCountJobs (status : string)
| QGetSenderByEmail (appKey email : string)
| QGetSenderByID (id : uuid)
| QInsertSender (appKey email name passwordHash : string)
| QInsertRefreshToken (p : InsertRefreshTokenParams)
| QGetActiveRefreshToken (hash : string)
| QRevokeRefreshTokenByHash (hash : string)
| QSearchRecipients (appKey query : string)
| QGetJobsBySender (sender : uuid)
| QAdminListMailboxes
| QAdminListSlots
| QAdminJobStatusCounts
| QAdminCountDeliveredSince (since : Z)
| PgPing
(* Redis *)
| RPing
| RGet (key : string)
| RSet (key : string) (val : json) (ttl : Z)
| RPublish (chan : string) (payload : json)
| RSubscribe (chan : string)
| RPSubscribe (pattern : string)
| RReceive (sub : subid)
| RSubClose (sub : subid)
| RXAdd (stream : string) (values : gmap string string)
| RXReadGroup (a : XReadGroupArgs)
| RXAck (stream group id : string)
| RXAutoClaim (a : XAutoClaimArgs)
| RXPendingExt (a : XPendingExtArgs)
| RXGroupDelConsumer (stream group consumer : string)
| RXGroupCreateMkStream (stream group start : string)
| RXInfoConsumers (stream group : string)
(* MinIO *)
| MPresignedGetObject (bucket ref : string) (ttl : Z)
| MPresignedPutObject (bucket ref : string) (ttl : Z)
| MStatObject (bucket ref : string)
| MRemoveObject (bucket ref : string)
| MBucketExists (bucket : string)
| MMakeBucket (bucket : string)
(* WebSocket and the connection registry *)
| WsAccept
| WsRead (c : conn)
| WsWrite (c : conn) (payload : json)
| WsClose (c : conn) (code : Z) (reason : string)
| WsCloseNow (c : conn)
| RegAdd (mailboxID : string) (c : conn)
| RegRemove (mailboxID : string) (c : conn)
| RegConns
| GoPump (c : conn) (sub : subid)
| CancelPump (sub : subid)
| GoCloseConn (c : conn)
(* Process: contexts, selects, clock, randomness, log *)
| CtxErr
| SelectRun (sub : subid)
| SelectPump (sub : subid)
| SelectStream (sub : subid)
| SelectClosed
| SelectDone
| Draining
(* Process: start and stop *)
| Getenv (key : string)
| OsHostname
| OsReadFile (path : string)
| SignalNotify
| StopSignals
| SqlOpen (dsn : string)
| SqlClose
| RedisParseURL (url : string)
| RedisClose
| MinioNew (endpoint accessKey secretKey : string) (secure : bool) (region : string)
| GoDispatcher (nodeID : string)
| GoServe
| GoServeTLS (addr : string)
| GoPprof (addr : string)
| ListenAndServe (addr : string)
| ListenAndServeTLS (addr certFile keyFile : string)
| SelectServe
| SetDeadline (grace : Z)
| CancelDeadline
| StartDraining
| StopDispatcher
| ServerShutdown (addr : string)
| Now
| RandRead (n : nat)
| UuidNew
| Log (fmt : string) (args : list logarg)
(* Libraries with a secret or a cost: bcrypt, JWT *)
| BcryptCompare (hash password : string)
| BcryptGenerate (password : string)
| JwtSign (subject role : string) (issuedAt expiresAt : Z)
| JwtParse (raw : string)
| NextHandler (sender : option (string * string))
(* HTTP response *)
| SetHeader (name value : string)
| WriteHeader (status : Z)
| WriteBody (body : json)
| WriteText (text : string) (body : json)
| Flush
| SetCookie (value : string) (expires maxAge : Z).

Definition cloud_res (c : cloud_call) : Type :=
  match c with
  | TxBegin => result txid
  | TxLockJobForDispatch _ _ => result LockJobForDispatchRow
  | TxMarkJobDispatching _ _ | TxCommit _ => result unit
  | TxRollback _ => unit
  | QRequeueJob _ | QInsertAuditEvent _ | QSetJobBlobDeleted _
  | QUpdateMailboxLiveness _ _ | QInsertRefreshToken _ | QRevokeRefreshTokenByHash _ => result unit
  | QUpdateJobStatus _ _ => result UpdateJobStatusRow
  | QInsertJob _ => result InsertJobRow
  | QResolveRecipient _ => result ResolveRecipientRow
  | QGetJobForStream _ => result GetJobForStreamRow
  | QAdminListJobs _ => result (list AdminListJobsRow)
  | QAdminCountJobs _ => result Z
  | QGetSenderByEmail _ _ => result GetSenderByEmailRow
  | QGetSenderByID _ => result GetSenderByIDRow
  | QInsertSender _ _ _ _ => result InsertSenderRow
  | QGetActiveRefreshToken _ => result GetActiveRefreshTokenRow
  | QSearchRecipients _ _ => result (list SearchRecipientsRow)
  | QGetJobsBySender _ => result (list GetJobsBySenderRow)
  | QAdminListMailboxes => result (list AdminListMailboxesRow)
  | QAdminListSlots => result (list AdminListSlotsRow)
  | QAdminJobStatusCounts => result (list AdminJobStatusCountsRow)
  | QAdminCountDeliveredSince _ => result Z
  | PgPing | RPing => result unit
  | RGet _ => result json
  | RSet _ _ _ => result unit
  | RPublish _ _ => result Z
  | RSubscribe _ | RPSubscribe _ => subid
  | RReceive _ => result unit
  | RSubClose _ => unit
  | RXAdd _ _ => result string
  | RXReadGroup _ => result (list (string * list XMessage))
  | RXAck _ _ _ => result Z
  | RXAutoClaim _ => result (list XMessage * string)
  | RXPendingExt _ => result (list string)
  | RXGroupDelConsumer _ _ _ => result Z
  | RXGroupCreateMkStream _ _ _ => result unit
  | RXInfoConsumers _ _ => result (list XInfoConsumer)
  | MPresignedGetObject _ _ _ | MPresignedPutObject _ _ _ => result string
  | MStatObject _ _ | MRemoveObject _ _ | MMakeBucket _ => result unit
  | MBucketExists _ => result bool
  | WsAccept => result conn
  | WsRead _ => result json
  | WsWrite _ _ | WsClose _ _ _ => result unit
  | WsCloseNow _ => unit
  | RegAdd _ _ | RegRemove _ _ | GoPump _ _ | CancelPump _ | GoCloseConn _ => unit
  | RegConns => list conn
  | CtxErr => bool
  | SelectRun _ => run_event
  | SelectPump _ => pump_event
  | SelectStream _ => stream_event
  | SelectClosed | SelectDone => bool
  | Draining => bool
  | Getenv _ => string
  | OsHostname => result string
  | OsReadFile _ => result bytes
  | SignalNotify | StopSignals | SqlClose | RedisClose => unit
  | SqlOpen _ | RedisParseURL _ => result unit
  | MinioNew _ _ _ _ _ => result client
  | GoDispatcher _ | GoServe | GoServeTLS _ | GoPprof _ => unit
  | ListenAndServe _ | ListenAndServeTLS _ _ _ => error
  | SelectServe => option error
  | SetDeadline _ | CancelDeadline | StartDraining | StopDispatcher => unit
  | ServerShutdown _ => result unit
  | Now => Z
  | RandRead _ => result bytes
  | UuidNew => uuid
  | Log _ _ => unit
  | BcryptCompare _ _ => result unit
  | BcryptGenerate _ => result string
  | JwtSign _ _ _ _ => result string
  | JwtParse _ => result (string * string)
  | NextHandler _ => unit
  | SetHeader _ _ | WriteHeader _ | WriteBody _ | Flush | SetCookie _ _ _ => unit
  | WriteText _ _ => result unit
  end.

Definition cloud_sig : sig := Sig cloud_call cloud_res.

(** A program of the cloud server, and one call of it. *)
Abbreviation cloud := (prog cloud_sig).
Definition ask (c : cloud_call) : cloud (cloud_res c) := @call cloud_sig c.

(** An event of a cloud run. *)
Definition CEv (c : cloud_call) (r : cloud_res c) : event cloud_sig := @Ev cloud_sig c r.

Definition log (fmt : string) (args : list logarg) : cloud unit := ask (Log fmt args).


(** [ctx.Err() != nil] *)
Definition ctx_err : cloud bool := ask CtxErr.

#[export] Hint Unfold ask log ctx_err : prog.

(** ** Tests on events, for statements about runs *)

(** A call that only reads the cache or writes the log. *)
Definition is_read (c : cloud_call) : bool :=
  match c with RGet _ | Log _ _ => true | _ => false end.

Abbreviation quiet := (Forall (fun e : event cloud_sig => is_read (ev_call e) = true)).

Definition locks (tx : Z) (id : uuid) (e : event cloud_sig) : bool :=
  match e with
  | existT (TxLockJobForDispatch tx' id') (Ok _) => bool_decide (tx' = tx) && bool_decide (id' = id)
  | _ => false
  end.

Definition marks (tx : Z) (id : uuid) (e : event cloud_sig) : bool :=
  match e with
  | existT (TxMarkJobDispatching tx' id') (Ok _) => bool_decide (tx' = tx) && bool_decide (id' = id)
  | _ => false
  end.

Definition tries_commit (e : event cloud_sig) : bool :=
  match ev_call e with TxCommit _ => true | _ => false end.

Definition commits (e : event cloud_sig) : bool :=
  match e with existT (TxCommit _) (Ok _) => true | _ => false end.

Definition requeues (id : uuid) (e : event cloud_sig) : bool :=
  match ev_call e with QRequeueJob id' => bool_decide (id' = id) | _ => false end.

Definition publishes (e : event cloud_sig) : bool :=
  match ev_call e with RPublish _ _ => true | _ => false end.

(** A publish that at least one subscriber received. *)
Definition reaches (e : event cloud_sig) : bool :=
  match e with existT (RPublish _ _) (Ok n) => negb (n =? 0)%Z | _ => false end.

(** A publish of exactly this payload on this channel. *)
Definition publishes_on (chan : string) (payload : json -> Prop) (e : event cloud_sig) : Prop :=
  match ev_call e with RPublish c p => c = chan /\ payload p | _ => False end.

Definition xadds (e : event cloud_sig) : bool :=
  match ev_call e with RXAdd _ _ => true | _ => false end.

Definition acks (e : event cloud_sig) : bool :=
  match ev_call e with RXAck _ _ _ => true | _ => false end.

(** Any command on the job stream. *)
Definition on_stream (e : event cloud_sig) : bool :=
  match ev_call e with
  | RXAdd _ _ | RXReadGroup _ | RXAck _ _ _ | RXAutoClaim _ | RXPendingExt _
  | RXGroupDelConsumer _ _ _ | RXGroupCreateMkStream _ _ _ | RXInfoConsumers _ _ => true
  | _ => false
  end.

(** ** Automation for statements about runs *)

(** Every test on events that fails on reads counts nothing in a quiet trace. *)
Lemma quiet_count (P : event cloud_sig -> bool) t :
  (forall e : event cloud_sig, is_read (ev_call e) = true -> P e = false) -> quiet t -> count P t = 0%nat.
Proof. intros H. by apply count_quiet. Qed.

Lemma quiet_forall (P : event cloud_sig -> Prop) (t : trace cloud_sig) :
  (forall e : event cloud_sig, is_read (ev_call e) = true -> P e) -> quiet t -> Forall P t.
Proof. intros H Ht. by eapply Forall_impl. Qed.

Ltac quiet_test :=
  let c := fresh in let r := fresh in intros [c r]; destruct c; cbn; done.

(** Finish a goal about the counts of a trace [t ++ _] with [t] quiet. *)
Ltac count_quiet_parts :=
  repeat match goal with
  | H : quiet ?t |- context [count ?P ?t] => rewrite (quiet_count P t) by (quiet_test || done)
  | H : quiet ?t, H' : context [count ?P ?t] |- _ =>
      rewrite (quiet_count P t) in H' by (quiet_test || done)
  end.
Ltac rewrite_tests :=
  repeat match goal with
  | |- context [bool_decide (?x = ?x)] => rewrite (bool_decide_eq_true_2 (x = x)) by done
  | H : (?x =? ?y)%Z = _ |- context [(?x =? ?y)%Z] => rewrite H
  | H : (?x =? ?y)%Z = ?b, H' : context [(?x =? ?y)%Z] |- _ =>
      lazymatch type of H' with (_ =? _)%Z = _ => fail | _ => rewrite H in H' end
  end.
Ltac same_answer :=
  repeat match goal with
  | H : ?x = Ok ?a, H' : ?x = Ok ?b |- _ => rewrite H in H'; simplify_eq
  end.
Ltac count_trace :=
  cbn beta in *; repeat split; intros; simplify_eq; same_answer; autorewrite with automail in *;
  count_quiet_parts; cbn in *; rewrite_tests; cbn in *; first [done | lia | congruence].

(** Finish a goal [after P Q (t ++ _)] with [t] quiet. *)
Ltac after_trace :=
  apply after_b_spec;
  rewrite ?after_b_app;
  repeat match goal with
  | H : quiet ?t |- context [after_b ?P ?Q ?s ?t] =>
      rewrite (after_b_quiet P Q s t) by (apply quiet_count; [quiet_test|done])
  | H : quiet ?t |- context [List.existsb ?P ?t] =>
      rewrite (existsb_count P t) by (apply quiet_count; [quiet_test|done])
  end;
  cbn; rewrite_tests; done.

(** Split a goal [Forall P (t ++ [e1; ..; en])] with [t] quiet. *)
Ltac forall_trace :=
  repeat match goal with
  | |- Forall _ (_ ++ _) => apply Forall_app; split
  | |- Forall _ [] => apply Forall_nil_2
  | |- Forall _ (_ :: _) => apply Forall_cons_2
  | H : quiet ?t |- Forall _ ?t => apply quiet_forall; [quiet_test|exact H]
  end.
