(* ===== verification/Store.v ===== *)
(** * The printer-state cache

    services/cloud/store/redis.go: the snapshot of a printer's status and slot
    occupancy kept at [mailbox:<id>:state] with a 90 s lifetime. *)

From S2P Require Import Prelude GoStrings Json Keys Db Calls.

Definition printerStateTTL : Z := 90 * second.

(** [Current] and [Max] are Go ints. *)
Record SlotState : Type := {
  Current : Z;
  Max : Z
}.

#[export] Instance SlotState_eq_dec : EqDecision SlotState.
Proof. solve_decision. Defined.

Record PrinterState : Type := {
  ps_Status : string;
  ps_SlotOccupancy : gmap string SlotState
}.

(** ** JSON shape: the struct tags *)

Definition enc_SlotState (s : SlotState) : json :=
  JObj [("current", JInt (Current s)); ("max", JInt (Max s))].

Definition dec_SlotState : decoder SlotState :=
  dec_struct
    [("current", fun s j => (fun c => {| Current := c; Max := Max s |}) <$> dec_int (Current s) j);
     ("max", fun s j => (fun m => {| Current := Current s; Max := m |}) <$> dec_int (Max s) j)].

Definition zero_SlotState : SlotState := {| Current := 0; Max := 0 |}.

Definition enc_PrinterState (st : PrinterState) : json :=
  JObj [("status", JStr (ps_Status st));
        ("slot_occupancy", enc_map enc_SlotState (ps_SlotOccupancy st))].

Definition dec_PrinterState : decoder PrinterState :=
  dec_struct
    [("status", fun st j =>
        (fun s => {| ps_Status := s; ps_SlotOccupancy := ps_SlotOccupancy st |})
        <$> dec_string (ps_Status st) j);
     ("slot_occupancy", fun st j =>
        (fun m => {| ps_Status := ps_Status st; ps_SlotOccupancy := m |})
        <$> dec_map dec_SlotState zero_SlotState (ps_SlotOccupancy st) j)].

Definition zero_PrinterState : PrinterState := {| ps_Status := EmptyString; ps_SlotOccupancy := ∅ |}.

(** A state whose counters are machine integers. *)
Definition slot_int64 (s : SlotState) : Prop :=
  (- 2 ^ 63 <= Current s < 2 ^ 63)%Z /\ (- 2 ^ 63 <= Max s < 2 ^ 63)%Z.
Definition state_int64 (st : PrinterState) : Prop :=
  map_Forall (fun _ => slot_int64) (ps_SlotOccupancy st).

(** ** Operations *)

(** [LookupPrinterState]: [Ok None] is [found = false]. *)
Definition LookupPrinterState (mailboxID : string) : cloud (result (option PrinterState)) :=
  r ← ask (RGet (KeyPrinterState mailboxID));
  match r with
  | Err ErrRedisNil => Ret (Ok None)
  | Err e => Ret (Err e)
  | Ok val =>
      match dec_PrinterState zero_PrinterState val with
      | None => Ret (Err (ErrText "json: cannot unmarshal"))
      | Some state => Ret (Ok (Some state))
      end
  end.

Definition GetPrinterState (mailboxID : string) : cloud (result PrinterState) :=
  r ← LookupPrinterState mailboxID;
  match r with
  | Err e => Ret (Err e)
  | Ok None => Ret (Ok {| ps_Status := "idle"; ps_SlotOccupancy := ∅ |})
  | Ok (Some state) => Ret (Ok state)
  end.

Definition SetPrinterState (mailboxID : string) (state : PrinterState) : cloud (result unit) :=
  ask (RSet (KeyPrinterState mailboxID) (enc_PrinterState state) printerStateTTL).

(** ** Lemmas *)

Lemma dec_int_int64 old z : (- 2 ^ 63 <= z < 2 ^ 63)%Z -> dec_int old (JInt z) = Some z.
Proof.
  intros Hz. cbn [dec_int].
  destruct (Z.leb_spec (- 2 ^ 63) z); [|lia]. destruct (Z.ltb_spec z (2 ^ 63)); [done|lia].
Qed.

Lemma dec_enc_SlotState : dec_enc dec_SlotState enc_SlotState slot_int64.
Proof.
  intros old [c m] [Hc Hm]. cbn in Hc, Hm.
  unfold dec_SlotState, enc_SlotState. cbn -[dec_int].
  rewrite dec_int_int64 by exact Hc. cbn -[dec_int].
  by rewrite dec_int_int64 by exact Hm.
Qed.

Lemma dec_enc_PrinterState st :
  state_int64 st -> dec_PrinterState zero_PrinterState (enc_PrinterState st) = Some st.
Proof.
  intros Hst. destruct st as [s m]. unfold dec_PrinterState, enc_PrinterState.
  cbn -[enc_map dec_map].
  by rewrite (dec_map_enc _ _ _ _ dec_enc_SlotState m Hst).
Qed.

#[export] Hint Resolve dec_enc_SlotState dec_enc_PrinterState : automail.

(** ** Properties *)

(** What SET and GET are relied on for: a successful SET replaces the value of
    its key and of no other, GET answers the value or redis.Nil. *)
Section keyvalue.
Context {W : Type} (h : W -> forall c, W * cloud_res c) (kv : W -> gmap string json).

Record redis_kv : Prop := {
  redis_set : forall w k v ttl,
    kv (h w (RSet k v ttl)).1 = match (h w (RSet k v ttl)).2 with
                                | Ok _ => <[k := v]> (kv w)
                                | Err _ => kv w
                                end;
  redis_get : forall w k,
    match (h w (RGet k)).2 with
    | Ok v => kv w !! k = Some v
    | Err ErrRedisNil => kv w !! k = None
    | Err _ => True
    end
}.

Hypothesis Hkv : redis_kv.

(** What [LookupPrinterState] answers when Redis does. *)
Lemma LookupPrinterState_kv mailboxID w :
  match (interp (S := cloud_sig) h (LookupPrinterState mailboxID) w).2 with
  | Ok None => kv w !! KeyPrinterState mailboxID = None
  | Ok (Some st) => exists val, kv w !! KeyPrinterState mailboxID = Some val
                                /\ dec_PrinterState zero_PrinterState val = Some st
  | Err _ => True
  end.
Proof.
  pose proof (redis_get Hkv w (KeyPrinterState mailboxID)) as Hg.
  unfold LookupPrinterState. cbn -[KeyPrinterState dec_PrinterState].
  destruct (h w (RGet (KeyPrinterState mailboxID))) as [w1 r]. cbn [snd] in Hg.
  destruct r as [val|e]; [|by destruct e].
  destruct (dec_PrinterState zero_PrinterState val) as [st|] eqn:Hd; cbn; eauto.
Qed.

(** C38: The cache hands the dispatcher exactly the state the printer link
    stored.  After a successful [SetPrinterState], a lookup of the same mailbox
    that Redis answers finds that very state (status and every slot's
    occupancy), and never reports the mailbox absent; a lookup of any other
    mailbox is answered from the value its own key had before. *)
Theorem printer_state_roundtrip mailboxID other st w w1 t :
  state_int64 st ->
  interp (S := cloud_sig) h (SetPrinterState mailboxID st) w = (w1, t, Ok tt) ->
  match (interp (S := cloud_sig) h (LookupPrinterState other) w1).2 with
  | Err _ => True
  | Ok found =>
      if decide (other = mailboxID) then found = Some st
      else found = kv w !! KeyPrinterState other ≫= dec_PrinterState zero_PrinterState
  end.
Proof.
  intros Hst Hset. pose proof (LookupPrinterState_kv other w1) as Hl.
  assert (kv w1 = <[KeyPrinterState mailboxID := enc_PrinterState st]> (kv w)) as Hw1.
  { cbn -[KeyPrinterState enc_PrinterState] in Hset.
    pose proof (redis_set Hkv w (KeyPrinterState mailboxID) (enc_PrinterState st) printerStateTTL) as Hs.
    destruct (h w (RSet _ _ _)) as [w' r]. injection Hset as -> <- ->. exact Hs. }
  rewrite Hw1 in Hl. clear Hset Hw1.
  destruct (interp _ (LookupPrinterState other) w1).2 as [found|e]; [|done].
  destruct (decide (other = mailboxID)) as [->|Hne].
  - rewrite lookup_insert_eq in Hl. destruct found as [st'|]; [|done].
    destruct Hl as (val & [= <-] & Hd). rewrite (dec_enc_PrinterState st Hst) in Hd. congruence.
  - rewrite lookup_insert_ne in Hl by (intros H; by apply KeyPrinterState_inj in H).
    destruct found as [st'|].
    + destruct Hl as (val & -> & Hd). by cbn.
    + by rewrite Hl.
Qed.

End keyvalue.
