(* ===== verification/Minio.v ===== *)
(** * Object storage

    services/cloud/minioclient/client.go: the thin layer over minio-go, every
    blob in the one bucket. *)

From S2P Require Import Prelude GoStrings Json Db Calls.

Definition bucket : string := "automail".

Definition EnsureBucket : cloud (result unit) :=
  r ← ask (MBucketExists bucket);
  match r with
  | Err e => Ret (Err e)
  | Ok true => Ret (Ok tt)
  | Ok false => ask (MMakeBucket bucket)
  end.

(** The URL and the blob reference it uploads to. *)
Definition PresignedUploadURL {U : UuidLib} (ttl : Z) : cloud (result (string * string)) :=
  u ← ask UuidNew;
  let blobRef := "blobs/" +:+ uuid_string u in
  r ← ask (MPresignedPutObject bucket blobRef ttl);
  match r with
  | Err e => Ret (Err e)
  | Ok url => Ret (Ok (url, blobRef))
  end.

Definition PresignedReadURL (blobRef : string) (ttl : Z) : cloud (result string) :=
  ask (MPresignedGetObject bucket blobRef ttl).

Definition RemoveBlob (blobRef : string) : cloud (result unit) :=
  ask (MRemoveObject bucket blobRef).

Definition BlobExists (blobRef : string) : cloud (result bool) :=
  r ← ask (MStatObject bucket blobRef);
  match r with
  | Ok _ => Ret (Ok true)
  | Err e =>
      match e with
      | ErrMinio code _ => if String.eqb code "NoSuchKey" then Ret (Ok false) else Ret (Err e)
      | _ => Ret (Err e)
      end
  end.
