(* ===== verification/Dispatch.v ===== *)
(** * Dispatching one job

    services/cloud/dispatch/route.go: the eligibility check, the row-lock
    claim, the publish to the node that holds the printer's socket, and what
    the two callers make of the outcome ([TryDispatch] for a fresh job,
    [Retry] for a queued one). *)

From S2P Require Import Prelude GoStrings Base64 Json Keys Db Calls Store Minio.

Definition PendingStream : string := "jobs:pending".
Definition ConsumerGroup : string := "dispatchers".
Definition presignTTL : Z := 5 * minute.
Definition lockNotAvailable : string := "55P03".

(** ** Job references *)

Record JobRef : Type := {
  jr_JobID : string;
  jr_MailboxID : string;
  jr_SlotID : string;
  jr_EncryptedKey : string;   (* base64 *)
  jr_BlobRef : string
}.

Definition toXAddValues (f : JobRef) : gmap string string :=
  <["job_id" := jr_JobID f]> (<["mailbox_id" := jr_MailboxID f]>
    (<["slot_id" := jr_SlotID f]> (<["encrypted_key" := jr_EncryptedKey f]>
      (<["blob_ref" := jr_BlobRef f]> ∅)))).

Definition get_field (values : gmap string xvalue) (k : string) : result string :=
  match values !! k with
  | None => Err (ErrText ("dispatch: stream message missing field " +:+ k))
  | Some XOther => Err (ErrText ("dispatch: stream field " +:+ k +:+ " is not a string"))
  | Some (XStr s) => Ok s
  end.

Definition JobRefFromValues (values : gmap string xvalue) : result JobRef :=
  match get_field values "job_id" with
  | Err e => Err e
  | Ok job_id =>
  match get_field values "mailbox_id" with
  | Err e => Err e
  | Ok mailbox_id =>
  match get_field values "slot_id" with
  | Err e => Err e
  | Ok slot_id =>
  match get_field values "encrypted_key" with
  | Err e => Err e
  | Ok encrypted_key =>
  match get_field values "blob_ref" with
  | Err e => Err e
  | Ok blob_ref =>
      Ok {| jr_JobID := job_id; jr_MailboxID := mailbox_id; jr_SlotID := slot_id;
            jr_EncryptedKey := encrypted_key; jr_BlobRef := blob_ref |}
  end end end end end.

(** dispatchPayload's JSON. *)
Definition enc_dispatchPayload (jobID encryptedKey blobURL : string) : json :=
  JObj [("type", JStr "dispatch"); ("job_id", JStr jobID);
        ("encrypted_key", JStr encryptedKey); ("blob_url", JStr blobURL)].

(** The values an XADD of strings has when the stream is read. *)
Definition xvalues (m : gmap string string) : gmap string xvalue := XStr <$> m.

Section dispatch.
Context {U : UuidLib}.

Definition FromJob (jobID mailboxID slotID : uuid) (encryptedKey : bytes) (blobRef : string) : JobRef :=
  {| jr_JobID := uuid_string jobID;
     jr_MailboxID := uuid_string mailboxID;
     jr_SlotID := uuid_string slotID;
     jr_EncryptedKey := std_encode encryptedKey;
     jr_BlobRef := blobRef |}.

(** ** Eligibility *)

Definition slotKeys (occ : gmap string SlotState) : list string :=
  sort_strings (elements (dom occ)).

Definition eligible (mailboxID slotID : string) : cloud bool :=
  r ← GetPrinterState mailboxID;
  match r with
  | Err e =>
      log "dispatch: get printer state for mailbox %s: %v" [LStr mailboxID; LErr e];;
      Ret false
  | Ok state =>
      if negb (String.eqb (ps_Status state) "idle") then Ret false
      else
        match ps_SlotOccupancy state !! slotID with
        | None =>
            log "dispatch: mailbox %s reported no slot %s (reported slots: %v) -- if the printer is healthy, its SLOT_ID likely does not match mailbox_slots.id"
              [LStr mailboxID; LStr slotID; LStrs (slotKeys (ps_SlotOccupancy state))];;
            Ret false
        | Some slot => Ret (Current slot <? Max slot)%Z
        end
  end.

(** ** The claim *)

Inductive claimOutcome : Type := claimed | claimLost | claimSettled.

(** [claimJob]; the deferred Rollback runs on every return after BeginTx. *)
Definition claimJob (jobIDStr : string) : cloud (claimOutcome * option error) :=
  match uuid_parse jobIDStr with
  | Err e => Ret (claimSettled, Some e)
  | Ok jobID =>
      b ← ask TxBegin;
      match b with
      | Err e => Ret (claimSettled, Some e)
      | Ok tx =>
          out ←
            (l ← ask (TxLockJobForDispatch tx jobID);
             match l with
             | Err ErrNoRows => Ret (claimSettled, None)
             | Err (ErrPq code msg) =>
                 if String.eqb code lockNotAvailable then Ret (claimLost, None)
                 else Ret (claimSettled, Some (ErrPq code msg))
             | Err e => Ret (claimSettled, Some e)
             | Ok _ =>
                 m ← ask (TxMarkJobDispatching tx jobID);
                 match m with
                 | Err e => Ret (claimSettled, Some e)
                 | Ok _ =>
                     c ← ask (TxCommit tx);
                     match c with
                     | Err e => Ret (claimSettled, Some e)
                     | Ok _ => Ret (claimed, None)
                     end
                 end
             end);
          ask (TxRollback tx);;
          Ret out
      end
  end.

Definition revert (jobIDStr : string) : cloud (result unit) :=
  match uuid_parse jobIDStr with
  | Err e => Ret (Err e)
  | Ok jobID => ask (QRequeueJob jobID)
  end.

Definition enqueue (f : JobRef) : cloud (result string) :=
  r ← ask (RXAdd PendingStream (toXAddValues f));
  match r with
  | Err e => Ret (Err e)
  | Ok _ => Ret (Ok "queued")
  end.

(** ** One attempt *)

Inductive attempt : Type := blocked | settled | dispatching.

(** The tail of [attemptDispatch] once this node owns the job. *)
Definition publishClaimed (f : JobRef) : cloud (result attempt) :=
  u ← PresignedReadURL (jr_BlobRef f) presignTTL;
  match u with
  | Err e => revert (jr_JobID f);; Ret (Err e)
  | Ok readURL =>
      let payload := enc_dispatchPayload (jr_JobID f) (jr_EncryptedKey f) readURL in
      p ← ask (RPublish (ChanDispatch (jr_MailboxID f)) payload);
      match p with
      | Err e => revert (jr_JobID f);; Ret (Err e)
      | Ok receivers =>
          if (receivers =? 0)%Z then
            r ← revert (jr_JobID f);
            match r with
            | Err e => Ret (Err e)
            | Ok _ => Ret (Ok blocked)
            end
          else
            match uuid_parse (jr_JobID f) with
            | Err e => Ret (Err e)
            | Ok jobID =>
                a ← ask (QInsertAuditEvent
                      {| audit_JobID := jobID; audit_Action := "job_dispatched"; audit_ActorID := None |});
                match a with
                | Err e => log "dispatch: job %s: write audit event: %v" [LStr (jr_JobID f); LErr e]
                | Ok _ => Ret tt
                end;;
                Ret (Ok dispatching)
            end
      end
  end.

Definition attemptDispatch (f : JobRef) : cloud (result attempt) :=
  ok ← eligible (jr_MailboxID f) (jr_SlotID f);
  if negb ok then Ret (Ok blocked)
  else
    c ← claimJob (jr_JobID f);
    match c with
    | (_, Some e) => Ret (Err e)
    | (claimLost, None) => Ret (Ok blocked)
    | (claimSettled, None) =>
        log "dispatch: job %s: already settled (not submitted/queued), dropping" [LStr (jr_JobID f)];;
        Ret (Ok settled)
    | (claimed, None) => publishClaimed f
    end.

(** ** The callers *)

Definition TryDispatch (f : JobRef) : cloud (result string) :=
  outcome ← attemptDispatch f;
  match outcome with
  | Err e => Ret (Err e)
  | Ok blocked => enqueue f
  | Ok settled => Ret (Ok "dispatching")
  | Ok dispatching => Ret (Ok "dispatching")
  end.

Definition Retry (f : JobRef) : cloud (result bool) :=
  outcome ← attemptDispatch f;
  match outcome with
  | Err e => Ret (Err e)
  | Ok blocked => Ret (Ok false)
  | Ok _ => Ret (Ok true)
  end.

End dispatch.

(** ** Lemmas on runs *)

Lemma eligible_quiet m s : wp (eligible m s) (fun t _ => quiet t).
Proof.
  unfold eligible, GetPrinterState, LookupPrinterState.
  wp_steps; repeat constructor.
Qed.

(** This job's entry was appended to the stream. *)
Definition enqueues (f : JobRef) (e : event cloud_sig) : bool :=
  match e with
  | existT (RXAdd s v) (Ok _) => bool_decide (s = PendingStream) && bool_decide (v = toXAddValues f)
  | _ => false
  end.

(** Postgres answered that the row of [id] cannot be claimed: no such job, or
    its status is neither submitted nor queued. *)
Definition found_unclaimable (id : uuid) (e : event cloud_sig) : bool :=
  match e with
  | existT (TxLockJobForDispatch _ id') (Err ErrNoRows) => bool_decide (id' = id)
  | _ => false
  end.

(** The run claimed nothing because the row of [f]'s job was found beyond
    claiming. *)
Definition row_settled {U : UuidLib} (f : JobRef) (t : trace cloud_sig) : Prop :=
  count commits t = 0%nat /\ count publishes t = 0%nat
  /\ exists id, uuid_parse (jr_JobID f) = Ok id /\ count (found_unclaimable id) t = 1%nat.

Lemma row_settled_app {U : UuidLib} f t t' :
  count commits t' = 0%nat -> count publishes t' = 0%nat ->
  (forall id, count (found_unclaimable id) t' = 0%nat) ->
  row_settled f t -> row_settled f (t ++ t').
Proof.
  intros Hc Hp Hf (H1 & H2 & id & Hid & H3). split_and!; [rewrite count_app; lia..|].
  exists id. split; [done|]. rewrite count_app, Hf. lia.
Qed.

(** C39: What a queued entry carries survives the stream.  [JobRefFromValues]
    accepts a message exactly when its five fields are the strings
    [toXAddValues] wrote for that very reference (extra fields are ignored); in
    particular it reads back whatever [enqueue] appended, and rejects any
    message with a field missing or not a string. *)
Theorem jobref_roundtrip values f :
  (JobRefFromValues values = Ok f <-> xvalues (toXAddValues f) ⊆ values)
  /\ JobRefFromValues (xvalues (toXAddValues f)) = Ok f.
Proof.
  assert (forall k s, get_field values k = Ok s <-> values !! k = Some (XStr s)) as Hg.
  { intros k s. unfold get_field. destruct (values !! k) as [[]|]; naive_solver. }
  split; [|by destruct f].
  assert (xvalues (toXAddValues f) ⊆ values <->
    values !! "job_id" = Some (XStr (jr_JobID f)) /\ values !! "mailbox_id" = Some (XStr (jr_MailboxID f))
    /\ values !! "slot_id" = Some (XStr (jr_SlotID f))
    /\ values !! "encrypted_key" = Some (XStr (jr_EncryptedKey f))
    /\ values !! "blob_ref" = Some (XStr (jr_BlobRef f))) as ->.
  { rewrite map_subseteq_spec. unfold xvalues, toXAddValues. split.
    - intros H. split_and!; by apply H.
    - intros (H1 & H2 & H3 & H4 & H5) k v. rewrite lookup_fmap, !lookup_insert, lookup_empty.
      repeat case_decide; subst; cbn; congruence. }
  rewrite <- !Hg. unfold JobRefFromValues. destruct f. cbn.
  repeat (case_match; [|naive_solver]). naive_solver.
Qed.

Section runs.
Context {U : UuidLib}.

(** Everything the callers rely on about one attempt. *)
Record attempt_facts (f : JobRef) (t : trace cloud_sig) (r : result attempt) : Prop := {
  af_commits : (count commits t <= 1)%nat;
  af_publishes : (count publishes t <= count commits t)%nat;
  af_settled : forall id, uuid_parse (jr_JobID f) = Ok id ->
    (count commits t = count reaches t + count (requeues id) t)%nat;
  af_dispatching : r = Ok dispatching -> count reaches t = 1%nat;
  af_reach_once : (count reaches t <= count publishes t)%nat;
  af_reached : count reaches t = 1%nat -> r = Ok dispatching;
  af_settled_out : r = Ok settled -> row_settled f t;
  af_blocked : r = Ok blocked -> count reaches t = 0%nat;
  af_stream : count on_stream t = 0%nat
}.

Lemma attempt_runs f : wp (attemptDispatch f) (attempt_facts f).
Proof.
  unfold attemptDispatch.
  eapply wp_bind_spec; [apply eligible_quiet|]. intros t ok Hq. cbn [negb].
  unfold claimJob, publishClaimed, revert, PresignedReadURL.
  wp_steps; split; first [count_trace|done|intros _].
  all: split_and!; [count_trace..|eexists; split; [eassumption|]; count_trace].
Qed.

(** C3: Every claim is accounted for, whatever the environment answers.  One
    attempt commits at most one claim of its job; it publishes at most one
    dispatch frame, and only if it committed; and a committed claim ends in
    exactly one of two ways: a frame that reached a subscriber, with the
    outcome "dispatching", or one RequeueJob statement for that same job.  A
    job is therefore never left claimed by an attempt that gave up on it
    without a RequeueJob having been issued. *)
Theorem attempt_claim_accounted f t r :
  exec (attemptDispatch f) t r ->
  (count commits t <= 1)%nat
  /\ (count publishes t <= count commits t)%nat
  /\ (forall id, uuid_parse (jr_JobID f) = Ok id ->
       (count commits t = count reaches t + count (requeues id) t)%nat)
  /\ (r = Ok dispatching <-> count reaches t = 1%nat).
Proof. intros []%(wp_exec _ _ _ _ (attempt_runs f)). split_and!; auto. by split. Qed.

(** C5: A frame is published only for a job whose claim is durable, and carries
    that job and nothing else.  In any run of one attempt, every publish comes
    after a successful commit, every commit after the row was marked, every
    mark after the row was locked, all in one transaction on this job's row;
    every published frame is this job's dispatch frame, on its own mailbox's
    channel, with its encrypted key unchanged.  If the job id does not parse,
    nothing is committed or published. *)
Theorem publish_follows_claim f t r :
  exec (attemptDispatch f) t r ->
  match uuid_parse (jr_JobID f) with
  | Ok id => exists tx,
      after (locks tx id) (marks tx id) t
      /\ after (marks tx id) tries_commit t
      /\ after commits publishes t
  | Err e =>
      count tries_commit t = 0%nat /\ count publishes t = 0%nat /\ (r = Ok blocked \/ r = Err e)
  end
  /\ Forall (fun e => publishes e = true ->
       publishes_on (ChanDispatch (jr_MailboxID f))
         (fun p => exists url, p = enc_dispatchPayload (jr_JobID f) (jr_EncryptedKey f) url) e) t.
Proof.
  revert t r. apply wp_runs. unfold attemptDispatch.
  eapply wp_bind_spec; [apply eligible_quiet|]. intros t ok Hq. cbn [negb].
  unfold claimJob, publishClaimed, revert, PresignedReadURL.
  wp_steps; cbn beta in Hq.
  all: split; [|forall_trace; unfold publishes_on; cbn; intros; by eauto].
  all: try destruct (uuid_parse (jr_JobID f)) eqn:?; simplify_eq.
  all: try (match goal with
            | |- context [Ev TxBegin (Ok ?tx)] => exists tx
            | |- exists _ : Z, _ => exists 0%Z
            end; repeat split; after_trace).
  all: repeat split; try count_trace; auto.
Qed.

(** C6: A fresh job goes out or is queued, exactly once.  Whenever
    [TryDispatch] answers "queued", the job's own entry was appended to the
    stream, by the only XADD of the run, and no frame reached a printer;
    whenever it answers "dispatching", nothing was appended, and either a frame
    reached a printer or Postgres answered that the row is not there to be
    claimed, with nothing claimed or published.  No other status is ever
    answered, and an attempt that reached a printer is never also queued. *)
Theorem fresh_job_out_or_queued f t r :
  exec (TryDispatch f) t r ->
  (count xadds t + count reaches t <= 1)%nat
  /\ match r with
     | Err _ => count (enqueues f) t = 0%nat /\ count reaches t = 0%nat
     | Ok s =>
         (s = "queued" /\ count (enqueues f) t = 1%nat)
         \/ (s = "dispatching" /\ count xadds t = 0%nat
             /\ (count reaches t = 1%nat \/ row_settled f t))
     end.
Proof.
  revert t r. apply wp_runs. unfold TryDispatch.
  eapply wp_bind_spec; [apply attempt_runs|]. intros t r Hf.
  assert (count xadds t = 0 /\ count (enqueues f) t = 0)%nat as [Hx He].
  { pose proof (af_stream _ _ _ Hf) as H%count_0.
    split; apply count_0; eapply Forall_impl; try exact H; intros [c x]; by destruct c. }
  destruct Hf. assert (count reaches t = 0 \/ r = Ok dispatching)%nat as Hr.
  { destruct (decide (count reaches t = 1)%nat); [auto|lia]. }
  destruct r as [[| |]|e]; unfold enqueue; wp_steps; autorewrite with automail; cbn;
    rewrite_tests; cbn; destruct Hr as [Hr|Hr]; simplify_eq; split; try lia; auto with lia.
  all: first [left; split; [done|lia] | right; split_and!; [done|lia|auto with lia]].
Qed.

(** What a caller of [Retry] relies on. *)
Record retry_facts (f : JobRef) (t : trace cloud_sig) (r : result bool) : Prop := {
  rf_stream : count on_stream t = 0%nat;
  rf_reach_once : (count reaches t <= 1)%nat;
  rf_done : r = Ok true -> count reaches t = 1%nat \/ row_settled f t;
  rf_reached : count reaches t = 1%nat -> r = Ok true;
  rf_not_done : r <> Ok true -> count reaches t = 0%nat;
  rf_handed_back : r <> Ok true -> forall id, uuid_parse (jr_JobID f) = Ok id ->
    count (requeues id) t = count commits t
}.

Lemma retry_runs f : wp (Retry f) (retry_facts f).
Proof.
  unfold Retry. eapply wp_bind_spec; [apply attempt_runs|].
  intros t r [Hcommits Hpub Hset Hdisp Honce Hreached Hsetout Hblocked Hstream].
  assert (count reaches t = 0 \/ r = Ok dispatching)%nat as Hr.
  { destruct (decide (count reaches t = 1)%nat); [auto|lia]. }
  destruct r as [[| |]|e]; cbn; rewrite app_nil_r; split; auto; try lia; try naive_solver;
    intros; destruct Hr as [Hr|Hr]; simplify_eq; auto;
    match goal with H : uuid_parse _ = Ok ?id |- _ => specialize (Hset id H); lia end.
Qed.

(** C7: Retrying never multiplies stream entries, and an entry is only dropped
    when there is nothing left to retry.  [Retry] issues no stream command at
    all; it reports done only if a frame reached a printer, or if Postgres
    answered that the job's row is not there to be claimed (a busy printer or a
    contended row is never done); when it reports "still
    blocked", or fails, no frame reached a printer, and a claim committed on
    the way was handed back by a RequeueJob. *)
Theorem retry_outcome f t r :
  exec (Retry f) t r ->
  count on_stream t = 0%nat
  /\ match r with
     | Ok true => count reaches t = 1%nat \/ row_settled f t
     | Ok false | Err _ =>
         count reaches t = 0%nat
         /\ forall id, uuid_parse (jr_JobID f) = Ok id -> count (requeues id) t = count commits t
     end.
Proof.
  intros []%(wp_exec _ _ _ _ (retry_runs f)).
  split; [done|]. destruct r as [[|]|e]; auto with congruence.
Qed.

End runs.
