(* ===== verification/Dispatcher.v ===== *)
(** * The queue dispatcher

    services/cloud/dispatch/dispatcher.go: the one goroutine per node that
    drains the stream of blocked jobs, reclaims what crashed nodes left
    pending, and removes consumers that are gone. *)

From S2P Require Import Prelude GoStrings Base64 Json Keys Db Calls Store Minio Dispatch.

Definition claimMinIdle : Z := 60 * second.
Definition handleTimeout : Z := 15 * second.
Definition reapMinIdle : Z := 5 * claimMinIdle.
Definition maxDrainBatches : nat := 20.

(** [Dispatcher], without its Deps: those are the environment. *)
Record Dispatcher : Type := {
  di_NodeID : string;
  di_SweepInt : Z;
  di_ReapIdle : Z
}.

Section dispatcher.
Context {U : UuidLib} (di : Dispatcher).

(** Creating the group at the stream's end; BUSYGROUP means it exists. *)
Definition EnsureGroup : cloud (result unit) :=
  r ← ask (RXGroupCreateMkStream PendingStream ConsumerGroup "$");
  match r with
  | Err e => if negb (contains (err_text e) "BUSYGROUP") then Ret (Err e) else Ret (Ok tt)
  | Ok _ => Ret (Ok tt)
  end.

Definition sweepInterval : Z := if (0 <? di_SweepInt di)%Z then di_SweepInt di else claimMinIdle.
Definition reapIdle : Z := if (0 <? di_ReapIdle di)%Z then di_ReapIdle di else reapMinIdle.

Definition ack (id : string) : cloud unit :=
  r ← ask (RXAck PendingStream ConsumerGroup id);
  match r with
  | Err e => log "dispatch: XACK %s: %v" [LStr id; LErr e]
  | Ok _ => Ret tt
  end.

(** [handle].  It runs on a detached context with a timeout, so nothing in it
    looks at the caller's context; a timeout shows as an error answer. *)
Definition handle (msg : XMessage) : cloud unit :=
  match JobRefFromValues (msg_Values msg) with
  | Err e =>
      log "dispatch: malformed stream message %s: %v" [LStr (msg_ID msg); LErr e];;
      ack (msg_ID msg)
  | Ok fields =>
      r ← Retry fields;
      match r with
      | Err e => log "dispatch: job %s: retry failed: %v" [LStr (jr_JobID fields); LErr e]
      | Ok false => Ret tt
      | Ok true => ack (msg_ID msg)
      end
  end.

(** The message loop of [drain]: [true] when the context was cancelled. *)
Fixpoint handle_all (msgs : list XMessage) : cloud bool :=
  match msgs with
  | [] => Ret false
  | msg :: msgs' =>
      handle msg;;
      cancelled ← ctx_err;
      if (cancelled : bool) then Ret true else handle_all msgs'
  end.

Definition readNew : XReadGroupArgs :=
  {| xrg_Group := ConsumerGroup; xrg_Consumer := di_NodeID di;
     xrg_Streams := [PendingStream; ">"]; xrg_Count := 10; xrg_Block := -1 |}.

Fixpoint drain_batches (n : nat) : cloud unit :=
  match n with
  | O => Ret tt
  | S n' =>
      r ← ask (RXReadGroup readNew);
      match r with
      | Err ErrRedisNil => Ret tt
      | Err e => log "dispatch: XREADGROUP: %v" [LErr e]
      | Ok [] => Ret tt
      | Ok ((_, []) :: _) => Ret tt
      | Ok ((_, msgs) :: _) =>
          cancelled ← handle_all msgs;
          if (cancelled : bool) then Ret tt else drain_batches n'
      end
  end.

Definition drain : cloud unit := drain_batches maxDrainBatches.

(** The message loop of [reclaim]. *)
Fixpoint reclaim_all (msgs : list XMessage) : cloud bool :=
  match msgs with
  | [] => Ret false
  | msg :: msgs' =>
      log "dispatch: reclaimed job from crashed consumer: %s" [LStr (msg_ID msg)];;
      handle msg;;
      cancelled ← ctx_err;
      if (cancelled : bool) then Ret true else reclaim_all msgs'
  end.

Definition claimFrom (start : string) : XAutoClaimArgs :=
  {| xac_Stream := PendingStream; xac_Group := ConsumerGroup; xac_Consumer := di_NodeID di;
     xac_MinIdle := claimMinIdle; xac_Start := start; xac_Count := 10 |}.

(** One turn of [reclaim]'s loop. *)
Definition reclaim_page (start : string) : cloud (string + unit) :=
  r ← ask (RXAutoClaim (claimFrom start));
  match r with
  | Err e => log "dispatch: XAUTOCLAIM: %v" [LErr e];; Ret (inr tt)
  | Ok (msgs, next) =>
      cancelled ← reclaim_all msgs;
      if (cancelled : bool) then Ret (inr tt)
      else if String.eqb next "0-0" || (length msgs =? 0)%nat then Ret (inr tt)
      else Ret (inl next)
  end.

(** The loop has no bound of its own; [None] is the fuel running out. *)
Definition reclaim (fuel : nat) : cloud (option unit) := loop fuel reclaim_page "0-0".

Definition allPending (name : string) : XPendingExtArgs :=
  {| xpe_Stream := PendingStream; xpe_Group := ConsumerGroup; xpe_Start := "-"; xpe_End := "+";
     xpe_Count := 1; xpe_Consumer := name |}.

Definition deleteConsumerIfDrained (name : string) : cloud (result bool) :=
  p ← ask (RXPendingExt (allPending name));
  let delete :=
    d ← ask (RXGroupDelConsumer PendingStream ConsumerGroup name);
    match d with
    | Err e => Ret (Err e)
    | Ok _ => Ret (Ok true)
    end in
  match p with
  | Err ErrRedisNil => delete
  | Err e => Ret (Err e)
  | Ok [] => delete
  | Ok (_ :: _) => Ret (Ok false)
  end.

Definition RemoveConsumer : cloud (result unit) :=
  r ← deleteConsumerIfDrained (di_NodeID di);
  match r with
  | Err e => Ret (Err e)
  | Ok false =>
      log "dispatch: consumer %s still has pending entries; left in the group for XAUTOCLAIM"
        [LStr (di_NodeID di)];;
      Ret (Ok tt)
  | Ok true =>
      log "dispatch: removed consumer %s from group %s" [LStr (di_NodeID di); LStr ConsumerGroup];;
      Ret (Ok tt)
  end.

Fixpoint reap_each (consumers : list XInfoConsumer) : cloud unit :=
  match consumers with
  | [] => Ret tt
  | c :: cs =>
      if String.eqb (xic_Name c) (di_NodeID di) || (xic_Idle c <? reapIdle)%Z || (0 <? xic_Pending c)%Z
      then reap_each cs
      else
        r ← deleteConsumerIfDrained (xic_Name c);
        match r with
        | Err e => log "dispatch: reap consumer %s: %v" [LStr (xic_Name c); LErr e]
        | Ok true => log "dispatch: reaped stale consumer %s (idle %s)" [LStr (xic_Name c); LInt (xic_Idle c)]
        | Ok false => Ret tt
        end;;
        reap_each cs
  end.

Definition ReapStaleConsumers : cloud unit :=
  r ← ask (RXInfoConsumers PendingStream ConsumerGroup);
  match r with
  | Err e =>
      if negb (contains (err_text e) "NOGROUP") && negb (bool_decide (e = ErrRedisNil))
      then log "dispatch: XINFO CONSUMERS: %v" [LErr e]
      else Ret tt
  | Ok consumers => reap_each consumers
  end.

(** One turn of [Run]'s select loop; [fuel] bounds a sweep's reclaim. *)
Definition run_turn (fuel : nat) (sub : Z) : cloud (unit + unit) :=
  ev ← ask (SelectRun sub);
  match ev with
  | RunDone => Ret (inr tt)
  | RunMsg false => Ret (inr tt)
  | RunMsg true => drain;; Ret (inl tt)
  | RunSweep => reclaim fuel;; drain;; ReapStaleConsumers;; Ret (inl tt)
  end.

(** [Run] for at most [turns] turns. *)
Definition Run (turns fuel : nat) : cloud (option unit) :=
  sub ← ask (RPSubscribe PatternAvailable);
  drain;;
  r ← loop turns (fun _ => run_turn fuel sub) tt;
  ask (RSubClose sub);;
  Ret r.

End dispatcher.

(** ** What a run received, acknowledged and deleted *)

Definition ev_received (e : event cloud_sig) : list XMessage :=
  match e with
  | existT (RXReadGroup _) (Ok ((_, msgs) :: _)) => msgs
  | existT (RXAutoClaim _) (Ok (msgs, _)) => msgs
  | _ => []
  end.

Definition received (t : trace cloud_sig) : list XMessage := mjoin (ev_received <$> t).

Definition ev_acked (e : event cloud_sig) : list string :=
  match ev_call e with RXAck _ _ id => [id] | _ => [] end.

Definition acked (t : trace cloud_sig) : list string := mjoin (ev_acked <$> t).

(** Stream commands other than acknowledgements. *)
Definition stream_not_ack (e : event cloud_sig) : bool := on_stream e && negb (acks e).

Definition reads (e : event cloud_sig) : bool :=
  match ev_call e with RXReadGroup _ => true | _ => false end.

(** ** Lemmas on runs *)

Lemma received_app t1 t2 : received (t1 ++ t2) = received t1 ++ received t2.
Proof. unfold received. by rewrite fmap_app, join_app. Qed.

Lemma acked_app t1 t2 : acked (t1 ++ t2) = acked t1 ++ acked t2.
Proof. unfold acked. by rewrite fmap_app, join_app. Qed.

Lemma received_cons e t : received (e :: t) = ev_received e ++ received t.
Proof. reflexivity. Qed.

Lemma acked_cons e t : acked (e :: t) = ev_acked e ++ acked t.
Proof. reflexivity. Qed.

(** A run without stream commands receives and acknowledges nothing. *)
Lemma no_stream t : count on_stream t = 0%nat ->
  received t = [] /\ acked t = [] /\ count stream_not_ack t = 0%nat.
Proof.
  intros H%count_0. induction H as [|[c r] t He _ IH]; [done|].
  destruct IH as (H1 & H2 & H3). rewrite received_cons, acked_cons, count_cons, H1, H2, H3.
  by destruct c.
Qed.

#[export] Hint Rewrite received_app acked_app received_cons acked_cons : automail.

(** What handling one message does, whatever the environment answers. *)
Record handle_facts {U : UuidLib} (msg : XMessage) (t : trace cloud_sig) : Prop := {
  hf_received : received t = [];
  hf_acked : acked t = [] \/ acked t = [msg_ID msg];
  hf_stream : count stream_not_ack t = 0%nat;
  hf_reach : (count reaches t <= length (acked t))%nat;
  hf_reason : acked t = [msg_ID msg] ->
    match JobRefFromValues (msg_Values msg) with
    | Err _ => True
    | Ok f => count reaches t = 1%nat \/ row_settled f t
    end;
  hf_malformed : forall e, JobRefFromValues (msg_Values msg) = Err e -> acked t = [msg_ID msg]
}.

Section runs.
Context {U : UuidLib} (di : Dispatcher).

Lemma handle_runs msg : wp (handle msg) (fun t _ => handle_facts msg t).
Proof.
  unfold handle, ack. destruct (JobRefFromValues (msg_Values msg)) as [f|e] eqn:Hf.
  - eapply wp_bind_spec; [apply retry_runs|]. intros t r Hrf.
    destruct (no_stream t (rf_stream _ _ _ Hrf)) as (Hr & Ha & Hs). destruct Hrf.
    assert (forall t', count commits t' = 0%nat -> count publishes t' = 0%nat ->
      (forall id, count (found_unclaimable id) t' = 0%nat) ->
      r = Ok true -> count reaches t + 0 = 1%nat \/ row_settled f (t ++ t')) as Hdone.
    { intros t' ? ? ? [|]%rf_done; [lia|right; by apply row_settled_app]. }
    destruct r as [[|]|e]; wp_steps; split; rewrite ?Hf; autorewrite with automail;
      rewrite ?Hr, ?Ha, ?Hs, ?Nat.add_0_r; cbn; auto; try lia; try done.
    all: try (intros _; rewrite Nat.add_0_r in Hdone; by apply Hdone).
    all: first [specialize (rf_not_done ltac:(done)); lia | congruence].
  - wp_steps; split; rewrite ?Hf; autorewrite with automail; cbn; eauto.
Qed.

(** What a batch of messages does. *)
Record batch_facts (ids : list string) (t : trace cloud_sig) : Prop := {
  bf_received : received t = [];
  bf_acked : acked t `sublist_of` ids;
  bf_stream : count stream_not_ack t = 0%nat;
  bf_reach : (count reaches t <= length (acked t))%nat
}.

Lemma batch_nil ids t : quiet t -> batch_facts ids t.
Proof.
  intros Hq. destruct (no_stream t) as (H1 & H2 & H3); [by apply quiet_count; [quiet_test|]|].
  split; rewrite ?H1, ?H2, ?H3; auto using sublist_nil_l.
  rewrite quiet_count; [lia|quiet_test|done].
Qed.

Lemma batch_one msg t : handle_facts msg t -> batch_facts [msg_ID msg] t.
Proof.
  intros [Hr Ha Hs Hreach _ _]. split; auto.
  destruct Ha as [-> | ->]; [apply sublist_nil_l|done].
Qed.

Lemma batch_app ids1 ids2 t1 t2 :
  batch_facts ids1 t1 -> batch_facts ids2 t2 -> batch_facts (ids1 ++ ids2) (t1 ++ t2).
Proof.
  intros [Hr1 Ha1 Hs1 Hc1] [Hr2 Ha2 Hs2 Hc2]. split; autorewrite with automail.
  - by rewrite Hr1, Hr2.
  - by apply sublist_app.
  - lia.
  - rewrite length_app. lia.
Qed.

Lemma batch_ctx ids t b : batch_facts ids t -> batch_facts ids (t ++ [CEv CtxErr b]).
Proof.
  intros []. split; autorewrite with automail; cbn; rewrite ?app_nil_r; auto; lia.
Qed.

Lemma handle_all_runs msgs :
  wp (handle_all msgs) (fun t _ => batch_facts (msg_ID <$> msgs) t).
Proof.
  induction msgs as [|msg msgs IH]; cbn [handle_all]; [by apply batch_nil|].
  eapply wp_bind_spec; [apply handle_runs|]. intros t1 _ H1%batch_one.
  cbn. intros b. apply (batch_ctx _ _ b) in H1. destruct b; cbn.
  - rewrite <- (app_nil_r (t1 ++ _)). apply (batch_app [_]); [done|by apply batch_nil].
  - eapply wp_mono; [|apply IH]. cbn. intros t2 _ H2.
    change (t1 ++ ?e :: t2) with (t1 ++ [e] ++ t2). rewrite app_assoc.
    by apply (batch_app [_]).
Qed.

Lemma reclaim_all_runs msgs :
  wp (reclaim_all msgs) (fun t _ => batch_facts (msg_ID <$> msgs) t).
Proof.
  induction msgs as [|msg msgs IH]; cbn [reclaim_all]; [by apply batch_nil|].
  autounfold with prog. cbn [prog_bind wp]. intros r.
  eapply wp_bind_spec; [apply handle_runs|]. intros t1 _ H1%batch_one.
  cbn. intros b. apply (batch_ctx _ _ b) in H1.
  apply (batch_app [] _ [Ev (S := cloud_sig) (Log _ _) r]) in H1; [|by apply batch_nil; repeat constructor].
  cbn in H1. destruct b; cbn.
  - rewrite <- (app_nil_r (_ :: t1 ++ _)). apply (batch_app [_]); [exact H1|by apply batch_nil].
  - eapply wp_mono; [|apply IH]. cbn. intros t2 _ H2.
    pose proof (batch_app _ _ _ _ H1 H2) as H. cbn in H. by rewrite <- app_assoc in H.
Qed.

(** Runs of the queue as a whole: the stream commands allowed besides
    acknowledgements, and the acknowledgements among what was received. *)
Record queue_facts (allowed : cloud_call -> Prop) (t : trace cloud_sig) : Prop := {
  qf_stream : Forall (fun e => stream_not_ack e = true -> allowed (ev_call e)) t;
  qf_acked : acked t `sublist_of` (msg_ID <$> received t);
  qf_reach : (count reaches t <= length (acked t))%nat
}.

Lemma queue_app allowed t1 t2 :
  queue_facts allowed t1 -> queue_facts allowed t2 -> queue_facts allowed (t1 ++ t2).
Proof.
  intros [Hs1 Ha1 Hr1] [Hs2 Ha2 Hr2]. split; autorewrite with automail.
  - by apply Forall_app.
  - rewrite fmap_app. by apply sublist_app.
  - rewrite length_app. lia.
Qed.

Lemma queue_quiet allowed t : quiet t -> queue_facts allowed t.
Proof.
  intros Hq. destruct (batch_nil [] t Hq) as [Hr Ha Hs Hc]. split; auto.
  - apply count_0 in Hs. eapply Forall_impl; [exact Hs|]. cbn. congruence.
  - rewrite Hr. exact Ha.
Qed.

Lemma queue_batch_one (allowed : cloud_call -> Prop) e :
  (stream_not_ack e = true -> allowed (ev_call e)) -> ev_received e = [] -> acks e = false -> reaches e = false ->
  queue_facts allowed [e].
Proof.
  intros He Hrec Hack Hreach.
  assert (ev_acked e = []) as Hea by (destruct e as [[] ?]; done).
  split; autorewrite with automail; rewrite ?Hea, ?Hrec, ?Hreach; cbn; auto.
Qed.

(** A page of messages, then what handling them did. *)
Lemma queue_batch allowed e t :
  batch_facts (msg_ID <$> ev_received e) t -> acks e = false -> reaches e = false ->
  allowed (ev_call e) -> queue_facts allowed (e :: t).
Proof.
  intros [Hr Ha Hs Hc] Hack Hreach He.
  assert (ev_acked e = []) as Hea by (destruct e as [[] ?]; done).
  split; autorewrite with automail; rewrite ?Hea, ?Hr, ?app_nil_r, ?Hreach; cbn; auto.
  apply Forall_cons. split; [auto|]. apply count_0 in Hs.
  eapply Forall_impl; [exact Hs|]. cbn. congruence.
Qed.

Lemma drain_runs n :
  wp (drain_batches di n) (fun t _ =>
    (count reads t <= n)%nat /\ queue_facts (fun c => c = RXReadGroup (readNew di)) t).
Proof.
  induction n as [|n IH]; cbn [drain_batches].
  { split; [done|]. by apply queue_quiet. }
  autounfold with prog. cbn [prog_bind wp]. intros r.
  assert (forall t, batch_facts (msg_ID <$> ev_received (CEv (RXReadGroup (readNew di)) r)) t ->
    queue_facts (fun c => c = RXReadGroup (readNew di)) (CEv (RXReadGroup (readNew di)) r :: t)) as Hb.
  { intros t Ht. by apply queue_batch. }
  assert (forall ids t, batch_facts ids t -> count reads t = 0%nat) as Hreads.
  { intros ids t [_ _ H%count_0 _]. apply count_0. eapply Forall_impl; [exact H|].
    intros [c x]. by destruct c. }
  destruct r as [[|[s [|m ms]] ss]|e].
  1, 2: cbn; split; [rewrite count_cons, count_nil; cbn; lia|apply Hb; by apply batch_nil].
  - eapply wp_bind_spec; [apply handle_all_runs|]. intros t b Ht. cbn in Ht.
    pose proof (Hb _ Ht) as Hq. pose proof (Hreads _ _ Ht) as Hc. destruct b; cbn.
    + rewrite app_nil_r. split; [rewrite count_cons, Hc; cbn; lia|exact Hq].
    + eapply wp_mono; [|exact IH]. cbn. intros t' _ [Hn Hq'].
      split; [rewrite count_cons, count_app, Hc; cbn; lia|].
      change (?e :: t ++ t') with ((e :: t) ++ t'). by apply queue_app.
  - destruct e; cbn; intros; (split; [rewrite !count_cons, count_nil; cbn; lia|]);
      apply Hb; apply batch_nil; repeat constructor.
Qed.

Lemma queue_mono (P Q : cloud_call -> Prop) t :
  (forall c, P c -> Q c) -> queue_facts P t -> queue_facts Q t.
Proof.
  intros HPQ [Hs Ha Hr]. split; auto. eapply Forall_impl; [exact Hs|]. cbn. auto.
Qed.

(** A run without messages, acknowledgements or frames. *)
Lemma queue_plain (allowed : cloud_call -> Prop) t :
  Forall (fun e => (stream_not_ack e = true -> allowed (ev_call e)) /\
            ev_received e = [] /\ acks e = false /\ reaches e = false) t ->
  queue_facts allowed t.
Proof.
  induction 1 as [|e t (He & Hrec & Hack & Hreach) _ IH]; [by apply queue_quiet|].
  apply (queue_app _ [e]); [|exact IH].
  apply queue_batch_one; auto.
Qed.

Lemma reclaim_page_runs s :
  wp (reclaim_page di s) (fun t _ => queue_facts (fun c => exists s, c = RXAutoClaim (claimFrom di s)) t).
Proof.
  unfold reclaim_page. autounfold with prog. cbn [prog_bind wp]. intros r.
  assert (forall t, batch_facts (msg_ID <$> ev_received (CEv (RXAutoClaim (claimFrom di s)) r)) t ->
    queue_facts (fun c => exists s, c = RXAutoClaim (claimFrom di s)) (CEv (RXAutoClaim (claimFrom di s)) r :: t)) as Hb.
  { intros t Ht. apply queue_batch; eauto. }
  destruct r as [[msgs next]|e].
  - eapply wp_bind_spec; [apply reclaim_all_runs|]. intros t b Ht. cbn in Ht. apply Hb in Ht.
    rewrite <- (app_nil_r (_ :: t)) in Ht. by repeat case_match; cbn.
  - cbn. intros r. apply Hb, batch_nil. repeat constructor.
Qed.

Lemma loop_runs {St A} (body : St -> cloud (St + A)) allowed fuel s :
  (forall s, wp (body s) (fun t _ => queue_facts allowed t)) ->
  wp (loop fuel body s) (fun t _ => queue_facts allowed t).
Proof.
  intros Hb. eapply (wp_loop body (fun t _ => queue_facts allowed t) (fun t _ => queue_facts allowed t) )
    with (t := []); [done| |by apply queue_quiet].
  intros t s' Ht. eapply wp_mono; [|apply Hb]. intros t' [?|?] Ht'; by apply queue_app.
Qed.

Lemma reclaim_runs fuel :
  wp (reclaim di fuel) (fun t _ => queue_facts (fun c => exists s, c = RXAutoClaim (claimFrom di s)) t).
Proof. apply loop_runs, reclaim_page_runs. Qed.

(** The stream commands a node's dispatcher ever issues besides
    acknowledgements. *)
Definition run_command (c : cloud_call) : Prop :=
  match c with
  | RXReadGroup a => a = readNew di
  | RXAutoClaim a => exists s, a = claimFrom di s
  | RXPendingExt a => exists name, a = allPending name
  | RXGroupDelConsumer s g name => s = PendingStream /\ g = ConsumerGroup /\ name <> di_NodeID di
  | RXInfoConsumers s g => s = PendingStream /\ g = ConsumerGroup
  | _ => False
  end.

Lemma delete_runs name :
  name <> di_NodeID di ->
  wp (deleteConsumerIfDrained name) (fun t _ => queue_facts run_command t).
Proof.
  intros Hn. unfold deleteConsumerIfDrained.
  wp_steps; apply queue_plain; repeat apply Forall_cons_2; cbn; auto; split_and!; cbn; eauto.
Qed.

Lemma reap_each_runs cs : wp (reap_each di cs) (fun t _ => queue_facts run_command t).
Proof.
  induction cs as [|c cs IH]; cbn [reap_each]; [by apply queue_quiet|].
  destruct (String.eqb_spec (xic_Name c) (di_NodeID di)); cbn [orb]; [exact IH|].
  case_match; [exact IH|].
  eapply wp_bind_spec; [by apply delete_runs|]. intros t1 r H1.
  apply (wp_bind_spec _ _ (fun t _ => queue_facts run_command t)).
  - destruct r as [[]|e]; [|by apply queue_quiet|]; cbn; intros; apply queue_quiet; repeat constructor.
  - intros t2 _ H2. eapply wp_mono; [|exact IH]. cbn. intros t3 _ H3. repeat apply queue_app; auto.
Qed.

Lemma reap_runs : wp (ReapStaleConsumers di) (fun t _ => queue_facts run_command t).
Proof.
  unfold ReapStaleConsumers. autounfold with prog. cbn [prog_bind wp]. intros r.
  assert (queue_facts run_command [CEv (RXInfoConsumers PendingStream ConsumerGroup) r]).
  { apply queue_plain, Forall_cons_2; [|done]. by split_and!. }
  destruct r as [cs|e]; cbn beta iota.
  - eapply wp_mono; [|apply reap_each_runs]. cbn. intros t _ Ht. by apply (queue_app _ [_]).
  - case_match; cbn; [intros r|done].
    apply (queue_app _ [_]); [done|]. apply queue_quiet. repeat constructor.
Qed.

Lemma run_turn_runs fuel sub : wp (run_turn di fuel sub) (fun t _ => queue_facts run_command t).
Proof.
  unfold run_turn, ask, call. cbn [mbind prog_mbind prog_bind wp]. intros ev.
  assert (queue_facts run_command [CEv (SelectRun sub) ev]) as He.
  { apply queue_plain, Forall_cons_2; [|done]. by split_and!. }
  assert (wp (drain di) (fun t _ => queue_facts run_command t)) as Hd.
  { eapply wp_mono; [|apply drain_runs]. intros t _ [_ Ht]. eapply queue_mono; [|exact Ht].
    by intros c ->. }
  assert (wp (reclaim di fuel) (fun t _ => queue_facts run_command t)) as Hr.
  { eapply wp_mono; [|apply reclaim_runs]. intros t o Ht. eapply queue_mono; [|exact Ht].
    intros c (s' & Hc). rewrite Hc. by exists s'. }
  destruct ev as [|[]|]; [done| |done|].
  - eapply wp_bind_spec; [exact Hd|]. cbn. intros t _ Ht. rewrite app_nil_r. by apply (queue_app _ [_]).
  - eapply wp_bind_spec; [exact Hr|]. intros t1 o1 H1.
    eapply wp_bind_spec; [exact Hd|]. intros t2 o2 H2.
    eapply wp_bind_spec; [exact reap_runs|]. cbn. intros t3 o3 H3. rewrite app_nil_r.
    apply (queue_app _ [_]); [done|]. repeat apply queue_app; auto.
Qed.

Lemma Run_runs turns fuel : wp (Run di turns fuel) (fun t _ => queue_facts run_command t).
Proof.
  unfold Run, ask, call. cbn [mbind prog_mbind prog_bind wp]. intros sub.
  assert (forall c r, on_stream (CEv c r) = false -> reaches (CEv c r) = false ->
    queue_facts run_command [CEv c r]) as He.
  { intros c r Hs Hr. apply queue_plain, Forall_cons_2; [|done].
    unfold stream_not_ack. rewrite Hs. split_and!; [done| | |done]; by destruct c. }
  eapply wp_bind_spec; [apply drain_runs|]. intros t1 _ [_ H1].
  eapply wp_bind_spec; [apply loop_runs; intros; apply run_turn_runs|]. cbn. intros t2 r H2 [].
  apply (queue_app _ [_]); [by apply He|].
  apply (queue_mono _ run_command) in H1; [|by intros c ->].
  repeat apply queue_app; auto.
Qed.

(** The dispatcher goroutine as a whole, for as many turns as one likes and
    whatever Postgres, Redis, MinIO and the clock answer: it never appends to
    the stream; every read is the node's own bounded non-blocking read of new
    entries, every claim is for its own consumer, every deletion spares its own
    consumer; the ids it acknowledges are, in order, among the ids it was
    given; and every frame that reached a printer is paid for by an
    acknowledgement. *)
Theorem run_accounted turns fuel t a :
  exec (Run di turns fuel) t a ->
  Forall (fun e => stream_not_ack e = true -> run_command (ev_call e)) t
  /\ acked t `sublist_of` (msg_ID <$> received t)
  /\ (count reaches t <= length (acked t))%nat.
Proof. intros []%(wp_exec _ _ _ _ (Run_runs _ _)). auto. Qed.

(** One drain is bounded and acknowledges only what it received.  Whatever
    the environment answers, [drain] makes at most [maxDrainBatches] reads, all
    of them non-blocking reads of at most ten new entries for this node's own
    consumer; the acknowledged ids are, in order and without repetition beyond
    the stream's own, ids of messages this drain was given; it issues no other
    stream command (so it never appends, reclaims or deletes); and there are at
    least as many acknowledgements as frames that reached a printer, so a
    dispatched entry is never left pending. *)
Theorem drain_bounded t a :
  exec (drain di) t a ->
  (count reads t <= maxDrainBatches)%nat
  /\ Forall (fun e => stream_not_ack e = true -> ev_call e = RXReadGroup (readNew di)) t
  /\ acked t `sublist_of` (msg_ID <$> received t)
  /\ (count reaches t <= length (acked t))%nat.
Proof. intros [Hn []]%(wp_exec _ _ _ _ (drain_runs _)). auto. Qed.

(** C8: An entry leaves the queue only when its job is out or beyond retrying.
    Handling one message acknowledges nothing or exactly that message; it
    does acknowledge it when the message is malformed, or when a frame reached
    a printer; and if it acknowledges a well-formed message then a frame
    reached a printer, or Postgres answered that the job's row is not there to
    be claimed, with nothing claimed or published.  It
    issues no other stream command, so a blocked entry stays pending once. *)
Theorem handle_acks_settled_only msg t a :
  exec (handle msg) t a ->
  (acked t = [] \/ acked t = [msg_ID msg])
  /\ count stream_not_ack t = 0%nat
  /\ match JobRefFromValues (msg_Values msg) with
     | Err _ => acked t = [msg_ID msg]
     | Ok f => (count reaches t = 1%nat -> acked t = [msg_ID msg])
               /\ (acked t = [msg_ID msg] -> count reaches t = 1%nat \/ row_settled f t)
     end.
Proof.
  intros [Hr Ha Hs Hreach Hreason Hmal]%(wp_exec _ _ _ _ (handle_runs _)).
  split_and!; auto. destruct (JobRefFromValues _); [|eauto]. split; [|exact Hreason].
  intros H. destruct Ha as [Ha|]; [rewrite Ha in Hreach; cbn in Hreach; lia|done].
Qed.

End runs.
