(* ===== verification/Env.v ===== *)
(** * A reference environment

    A small executable world that answers the cloud server's calls: a Redis
    with string keys, one stream with one consumer group and channel
    subscribers, a Postgres with job statuses, one client at a time.  The laws
    the theorems assume of the environment hold of it, and the concrete runs
    that witness the theorems are runs against it. *)

From S2P Require Import Prelude GoStrings Base64 Json Keys Db Calls Store.
From stdpp Require Import sorting.
From Stdlib Require BinaryString.

(** ** The library parameters, instantiated *)

(** UUIDs written in binary. *)
#[export] Instance ref_uuid : UuidLib := {|
  uuid_string := fun u => BinaryString.of_N (uuid_bits u);
  uuid_parse := fun s =>
    let n := BinaryString.to_N s in
    if String.eqb (BinaryString.of_N n) s then Ok (Uuid n) else Err (ErrText "invalid UUID")
|}.

#[export] Instance ref_uuid_laws : UuidLaws.
Proof.
  split. intros [n]. cbn. rewrite BinaryString.to_N_of_N.
  by rewrite String.eqb_refl.
Qed.

(** ** Answers to the calls the world does not model *)

Definition default_res (c : cloud_call) : cloud_res c :=
  match c with
  | TxBegin => Ok 1%Z
  | TxLockJobForDispatch _ _ => Err ErrNoRows
  | TxMarkJobDispatching _ _ | TxCommit _ => Ok tt
  | TxRollback _ => tt
  | QRequeueJob _ | QInsertAuditEvent _ | QSetJobBlobDeleted _
  | QUpdateMailboxLiveness _ _ | QInsertRefreshToken _ | QRevokeRefreshTokenByHash _ => Ok tt
  | QUpdateJobStatus _ _ => Err ErrNoRows
  | QInsertJob _ => Ok {| insr_ID := Uuid 1; insr_Status := "submitted" |}
  | QResolveRecipient _ => Err ErrNoRows
  | QGetJobForStream _ => Err ErrNoRows
  | QAdminListJobs _ => Ok []
  | QAdminCountJobs _ => Ok 0%Z
  | QGetSenderByEmail _ _ => Err ErrNoRows
  | QGetSenderByID _ => Err ErrNoRows
  | QInsertSender _ _ _ _ => Ok {| inss_ID := Uuid 1; inss_Role := "user" |}
  | QGetActiveRefreshToken _ => Err ErrNoRows
  | QSearchRecipients _ _ => Ok []
  | QGetJobsBySender _ => Ok []
  | QAdminListMailboxes => Ok []
  | QAdminListSlots => Ok []
  | QAdminJobStatusCounts => Ok []
  | QAdminCountDeliveredSince _ => Ok 0%Z
  | PgPing | RPing => Ok tt
  | RGet _ => Err ErrRedisNil
  | RSet _ _ _ => Ok tt
  | RPublish _ _ => Ok 0%Z
  | RSubscribe _ | RPSubscribe _ => 1%Z
  | RReceive _ => Ok tt
  | RSubClose _ => tt
  | RXAdd _ _ => Ok "1"
  | RXReadGroup _ => Err ErrRedisNil
  | RXAck _ _ _ => Ok 0%Z
  | RXAutoClaim _ => Ok ([], "0-0")
  | RXPendingExt _ => Ok []
  | RXGroupDelConsumer _ _ _ => Ok 0%Z
  | RXGroupCreateMkStream _ _ _ => Ok tt
  | RXInfoConsumers _ _ => Ok []
  | MPresignedGetObject _ ref _ => Ok ("https://minio/" +:+ ref)
  | MPresignedPutObject _ ref _ => Ok ("https://minio/" +:+ ref)
  | MStatObject _ _ | MRemoveObject _ _ | MMakeBucket _ => Ok tt
  | MBucketExists _ => Ok true
  | WsAccept => Ok 1%Z
  | WsRead _ => Err (ErrText "EOF")
  | WsWrite _ _ | WsClose _ _ _ => Ok tt
  | WsCloseNow _ => tt
  | RegAdd _ _ | RegRemove _ _ | GoPump _ _ | CancelPump _ | GoCloseConn _ => tt
  | RegConns => []
  | CtxErr => false
  | SelectRun _ => RunDone
  | SelectPump _ => PumpDone
  | SelectStream _ => StreamCtxDone
  | SelectClosed | SelectDone => true
  | Draining => false
  | Getenv _ => EmptyString
  | OsHostname => Ok "node"
  | OsReadFile _ => Err (ErrText "no such file or directory")
  | SignalNotify | StopSignals | SqlClose | RedisClose => tt
  | SqlOpen _ | RedisParseURL _ => Ok tt
  | MinioNew _ _ _ _ _ => Ok 1%Z
  | GoDispatcher _ | GoServe | GoServeTLS _ | GoPprof _ => tt
  | ListenAndServe _ | ListenAndServeTLS _ _ _ => ErrText "http: Server closed"
  | SelectServe => None
  | SetDeadline _ | CancelDeadline | StartDraining | StopDispatcher => tt
  | ServerShutdown _ => Ok tt
  | Now => 0%Z
  | RandRead n => Ok (repeat Byte.x00 n)
  | UuidNew => Uuid 1
  | Log _ _ => tt
  | BcryptCompare _ _ => Ok tt
  | BcryptGenerate _ => Ok "hash"
  | JwtSign _ _ _ _ => Ok "jwt"
  | JwtParse _ => Err (ErrText "token is malformed")
  | NextHandler _ => tt
  | SetHeader _ _ | WriteHeader _ | WriteBody _ | Flush | SetCookie _ _ _ => tt
  | WriteText _ _ => Ok tt
  end.

(** ** The world *)

Record world : Type := {
  w_kv : gmap string json;                       (* string keys *)
  w_new : list XMessage;                         (* entries not yet delivered *)
  w_pel : gmap string (XMessage * string);       (* delivered entries and their consumers *)
  w_next : nat;                                  (* the next stream id *)
  w_subs : list string;                          (* subscribed channels *)
  w_jobs : gmap uuid string;                     (* job statuses *)
  w_marked : list uuid                           (* marked by the open transaction *)
}.

Definition with_kv f w := {| w_kv := f (w_kv w); w_new := w_new w; w_pel := w_pel w;
  w_next := w_next w; w_subs := w_subs w; w_jobs := w_jobs w; w_marked := w_marked w |}.
Definition with_stream new pel next w := {| w_kv := w_kv w; w_new := new; w_pel := pel;
  w_next := next; w_subs := w_subs w; w_jobs := w_jobs w; w_marked := w_marked w |}.
Definition with_jobs f marked w := {| w_kv := w_kv w; w_new := w_new w; w_pel := w_pel w;
  w_next := w_next w; w_subs := w_subs w; w_jobs := f (w_jobs w); w_marked := marked |}.

Definition stream_id (n : nat) : string := BinaryString.of_nat n.
Definition id_rank (s : string) : nat := BinaryString.to_nat s.

(** Pending entries in the order of their ids. *)
Abbreviation pending_entry := (string * (XMessage * string))%type.
Definition id_le (e1 e2 : pending_entry) : Prop := (id_rank e1.1 <= id_rank e2.1)%nat.
#[export] Instance id_le_dec : RelDecision id_le.
Proof. intros e1 e2. unfold id_le. apply _. Defined.

(** Stream ids are finite in number, as Redis's are. *)
Definition max_id : nat := 64.

Definition lock_row (id : uuid) (status : string) : LockJobForDispatchRow :=
  {| lock_ID := id; lock_MailboxID := Uuid 1; lock_SlotID := Uuid 1; lock_EncryptedKey := [];
     lock_BlobRef := "blobs/1"; lock_Status := status |}.

Definition env (w : world) (c : cloud_call) : world * cloud_res c :=
  match c as c return world * cloud_res c with
  | RGet k => (w, match w_kv w !! k with Some v => Ok v | None => Err ErrRedisNil end)
  | RSet k v _ => (with_kv (insert k v) w, Ok tt)
  | RPublish chan _ => (w, Ok (if List.existsb (String.eqb chan) (w_subs w) then 1%Z else 0%Z))
  | RXAdd _ vs =>
      if (w_next w <? max_id)%nat
      then (with_stream (w_new w ++ [{| msg_ID := stream_id (w_next w); msg_Values := XStr <$> vs |}])
              (w_pel w) (S (w_next w)) w, Ok (stream_id (w_next w)))
      else (w, Err (ErrText "ERR The stream has exhausted the last possible ID"))
  | RXReadGroup a =>
      match List.filter (fun m => bool_decide (w_pel w !! msg_ID m = None)) (w_new w) with
      | [] => (w, Err ErrRedisNil)
      | msgs =>
          let n := Z.to_nat (xrg_Count a) in
          (with_stream (drop n msgs)
             (w_pel w ∪ list_to_map ((fun m => (msg_ID m, (m, xrg_Consumer a))) <$> take n msgs))
             (w_next w) w,
           Ok [("jobs:pending", take n msgs)])
      end
  | RXAck _ _ id => (with_stream (w_new w) (delete id (w_pel w)) (w_next w) w, Ok 1%Z)
  | RXAutoClaim a =>
      let cand := List.filter (fun e => id_rank (xac_Start a) <=? id_rank e.1)%nat
                    (merge_sort id_le (map_to_list (w_pel w))) in
      let n := Z.to_nat (xac_Count a) in
      (with_stream (w_new w)
         (foldr (fun e => alter (fun v => (v.1, xac_Consumer a)) e.1) (w_pel w) (take n cand)) (w_next w) w,
       Ok ((fun e => e.2.1) <$> take n cand,
           match drop n cand with
           | e :: _ => if (id_rank (xac_Start a) <? id_rank e.1)%nat && (id_rank e.1 <? max_id)%nat
                       then e.1 else "0-0"
           | [] => "0-0"
           end))
  | RXPendingExt a => (w, Ok (map_to_list (filter (fun kv => kv.2.2 = xpe_Consumer a) (w_pel w))).*1)
  | RXGroupDelConsumer _ _ name =>
      (with_stream (w_new w) (filter (fun kv => kv.2.2 <> name) (w_pel w)) (w_next w) w, Ok 0%Z)
  | RXInfoConsumers _ _ =>
      (w, Ok [{| xic_Name := "node-a"; xic_Pending := 0; xic_Idle := 0 |};
              {| xic_Name := "node-b"; xic_Pending := 0; xic_Idle := 3600 * second |}])
  | TxLockJobForDispatch _ id =>
      (w, match w_jobs w !! id with
          | Some s => if String.eqb s "submitted" || String.eqb s "queued"
                      then Ok (lock_row id s) else Err ErrNoRows
          | None => Err ErrNoRows
          end)
  | TxMarkJobDispatching _ id => (with_jobs (fun m => m) (id :: w_marked w) w, Ok tt)
  | TxCommit _ => (with_jobs (fun m => foldr (fun id => insert id "dispatching") m (w_marked w)) [] w, Ok tt)
  | TxRollback _ => (with_jobs (fun m => m) [] w, tt)
  | QRequeueJob id => (with_jobs (alter (fun _ => "queued") id) [] w, Ok tt)
  | c => (w, default_res c)
  end.

Definition empty_world : world :=
  {| w_kv := ∅; w_new := []; w_pel := ∅; w_next := 1; w_subs := []; w_jobs := ∅; w_marked := [] |}.

(** A run of a program from a world. *)
Abbreviation run p w := (interp (S := cloud_sig) env p w).

(** ** The laws of the key-value commands *)

Lemma env_kv : redis_kv env w_kv.
Proof. split; intros w k; [done|]. cbn. by destruct (w_kv w !! k). Qed.
