(* ===== verification/Groups.v ===== *)
(** * The dispatcher and the stream's consumer group

    The pending entries list (PEL) of the dispatchers' group, by Redis's
    documented rules.  First what one node's drain and reclaim do while no
    other client changes the list; then, for any number of clients, how an
    entry can leave the list while a node's dispatcher runs. *)

From S2P Require Import Prelude GoStrings Base64 Json Keys Db Calls Store Minio Dispatch Dispatcher Env.
From stdpp Require Import sorting.

(** The consumer a pending entry belongs to, by entry id. *)
Abbreviation pending_list := (gmap string string).

(** Redis's rules for the list, as one client sees them while no other changes
    it: XREADGROUP with [>] delivers only entries never delivered before and
    keeps the pending ones; XACK removes at most the entry it names; commands on
    other keys leave it alone. *)
Record redis_group {W : Type} (h : W -> forall c, W * cloud_res c) (pel : W -> pending_list) : Prop := {
  rg_read : forall w a, xrg_Streams a = [PendingStream; ">"] ->
    pel w ⊆ pel (h w (RXReadGroup a)).1
    /\ match (h w (RXReadGroup a)).2 with
       | Ok ((_, msgs) :: _) => Forall (fun m => pel w !! msg_ID m = None) msgs
       | _ => True
       end;
  rg_ack : forall w s g id,
    pel (h w (RXAck s g id)).1 = pel w \/ pel (h w (RXAck s g id)).1 = delete id (pel w);
  rg_other : forall w c,
    on_stream (Ev (S := cloud_sig) c (h w c).2) = false -> pel (h w c).1 = pel w
}.

(** Redis's rule for the XAUTOCLAIM cursor: it moves forward through the ids,
    of which there are finitely many, until it answers [0-0]. *)
Record redis_cursor {W : Type} (h : W -> forall c, W * cloud_res c)
    (rank : string -> nat) (bound : nat) : Prop := {
  rc_start : rank "0-0" = 0%nat;
  rc_next : forall w a msgs next, (h w (RXAutoClaim a)).2 = Ok (msgs, next) ->
    next <> "0-0" -> (rank (xac_Start a) < rank next < bound)%nat
}.

Section groups.
Context {U : UuidLib} {W : Type} (h : W -> forall c, W * cloud_res c).
Context (pel : W -> pending_list).
Hypothesis Hg : redis_group h pel.

Abbreviation wpc := (wps (S := cloud_sig) h).

(** A run whose only stream commands are acknowledgements changes only the
    entries it acknowledges. *)
Lemma acks_only {A} (p : cloud A) w :
  wpc p w (fun w' t _ => Forall (fun e => stream_not_ack e = false) t ->
    forall id, id ∉ acked t -> pel w' !! id = pel w !! id).
Proof.
  revert w. induction p as [a|c k IH]; intros w; [done|].
  apply wps_vis. eapply wps_mono; [|apply (IH (h w c).2)].
  intros w' t a Hw [He Ht]%Forall_cons id Hid.
  rewrite acked_cons in Hid. rewrite (Hw Ht id) by set_solver.
  enough (pel (h w c).1 !! id = pel w !! id) as H by exact H.
  unfold stream_not_ack in He. apply andb_false_iff in He as [He|He].
  - by rewrite (rg_other _ _ Hg w c He).
  - destruct c; try done. cbn in Hid.
    destruct (rg_ack _ _ Hg w stream group id0) as [-> | ->]; [done|].
    apply lookup_delete_ne. set_solver.
Qed.

(** ** Draining *)

Lemma handle_all_keeps msgs w :
  wpc (handle_all msgs) w (fun w' t _ =>
    received t = [] /\ forall id, id ∉ msg_ID <$> msgs -> pel w' !! id = pel w !! id).
Proof.
  eapply wps_mono; [|apply wps_and; [apply acks_only|apply (wps_wp (S := cloud_sig)), handle_all_runs]].
  cbn. intros w' t a [Hk [Hr Ha Hs _]]. split; [done|].
  intros id Hid. apply Hk; [by apply count_0|]. intros H. apply Hid. by eapply elem_of_sublist.
Qed.

Lemma drain_batches_keeps di (P : pending_list) n w :
  P ⊆ pel w ->
  wpc (drain_batches di n) w (fun w' t _ =>
    P ⊆ pel w' /\ Forall (fun m => P !! msg_ID m = None) (received t)).
Proof.
  revert w. induction n as [|n IH]; intros w HP; cbn [drain_batches]; [done|].
  unfold ask, call. apply (wps_vis (S := cloud_sig) h (RXReadGroup (readNew di))).
  destruct (rg_read _ _ Hg w (readNew di) eq_refl) as [Hsub Hnew].
  destruct (h w (RXReadGroup (readNew di))) as [w1 r]. cbn [fst snd] in *.
  assert (P ⊆ pel w1) as HP1 by (by etransitivity).
  destruct r as [[|[s [|m ms]] ss]|e]; [done|done| |].
  - assert (Forall (fun m => P !! msg_ID m = None) (m :: ms)) as Hms.
    { eapply Forall_impl; [exact Hnew|]. cbn. intros x Hx. by eapply lookup_weaken_None. }
    apply wps_bind. eapply wps_mono; [|apply handle_all_keeps]. intros w2 t2 b [Hr Hk].
    assert (P ⊆ pel w2) as HP2.
    { apply map_subseteq_spec. intros i x Hi. rewrite Hk; [by eapply map_subseteq_spec|].
      intros (y & -> & Hy)%list_elem_of_fmap. rewrite Forall_forall in Hms. by rewrite (Hms y Hy) in Hi. }
    destruct b.
    + unfold wps. cbn -[received]. rewrite app_nil_r, received_cons, Hr, app_nil_r. done.
    + eapply wps_mono; [|apply (IH w2 HP2)]. intros w3 t3 _ [HP3 Hr3]. split; [done|].
      rewrite received_cons, received_app, Hr. by apply Forall_app_2.
  - assert (wpc (log "dispatch: XREADGROUP: %v" [LErr e]) w1 (fun w' t _ =>
      P ⊆ pel w' /\ Forall (fun m => P !! msg_ID m = None) (received (CEv (RXReadGroup (readNew di)) (Err e) :: t)))).
    { apply (wps_vis (S := cloud_sig) h (Log _ _)). pose proof (rg_other _ _ Hg w1 (Log "dispatch: XREADGROUP: %v" [LErr e]) eq_refl) as Ho.
      unfold wps. cbn. cbn in Ho. by rewrite Ho. }
    by destruct e.
Qed.

(** C37: A drain never retries an entry that is already pending.  Against any
    group that follows Redis's rules and while no other client changes the
    list, none of the messages a [drain] receives
    was in the pending entries list when it started, whichever consumer owns
    it, and every entry that was pending still is, with the same owner: the
    entries an earlier blocked attempt left un-acknowledged are not touched by
    an available event, only by a later reclaim. *)
Theorem drain_never_retries_pending di w :
  pel w ⊆ pel (interp (S := cloud_sig) h (drain di) w).1.1
  /\ Forall (fun m => pel w !! msg_ID m = None) (received (interp (S := cloud_sig) h (drain di) w).1.2).
Proof. exact (drain_batches_keeps di (pel w) maxDrainBatches w (reflexivity (R := (⊆)) _)). Qed.

(** ** Reclaiming *)

Section reclaiming.
Context (rank : string -> nat) (bound : nat).
Hypothesis Hc : redis_cursor h rank bound.

Lemma reclaim_page_cursor di s w :
  wpc (reclaim_page di s) w (fun _ _ x =>
    match x with inl s' => (rank s < rank s' < bound)%nat | inr _ => True end).
Proof.
  unfold reclaim_page, ask, call. apply (wps_vis (S := cloud_sig) h (RXAutoClaim (claimFrom di s))).
  pose proof (rc_next _ _ _ Hc w (claimFrom di s)) as Hn.
  destruct (h w (RXAutoClaim (claimFrom di s))) as [w1 r]. cbn [fst snd] in *.
  destruct r as [[msgs next]|e]; change (prog_bind ?f (Ret ?x)) with (f x); cbn beta iota;
    apply wps_bind; apply (wps_mono (S := cloud_sig) h _ _ (fun _ _ _ => True)); [|done|done|done].
  intros w2 t2 b _. destruct b; [done|].
  destruct (String.eqb_spec next "0-0") as [|Hne]; cbn [orb]; [done|].
  case_match; [done|]. unfold wps. cbn. by apply (Hn msgs next).
Qed.

Lemma reclaim_loop_terminates di fuel s w :
  (bound - rank s < fuel)%nat -> wpc (loop fuel (reclaim_page di) s) w (fun _ _ a => a <> None).
Proof.
  revert s w. induction fuel as [|n IH]; intros s w Hn; cbn [loop]; [lia|].
  apply wps_bind. eapply wps_mono; [|apply reclaim_page_cursor].
  intros w1 t1 [s'|[]] Hx; [|done].
  eapply wps_mono; [|apply IH; lia]. done.
Qed.

(** C36: A sweep's reclaim loop ends.  The code bounds it by nothing but the
    cursor XAUTOCLAIM returns; as Redis moves that cursor strictly forward
    through finitely many ids, the loop ends within as many rounds as there are
    ids, whatever else the environment answers meanwhile. *)
Theorem reclaim_terminates di fuel w :
  (bound < fuel)%nat -> (interp (S := cloud_sig) h (reclaim di fuel) w).2 = Some tt.
Proof.
  intros Hf. pose proof (reclaim_loop_terminates di fuel "0-0" w) as H.
  rewrite (rc_start _ _ _ Hc) in H. specialize (H ltac:(lia)). unfold wps in H.
  unfold reclaim. by destruct (interp _ _ _).2 as [[]|].
Qed.

End reclaiming.

End groups.

(** ** Every client at once

    A history of the group interleaves the calls of one node's dispatcher with
    whatever other clients do to the list. *)

(** [o_gone]: entries whose stream message is deleted or trimmed. *)
Record group_state : Type := {
  g_pel : pending_list;
  g_gone : gset string
}.

(** What other clients can do: take an entry out (XACK, or XAUTOCLAIM finding
    its message deleted), give one to a consumer (XREADGROUP, XAUTOCLAIM,
    XCLAIM), delete a consumer, or delete a stream message (XDEL, XTRIM). *)
Inductive other_op : Type :=
| ORemove (id : string)
| OGive (id consumer : string)
| ODelConsumer (consumer : string)
| OTrim (id : string).

#[export] Instance other_op_eq_dec : EqDecision other_op.
Proof. solve_decision. Defined.

Definition other_step (o : other_op) (s : group_state) : group_state :=
  match o with
  | ORemove id => {| g_pel := delete id (g_pel s); g_gone := g_gone s |}
  | OGive id c => {| g_pel := <[id := c]> (g_pel s); g_gone := g_gone s |}
  | ODelConsumer c => {| g_pel := filter (fun kv => kv.2 <> c) (g_pel s); g_gone := g_gone s |}
  | OTrim id => {| g_pel := g_pel s; g_gone := {[id]} ∪ g_gone s |}
  end.

(** XPENDING's answer that a consumer owns nothing. *)
Definition none_pending (r : result (list string)) : bool :=
  match r with Ok [] | Err ErrRedisNil => true | _ => false end.

(** Redis's rules for a call of the node's own, whatever it is answered: an
    error answer may hide that the command took effect.  XREADGROUP with [>]
    only adds entries; XACK removes at most its entry; XAUTOCLAIM gives entries
    to its consumer and removes only those whose message is gone; XPENDING over
    the whole range answers nothing only of a consumer that owns nothing;
    XGROUP DELCONSUMER removes at most what that consumer owns; nothing else
    changes the list, and none of these deletes a stream message. *)
Definition own_step (e : event cloud_sig) (s s' : group_state) : Prop :=
  g_gone s' = g_gone s /\
  match e with
  | existT (RXReadGroup a) _ => xrg_Streams a = [PendingStream; ">"] -> g_pel s ⊆ g_pel s'
  | existT (RXAck _ _ id) _ => g_pel s' = g_pel s \/ g_pel s' = delete id (g_pel s)
  | existT (RXAutoClaim a) _ => forall id owner, g_pel s !! id = Some owner ->
      g_pel s' !! id = Some owner \/ g_pel s' !! id = Some (xac_Consumer a)
      \/ (g_pel s' !! id = None /\ id ∈ g_gone s)
  | existT (RXPendingExt a) r => g_pel s' = g_pel s
      /\ (xpe_Start a = "-" -> xpe_End a = "+" -> (0 < xpe_Count a)%Z -> none_pending r = true ->
          map_Forall (fun _ owner => owner <> xpe_Consumer a) (g_pel s))
  | existT (RXGroupDelConsumer _ _ name) _ =>
      g_pel s' = g_pel s \/ g_pel s' = filter (fun kv => kv.2 <> name) (g_pel s)
  | _ => g_pel s' = g_pel s
  end.

Inductive item : Type :=
| Mine (e : event cloud_sig)
| Other (o : other_op).

Definition item_step (x : item) (s s' : group_state) : Prop :=
  match x with Mine e => own_step e s s' | Other o => s' = other_step o s end.

Inductive history : group_state -> list item -> group_state -> Prop :=
| history_nil s : history s [] s
| history_cons s1 x s2 l s3 : item_step x s1 s2 -> history s2 l s3 -> history s1 (x :: l) s3.

(** The node's own calls. *)
Definition mine (l : list item) : trace cloud_sig :=
  mjoin ((fun x => match x with Mine e => [e] | Other _ => [] end) <$> l).

Lemma mine_app l1 l2 : mine (l1 ++ l2) = mine l1 ++ mine l2.
Proof. unfold mine. by rewrite fmap_app, join_app. Qed.

Lemma mine_mine (t : trace cloud_sig) : mine (Mine <$> t) = t.
Proof. unfold mine. induction t as [|e t IH]; [done|]. cbn. by f_equal. Qed.

Lemma history_app s l1 s1 l2 s2 : history s l1 s1 -> history s1 l2 s2 -> history s (l1 ++ l2) s2.
Proof. intros H. revert l2 s2. induction H; [done|]. intros. econstructor; eauto. Qed.

Lemma history_app_inv s l1 l2 s2 : history s (l1 ++ l2) s2 -> exists s1, history s l1 s1 /\ history s1 l2 s2.
Proof.
  revert s. induction l1 as [|x l1 IH]; intros s H; [exists s; split; [constructor|done]|].
  inversion H as [|? ? s1 ? ? Hx Hl]; subst. destruct (IH _ Hl) as (s3 & H1 & H2).
  exists s3. split; [by econstructor|done].
Qed.

(** The item at which an entry left the list for the last time. *)
Lemma history_leaves s l s' id :
  history s l s' -> is_Some (g_pel s !! id) -> g_pel s' !! id = None ->
  exists l1 x l2 s1 s2 owner, l = l1 ++ x :: l2 /\ history s l1 s1 /\ item_step x s1 s2
    /\ g_pel s1 !! id = Some owner /\ g_pel s2 !! id = None.
Proof.
  induction 1 as [s|s1 x s2 l s3 Hx Hl IH]; intros [owner Hs] Hn; [congruence|].
  destruct (g_pel s2 !! id) as [o|] eqn:Ho.
  - destruct (IH (mk_is_Some _ _ eq_refl) Hn) as (l1 & y & l2 & sa & sb & ow & -> & H1 & H2 & H3 & H4).
    exists (x :: l1), y, l2, sa, sb, ow. split_and!; try done. by econstructor.
  - exists [], x, l, s1, s2, owner. split_and!; try done. constructor.
Qed.

(** A consumer that comes to own an entry by other clients' doing was given it. *)
Lemma others_give s (os : list other_op) s' id c :
  history s (Other <$> os) s' -> g_pel s !! id <> Some c -> g_pel s' !! id = Some c ->
  OGive id c ∈ os.
Proof.
  revert s. induction os as [|o os IH]; intros s H Hs Hs'; inversion H as [|? ? s2 ? ? Hx Hl]; subst; [done|].
  cbn in Hx. subst s2. destruct (decide (o = OGive id c)) as [->|Ho]; [by left|].
  right. eapply IH; [exact Hl| |done]. intros Hc.
  destruct o as [id'|id' c'|c'|id']; cbn in Hc.
  - by apply lookup_delete_Some in Hc as [_ Hc].
  - apply lookup_insert_Some in Hc as [[-> ->]|[_ Hc]]; [|done]. by apply Ho.
  - by apply map_lookup_filter_Some in Hc as [Hc _].
  - done.
Qed.

Lemma checked_then_given s l0 name r os s1 id :
  history s (l0 ++ Mine (CEv (RXPendingExt (allPending name)) r) :: (Other <$> os)) s1 ->
  none_pending r = true -> g_pel s1 !! id = Some name -> OGive id name ∈ os.
Proof.
  intros Hh Hr Ho. apply history_app_inv in Hh as (sa & _ & Hh).
  inversion Hh as [|? ? sb ? ? Hx Hl]; subst. destruct Hx as [_ [Heq Hnone]].
  specialize (Hnone eq_refl eq_refl eq_refl Hr). eapply others_give; [exact Hl| |exact Ho].
  rewrite Heq. intros Hid. by apply (Hnone id name Hid).
Qed.

(** The last of the node's own calls, and what others did since. *)
Lemma mine_snoc l t e :
  mine l = t ++ [e] -> exists l0 os, l = l0 ++ Mine e :: (Other <$> os) /\ mine l0 = t.
Proof.
  revert t. induction l as [|x l IH] using rev_ind; intros t H; [by destruct t|].
  rewrite mine_app in H. destruct x as [e'|o]; cbn in H.
  - apply app_inj_tail in H as [Ht ->]. exists l, []. done.
  - rewrite app_nil_r in H. destruct (IH t H) as (l0 & os & -> & Ht).
    exists l0, (os ++ [o]). split; [|done]. by rewrite fmap_app, <- app_assoc.
Qed.

(** ** What a node's calls come with

    [within P Q t]: every event of [t] that satisfies [P] lies in a stretch of
    [t] of which [Q] holds. *)
Definition within (P : event cloud_sig -> bool)
    (Q : trace cloud_sig -> event cloud_sig -> trace cloud_sig -> Prop) (t : trace cloud_sig) : Prop :=
  forall t1 e t2, t = t1 ++ e :: t2 -> P e = true ->
  exists ta tm1 tm2 tb, t1 = ta ++ tm1 /\ t2 = tm2 ++ tb /\ Q tm1 e tm2.

Lemma within_app P Q t1 t2 : within P Q t1 -> within P Q t2 -> within P Q (t1 ++ t2).
Proof.
  intros H1 H2 u1 e u2 Ht He. symmetry in Ht.
  assert (forall k, t2 = k ++ e :: u2 -> u1 = t1 ++ k -> exists ta tm1 tm2 tb,
    u1 = ta ++ tm1 /\ u2 = tm2 ++ tb /\ Q tm1 e tm2) as Hright.
  { intros k Hk ->. destruct (H2 k e u2 Hk He) as (ta & tm1 & tm2 & tb & -> & -> & HQ).
    exists (t1 ++ ta), tm1, tm2, tb. by rewrite app_assoc. }
  apply app_eq_inv in Ht as [(k & Hu & Hk)|(k & Ht & Hk)]; [by eapply Hright|].
  destruct k as [|e' k]; cbn in Hk.
  - apply (Hright []); [done|]. by rewrite app_nil_r in *.
  - injection Hk as <- ->. destruct (H1 u1 e k Ht He) as (ta & tm1 & tm2 & tb & -> & -> & HQ).
    exists ta, tm1, tm2, (tb ++ t2). by rewrite app_assoc.
Qed.

Lemma within_none P Q t : count P t = 0%nat -> within P Q t.
Proof.
  intros H%count_0 t1 e t2 -> He. apply Forall_app in H as [_ H]. apply Forall_cons in H as [H _]. congruence.
Qed.

Lemma within_whole P (Q : trace cloud_sig -> event cloud_sig -> trace cloud_sig -> Prop) t :
  (forall t1 e t2, t = t1 ++ e :: t2 -> P e = true -> Q t1 e t2) -> within P Q t.
Proof.
  intros H t1 e t2 Ht He. exists [], t1, t2, []. rewrite app_nil_r. split_and!; [done..|]. by apply H.
Qed.

Definition deletes (e : event cloud_sig) : bool :=
  match ev_call e with RXGroupDelConsumer _ _ _ => true | _ => false end.
Definition reads_others (e : event cloud_sig) : bool :=
  match ev_call e with
  | RXReadGroup a => negb (bool_decide (xrg_Streams a = [PendingStream; ">"]))
  | _ => false
  end.

(** An acknowledgement is the work of [handle] on one of [msgs]. *)
Definition handles {U : UuidLib} (msgs : list XMessage)
    (tm1 : trace cloud_sig) (e : event cloud_sig) (tm2 : trace cloud_sig) : Prop :=
  exists msg, msg ∈ msgs /\ ev_call e = RXAck PendingStream ConsumerGroup (msg_ID msg)
    /\ exec (handle msg) (tm1 ++ e :: tm2) tt.

(** An acknowledgement is the work of [handle] on that very message, which the
    node had been given before. *)
Definition handled {U : UuidLib} (tm1 : trace cloud_sig) (e : event cloud_sig) (tm2 : trace cloud_sig) : Prop :=
  exists given tmid tm msg, tm1 = given :: tmid ++ tm /\ msg ∈ ev_received given
    /\ ev_call e = RXAck PendingStream ConsumerGroup (msg_ID msg)
    /\ exec (handle msg) (tm ++ e :: tm2) tt.

(** A consumer is deleted right after XPENDING showed it owning nothing. *)
Definition checked (tm1 : trace cloud_sig) (e : event cloud_sig) (tm2 : trace cloud_sig) : Prop :=
  exists name r, tm1 = [CEv (RXPendingExt (allPending name)) r] /\ none_pending r = true
    /\ ev_call e = RXGroupDelConsumer PendingStream ConsumerGroup name.

Section shared.
Context {U : UuidLib} (di : Dispatcher).

(** [Q] explains the acknowledgements. *)
Record careful (Q : trace cloud_sig -> event cloud_sig -> trace cloud_sig -> Prop) (t : trace cloud_sig) : Prop := {
  ca_acks : within acks Q t;
  ca_dels : within deletes checked t;
  ca_reads : count reads_others t = 0%nat
}.

Lemma careful_app Q t1 t2 : careful Q t1 -> careful Q t2 -> careful Q (t1 ++ t2).
Proof. intros [H1 H2 H3] [H4 H5 H6]. split; [by apply within_app..|]. rewrite count_app. lia. Qed.

(** No acknowledgement, no deletion, no read but of new entries. *)
Definition mild (e : event cloud_sig) : bool := negb (acks e || deletes e || reads_others e).

Lemma careful_mild Q t : Forall (fun e => mild e = true) t -> careful Q t.
Proof.
  intros H. assert (forall P : event cloud_sig -> bool, (forall e, mild e = true -> P e = false) -> count P t = 0%nat) as Hc.
  { intros P HP. apply count_0. eapply Forall_impl; [exact H|]. exact HP. }
  split; [apply within_none|apply within_none|]; apply Hc; intros e He; unfold mild in He;
    by destruct (acks e), (deletes e), (reads_others e).
Qed.

Definition carefully {A} Q (p : cloud A) : Prop := wp p (fun t _ => careful Q t).

Lemma carefully_ret {A} Q (a : A) : carefully Q (Ret a).
Proof. by apply careful_mild. Qed.

Lemma carefully_bind {A B} Q (p : cloud A) (f : A -> cloud B) :
  carefully Q p -> (forall a, carefully Q (f a)) -> carefully Q (p ≫= f).
Proof.
  intros Hp Hf. eapply wp_bind_spec; [exact Hp|]. intros t a Ht.
  eapply wp_mono; [|apply Hf]. intros t' b Ht'. by apply careful_app.
Qed.

Lemma carefully_loop {St A} Q (body : St -> cloud (St + A)) fuel s :
  (forall s, carefully Q (body s)) -> carefully Q (loop fuel body s).
Proof.
  intros Hb. revert s. induction fuel as [|n IH]; intros s; [apply carefully_ret|]. cbn [loop].
  apply carefully_bind; [apply Hb|]. intros [s'|a]; [apply IH|apply carefully_ret].
Qed.

Lemma carefully_ask Q c : (forall r, mild (CEv c r) = true) -> carefully Q (ask c).
Proof. intros Hc r. apply careful_mild, Forall_cons_2; [apply Hc|done]. Qed.

Lemma carefully_log Q f args : carefully Q (log f args).
Proof. by apply carefully_ask. Qed.

(** Messages are given by one call and then handled: [p] handles those that
    [given] brought. *)
Lemma careful_given msgs given t :
  mild given = true -> msgs ⊆ ev_received given -> careful (handles msgs) t -> careful handled (given :: t).
Proof.
  intros Hm Hsub [Ha Hd Hr].
  destruct (careful_mild handled [given]) as [Hga Hgd Hgr]; [by apply Forall_cons_2|].
  split; [|by apply (within_app _ _ [_])|rewrite count_cons, ?count_nil in *; lia].
  intros t1 e t2 Ht He. destruct t1 as [|x t1]; cbn in Ht; simplify_eq.
  { unfold mild in Hm. by rewrite He in Hm. }
  destruct (Ha _ _ _ eq_refl He) as (ta & tm1 & tm2 & tb & -> & -> & msg & Hin & Hcall & Hex).
  exists [], (x :: ta ++ tm1), tm2, tb. split_and!; [done|done|].
  exists x, ta, tm1, msg. split_and!; [done|by apply Hsub|done|done].
Qed.

Lemma carefully_given {A B} msgs c r (p : cloud A) (f : A -> cloud B) :
  mild (CEv c r) = true -> msgs ⊆ ev_received (CEv c r) ->
  carefully (handles msgs) p -> (forall a, carefully handled (f a)) ->
  wp (p ≫= f) (fun t _ => careful handled (CEv c r :: t)).
Proof.
  intros Hm Hsub Hp Hf. eapply wp_bind_spec; [exact Hp|]. intros t a Ht.
  eapply wp_mono; [|apply Hf]. intros t' b Ht'. apply (careful_app _ (_ :: t)); [|done].
  by eapply careful_given.
Qed.

Lemma handle_ack_call msg :
  wp (handle msg) (fun t _ => Forall (fun e : event cloud_sig => acks e = true ->
    ev_call e = RXAck PendingStream ConsumerGroup (msg_ID msg)) t).
Proof.
  unfold handle, ack. destruct (JobRefFromValues (msg_Values msg)) as [f|e].
  - eapply wp_bind_spec; [apply retry_runs|]. intros t r Hrf%rf_stream%count_0.
    assert (Forall (fun e : event cloud_sig => acks e = true ->
      ev_call e = RXAck PendingStream ConsumerGroup (msg_ID msg)) t) as Ht.
    { eapply Forall_impl; [exact Hrf|]. intros [[] ?]; done. }
    destruct r as [[|]|e]; wp_steps; apply Forall_app_2; try done; repeat apply Forall_cons_2; done.
  - wp_steps; repeat apply Forall_cons_2; done.
Qed.

Lemma handle_carefully msgs msg : msg ∈ msgs -> carefully (handles msgs) (handle msg).
Proof.
  intros Hmsg. apply exec_wp. intros t [] He.
  pose proof (hf_stream _ _ (wp_exec _ _ _ _ (handle_runs msg) He)) as Hs%count_0.
  assert (forall P : event cloud_sig -> bool, (forall e, P e = true -> stream_not_ack e = true) -> count P t = 0%nat) as Hc.
  { intros P HP. apply count_0. eapply Forall_impl; [exact Hs|].
    intros e H. destruct (P e) eqn:HPe; [|done]. cbn in H. by rewrite (HP e HPe) in H. }
  split.
  - apply within_whole. intros t1 e t2 -> Hack. exists msg. split; [done|]. split; [|done].
    pose proof (wp_exec _ _ _ _ (handle_ack_call msg) He) as [_ H]%Forall_app.
    apply Forall_cons in H as [H _]. auto.
  - apply within_none, Hc. intros [[] ?]; done.
  - apply Hc. intros [[] ?]; done.
Qed.

Lemma handle_all_carefully msgs ms : ms ⊆ msgs -> carefully (handles msgs) (handle_all ms).
Proof.
  induction ms as [|m ms IH]; intros Hsub; [apply carefully_ret|]. cbn [handle_all].
  apply carefully_bind; [apply handle_carefully; set_solver|]. intros _.
  apply carefully_bind; [by apply carefully_ask|].
  intros []; [apply carefully_ret|apply IH; set_solver].
Qed.

Lemma drain_carefully n : carefully handled (drain_batches di n).
Proof.
  induction n as [|n IH]; [apply carefully_ret|]. cbn [drain_batches]. intros r.
  assert (mild (CEv (RXReadGroup (readNew di)) r) = true) as Hm by done.
  destruct r as [[|[s [|m ms]] ss]|e].
  1, 2: by apply careful_mild, Forall_cons_2.
  - refine (carefully_given (m :: ms) _ _ _ _ Hm _ _ _); [done|by apply handle_all_carefully|].
    intros []; [apply carefully_ret|exact IH].
  - eapply (wp_mono _ (fun t _ => careful handled t)).
    + intros t a Ht. apply (careful_app _ [_]); [by apply careful_mild, Forall_cons_2|exact Ht].
    + destruct e; first [apply carefully_ret|apply carefully_log].
Qed.

Lemma reclaim_all_carefully msgs ms : ms ⊆ msgs -> carefully (handles msgs) (reclaim_all ms).
Proof.
  induction ms as [|m ms IH]; intros Hsub; [apply carefully_ret|]. cbn [reclaim_all].
  apply carefully_bind; [apply carefully_log|]. intros _.
  apply carefully_bind; [apply handle_carefully; set_solver|]. intros _.
  apply carefully_bind; [by apply carefully_ask|].
  intros []; [apply carefully_ret|apply IH; set_solver].
Qed.

Lemma reclaim_carefully fuel : carefully handled (reclaim di fuel).
Proof.
  apply carefully_loop. intros s. unfold reclaim_page. intros r.
  assert (mild (CEv (RXAutoClaim (claimFrom di s)) r) = true) as Hm by done.
  destruct r as [[msgs next]|e].
  - refine (carefully_given msgs _ _ _ _ Hm _ _ _); [done|by apply reclaim_all_carefully|].
    intros []; [apply carefully_ret|]. case_match; apply carefully_ret.
  - cbn. intros r. by apply careful_mild; repeat apply Forall_cons_2.
Qed.

(** The deletion follows its own empty answer. *)
Lemma delete_carefully Q name : carefully Q (deleteConsumerIfDrained name).
Proof.
  assert (forall r d, none_pending r = true -> careful Q
    [CEv (RXPendingExt (allPending name)) r; CEv (RXGroupDelConsumer PendingStream ConsumerGroup name) d]) as Hd.
  { intros r d Hr. split; [by apply within_none| |done].
    intros t1 e t2 Ht He. exists [], t1, t2, []. rewrite app_nil_r. split_and!; [done..|].
    destruct t1 as [|e1 [|e2 [|e3 t1]]]; cbn in Ht; simplify_eq; try done. by exists name, r. }
  unfold deleteConsumerIfDrained, carefully. wp_steps; subst; try (by apply Hd); apply careful_mild; by repeat apply Forall_cons_2.
Qed.

Lemma reap_carefully Q : carefully Q (ReapStaleConsumers di).
Proof.
  unfold ReapStaleConsumers. apply carefully_bind; [by apply carefully_ask|].
  intros [cs|e]; [|case_match; [apply carefully_log|apply carefully_ret]].
  induction cs as [|c cs IH]; [apply carefully_ret|]. cbn [reap_each]. case_match; [exact IH|].
  apply carefully_bind; [apply delete_carefully|]. intros r.
  apply carefully_bind; [|by intros _].
  destruct r as [[]|]; first [apply carefully_log|apply carefully_ret].
Qed.

Lemma remove_carefully Q : carefully Q (RemoveConsumer di).
Proof.
  unfold RemoveConsumer. apply carefully_bind; [apply delete_carefully|].
  intros [[]|e]; [| |apply carefully_ret]; (apply carefully_bind; [apply carefully_log|intros; apply carefully_ret]).
Qed.

Lemma run_carefully turns fuel : carefully handled (Run di turns fuel).
Proof.
  unfold Run. apply carefully_bind; [by apply carefully_ask|]. intros sub.
  apply carefully_bind; [apply drain_carefully|]. intros _.
  apply carefully_bind.
  - apply carefully_loop. intros _. unfold run_turn.
    apply carefully_bind; [by apply carefully_ask|]. intros [|[]|]; try apply carefully_ret.
    + apply carefully_bind; [apply drain_carefully|]. intros. apply carefully_ret.
    + apply carefully_bind; [apply reclaim_carefully|]. intros _.
      apply carefully_bind; [apply drain_carefully|]. intros _.
      apply carefully_bind; [apply reap_carefully|]. intros. apply carefully_ret.
  - intros r. apply carefully_bind; [by apply carefully_ask|]. intros. apply carefully_ret.
Qed.

(** What takes an entry out is one of the node's commands that can. *)
Lemma own_step_leaves s l1 e l2 s1 s2 id owner :
  history s l1 s1 -> own_step e s1 s2 -> g_pel s1 !! id = Some owner -> g_pel s2 !! id = None ->
  within acks handled (mine l1 ++ e :: mine l2) -> within deletes checked (mine l1 ++ e :: mine l2) ->
  count reads_others (mine l1 ++ e :: mine l2) = 0%nat ->
  match ev_call e with
  | RXAck _ _ id' => id' = id /\ exists t1 tm1 tm2 t2,
      mine l1 = t1 ++ tm1 /\ mine l2 = tm2 ++ t2 /\ handled tm1 e tm2
  | RXAutoClaim _ => id ∈ g_gone s1
  | RXGroupDelConsumer _ _ c => c = owner /\ exists l0 r os,
      l1 = l0 ++ Mine (CEv (RXPendingExt (allPending c)) r) :: (Other <$> os)
      /\ none_pending r = true /\ OGive id c ∈ os
  | _ => False
  end.
Proof.
  intros Hh [_ He] Ho Hn Hacks Hdels Hreads. rewrite count_app, count_cons in Hreads.
  destruct e as [c r]. destruct c; cbn [ev_call projT1] in *; try (rewrite He in Hn; congruence).
  - destruct (bool_decide (xrg_Streams a = [PendingStream; ">"])) eqn:Hb.
    + apply bool_decide_eq_true in Hb. specialize (He Hb).
      pose proof (lookup_weaken _ _ _ _ Ho He). congruence.
    + cbn in Hreads. rewrite Hb in Hreads. cbn in Hreads. lia.
  - destruct He as [He|He]; rewrite He in Hn; [congruence|].
    apply lookup_delete_None in Hn as [->|]; [|congruence]. split; [done|].
    destruct (Hacks _ _ _ eq_refl eq_refl) as (t1 & tm1 & tm2 & t2 & H1 & H2 & H3).
    by exists t1, tm1, tm2, t2.
  - destruct (He id owner Ho) as [|[|[_ ?]]]; [congruence..|done].
  - destruct He as [He _]. rewrite He in Hn. congruence.
  - destruct He as [He|He]; rewrite He in Hn; [congruence|].
    apply map_lookup_filter_None in Hn as [Hn|Hn]; [congruence|].
    destruct (decide (consumer = owner)) as [->|Hne]; [|by destruct (Hn owner Ho)]. split; [done|].
    destruct (Hdels _ _ _ eq_refl eq_refl) as (t1 & tm1 & tm2 & t2 & H1 & H2 & name & r' & -> & Hr & Hc).
    cbn in Hc. injection Hc as _ _ <-.
    destruct (mine_snoc _ _ _ H1) as (l0 & os & -> & _). exists l0, r', os. split_and!; [done..|].
    by eapply checked_then_given.
Qed.

(** C9: How an entry can leave the queue while a node's dispatcher runs.  Take
    any run of the dispatcher's loop, or of the consumer's removal at shutdown,
    its calls interleaved with anything other clients of the group do, by
    Redis's rules for a group.  An entry that was pending at the start and is
    not at the end left at one step of this history, which is either (a) another
    client's step, on this entry or on the consumer that owned it; or (b) an
    acknowledgement made by [handle] on this very message, which an XREADGROUP or
    XAUTOCLAIM of this node had brought; or (c) the removal of
    an entry whose message had been deleted from the stream; or (d) the deletion
    of the consumer that owned it, in which case this node's check, just before,
    had found that consumer owning nothing, and since then another client gave
    it this entry.  So without that last race (see
    [Scenarios.reap_race_loses_entry]) the node itself takes out only what it
    handled. *)
Theorem pending_entries_accounted turns fuel l s s' id :
  (exists a, exec (Run di turns fuel) (mine l) a) \/ (exists a, exec (RemoveConsumer di) (mine l) a) ->
  history s l s' -> is_Some (g_pel s !! id) -> g_pel s' !! id = None ->
  exists l1 x l2 s1 owner, l = l1 ++ x :: l2 /\ history s l1 s1 /\ g_pel s1 !! id = Some owner
  /\ match x with
     | Other (ORemove id') => id' = id
     | Other (ODelConsumer c) => c = owner
     | Other _ => False
     | Mine e =>
         match ev_call e with
         | RXAck _ _ id' => id' = id /\ exists t1 tm1 tm2 t2,
             mine l1 = t1 ++ tm1 /\ mine l2 = tm2 ++ t2 /\ handled tm1 e tm2
         | RXAutoClaim _ => id ∈ g_gone s1
         | RXGroupDelConsumer _ _ c => c = owner /\ exists l0 r os,
             l1 = l0 ++ Mine (CEv (RXPendingExt (allPending c)) r) :: (Other <$> os)
             /\ none_pending r = true /\ OGive id c ∈ os
         | _ => False
         end
     end.
Proof.
  intros He Hh Hs Hs'.
  assert (careful handled (mine l)) as [Hacks Hdels Hreads].
  { destruct He as [[a He]|[a He]]; [exact (wp_exec _ _ _ _ (run_carefully _ _) He)|
      exact (wp_exec _ _ _ _ (remove_carefully _) He)]. }
  destruct (history_leaves _ _ _ _ Hh Hs Hs') as (l1 & x & l2 & s1 & s2 & owner & -> & H1 & Hx & Ho & Hn).
  exists l1, x, l2, s1, owner. split_and!; [done..|].
  destruct x as [e|o]; cbn in Hx.
  - rewrite mine_app in *. cbn in Hacks, Hdels, Hreads. eapply own_step_leaves; eauto.
  - subst s2. destruct o as [id'|id' c|c|id']; cbn in Hn.
    + apply lookup_delete_None in Hn as [|]; congruence.
    + by apply lookup_insert_None in Hn as [? _]; congruence.
    + apply map_lookup_filter_None in Hn as [Hn|Hn]; [congruence|].
      destruct (decide (c = owner)) as [|Hne]; [done|]. by destruct (Hn owner Ho).
    + congruence.
Qed.

End shared.

(** ** The reference environment follows the rules *)

Definition env_pel (w : world) : pending_list := snd <$> w_pel w.

Lemma env_group : redis_group env env_pel.
Proof.
  split.
  - intros w a _. cbn [env].
    destruct (List.filter _ (w_new w)) as [|m ms] eqn:Hf; [done|]. cbn [fst snd]. split.
    + apply map_fmap_mono, map_union_subseteq_l.
    + apply Forall_take, Forall_forall. intros x Hx. rewrite <- Hf in Hx.
      apply list_elem_of_In, filter_In in Hx as [_ Hx%bool_decide_eq_true].
      unfold env_pel. by rewrite lookup_fmap, Hx.
  - intros w s g id. right. unfold env_pel. cbn. apply fmap_delete.
  - intros w c. by destruct c.
Qed.

Definition env_state (w : world) : group_state := {| g_pel := env_pel w; g_gone := ∅ |}.

Lemma env_claim w a id owner :
  env_pel w !! id = Some owner ->
  env_pel (env w (RXAutoClaim a)).1 !! id = Some owner
  \/ env_pel (env w (RXAutoClaim a)).1 !! id = Some (xac_Consumer a).
Proof.
  unfold env_pel. cbn [env fst w_pel with_stream]. rewrite !lookup_fmap. intros Ho.
  generalize (take (Z.to_nat (xac_Count a))
    (List.filter (fun e => id_rank (xac_Start a) <=? id_rank e.1)%nat
      (merge_sort id_le (map_to_list (w_pel w))))).
  intros l. induction l as [|e l IH]; [by left|]. cbn [foldr].
  destruct (decide (e.1 = id)) as [->|Hne]; [|by rewrite lookup_alter_ne by done].
  rewrite lookup_alter_eq. destruct (foldr _ _ l !! id); [by right|]. by destruct IH.
Qed.

Lemma env_own_step w c : own_step (CEv c (env w c).2) (env_state w) (env_state (env w c).1).
Proof.
  split; [done|].
  destruct (on_stream (CEv c (env w c).2)) eqn:Hs;
    [|pose proof (rg_other _ _ env_group w c Hs); by destruct c].
  destruct c; try discriminate Hs; cbn [CEv Ev env_state g_pel g_gone].
  - cbn. by case_match.
  - intros Ha. exact (proj1 (rg_read _ _ env_group w a Ha)).
  - exact (rg_ack _ _ env_group w stream group id).
  - intros id owner Ho. destruct (env_claim w a id owner Ho); auto.
  - split; [done|]. intros _ _ _ Hn id o Hid Ho. cbn [env snd] in Hn.
    destruct (map_to_list _) as [|[k v] l] eqn:Hl; cbn in Hn; [|done].
    apply map_to_list_empty_iff in Hl. apply map_empty_filter in Hl.
    apply lookup_fmap_Some in Hid as (x & Hx & Hid). apply (Hl id x Hid). cbn. congruence.
  - right. unfold env_pel. cbn. by rewrite map_filter_fmap.
  - done.
  - done.
Qed.

(** A run against the environment, with no other client. *)
Lemma env_history {A} (p : cloud A) w :
  history (env_state w) (Mine <$> (run p w).1.2) (env_state (run p w).1.1).
Proof.
  revert w. induction p as [a|c k IH]; intros w; [constructor|]. cbn [interp].
  pose proof (env_own_step w c) as Hs. destruct (env w c) as [w1 r]. specialize (IH r w1).
  destruct (interp (S := cloud_sig) env (k r) w1) as [[w2 t] a]. cbn in *. by econstructor.
Qed.

Lemma env_cursor : redis_cursor env id_rank max_id.
Proof.
  split; [done|]. intros w a msgs next. cbn [env snd].
  intros [= _ Hn] Hne. destruct (drop _ _) as [|e l]; [done|].
  destruct (id_rank (xac_Start a) <? id_rank e.1)%nat eqn:H1; cbn [andb] in Hn; [|done].
  destruct (id_rank e.1 <? max_id)%nat eqn:H2; cbn [andb] in Hn; [|done].
  subst next. apply Nat.ltb_lt in H1, H2. lia.
Qed.
