(* ===== verification/Sql.v ===== *)
(** * The SQL statements

    The text of every query in services/cloud/db/queries.sql.go the dispatch,
    link and handler code issues, as a function on the tables of
    services/cloud/db/schema.sql.  Tables keyed by a UUID primary key are
    finite maps; audit_events is append-only and keeps its order.  [now] is the
    statement's timestamp.  Row locks and transactions are not here: see
    [System].  pgcrypto's two functions, ILIKE and the collation of ORDER BY are
    parameters, and so is how Postgres orders the rows that ORDER BY leaves tied,
    which may differ from one execution of a statement to the next
    ([Planner]). *)

From S2P Require Import Prelude Base64 Db.
From stdpp Require Import sorting.

(** What one execution of a statement does for ORDER BY: it returns the rows in
    some order that respects the given one, whatever it is that decides between
    tied rows. *)
Class Planner : Type := {
  order_by : forall {A : Type} (R : A -> A -> Prop) {dec : RelDecision R}, list A -> list A;
  order_by_perm : forall {A : Type} (R : A -> A -> Prop) {dec : RelDecision R} l, order_by R l ≡ₚ l;
  order_by_sorted : forall {A : Type} (R : A -> A -> Prop) {dec : RelDecision R} l,
    (forall x y, R x y \/ R y x) -> Sorted R (order_by R l)
}.

(** No ORDER BY at all. *)
Definition any_order {A} (_ _ : A) : Prop := True.

#[export] Instance any_order_dec {A} : RelDecision (@any_order A).
Proof. intros a b. left. exact I. Defined.

(** Two plans: tied rows as they are found, and the other way round. *)
Definition as_found : Planner.
Proof.
  refine {| order_by := fun A R dec l => merge_sort R l |}.
  - intros A R dec l. apply merge_sort_Permutation.
  - intros A R dec l Ht. apply Sorted_merge_sort. exact Ht.
Defined.

Definition backwards : Planner.
Proof.
  refine {| order_by := fun A R dec l => merge_sort R (reverse l) |}.
  - intros A R dec l. by rewrite merge_sort_Permutation, reverse_Permutation.
  - intros A R dec l Ht. apply Sorted_merge_sort. exact Ht.
Defined.

Record RefreshToken : Type := {
  rt_SenderID : uuid;
  rt_TokenHash : string;
  rt_ExpiresAt : Z;
  rt_RevokedAt : option Z
}.

Record Mailbox : Type := {
  mb_BuildingID : uuid;
  mb_PublicKeyPem : string;
  mb_Status : string;
  mb_LastHeartbeatAt : option Z
}.

Record MailboxSlot : Type := {
  slot_MailboxID : uuid;
  slot_Number : Z;
  slot_MaxCount : Z
}.

Record Resident : Type := {
  resident_SlotID : uuid;
  resident_NameEnc : bytes
}.

Record Sender : Type := {
  sender_EmailEnc : bytes;
  sender_NameEnc : bytes;
  sender_PasswordHash : string;
  sender_Role : string
}.

Record database : Type := {
  jobs : gmap uuid Job;
  audit_events : list AuditEvent;
  refresh_tokens : gmap uuid RefreshToken;
  senders : gmap uuid Sender;
  mailboxes : gmap uuid Mailbox;
  mailbox_slots : gmap uuid MailboxSlot;
  residents : gmap uuid Resident;
  buildings : gmap uuid string   (* the address *)
}.

Definition set_jobs (f : gmap uuid Job -> gmap uuid Job) (db : database) : database :=
  {| jobs := f (jobs db); audit_events := audit_events db; refresh_tokens := refresh_tokens db;
     senders := senders db; mailboxes := mailboxes db; mailbox_slots := mailbox_slots db;
     residents := residents db; buildings := buildings db |}.

Definition set_audit (f : list AuditEvent -> list AuditEvent) (db : database) : database :=
  {| jobs := jobs db; audit_events := f (audit_events db); refresh_tokens := refresh_tokens db;
     senders := senders db; mailboxes := mailboxes db; mailbox_slots := mailbox_slots db;
     residents := residents db; buildings := buildings db |}.

Definition set_tokens (f : gmap uuid RefreshToken -> gmap uuid RefreshToken) (db : database) : database :=
  {| jobs := jobs db; audit_events := audit_events db; refresh_tokens := f (refresh_tokens db);
     senders := senders db; mailboxes := mailboxes db; mailbox_slots := mailbox_slots db;
     residents := residents db; buildings := buildings db |}.

Definition set_mailboxes (f : gmap uuid Mailbox -> gmap uuid Mailbox) (db : database) : database :=
  {| jobs := jobs db; audit_events := audit_events db; refresh_tokens := refresh_tokens db;
     senders := senders db; mailboxes := f (mailboxes db); mailbox_slots := mailbox_slots db;
     residents := residents db; buildings := buildings db |}.

Definition set_senders (f : gmap uuid Sender -> gmap uuid Sender) (db : database) : database :=
  {| jobs := jobs db; audit_events := audit_events db; refresh_tokens := refresh_tokens db;
     senders := f (senders db); mailboxes := mailboxes db; mailbox_slots := mailbox_slots db;
     residents := residents db; buildings := buildings db |}.

(** ** Job rows *)

Definition with_status (status : string) (delivered : option Z) (j : Job) : Job :=
  {| job_ID := job_ID j; job_SenderID := job_SenderID j; job_GuestTokenHash := job_GuestTokenHash j;
     job_MailboxID := job_MailboxID j; job_SlotID := job_SlotID j;
     job_EncryptedKey := job_EncryptedKey j; job_BlobRef := job_BlobRef j;
     job_PageCount := job_PageCount j; job_Status := status; job_RetryCount := job_RetryCount j;
     job_BlobExpiresAt := job_BlobExpiresAt j; job_BlobDeletedAt := job_BlobDeletedAt j;
     job_CreatedAt := job_CreatedAt j; job_DeliveredAt := delivered |}.

Definition with_blob_deleted (at_ : Z) (j : Job) : Job :=
  {| job_ID := job_ID j; job_SenderID := job_SenderID j; job_GuestTokenHash := job_GuestTokenHash j;
     job_MailboxID := job_MailboxID j; job_SlotID := job_SlotID j;
     job_EncryptedKey := job_EncryptedKey j; job_BlobRef := job_BlobRef j;
     job_PageCount := job_PageCount j; job_Status := job_Status j; job_RetryCount := job_RetryCount j;
     job_BlobExpiresAt := job_BlobExpiresAt j; job_BlobDeletedAt := Some at_;
     job_CreatedAt := job_CreatedAt j; job_DeliveredAt := job_DeliveredAt j |}.

(** [WHERE id = $1 AND status IN ('submitted', 'queued')] *)
Definition claimable (status : string) : bool :=
  String.eqb status "submitted" || String.eqb status "queued".

Definition LockJobForDispatch (id : uuid) (db : database) : option LockJobForDispatchRow :=
  match jobs db !! id with
  | Some j =>
      if claimable (job_Status j)
      then Some {| lock_ID := id; lock_MailboxID := job_MailboxID j; lock_SlotID := job_SlotID j;
                   lock_EncryptedKey := job_EncryptedKey j; lock_BlobRef := job_BlobRef j;
                   lock_Status := job_Status j |}
      else None
  | None => None
  end.

Definition MarkJobDispatching (id : uuid) (db : database) : database :=
  set_jobs (alter (fun j => with_status "dispatching" (job_DeliveredAt j) j) id) db.

Definition RequeueJob (id : uuid) (db : database) : database :=
  set_jobs (alter (fun j => with_status "queued" (job_DeliveredAt j) j) id) db.

Definition UpdateJobStatus (now : Z) (status : string) (id : uuid) (db : database)
    : database * option UpdateJobStatusRow :=
  let upd j :=
    with_status status (if String.eqb status "delivered" then Some now else job_DeliveredAt j) j in
  (set_jobs (alter upd id) db,
   (fun j => {| upd_ID := id; upd_MailboxID := job_MailboxID j; upd_BlobRef := job_BlobRef j;
                upd_Status := status |}) <$> jobs db !! id).

Definition SetJobBlobDeleted (now : Z) (id : uuid) (db : database) : database :=
  set_jobs (alter (with_blob_deleted now) id) db.

(** [DEFAULT gen_random_uuid()] draws [id]; the schema's defaults fill in the
    rest; the CHECK job_identity refuses a row with no owner at all. *)
Definition InsertJob (now : Z) (id : uuid) (p : InsertJobParams) (db : database)
    : option (database * InsertJobRow) :=
  match ins_SenderID p, ins_GuestTokenHash p with
  | None, None => None
  | _, _ =>
      let j := {| job_ID := id; job_SenderID := ins_SenderID p;
                  job_GuestTokenHash := ins_GuestTokenHash p; job_MailboxID := ins_MailboxID p;
                  job_SlotID := ins_SlotID p; job_EncryptedKey := ins_EncryptedKey p;
                  job_BlobRef := ins_BlobRef p; job_PageCount := ins_PageCount p;
                  job_Status := "submitted"; job_RetryCount := 0; job_BlobExpiresAt := None;
                  job_BlobDeletedAt := None; job_CreatedAt := now; job_DeliveredAt := None |} in
      Some (set_jobs (insert id j) db, {| insr_ID := id; insr_Status := "submitted" |})
  end.

Definition GetJobForStream (id : uuid) (db : database) : option GetJobForStreamRow :=
  (fun j => {| str_ID := id; str_SenderID := job_SenderID j;
               str_GuestTokenHash := job_GuestTokenHash j; str_Status := job_Status j |})
  <$> jobs db !! id.

(** ** Audit *)

Definition InsertAuditEvent (ev : AuditEvent) (db : database) : database :=
  set_audit (fun l => l ++ [ev]) db.

(** ** Recipients, mailboxes *)

Definition ResolveRecipient (id : uuid) (db : database) : option ResolveRecipientRow :=
  r ← residents db !! id;
  s ← mailbox_slots db !! resident_SlotID r;
  m ← mailboxes db !! slot_MailboxID s;
  Some {| res_RecipientID := id; res_SlotID := resident_SlotID r;
          res_MailboxID := slot_MailboxID s; res_PublicKeyPem := mb_PublicKeyPem m |}.

Definition UpdateMailboxLiveness (now : Z) (status : string) (id : uuid) (db : database) : database :=
  set_mailboxes (alter (fun m => {| mb_BuildingID := mb_BuildingID m;
    mb_PublicKeyPem := mb_PublicKeyPem m; mb_Status := status; mb_LastHeartbeatAt := Some now |}) id) db.

(** ** Refresh tokens *)

Definition InsertRefreshToken (id : uuid) (p : InsertRefreshTokenParams) (db : database) : database :=
  set_tokens (insert id {| rt_SenderID := irt_SenderID p; rt_TokenHash := irt_TokenHash p;
    rt_ExpiresAt := irt_ExpiresAt p; rt_RevokedAt := None |}) db.

(** [WHERE token_hash = $1 AND revoked_at IS NULL] *)
Definition active_token (hash : string) (rt : RefreshToken) : bool :=
  String.eqb (rt_TokenHash rt) hash && bool_decide (rt_RevokedAt rt = None).

Definition GetActiveRefreshToken (hash : string) (db : database) : option GetActiveRefreshTokenRow :=
  (fun kv => {| act_ID := kv.1; act_SenderID := rt_SenderID kv.2; act_ExpiresAt := rt_ExpiresAt kv.2 |})
  <$> head (map_to_list (filter (fun kv => active_token hash kv.2 = true) (refresh_tokens db))).

Definition RevokeRefreshTokenByHash (now : Z) (hash : string) (db : database) : database :=
  set_tokens (fmap (fun rt => if active_token hash rt
    then {| rt_SenderID := rt_SenderID rt; rt_TokenHash := rt_TokenHash rt;
            rt_ExpiresAt := rt_ExpiresAt rt; rt_RevokedAt := Some now |}
    else rt)) db.

(** ** Senders *)

Definition GetSenderByID (id : uuid) (db : database) : option GetSenderByIDRow :=
  (fun s => {| sid_ID := id; sid_PasswordHash := sender_PasswordHash s; sid_Role := sender_Role s |})
  <$> senders db !! id.

Section pgcrypto.
Variable pgp_sym_encrypt : string -> string -> bytes.
Variable pgp_sym_decrypt : bytes -> string -> string.

Definition GetSenderByEmail (appKey email : string) (db : database) : option GetSenderByEmailRow :=
  (fun kv => {| snd_ID := kv.1; snd_EmailEnc := sender_EmailEnc kv.2;
                snd_PasswordHash := sender_PasswordHash kv.2; snd_Role := sender_Role kv.2 |})
  <$> head (map_to_list
        (filter (fun kv => pgp_sym_decrypt (sender_EmailEnc kv.2) appKey = email) (senders db))).

(** The role is the literal ['sender']. *)
Definition InsertSender (id : uuid) (appKey email name passwordHash : string) (db : database)
    : database * InsertSenderRow :=
  (set_senders (insert id {| sender_EmailEnc := pgp_sym_encrypt email appKey;
     sender_NameEnc := pgp_sym_encrypt name appKey;
     sender_PasswordHash := passwordHash; sender_Role := "sender" |}) db,
   {| inss_ID := id; inss_Role := "sender" |}).
End pgcrypto.

(** ** Admin queries *)

(** [WHERE ($1 = '' OR status = $1)] *)
Definition status_matches (status : string) (j : Job) : bool :=
  String.eqb status EmptyString || String.eqb (job_Status j) status.

Section planned.
Context {P : Planner}.

Definition newest_first (a b : uuid * Job) : Prop := (job_CreatedAt b.2 <= job_CreatedAt a.2)%Z.

#[export] Instance newest_first_dec : RelDecision newest_first.
Proof. intros a b. unfold newest_first. apply _. Defined.

(** The join with mailbox_slots, in order. *)
Definition admin_rows (status : string) (db : database) : list AdminListJobsRow :=
  omap (fun kv =>
    (fun s => {| aljr_ID := kv.1; aljr_SlotID := job_SlotID kv.2; aljr_SlotNumber := slot_Number s;
                 aljr_Status := job_Status kv.2; aljr_PageCount := job_PageCount kv.2;
                 aljr_CreatedAt := job_CreatedAt kv.2; aljr_DeliveredAt := job_DeliveredAt kv.2 |})
    <$> mailbox_slots db !! job_SlotID kv.2)
    (order_by newest_first (map_to_list (filter (fun kv => status_matches status kv.2 = true) (jobs db)))).

(** One page; the limit and the offset are int32 in the source.  Postgres refuses a negative LIMIT or OFFSET. *)
Definition AdminListJobs (p : AdminListJobsParams) (db : database) : result (list AdminListJobsRow) :=
  if (alj_RowOffset p <? 0)%Z then Err (ErrPq "2201X" "OFFSET must not be negative")
  else if (alj_RowLimit p <? 0)%Z then Err (ErrPq "2201W" "LIMIT must not be negative")
  else Ok (take (Z.to_nat (alj_RowLimit p)) (drop (Z.to_nat (alj_RowOffset p)) (admin_rows (alj_Status p) db))).

Definition AdminCountJobs (status : string) (db : database) : Z :=
  Z.of_nat (size (filter (fun kv => status_matches status kv.2 = true) (jobs db))).

(** GROUP BY status: the groups in no particular order. *)
Definition tally (counts : gmap string Z) (j : Job) : gmap string Z :=
  <[job_Status j := (default 0 (counts !! job_Status j) + 1)%Z]> counts.

Definition AdminJobStatusCounts (db : database) : list AdminJobStatusCountsRow :=
  (fun kv => {| ajs_Status := kv.1; ajs_Count := kv.2 |})
  <$> order_by any_order (map_to_list (foldl tally ∅ (map_to_list (jobs db)).*2)).

(** [WHERE status = 'delivered' AND delivered_at >= $1] *)
Definition delivered_since (since : Z) (j : Job) : bool :=
  String.eqb (job_Status j) "delivered"
  && match job_DeliveredAt j with Some at_ => (since <=? at_)%Z | None => false end.

Definition AdminCountDeliveredSince (since : Z) (db : database) : Z :=
  Z.of_nat (size (filter (fun kv => delivered_since since kv.2 = true) (jobs db))).

(** [ORDER BY mailbox_id, slot_number] *)
Definition slot_order (a b : uuid * MailboxSlot) : Prop :=
  (uuid_bits (slot_MailboxID a.2) < uuid_bits (slot_MailboxID b.2))%N
  \/ slot_MailboxID a.2 = slot_MailboxID b.2 /\ (slot_Number a.2 <= slot_Number b.2)%Z.

#[export] Instance slot_order_dec : RelDecision slot_order.
Proof. intros a b. unfold slot_order. apply _. Defined.

Definition AdminListSlots (db : database) : list AdminListSlotsRow :=
  (fun kv => {| als_ID := kv.1; als_MailboxID := slot_MailboxID kv.2;
                als_SlotNumber := slot_Number kv.2; als_MaxCount := slot_MaxCount kv.2 |})
  <$> order_by slot_order (map_to_list (mailbox_slots db)).

(** A sender's own jobs. *)
Definition GetJobsBySender (sender : uuid) (db : database) : list GetJobsBySenderRow :=
  take 200
    ((fun kv => {| gjs_ID := kv.1; gjs_Status := job_Status kv.2; gjs_PageCount := job_PageCount kv.2;
                   gjs_CreatedAt := job_CreatedAt kv.2; gjs_DeliveredAt := job_DeliveredAt kv.2 |})
     <$> order_by newest_first
           (map_to_list (filter (fun kv => job_SenderID kv.2 = Some sender) (jobs db)))).

Section text.
Variable collate_le : string -> string -> Prop.
Context {collate_dec : RelDecision collate_le}.

Definition by_address (a b : AdminListMailboxesRow) : Prop :=
  collate_le (alm_BuildingAddress a) (alm_BuildingAddress b).
Definition by_name (a b : SearchRecipientsRow) : Prop := collate_le (sr_FullName a) (sr_FullName b).

#[local] Instance by_address_dec : RelDecision by_address.
Proof. intros a b. unfold by_address. apply _. Defined.
#[local] Instance by_name_dec : RelDecision by_name.
Proof. intros a b. unfold by_name. apply _. Defined.

Definition AdminListMailboxes (db : database) : list AdminListMailboxesRow :=
  order_by by_address
    (omap (fun kv => (fun address =>
        {| alm_MailboxID := kv.1; alm_BuildingAddress := address; alm_Status := mb_Status kv.2;
           alm_LastHeartbeatAt := mb_LastHeartbeatAt kv.2 |}) <$> buildings db !! mb_BuildingID kv.2)
      (map_to_list (mailboxes db))).

Variable ilike : string -> string -> bool.
Variable decrypt : bytes -> string -> string.

Definition SearchRecipients (appKey query : string) (db : database) : list SearchRecipientsRow :=
  let pattern := "%" +:+ query +:+ "%" in
  let row (kv : uuid * Resident) : option SearchRecipientsRow :=
    s ← mailbox_slots db !! resident_SlotID kv.2;
    m ← mailboxes db !! slot_MailboxID s;
    address ← buildings db !! mb_BuildingID m;
    let name := decrypt (resident_NameEnc kv.2) appKey in
    if ilike name pattern || ilike address pattern
    then Some {| sr_RecipientID := kv.1; sr_FullName := name; sr_BuildingAddress := address |}
    else None in
  take 20
    (order_by by_name
      (omap row (map_to_list (residents db)))).
End text.
End planned.

(** ** Lemmas *)

(** What each statement does to one row. *)
Definition status_of (db : database) (id : uuid) : option string := job_Status <$> jobs db !! id.

Lemma status_alter f id id' db :
  status_of (set_jobs (alter f id) db) id' =
    if decide (id = id') then (fun j => job_Status (f j)) <$> jobs db !! id' else status_of db id'.
Proof.
  unfold status_of. cbn. rewrite lookup_alter. case_decide; [|done].
  subst. by destruct (jobs db !! id').
Qed.

Lemma status_mark id id' db :
  status_of (MarkJobDispatching id db) id' =
    if decide (id = id') then (fun _ => "dispatching") <$> status_of db id' else status_of db id'.
Proof.
  unfold MarkJobDispatching. rewrite status_alter. case_decide; [|done]. unfold status_of.
  by destruct (jobs db !! id').
Qed.

Lemma status_requeue id id' db :
  status_of (RequeueJob id db) id' =
    if decide (id = id') then (fun _ => "queued") <$> status_of db id' else status_of db id'.
Proof.
  unfold RequeueJob. rewrite status_alter. case_decide; [|done]. unfold status_of.
  by destruct (jobs db !! id').
Qed.

Lemma status_update now s id id' db :
  status_of (UpdateJobStatus now s id db).1 id' =
    if decide (id = id') then (fun _ => s) <$> status_of db id' else status_of db id'.
Proof.
  unfold UpdateJobStatus. cbn [fst]. rewrite status_alter. case_decide; [|done]. unfold status_of.
  by destruct (jobs db !! id').
Qed.

Lemma LockJobForDispatch_status id db row :
  LockJobForDispatch id db = Some row ->
  exists s, status_of db id = Some s /\ claimable s = true.
Proof.
  unfold LockJobForDispatch, status_of. destruct (jobs db !! id) as [j|]; [|done].
  destruct (claimable (job_Status j)) eqn:Hc; [|done]. cbn. eauto.
Qed.

#[export] Hint Rewrite status_mark status_requeue status_update : automail.

(** ** The admin listing *)

(** jobs.slot_id REFERENCES mailbox_slots(id) *)
Definition slots_exist (db : database) : Prop :=
  map_Forall (fun _ j => is_Some (mailbox_slots db !! job_SlotID j)) (jobs db).

Lemma newest_first_total a b : newest_first a b \/ newest_first b a.
Proof. unfold newest_first. lia. Qed.

#[export] Instance newest_first_trans : Transitive newest_first.
Proof. intros a b c. unfold newest_first. lia. Qed.

(** No two matching jobs were created at the same instant. *)
Definition distinct_times (status : string) (db : database) : Prop :=
  forall id1 id2 j1 j2, jobs db !! id1 = Some j1 -> jobs db !! id2 = Some j2 ->
  status_matches status j1 = true -> status_matches status j2 = true ->
  job_CreatedAt j1 = job_CreatedAt j2 -> id1 = id2.

(** Then every execution lists them in the same order. *)
Lemma admin_rows_planned (P1 P2 : Planner) status db :
  distinct_times status db -> admin_rows (P := P1) status db = admin_rows (P := P2) status db.
Proof.
  intros Hd. unfold admin_rows. f_equal.
  apply (Sorted_unique_strong newest_first).
  - intros [id1 j1] [id2 j2] H1 H2 H12 H21.
    rewrite (@order_by_perm P1) in H1. rewrite (@order_by_perm P2) in H2. apply elem_of_map_to_list, map_lookup_filter_Some in H1 as [H1 Hs1].
    apply elem_of_map_to_list, map_lookup_filter_Some in H2 as [H2 Hs2]. cbn in Hs1, Hs2.
    unfold newest_first in H12, H21. cbn in H12, H21.
    assert (id1 = id2) as -> by (eapply Hd; eauto; lia). congruence.
  - apply (@order_by_sorted P1), newest_first_total.
  - apply (@order_by_sorted P2), newest_first_total.
  - by rewrite (@order_by_perm P1), (@order_by_perm P2).
Qed.

(** With every slot present the join drops no row. *)
Lemma admin_rows_ids {P : Planner} status db :
  slots_exist db ->
  exists sorted, sorted ≡ₚ map_to_list (filter (fun kv => status_matches status kv.2 = true) (jobs db))
    /\ Sorted newest_first sorted
    /\ (fun r => (aljr_ID r, aljr_CreatedAt r)) <$> admin_rows status db
       = (fun kv => (kv.1, job_CreatedAt kv.2)) <$> sorted.
Proof.
  intros Hfk. unfold admin_rows.
  set (l := map_to_list _). exists (order_by newest_first l).
  split; [apply order_by_perm|]. split; [apply order_by_sorted, newest_first_total|].
  assert (Forall (fun kv => is_Some (mailbox_slots db !! job_SlotID kv.2)) (order_by newest_first l)) as Hl.
  { rewrite order_by_perm. apply Forall_forall. intros [id j] Hin.
    apply elem_of_map_to_list, map_lookup_filter_Some in Hin as [Hj _]. exact (Hfk id j Hj). }
  induction Hl as [|kv l' [s Hs] _ IH]; [done|]. cbn. rewrite Hs. cbn. by rewrite IH.
Qed.

(** C25: Paging through the job table misses nothing and repeats nothing,
    provided creation times tell the matching jobs apart and the tables do not
    change between the pages.  Each page is an
    execution of its own, with its own choice between tied rows ([plan]).  With
    a positive page size, offsets within int32 and the table's foreign key
    intact, the pages 0 to n-1 of AdminListJobs all succeed, and once n pages of
    that size cover the total AdminCountJobs reports for the same filter,
    together they list exactly the matching jobs, each once, newest first.  The
    proviso is needed: the statement orders by created_at alone, and with a tie
    a job can come twice while another never comes
    ([MainScenarios.tied_jobs_repeat]). *)
Theorem admin_pages_partition (plan : nat -> Planner) db status size n :
  (0 < size)%Z -> (size * Z.of_nat n < 2 ^ 31)%Z -> slots_exist db -> distinct_times status db ->
  (AdminCountJobs status db <= size * Z.of_nat n)%Z ->
  exists pages,
    Forall2 (fun k page => AdminListJobs (P := plan k)
        {| alj_Status := status; alj_RowLimit := int32 size; alj_RowOffset := int32 (size * Z.of_nat k) |} db
      = Ok page) (seq 0 n) pages
    /\ Z.of_nat (length (mjoin pages)) = AdminCountJobs status db
    /\ NoDup (aljr_ID <$> mjoin pages)
    /\ (forall id, id ∈ aljr_ID <$> mjoin pages
         <-> exists j, jobs db !! id = Some j /\ status_matches status j = true)
    /\ Sorted (fun a b => (b <= a)%Z) (aljr_CreatedAt <$> mjoin pages).
Proof.
  intros Hsize Hint Hfk Hd Hn. pose (P := as_found).
  destruct (admin_rows_ids status db Hfk) as (sorted & Hperm & Hsorted & Hrows).
  exists ((fun k => take (Z.to_nat size) (drop (Z.to_nat size * k) (admin_rows status db))) <$> seq 0 n).
  assert (length (admin_rows status db) = length sorted) as Hlen.
  { apply (f_equal length) in Hrows. by rewrite !length_fmap in Hrows. }
  assert (Z.of_nat (length sorted) = AdminCountJobs status db) as Hcount.
  { rewrite Hperm. unfold AdminCountJobs. by rewrite length_map_to_list. }
  assert (length (admin_rows status db) <= Z.to_nat size * n)%nat as Hcover.
  { rewrite Hlen. apply Nat2Z.inj_le. rewrite Hcount, Nat2Z.inj_mul, Z2Nat.id; lia. }
  rewrite join_pages, take_ge by done.
  assert (aljr_ID <$> admin_rows status db = sorted.*1) as Hids.
  { apply (f_equal (fmap fst)) in Hrows. by rewrite <- !list_fmap_compose in Hrows. }
  split_and!.
  - apply Forall2_fmap_r, Forall_Forall2_diag, Forall_forall. intros k Hk%elem_of_seq. unfold AdminListJobs. cbn.
    assert (size * Z.of_nat k <= size * Z.of_nat n)%Z by (apply Z.mul_le_mono_nonneg_l; lia).
    assert (0 <= size * Z.of_nat k)%Z by (apply Z.mul_nonneg_nonneg; lia).
    assert (size <= size * Z.of_nat n)%Z by (rewrite <- (Z.mul_1_r size) at 1; apply Z.mul_le_mono_nonneg_l; lia).
    rewrite !wrap_signed_id by (change (2 ^ (32 - 1))%Z with (2 ^ 31)%Z; lia).
    rewrite (admin_rows_planned (plan k) P status db Hd).
    destruct (size * Z.of_nat k <? 0)%Z eqn:Hneg; [lia|]. destruct (size <? 0)%Z eqn:Hneg'; [lia|].
    by rewrite Z2Nat.inj_mul, Nat2Z.id by lia.
  - by rewrite Hlen.
  - rewrite Hids, Hperm. apply NoDup_fst_map_to_list.
  - intros id. rewrite Hids, Hperm, list_elem_of_fmap. split.
    + intros ([id' j] & -> & Hj%elem_of_map_to_list). apply map_lookup_filter_Some in Hj. by exists j.
    + intros (j & Hj & Hs). exists (id, j). split; [done|]. apply elem_of_map_to_list, map_lookup_filter_Some. done.
  - apply (f_equal (fmap snd)) in Hrows. rewrite <- !list_fmap_compose in Hrows.
    change (aljr_CreatedAt <$> admin_rows status db) with ((snd ∘ (fun r => (aljr_ID r, aljr_CreatedAt r))) <$> admin_rows status db).
    rewrite Hrows. eapply Sorted_fmap; [|exact Hsorted]. cbn. intros [] []. done.
Qed.
