(* ===== verification/System.v ===== *)
(** * Many nodes, one database

    Any number of cloud nodes run their programs interleaved, call by call,
    against one Postgres whose row locks and transactions decide who may
    dispatch a job.  Nodes may crash, connections may be lost, and an error
    answer may hide a statement or a PUBLISH that took effect.  The protocol each node
    follows is a small automaton over its calls; the dispatch code is proved to
    follow it, and the system theorem holds of every set of programs that do. *)

From S2P Require Import Prelude GoStrings Base64 Json Keys Db Calls Store Minio Dispatch Dispatcher Env Sql.

(** ** Postgres *)

#[export] Instance LockRow_eq_dec : EqDecision LockJobForDispatchRow.
Proof. solve_decision. Defined.

Record pg : Type := {
  pg_db : database;             (* the committed tables *)
  pg_open : gset Z;             (* transactions in progress *)
  pg_locks : gmap uuid Z;       (* the transaction holding a job's row lock *)
  pg_marks : gset (Z * uuid);   (* uncommitted MarkJobDispatching updates *)
  pg_next : Z                   (* the next transaction *)
}.

(** [tx] is over: its locks are released and its updates forgotten. *)
Definition pg_end (tx : Z) (w : pg) : pg :=
  {| pg_db := pg_db w; pg_open := pg_open w ∖ {[tx]};
     pg_locks := filter (fun kv => kv.2 <> tx) (pg_locks w);
     pg_marks := filter (fun m => m.1 <> tx) (pg_marks w); pg_next := pg_next w |}.

Definition pg_on_db (f : database -> database) (w : pg) : pg :=
  {| pg_db := f (pg_db w); pg_open := pg_open w; pg_locks := pg_locks w;
     pg_marks := pg_marks w; pg_next := pg_next w |}.

(** The updates of [tx], applied. *)
Definition pg_apply (tx : Z) (w : pg) : pg :=
  pg_on_db (fun db => foldr (fun m db => if decide (m.1 = tx) then MarkJobDispatching m.2 db else db)
                        db (elements (pg_marks w))) w.

Definition pg_lock (tx : Z) (id : uuid) (w : pg) : pg :=
  {| pg_db := pg_db w; pg_open := pg_open w; pg_locks := <[id := tx]> (pg_locks w);
     pg_marks := pg_marks w; pg_next := pg_next w |}.

Definition pg_mark (tx : Z) (id : uuid) (w : pg) : pg :=
  {| pg_db := pg_db w; pg_open := pg_open w; pg_locks := pg_locks w;
     pg_marks := {[(tx, id)]} ∪ pg_marks w; pg_next := pg_next w |}.

Definition pg_begin (w : pg) : pg :=
  {| pg_db := pg_db w; pg_open := {[pg_next w]} ∪ pg_open w; pg_locks := pg_locks w;
     pg_marks := pg_marks w; pg_next := pg_next w + 1 |}.

(** A single-statement update of one job row waits for the row's lock;
    [effective] says whether the statement took effect. *)
Definition pg_update (id : uuid) (effective : bool) (f : database -> database) (w : pg) : option pg :=
  if effective then
    match pg_locks w !! id with
    | Some _ => None
    | None => Some (pg_on_db f w)
    end
  else Some w.

Definition is_ok {A} (r : result A) : bool := match r with Ok _ => true | Err _ => false end.

(** [pg_step lost now fresh w c r]: the world after the call [c] was answered [r], or
    [None] if Postgres cannot answer so now.  [lost] is whether a statement
    that answered an error took effect all the same (the reply was lost);
    [fresh] is the id an insertion draws when its reply is lost.  NOWAIT may be
    refused at any time, also for the sake of a session not modelled here. *)
Definition pg_step (lost : bool) (now : Z) (fresh : uuid) (w : pg) (c : cloud_call) : cloud_res c -> option pg :=
  match c with
  | TxBegin => fun r =>
      match r with
      | Ok tx => if decide (tx = pg_next w) then Some (pg_begin w) else None
      | Err _ => Some w
      end
  | TxLockJobForDispatch tx id => fun r =>
      match r with
      | Ok row =>
          if decide (tx ∈ pg_open w /\ pg_locks w !! id = None
                     /\ LockJobForDispatch id (pg_db w) = Some row)
          then Some (pg_lock tx id w) else None
      | Err ErrNoRows => if decide (LockJobForDispatch id (pg_db w) = None) then Some w else None
      | Err (ErrPq _ _) => Some w
      | Err _ =>
          if lost then
            if decide (tx ∈ pg_open w /\ pg_locks w !! id = None
                       /\ is_Some (LockJobForDispatch id (pg_db w)))
            then Some (pg_lock tx id w) else Some w
          else Some w
      end
  | TxMarkJobDispatching tx id => fun r =>
      match r with
      | Ok _ =>
          if decide (tx ∈ pg_open w /\ pg_locks w !! id = Some tx) then Some (pg_mark tx id w) else None
      | Err _ =>
          if lost then
            if decide (tx ∈ pg_open w /\ pg_locks w !! id = Some tx) then Some (pg_mark tx id w) else Some w
          else Some w
      end
  | TxCommit tx => fun r =>
      if decide (tx ∈ pg_open w) then
        if is_ok r || lost then Some (pg_end tx (pg_apply tx w)) else Some w
      else if is_ok r then None else Some w
  | TxRollback tx => fun _ => Some (pg_end tx w)
  | QRequeueJob id => fun r => pg_update id (is_ok r || lost) (RequeueJob id) w
  | QUpdateJobStatus status id => fun r =>
      pg_update id (is_ok r || lost) (fun db => (UpdateJobStatus now status id db).1) w
  | QSetJobBlobDeleted id => fun r => pg_update id (is_ok r || lost) (SetJobBlobDeleted now id) w
  | QInsertJob p => fun r =>
      match r with
      | Ok row =>
          match jobs (pg_db w) !! insr_ID row, InsertJob now (insr_ID row) p (pg_db w) with
          | None, Some (db, _) => Some (pg_on_db (fun _ => db) w)
          | _, _ => None
          end
      | Err _ =>
          if lost then
            match jobs (pg_db w) !! fresh, InsertJob now fresh p (pg_db w) with
            | None, Some (db, _) => Some (pg_on_db (fun _ => db) w)
            | _, _ => Some w
            end
          else Some w
      end
  | QInsertAuditEvent ev => fun r =>
      Some (if is_ok r || lost then pg_on_db (InsertAuditEvent ev) w else w)
  | _ => fun _ => Some w
  end.

(** ** The protocol of one program *)

(** The job a dispatch frame is for. *)
Definition frame_job {U : UuidLib} (payload : json) : option uuid :=
  match payload with
  | JObj (("type", JStr "dispatch") :: ("job_id", JStr s) :: _) =>
      match uuid_parse s with Ok id => Some id | Err _ => None end
  | _ => None
  end.

Inductive phase : Type :=
| Free                           (* no transaction, no claim *)
| InTx (tx : Z)                  (* a transaction without the lock *)
| Locked (tx : Z) (id : uuid)
| Marked (tx : Z) (id : uuid)
| Ending (tx : Z)                (* nothing left but to roll back *)
| Owner (tx : Z) (id : uuid).    (* the claim of [id] is committed *)

#[export] Instance phase_eq_dec : EqDecision phase.
Proof. solve_decision. Defined.

Section protocol.
Context {U : UuidLib}.

(** The phase after one call and its answer, [None] if the call is not allowed
    in this phase. *)
Definition advance (ph : phase) (c : cloud_call) : cloud_res c -> option phase :=
  match c with
  | TxBegin => fun r =>
      match ph, r with
      | Free, Ok tx => Some (InTx tx)
      | Free, Err _ => Some Free
      | _, _ => None
      end
  | TxLockJobForDispatch tx id => fun r =>
      match ph with
      | InTx tx' => if decide (tx = tx') then Some (if is_ok r then Locked tx id else Ending tx) else None
      | _ => None
      end
  | TxMarkJobDispatching tx id => fun r =>
      if decide (ph = Locked tx id) then Some (if is_ok r then Marked tx id else Ending tx) else None
  | TxCommit tx => fun r =>
      match ph with
      | Marked tx' id => if decide (tx = tx') then Some (if is_ok r then Owner tx id else Ending tx) else None
      | _ => None
      end
  | TxRollback tx => fun _ =>
      match ph with
      | Ending tx' => if decide (tx = tx') then Some Free else None
      | Owner tx' _ => if decide (tx = tx') then Some ph else None
      | _ => None
      end
  | QRequeueJob id => fun _ =>
      match ph with
      | Owner _ id' => if decide (id = id') then Some Free else None
      | _ => None
      end
  | RPublish _ payload => fun r =>
      match frame_job payload with
      | None => Some ph
      | Some id =>
          match ph with
          | Owner _ id' =>
              if decide (id = id') then
                Some (match r with Ok n => if (n =? 0)%Z then ph else Free | Err _ => ph end)
              else None
          | _ => None
          end
      end
  | QUpdateJobStatus status _ => fun _ => if claimable status then None else Some ph
  | _ => fun _ => Some ph
  end.

Fixpoint monitor (ph : phase) (t : trace cloud_sig) : option phase :=
  match t with
  | [] => Some ph
  | existT c r :: t' => advance ph c r ≫= fun ph' => monitor ph' t'
  end.

(** [p], started in phase [ph], keeps to the protocol and ends without a
    transaction or an unresolved claim. *)
Definition disciplined {A} (ph : phase) (p : cloud A) : Prop :=
  wp p (fun t _ => monitor ph t = Some Free).

(** The laxer protocol of every program of the cloud.  [Hub.onStatus] writes
    whatever status a printer reports, so a row's status may be set to anything
    in any phase, a claimable status included. *)
Definition watch (ph : phase) (c : cloud_call) : cloud_res c -> option phase :=
  match c with
  | QUpdateJobStatus _ _ => fun _ => Some ph
  | c => advance ph c
  end.

Fixpoint watched (ph : phase) (t : trace cloud_sig) : option phase :=
  match t with
  | [] => Some ph
  | existT c r :: t' => watch ph c r ≫= fun ph' => watched ph' t'
  end.

Definition lawful {A} (ph : phase) (p : cloud A) : Prop :=
  wp p (fun t _ => watched ph t = Some Free).

(** ** The system *)

Record sys : Type := {
  s_threads : list (cloud unit);
  s_pg : pg;
  s_log : trace cloud_sig;       (* every call, with the answer its node got *)
  s_lost : trace cloud_sig       (* the calls among them that took effect although the
                                    answer did not say so *)
}.

(** A node's next call is answered by Postgres's rules, and otherwise by
    anything.  [lost]: the call took effect whatever the node was told, as when
    a connection fails between the server's work and its reply.  For Postgres
    [pg_step] applies the statement; for a PUBLISH the subscribers get the
    message although the publisher sees an error. *)
Inductive step : sys -> sys -> Prop :=
| step_call s i c k r (lost : bool) now fresh w' :
    s_threads s !! i = Some (Vis (S := cloud_sig) c k) ->
    pg_step lost now fresh (s_pg s) c r = Some w' ->
    step s {| s_threads := <[i := k r]> (s_threads s); s_pg := w'; s_log := s_log s ++ [CEv c r];
              s_lost := s_lost s ++ (if lost then [CEv c r] else []) |}
| step_spawn s p :
    lawful Free p ->
    step s {| s_threads := s_threads s ++ [p]; s_pg := s_pg s; s_log := s_log s; s_lost := s_lost s |}
| step_crash s i :
    step s {| s_threads := <[i := Ret tt]> (s_threads s); s_pg := s_pg s; s_log := s_log s;
              s_lost := s_lost s |}
| step_conn_lost s tx :
    step s {| s_threads := s_threads s; s_pg := pg_end tx (s_pg s); s_log := s_log s;
              s_lost := s_lost s |}.

(** Nothing runs yet, the tables are whatever they are. *)
Definition start (db : database) : sys :=
  {| s_threads := [];
     s_pg := {| pg_db := db; pg_open := ∅; pg_locks := ∅; pg_marks := ∅; pg_next := 1 |};
     s_log := []; s_lost := [] |}.

(** A PUBLISH of a frame for job [id] that was answered with a receiver: some
    node subscribed for the printer got it. *)
Definition frame_for (id : uuid) (e : event cloud_sig) : bool :=
  match e with
  | existT (RPublish _ payload) (Ok n) =>
      negb (n =? 0)%Z && bool_decide (frame_job payload = Some id)
  | _ => false
  end.

(** A PUBLISH of a frame for job [id] that was answered with an error: it may
    or may not have been delivered. *)
Definition unanswered (id : uuid) (e : event cloud_sig) : bool :=
  match e with
  | existT (RPublish _ payload) (Err _) => bool_decide (frame_job payload = Some id)
  | _ => false
  end.

(** A printer's report of a status from which job [id] can be claimed. *)
Definition reopens (id : uuid) (e : event cloud_sig) : bool :=
  match e with
  | existT (QUpdateJobStatus status id') _ => claimable status && bool_decide (id' = id)
  | _ => false
  end.

(** How many PUBLISHes of a frame for job [id] reached a subscriber, whatever
    the publishing node was told. *)
Definition deliveries (id : uuid) (s : sys) : nat :=
  count (frame_for id) (s_log s) + count (unanswered id) (s_lost s).

End protocol.

(** ** Programs that keep to the protocol *)

Section discipline.
Context {U : UuidLib}.

Lemma monitor_app ph t1 t2 : monitor ph (t1 ++ t2) = monitor ph t1 ≫= fun ph' => monitor ph' t2.
Proof.
  revert ph. induction t1 as [|[c r] t1 IH]; intros ph; [done|]. cbn.
  destruct (advance ph c r); cbn; [apply IH|done].
Qed.

(** Calls that are allowed in every phase and do not change it. *)
Definition neutral (c : cloud_call) : bool :=
  match c with
  | TxBegin | TxLockJobForDispatch _ _ | TxMarkJobDispatching _ _ | TxCommit _ | TxRollback _
  | QRequeueJob _ => false
  | RPublish _ payload => bool_decide (frame_job payload = None)
  | QUpdateJobStatus status _ => negb (claimable status)
  | _ => true
  end.

Lemma advance_neutral ph c r : neutral c = true -> advance ph c r = Some ph.
Proof.
  destruct c; cbn; try done.
  - by destruct (claimable status).
  - intros H%bool_decide_eq_true. by rewrite H.
Qed.

Lemma monitor_neutral ph t :
  Forall (fun e : event cloud_sig => neutral (ev_call e) = true) t -> monitor ph t = Some ph.
Proof.
  induction 1 as [|[c r] t He _ IH]; [done|]. cbn. by rewrite advance_neutral by exact He.
Qed.

Lemma monitor_quiet ph t : quiet t -> monitor ph t = Some ph.
Proof.
  intros Hq. apply monitor_neutral. eapply Forall_impl; [exact Hq|].
  intros [c r]. by destruct c.
Qed.

Lemma disciplined_ret {A} (a : A) : disciplined Free (Ret a).
Proof. done. Qed.

Lemma disciplined_bind {A B} ph (p : cloud A) (f : A -> cloud B) :
  disciplined ph p -> (forall a, disciplined Free (f a)) -> disciplined ph (p ≫= f).
Proof.
  intros Hp Hf. eapply wp_bind_spec; [exact Hp|]. intros t a Ht.
  eapply wp_mono; [|apply Hf]. intros t' b Ht'. rewrite monitor_app. cbn in Ht. by rewrite Ht.
Qed.

Lemma disciplined_loop {St A} (body : St -> cloud (St + A)) fuel s :
  (forall s, disciplined Free (body s)) -> disciplined Free (loop fuel body s).
Proof.
  intros Hb. revert s. induction fuel as [|n IH]; intros s; [done|]. cbn [loop].
  apply disciplined_bind; [apply Hb|]. intros [s'|a]; [apply IH|done].
Qed.

Lemma advance_watch ph c r ph' : advance ph c r = Some ph' -> watch ph c r = Some ph'.
Proof. destruct c; try done. cbn. by destruct (claimable status). Qed.

Lemma monitor_watched ph t ph' : monitor ph t = Some ph' -> watched ph t = Some ph'.
Proof.
  revert ph. induction t as [|[c r] t IH]; intros ph; [done|]. cbn.
  destruct (advance ph c r) as [ph1|] eqn:Ha; [|done]. cbn. rewrite (advance_watch _ _ _ _ Ha). apply IH.
Qed.

Lemma disciplined_lawful {A} ph (p : cloud A) : disciplined ph p -> lawful ph p.
Proof. intros Hp. eapply wp_mono; [|exact Hp]. intros t a. apply monitor_watched. Qed.

Lemma watched_app ph t1 t2 : watched ph (t1 ++ t2) = watched ph t1 ≫= fun ph' => watched ph' t2.
Proof.
  revert ph. induction t1 as [|[c r] t1 IH]; intros ph; [done|]. cbn.
  destruct (watch ph c r); cbn; [apply IH|done].
Qed.

Lemma lawful_ret {A} (a : A) : lawful Free (Ret a).
Proof. done. Qed.

Lemma lawful_bind {A B} ph (p : cloud A) (f : A -> cloud B) :
  lawful ph p -> (forall a, lawful Free (f a)) -> lawful ph (p ≫= f).
Proof.
  intros Hp Hf. eapply wp_bind_spec; [exact Hp|]. intros t a Ht.
  eapply wp_mono; [|apply Hf]. intros t' b Ht'. rewrite watched_app. cbn in Ht. by rewrite Ht.
Qed.

Lemma lawful_loop {St A} (body : St -> cloud (St + A)) fuel s :
  (forall s, lawful Free (body s)) -> lawful Free (loop fuel body s).
Proof.
  intros Hb. revert s. induction fuel as [|n IH]; intros s; [done|]. cbn [loop].
  apply lawful_bind; [apply Hb|]. intros [s'|a]; [apply IH|done].
Qed.

(** Calls that change no phase, status reports included. *)
Definition outside (c : cloud_call) : bool :=
  match c with QUpdateJobStatus _ _ => true | _ => neutral c end.

Lemma lawful_outside {A} (p : cloud A) :
  wp p (fun t _ => Forall (fun e : event cloud_sig => outside (ev_call e) = true) t) -> lawful Free p.
Proof.
  intros Hp. eapply wp_mono; [|exact Hp]. cbn. intros t _ Ht.
  induction Ht as [|[c r] t He _ IH]; [done|]. cbn in *.
  replace (watch Free c r) with (Some Free); [exact IH|].
  symmetry. destruct c; try done; by apply (advance_neutral Free).
Qed.

(** One call of a lawful program. *)
Lemma lawful_step {A} ph c (k : cloud_res c -> cloud A) r :
  lawful ph (Vis (S := cloud_sig) c k) ->
  exists ph', watch ph c r = Some ph' /\ lawful ph' (k r).
Proof.
  intros Hp. specialize (Hp r). cbn in Hp. unfold Ev in Hp.
  destruct (watch ph c r) as [ph'|] eqn:Ha.
  - exists ph'. split; [done|]. exact Hp.
  - pose proof (wp_exec _ _ _ _ Hp (interp_exec (S := cloud_sig) env (k r) empty_world)) as H.
    cbn in H. discriminate H.
Qed.

Lemma attempt_disciplined f : disciplined Free (attemptDispatch f).
Proof.
  unfold attemptDispatch, disciplined.
  eapply wp_bind_spec; [apply eligible_quiet|]. intros t ok Hq. cbn [negb].
  unfold claimJob, publishClaimed, revert, PresignedReadURL. cbn beta in Hq.
  wp_steps; rewrite monitor_app, (monitor_quiet Free t Hq).
  all: repeat (cbn; first
    [ done
    | rewrite decide_True by done
    | match goal with
      | H : uuid_parse ?x = _ |- context [uuid_parse ?x] => rewrite H
      | H : (?x =? 0)%Z = _ |- context [(?x =? 0)%Z] => rewrite H
      end ]).
Qed.

Lemma try_disciplined f : disciplined Free (TryDispatch f).
Proof.
  apply disciplined_bind; [apply attempt_disciplined|].
  unfold enqueue, disciplined. intros [[| |]|e]; wp_steps; done.
Qed.

Lemma retry_disciplined f : disciplined Free (Retry f).
Proof.
  apply disciplined_bind; [apply attempt_disciplined|]. by intros [[| |]|e].
Qed.

Lemma handle_disciplined msg : disciplined Free (handle msg).
Proof.
  unfold handle. destruct (JobRefFromValues (msg_Values msg)) as [f|e].
  - apply disciplined_bind; [apply retry_disciplined|].
    unfold ack, disciplined. intros [[]|e]; wp_steps; done.
  - unfold ack, disciplined. wp_steps; done.
Qed.

End discipline.

Section discipline_run.
Context {U : UuidLib} (di : Dispatcher).

Lemma disciplined_neutral {A} (p : cloud A) :
  wp p (fun t _ => Forall (fun e : event cloud_sig => neutral (ev_call e) = true) t) -> disciplined Free p.
Proof. intros Hp. eapply wp_mono; [|exact Hp]. cbn. intros. by apply monitor_neutral. Qed.

Lemma handle_all_disciplined msgs : disciplined Free (handle_all msgs).
Proof.
  induction msgs as [|m ms IH]; [done|]. cbn [handle_all].
  apply disciplined_bind; [apply handle_disciplined|]. intros _.
  apply disciplined_bind; [done|]. by intros [].
Qed.

Lemma drain_batches_disciplined n : disciplined Free (drain_batches di n).
Proof.
  induction n as [|n IH]; [done|]. cbn [drain_batches].
  apply disciplined_bind; [done|].
  intros [[|[s [|m ms]] ss]|e]; [done|done| |].
  - apply disciplined_bind; [apply handle_all_disciplined|]. by intros [].
  - by destruct e.
Qed.

Lemma reclaim_all_disciplined msgs : disciplined Free (reclaim_all msgs).
Proof.
  induction msgs as [|m ms IH]; [done|]. cbn [reclaim_all].
  apply disciplined_bind; [done|]. intros _.
  apply disciplined_bind; [apply handle_disciplined|]. intros _.
  apply disciplined_bind; [done|]. by intros [].
Qed.

Lemma reclaim_disciplined fuel : disciplined Free (reclaim di fuel).
Proof.
  apply disciplined_loop. intros s. unfold reclaim_page.
  apply disciplined_bind; [done|]. intros [[msgs next]|e]; [|done].
  apply disciplined_bind; [apply reclaim_all_disciplined|].
  intros []; [done|]. by case_match.
Qed.

Lemma reap_disciplined : disciplined Free (ReapStaleConsumers di).
Proof.
  unfold ReapStaleConsumers. apply disciplined_bind; [done|].
  intros [cs|e]; [|by case_match].
  induction cs as [|c cs IH]; [done|]. cbn [reap_each]. case_match; [exact IH|].
  apply disciplined_bind; [unfold deleteConsumerIfDrained, disciplined; wp_steps; done|].
  intros r. apply disciplined_bind; [by destruct r as [[]|]|]. by intros _.
Qed.

Lemma run_disciplined turns fuel : disciplined Free (Run di turns fuel).
Proof.
  unfold Run. apply disciplined_bind; [done|]. intros sub.
  apply disciplined_bind; [apply drain_batches_disciplined|]. intros _.
  apply disciplined_bind; [|intros r; by apply disciplined_bind].
  apply disciplined_loop. intros _. unfold run_turn.
  apply disciplined_bind; [done|]. intros [|[]|]; [done| |done|].
  - apply disciplined_bind; [apply drain_batches_disciplined|done].
  - apply disciplined_bind; [apply reclaim_disciplined|]. intros _.
    apply disciplined_bind; [apply drain_batches_disciplined|]. intros _.
    apply disciplined_bind; [apply reap_disciplined|done].
Qed.

End discipline_run.

(** ** The invariant *)

Section invariant.
Context {U : UuidLib}.

(** Whether a job's row can be claimed now. *)
Definition free_row (db : database) (id : uuid) : Prop :=
  exists s, status_of db id = Some s /\ claimable s = true.
Definition taken_row (db : database) (id : uuid) : Prop :=
  exists s, status_of db id = Some s /\ claimable s = false.

Definition tx_of (ph : phase) : option Z :=
  match ph with
  | Free => None
  | InTx tx | Locked tx _ | Marked tx _ | Ending tx | Owner tx _ => Some tx
  end.

(** The phases that hold a row lock, unless the transaction was lost. *)
Definition holds (ph : phase) (tx : Z) (id : uuid) : Prop := ph = Locked tx id \/ ph = Marked tx id.

Abbreviation frames id log := (count (frame_for id) log).
Abbreviation reopened id log := (count (reopens id) log).

(** The threads whose phase is a committed, unresolved claim of [id]. *)
Definition owns (id : uuid) (ph : phase) : nat :=
  match ph with Owner _ id' => Nat.b2n (bool_decide (id' = id)) | _ => 0 end.
Definition owners (id : uuid) (phs : list phase) : nat := sum_list_with (owns id) phs.

(** Whether the row of [id] can be claimed, as a number. *)
Definition free_bit (db : database) (id : uuid) : nat :=
  match status_of db id with Some s => Nat.b2n (claimable s) | None => 0 end.

(** What holds of the locks and the open transactions; [phs] are the phases of
    the threads. *)
Record core (phs : list phase) (w : pg) : Prop := {
  inv_next : forall i ph tx, phs !! i = Some ph -> tx_of ph = Some tx -> (tx < pg_next w)%Z;
  inv_tx : forall i j ph1 ph2 tx, phs !! i = Some ph1 -> phs !! j = Some ph2 ->
    tx_of ph1 = Some tx -> tx_of ph2 = Some tx -> i = j;
  inv_mark : forall tx id, (tx, id) ∈ pg_marks w -> pg_locks w !! id = Some tx;
  inv_locked : forall i ph tx id, phs !! i = Some ph -> holds ph tx id -> tx ∈ pg_open w ->
    pg_locks w !! id = Some tx /\ free_row (pg_db w) id;
  inv_marked : forall i tx id, phs !! i = Some (Marked tx id) -> tx ∈ pg_open w -> (tx, id) ∈ pg_marks w
}.

(** Every dispatch of a job spends the one chance its row gives: a frame that
    was answered, a claim that is held and a row that can be claimed are one
    together, and one more for each report that reopened the row. *)
Record budget (phs : list phase) (db : database) (log : trace cloud_sig) : Prop := {
  bud_sum : forall id, (frames id log + owners id phs + free_bit db id <= 1 + reopened id log)%nat;
  bud_none : forall id, status_of db id = None -> (frames id log + owners id phs = 0)%nat
}.

Definition inv (phs : list phase) (w : pg) (log : trace cloud_sig) : Prop :=
  core phs w /\ budget phs (pg_db w) log.

Lemma free_bit_free db id : free_row db id -> free_bit db id = 1%nat.
Proof. intros (s & Hs & Hc). unfold free_bit. by rewrite Hs, Hc. Qed.

Lemma free_bit_le db id : (free_bit db id <= 1)%nat.
Proof. unfold free_bit. destruct (status_of db id) as [s|]; [|lia]. destruct (claimable s); cbn; lia. Qed.

Lemma free_row_some db id : free_row db id -> status_of db id <> None.
Proof. intros (s & Hs & _). congruence. Qed.

Lemma taken_of_bit db id : status_of db id <> None -> free_bit db id = 0%nat -> taken_row db id.
Proof.
  unfold free_bit, taken_row. destruct (status_of db id) as [s|]; [|done].
  intros _ H. exists s. split; [done|]. by destruct (claimable s).
Qed.

Lemma taken_bit db id : taken_row db id -> free_bit db id = 0%nat.
Proof. intros (s & Hs & Hc). unfold free_bit. by rewrite Hs, Hc. Qed.

Lemma owners_insert id (phs : list phase) i ph ph' :
  phs !! i = Some ph ->
  (owners id (<[i := ph']> phs) + owns id ph = owners id phs + owns id ph')%nat.
Proof.
  revert i. unfold owners. induction phs as [|x phs IH]; intros [|i] Hi; cbn in *; simplify_eq; [lia|].
  specialize (IH i Hi). rewrite <- !Nat.add_assoc. by f_equal.
Qed.

Lemma inv_start db : inv [] (s_pg (start db)) [].
Proof.
  split; split; intros; try done; try set_solver.
  rewrite !count_nil. unfold owners. cbn [sum_list_with]. pose proof (free_bit_le db id). cbn. lia.
Qed.

(** *** The budget *)

(** A change that trades frames, claims and claimable rows one for one. *)
Lemma bud_step phs phs' db db' log log' :
  (forall id, frames id log' + owners id phs' + free_bit db' id + reopened id log
     <= frames id log + owners id phs + free_bit db id + reopened id log')%nat ->
  (forall id, status_of db' id = None ->
     status_of db id = None /\ (frames id log' + owners id phs' <= frames id log + owners id phs)%nat) ->
  budget phs db log -> budget phs' db' log'.
Proof.
  intros Hs Hn [Hb Hz]. split; intros id.
  - specialize (Hs id). specialize (Hb id). lia.
  - intros [H1 H2]%Hn. apply Hz in H1. lia.
Qed.

Lemma bud_phase phs db log i ph ph' :
  phs !! i = Some ph -> (forall id, (owns id ph' <= owns id ph)%nat) ->
  budget phs db log -> budget (<[i := ph']> phs) db log.
Proof.
  intros Hi Ho. apply bud_step; intros id; pose proof (owners_insert id phs i ph ph' Hi); specialize (Ho id);
    [|split; [done|]]; lia.
Qed.

Lemma count_snoc (P : event cloud_sig -> bool) log e : count P (log ++ [e]) = (count P log + Nat.b2n (P e))%nat.
Proof. rewrite count_app, count_cons, count_nil. by destruct (P e); cbn; lia. Qed.

(** An event that is no frame; the rows that became claimable are those it
    reopened. *)
Lemma bud_event phs db db' log e :
  (forall id, frame_for id e = false) ->
  (forall id, free_bit db' id <= free_bit db id + Nat.b2n (reopens id e))%nat ->
  (forall id, status_of db' id = None -> status_of db id = None) ->
  budget phs db log -> budget phs db' (log ++ [e]).
Proof.
  intros Hf Hb Hn. apply bud_step; intros id; rewrite ?count_snoc, ?Hf; cbn [Nat.b2n].
  - specialize (Hb id). lia.
  - intros H. split; [auto|lia].
Qed.

(** *** One transaction ends *)

Lemma core_end phs w tx : core phs w -> core phs (pg_end tx w).
Proof.
  intros [Hn Ht Hm Hl Hk]. split; try done; cbn.
  - intros tx' id [Hne Hin]%elem_of_filter. apply map_lookup_filter_Some. auto.
  - intros i ph tx' id Hi Hh Hop. destruct (Hl i ph tx' id Hi Hh) as [H1 H2]; [set_solver|].
    split; [|done]. apply map_lookup_filter_Some. split; [done|]. set_solver.
  - intros i tx' id Hi Hop. apply elem_of_filter. split; [set_solver|].
    eapply Hk; [exact Hi|set_solver].
Qed.

Lemma inv_pg_end phs w log tx : inv phs w log -> inv phs (pg_end tx w) log.
Proof. intros [Hc Hb]. split; [by apply core_end|done]. Qed.

(** *** A thread changes phase *)

(** [ph'] asks for nothing [ph] did not. *)
Definition weaker (ph' ph : phase) : Prop :=
  ph' = ph \/ (tx_of ph' = None \/ tx_of ph' = tx_of ph) /\
  forall tx id, ph' <> Locked tx id /\ ph' <> Marked tx id.

Lemma insert_cases (phs : list phase) i ph' j x :
  <[i := ph']> phs !! j = Some x -> (j = i /\ x = ph') \/ (j <> i /\ phs !! j = Some x).
Proof. intros [(-> & <- & _)|[? ?]]%list_lookup_insert_Some; auto. Qed.

Lemma core_weaken phs w i ph ph' :
  phs !! i = Some ph -> weaker ph' ph -> core phs w -> core (<[i := ph']> phs) w.
Proof.
  intros Hi [->|[Htx Hw]] Hinv; [by rewrite list_insert_id|].
  assert (forall tx, tx_of ph' = Some tx -> tx_of ph = Some tx) as Htx'.
  { intros tx H. destruct Htx as [Htx|Htx]; congruence. }
  destruct Hinv as [Hn Ht Hm Hl Hk]. split; auto.
  - intros j x tx [[-> ->]|[_ Hx]]%insert_cases Hxt; [|eauto]. eapply Hn; eauto.
  - intros j1 j2 x1 x2 tx [[-> ->]|[_ Hx1]]%insert_cases [[-> ->]|[_ Hx2]]%insert_cases H1 H2; eauto.
  - intros j x tx id [[-> ->]|[_ Hx]]%insert_cases Hh Hop; [|eauto].
    destruct (Hw tx id). by destruct Hh.
  - intros j tx id [[-> Heq]|[_ Hx]]%insert_cases Hop; [|eauto]. destruct (Hw tx id). congruence.
Qed.

(** *** The tables change *)

Lemma core_on_db phs w f :
  (forall id, is_Some (pg_locks w !! id) -> free_row (pg_db w) id -> free_row (f (pg_db w)) id) ->
  core phs w -> core phs (pg_on_db f w).
Proof.
  intros Hfree [Hn Ht Hm Hl Hk]. split; try done; cbn.
  intros i ph tx id Hi Hh Hop. destruct (Hl i ph tx id Hi Hh Hop) as [H1 H2]. split; [done|].
  apply Hfree; [eauto|done].
Qed.

(** *** The steps of a transaction *)

Lemma apply_status tx (l : list (Z * uuid)) db (id : uuid) :
  status_of (foldr (fun (m : Z * uuid) db => if decide (m.1 = tx) then MarkJobDispatching m.2 db else db) db l) id
  = if decide ((tx, id) ∈ l) then (fun _ => "dispatching") <$> status_of db id else status_of db id.
Proof.
  induction l as [|[tx' id'] l IH]; cbn [foldr].
  { by rewrite decide_False by set_solver. }
  destruct (decide (tx' = tx)) as [->|Hne]; cbn [fst snd].
  - rewrite decide_True by done. rewrite status_mark, IH.
    destruct (decide (id' = id)) as [->|Hid].
    + rewrite (decide_True (P := (tx, id) ∈ (tx, id) :: l)) by set_solver.
      case_decide; [|done]. by destruct (status_of db id).
    + destruct (decide ((tx, id) ∈ l)).
      * rewrite decide_True by set_solver. done.
      * rewrite decide_False by set_solver. done.
  - rewrite decide_False by done. rewrite IH.
    destruct (decide ((tx, id) ∈ l)).
    + rewrite decide_True by set_solver. done.
    + rewrite decide_False by set_solver. done.
Qed.

Lemma pg_apply_status tx w id :
  status_of (pg_db (pg_apply tx w)) id
  = if decide ((tx, id) ∈ pg_marks w) then (fun _ => "dispatching") <$> status_of (pg_db w) id
    else status_of (pg_db w) id.
Proof.
  unfold pg_apply. cbn [pg_db pg_on_db]. rewrite apply_status.
  destruct (decide ((tx, id) ∈ pg_marks w)).
  - rewrite decide_True by (by apply elem_of_elements). done.
  - rewrite decide_False by (by rewrite elem_of_elements). done.
Qed.

Lemma apply_bit tx w id : (free_bit (pg_db (pg_apply tx w)) id <= free_bit (pg_db w) id)%nat.
Proof.
  unfold free_bit. rewrite pg_apply_status.
  destruct (status_of (pg_db w) id); case_decide; cbn; lia.
Qed.

Lemma apply_marked tx w id :
  (tx, id) ∈ pg_marks w -> free_bit (pg_db (pg_apply tx w)) id = 0%nat.
Proof.
  intros Hm. unfold free_bit. rewrite pg_apply_status, decide_True by done.
  by destruct (status_of (pg_db w) id).
Qed.

Lemma apply_none tx w id :
  status_of (pg_db (pg_apply tx w)) id = None -> status_of (pg_db w) id = None.
Proof. rewrite pg_apply_status. by case_decide; destruct (status_of (pg_db w) id). Qed.

(** A transaction that ends, its updates applied. *)
Lemma core_commit phs w tx : core phs w -> core phs (pg_end tx (pg_apply tx w)).
Proof.
  intros [Hn Ht Hm Hl Hk]. split; try done; cbn.
  - intros tx' id [Hne Hin]%elem_of_filter. apply map_lookup_filter_Some. auto.
  - intros i ph tx' id Hi Hh Hop. destruct (Hl i ph tx' id Hi Hh) as [H1 (s & Hs & Hc)]; [set_solver|].
    split; [apply map_lookup_filter_Some; split; [done|set_solver]|].
    exists s. rewrite <- Hs. split; [|done].
    pose proof (pg_apply_status tx w id) as Ha. cbn in Ha. rewrite Ha.
    rewrite decide_False; [done|]. intros Hin%Hm. set_solver.
  - intros i tx' id Hi Hop. apply elem_of_filter. split; [set_solver|].
    eapply Hk; [exact Hi|set_solver].
Qed.

Lemma core_begin phs w i :
  phs !! i = Some Free -> core phs w -> core (<[i := InTx (pg_next w)]> phs) (pg_begin w).
Proof.
  intros Hi [Hn Ht Hm Hl Hk]. split; cbn.
  - intros j x tx [[-> ->]|[_ Hx]]%insert_cases H; cbn in *; simplify_eq; [lia|].
    specialize (Hn _ _ _ Hx H). lia.
  - intros j1 j2 x1 x2 tx [[-> ->]|[_ Hx1]]%insert_cases [[-> ->]|[_ Hx2]]%insert_cases H1 H2;
      cbn in *; simplify_eq; eauto;
      match goal with Hx : phs !! _ = Some _, H : tx_of _ = Some (pg_next w) |- _ =>
        specialize (Hn _ _ _ Hx H); lia end.
  - exact Hm.
  - intros j x tx id [[-> ->]|[_ Hx]]%insert_cases Hh Hop; [by destruct Hh|].
    eapply Hl; eauto. assert (tx < pg_next w)%Z by (eapply Hn; [exact Hx|by destruct Hh; subst]).
    set_solver by lia.
  - intros j tx id [[-> ?]|[_ Hx]]%insert_cases Hop; [done|].
    eapply Hk; eauto. assert (tx < pg_next w)%Z by (eapply Hn; [exact Hx|done]).
    set_solver by lia.
Qed.

(** A thread of a transaction goes on in the same transaction. *)
Lemma inv_tx_kept (phs : list phase) (i : nat) ph ph' :
  phs !! i = Some ph -> tx_of ph' = tx_of ph ->
  (forall j1 j2 x1 x2 tx, phs !! j1 = Some x1 -> phs !! j2 = Some x2 ->
     tx_of x1 = Some tx -> tx_of x2 = Some tx -> j1 = j2) ->
  forall j1 j2 x1 x2 tx, <[i := ph']> phs !! j1 = Some x1 -> <[i := ph']> phs !! j2 = Some x2 ->
     tx_of x1 = Some tx -> tx_of x2 = Some tx -> j1 = j2.
Proof.
  intros Hi Htx H j1 j2 x1 x2 tx [[-> ->]|[_ Hx1]]%insert_cases [[-> ->]|[_ Hx2]]%insert_cases H1 H2;
    rewrite ?Htx in *; eauto.
Qed.

Lemma inv_next_kept (phs : list phase) (i : nat) ph ph' (n : Z) :
  phs !! i = Some ph -> tx_of ph' = tx_of ph ->
  (forall j x tx, phs !! j = Some x -> tx_of x = Some tx -> (tx < n)%Z) ->
  forall j x tx, <[i := ph']> phs !! j = Some x -> tx_of x = Some tx -> (tx < n)%Z.
Proof.
  intros Hi Htx H j x tx [[-> ->]|[_ Hx]]%insert_cases; rewrite ?Htx; eauto.
Qed.

Lemma core_lock phs w i tx id row :
  phs !! i = Some (InTx tx) -> pg_locks w !! id = None ->
  LockJobForDispatch id (pg_db w) = Some row ->
  core phs w -> core (<[i := Locked tx id]> phs) (pg_lock tx id w).
Proof.
  intros Hi Hlock Hrow [Hn Ht Hm Hl Hk].
  apply LockJobForDispatch_status in Hrow. split; cbn.
  - by eapply inv_next_kept.
  - by eapply inv_tx_kept.
  - intros tx' id' H%Hm. rewrite lookup_insert_ne by congruence. done.
  - intros j x tx' id' [[-> ->]|[Hj Hx]]%insert_cases Hh Hop.
    + destruct Hh as [[= <- <-]|]; [|done]. by rewrite lookup_insert_eq.
    + destruct (Hl j x tx' id' Hx Hh Hop) as [H1 H2]. split; [|done].
      rewrite lookup_insert_ne by congruence. done.
  - intros j tx' id' [[-> ?]|[_ Hx]]%insert_cases Hop; [done|eauto].
Qed.

Lemma core_mark phs w i tx id :
  phs !! i = Some (Locked tx id) -> pg_locks w !! id = Some tx ->
  core phs w -> core (<[i := Marked tx id]> phs) (pg_mark tx id w).
Proof.
  intros Hi Hlock [Hn Ht Hm Hl Hk]. split; cbn.
  - by eapply inv_next_kept.
  - by eapply inv_tx_kept.
  - intros tx' id' [[= -> ->]%elem_of_singleton|H]%elem_of_union; [done|by apply Hm].
  - intros j x tx' id' [[-> ->]|[Hj Hx]]%insert_cases Hh Hop; [|by eapply Hl].
    destruct Hh as [|[= <- <-]]; [done|]. eapply Hl; [exact Hi|by left|done].
  - intros j tx' id' [[-> [= -> ->]]|[_ Hx]]%insert_cases Hop; [set_solver|].
    apply elem_of_union_r. by eapply Hk.
Qed.

(** The claim becomes durable: the row's chance is now this thread's. *)
Lemma core_owner phs w i tx id :
  phs !! i = Some (Marked tx id) -> core phs w ->
  core (<[i := Owner tx id]> phs) (pg_end tx (pg_apply tx w)).
Proof.
  intros Hi Hc. eapply core_weaken; [exact Hi| |by apply core_commit].
  right. split; [by right|done].
Qed.

Lemma bud_owner phs w log i tx id :
  phs !! i = Some (Marked tx id) -> tx ∈ pg_open w -> core phs w ->
  budget phs (pg_db w) log -> budget (<[i := Owner tx id]> phs) (pg_db (pg_apply tx w)) log.
Proof.
  intros Hi Hop Hcore.
  assert (free_row (pg_db w) id) as Hfree by (eapply inv_locked; [done|exact Hi|by right|done]).
  assert ((tx, id) ∈ pg_marks w) as Hm by by eapply inv_marked.
  apply bud_step; intros id'; pose proof (owners_insert id' phs i _ (Owner tx id) Hi) as Ho; cbn in Ho.
  - pose proof (apply_bit tx w id'). destruct (decide (id = id')) as [->|].
    + rewrite bool_decide_eq_true_2 in Ho by done. rewrite (apply_marked tx w id' Hm).
      rewrite (free_bit_free _ _ Hfree). cbn in *. lia.
    + rewrite bool_decide_eq_false_2 in Ho by done. cbn in *. lia.
  - intros Hnone%apply_none. split; [done|]. destruct (decide (id = id')) as [->|].
    + by destruct (free_row_some _ _ Hfree).
    + rewrite bool_decide_eq_false_2 in Ho by done. cbn in *. lia.
Qed.

(** *** Single statements *)

Lemma core_update phs w w' id eff f :
  pg_update id eff f w = Some w' ->
  (forall id', id' <> id -> status_of (f (pg_db w)) id' = status_of (pg_db w) id') ->
  core phs w -> core phs w'.
Proof.
  unfold pg_update. intros Hw Hother Hc. destruct eff; [|by simplify_eq].
  destruct (pg_locks w !! id) eqn:Hlock; [done|]. simplify_eq.
  apply core_on_db; [|done]. intros id' [tx Htx] Hfree. unfold free_row.
  rewrite Hother; [done|congruence].
Qed.

Lemma pg_update_db id eff f w w' :
  pg_update id eff f w = Some w' -> pg_db w' = if eff then f (pg_db w) else pg_db w.
Proof. unfold pg_update. intros H. destruct eff; [|by simplify_eq]. case_match; by simplify_eq. Qed.

Lemma bud_requeue phs db db' log i tx id e :
  phs !! i = Some (Owner tx id) ->
  (forall id', frame_for id' e = false) -> (forall id', reopens id' e = false) ->
  db' = RequeueJob id db \/ db' = db ->
  budget phs db log -> budget (<[i := Free]> phs) db' (log ++ [e]).
Proof.
  intros Hi Hf Hr Hdb.
  apply bud_step; intros id'; pose proof (owners_insert id' phs i _ Free Hi) as Ho; cbn in Ho;
    rewrite !count_snoc, ?Hf, ?Hr; cbn [Nat.b2n].
  - destruct (decide (id = id')) as [->|].
    + rewrite bool_decide_eq_true_2 in Ho by done. cbn in Ho. pose proof (free_bit_le db' id'). lia.
    + rewrite bool_decide_eq_false_2 in Ho by done. cbn in Ho.
      replace (free_bit db' id') with (free_bit db id'); [lia|]. unfold free_bit.
      destruct Hdb as [->| ->]; [|done]. by rewrite status_requeue, decide_False by done.
  - intros Hn. split; [|lia]. destruct Hdb as [->| ->]; [|done].
    rewrite status_requeue in Hn. case_decide; [|done]. by destruct (status_of db id').
Qed.

Lemma inv_insert phs w log now id p db row e :
  jobs (pg_db w) !! id = None -> InsertJob now id p (pg_db w) = Some (db, row) ->
  (forall id', frame_for id' e = false) ->
  inv phs w log -> inv phs (pg_on_db (fun _ => db) w) (log ++ [e]).
Proof.
  intros Hid Hins He [Hc [Hb Hz]].
  assert (status_of (pg_db w) id = None) as Hnone by (unfold status_of; by rewrite Hid).
  assert (forall id', id' <> id -> status_of db id' = status_of (pg_db w) id') as Hst.
  { intros id' Hne. unfold InsertJob in Hins. unfold status_of in *.
    repeat case_match; simplify_eq; cbn; by rewrite lookup_insert_ne by done. }
  split.
  - apply core_on_db; [|done]. intros id' _ Hfree. unfold free_row. rewrite Hst; [done|].
    intros ->. by apply free_row_some in Hfree.
  - split; intros id'; rewrite !count_snoc, He; cbn [Nat.b2n pg_db pg_on_db].
    + destruct (decide (id' = id)) as [->|Hne].
      * specialize (Hz id Hnone). pose proof (free_bit_le db id). lia.
      * specialize (Hb id'). unfold free_bit in *. rewrite Hst by done. lia.
    + intros Hn. destruct (decide (id' = id)) as [->|Hne].
      * specialize (Hz id Hnone). lia.
      * rewrite Hst in Hn by done. specialize (Hz id' Hn). lia.
Qed.

(** *** A frame goes out *)

Lemma bud_frame phs db log i tx id e :
  phs !! i = Some (Owner tx id) -> (forall id', frame_for id' e = bool_decide (id' = id)) ->
  (forall id', reopens id' e = false) ->
  budget phs db log -> budget (<[i := Free]> phs) db (log ++ [e]).
Proof.
  intros Hi He Hr.
  apply bud_step; intros id'; pose proof (owners_insert id' phs i _ Free Hi) as Ho; cbn in Ho;
    rewrite !count_snoc, He, ?Hr; rewrite (bool_decide_ext (id = id') (id' = id)) in Ho by done;
    cbn [Nat.b2n]; [|split; [done|]]; lia.
Qed.

(** *** Every call keeps the invariant *)

Lemma frame_none payload id : frame_job payload = None -> bool_decide (frame_job payload = Some id) = false.
Proof. intros ->. by apply bool_decide_eq_false. Qed.

Ltac decide_in H :=
  match type of H with context [decide ?P] => destruct (decide P) end; simplify_eq.

(** A call that leaves the tables alone and claims nothing. *)
Lemma inv_move phs w w' log i ph ph' e :
  phs !! i = Some ph -> weaker ph' ph -> (forall id, (owns id ph' <= owns id ph)%nat) ->
  (forall id, frame_for id e = false) -> core phs w' ->
  (forall id, free_bit (pg_db w') id <= free_bit (pg_db w) id + Nat.b2n (reopens id e))%nat ->
  (forall id, status_of (pg_db w') id = None -> status_of (pg_db w) id = None) ->
  budget phs (pg_db w) log -> inv (<[i := ph']> phs) w' (log ++ [e]).
Proof.
  intros Hi Hw Ho Hf Hc Hb Hn Hbud. split; [by eapply core_weaken|].
  eapply bud_phase; [exact Hi|exact Ho|]. by eapply bud_event.
Qed.

Ltac same_phase :=
  match goal with
  | |- weaker _ _ => first [by left|right; split; [by (left + right)|done]]
  | |- forall _, (owns _ _ <= owns _ _)%nat => intros; cbn; lia
  end.
Ltac stay :=
  match goal with
  | Hi : ?phs !! ?i = Some _ |- inv (<[?i := _]> ?phs) _ _ =>
      eapply (inv_move phs); [exact Hi|same_phase|same_phase| | | | |eassumption];
      try done; try (intros; cbn; lia)
  end.

Lemma inv_lock_call phs w w' log i tx tx' id ph' lost now fresh (r : cloud_res (TxLockJobForDispatch tx id)) :
  phs !! i = Some (InTx tx') -> watch (InTx tx') (TxLockJobForDispatch tx id) r = Some ph' ->
  pg_step lost now fresh w (TxLockJobForDispatch tx id) r = Some w' ->
  inv phs w log -> inv (<[i := ph']> phs) w' (log ++ [CEv (TxLockJobForDispatch tx id) r]).
Proof.
  intros Hi Ha Hw [Hc Hb]. cbn in Ha, Hw. decide_in Ha. destruct r as [row|e]; cbn [is_ok] in *.
  - decide_in Hw. destruct_and?. split; [by eapply core_lock|].
    eapply bud_phase; [exact Hi|cbn; lia|]. apply (bud_event _ (pg_db w)); try done. intros; cbn; lia.
  - assert (w' = w \/ w' = pg_lock tx' id w /\ pg_locks w !! id = None
      /\ is_Some (LockJobForDispatch id (pg_db w))) as [->|(-> & Hl & row & Hrow)].
    { repeat case_match; simplify_eq; destruct_and?; auto. }
    { stay. }
    split.
    + rewrite <- (list_insert_insert_eq phs i (Ending tx') (Locked tx' id)).
      eapply core_weaken; [apply list_lookup_insert_eq; by eapply lookup_lt_Some| |by eapply core_lock].
      right. split; [by right|done].
    + eapply bud_phase; [exact Hi|cbn; lia|]. apply (bud_event _ (pg_db w)); try done. intros; cbn; lia.
Qed.

(** A mark whose reply was lost: the transaction can only be rolled back. *)
Lemma inv_unmarked phs w w' log i tx id (lost : bool) e :
  phs !! i = Some (Locked tx id) ->
  (if lost then if decide (tx ∈ pg_open w /\ pg_locks w !! id = Some tx) then Some (pg_mark tx id w) else Some w
   else Some w) = Some w' ->
  core phs w -> budget phs (pg_db w) log ->
  inv (<[i := Ending tx]> phs) w' (log ++ [CEv (TxMarkJobDispatching tx id) (Err e)]).
Proof.
  intros Hi Hw Hc Hb.
  assert (w' = w \/ w' = pg_mark tx id w /\ pg_locks w !! id = Some tx) as [->|[-> Hl]].
  { repeat case_match; simplify_eq; destruct_and?; auto. }
  { stay. }
  split.
  - rewrite <- (list_insert_insert_eq phs i (Ending tx) (Marked tx id)).
    eapply core_weaken; [apply list_lookup_insert_eq; by eapply lookup_lt_Some| |by apply core_mark].
    right. split; [by right|done].
  - eapply bud_phase; [exact Hi|cbn; lia|]. apply (bud_event _ (pg_db w)); try done. intros; cbn; lia.
Qed.

Lemma inv_commit_call phs w w' log i tx tx' id ph' lost now fresh (r : cloud_res (TxCommit tx)) :
  phs !! i = Some (Marked tx' id) -> watch (Marked tx' id) (TxCommit tx) r = Some ph' ->
  pg_step lost now fresh w (TxCommit tx) r = Some w' ->
  inv phs w log -> inv (<[i := ph']> phs) w' (log ++ [CEv (TxCommit tx) r]).
Proof.
  intros Hi Ha Hw [Hc Hb]. cbn in Ha, Hw. decide_in Ha. destruct r; cbn [is_ok orb] in *.
  - decide_in Hw. split; [by apply core_owner|].
    apply (bud_event _ (pg_db (pg_apply tx' w))); try done; [intros; cbn; lia|]. by apply bud_owner.
  - decide_in Hw; [|stay]. destruct lost; simplify_eq; [|stay]. stay.
    + by apply core_commit.
    + intros id'. cbn. pose proof (apply_bit tx' w id') as H. cbn in H. lia.
    + intros id'. apply apply_none.
Qed.

Lemma inv_report_call phs w w' log i ph status id lost now fresh r :
  phs !! i = Some ph -> pg_step lost now fresh w (QUpdateJobStatus status id) r = Some w' ->
  inv phs w log -> inv (<[i := ph]> phs) w' (log ++ [CEv (QUpdateJobStatus status id) r]).
Proof.
  intros Hi Hw [Hc Hb].
  change (pg_update id (is_ok r || lost) (fun db => (UpdateJobStatus now status id db).1) w = Some w') in Hw.
  pose proof (pg_update_db _ _ _ _ _ Hw) as Hdb.
  stay.
  - eapply core_update; [exact Hw| |done]. intros id' Hne. cbn beta.
    by rewrite status_update, decide_False by done.
  - intros id'. rewrite Hdb. destruct (is_ok r || lost); [|lia].
    unfold free_bit. rewrite status_update. cbn. case_decide; subst.
    + rewrite bool_decide_eq_true_2 by done. rewrite andb_true_r.
      destruct (status_of (pg_db w) _); cbn; lia.
    + lia.
  - intros id'. rewrite Hdb. destruct (is_ok r || lost); [|done].
    rewrite status_update. case_decide; subst; [|done]. by destruct (status_of (pg_db w) _).
Qed.

Lemma inv_publish_call phs w log i ph ph' chan payload r :
  phs !! i = Some ph -> watch ph (RPublish chan payload) r = Some ph' ->
  inv phs w log -> inv (<[i := ph']> phs) w (log ++ [CEv (RPublish chan payload) r]).
Proof.
  intros Hi Ha [Hc Hb]. cbn in Ha. destruct (frame_job payload) as [id|] eqn:Hj.
  - destruct ph; simplify_eq. decide_in Ha.
    destruct r as [n|e]; [destruct (n =? 0)%Z eqn:Hn|]; simplify_eq.
    + stay.
    + split; [eapply core_weaken; [exact Hi| |done]; right; split; [by left|done]|].
      eapply bud_frame; [exact Hi| |done|done]. intros id'. cbn. rewrite Hn, Hj. cbn [negb andb].
      apply bool_decide_ext. split; congruence.
    + stay.
  - simplify_eq. stay. intros id. cbn. rewrite frame_none by done.
    destruct r; [|done]. by rewrite andb_false_r.
Qed.

Lemma inv_call phs w log i ph ph' lost now fresh c (r : cloud_res c) w' :
  phs !! i = Some ph -> watch ph c r = Some ph' -> pg_step lost now fresh w c r = Some w' ->
  inv phs w log -> inv (<[i := ph']> phs) w' (log ++ [CEv c r]).
Proof.
  intros Hi Ha Hw Hinv.
  destruct c; try (solve [cbn in Ha, Hw; destruct Hinv as [Hc Hb]; simplify_eq; stay]).
  - (* TxBegin *)
    cbn in Ha, Hw. destruct Hinv as [Hc Hb]. destruct ph, r; simplify_eq; [|stay].
    case_decide; simplify_eq. split; [by apply core_begin|].
    eapply bud_phase; [exact Hi|cbn; lia|]. apply (bud_event _ (pg_db w)); try done. intros; cbn; lia.
  - (* TxLockJobForDispatch *)
    destruct ph; [done| |done|done|done|done]. by eapply inv_lock_call.
  - (* TxMarkJobDispatching *)
    cbn in Ha, Hw. destruct Hinv as [Hc Hb]. decide_in Ha. destruct r; cbn [is_ok] in *; simplify_eq;
      [|by eapply inv_unmarked].
    decide_in Hw. destruct_and?. split; [by apply core_mark|].
    eapply bud_phase; [exact Hi|cbn; lia|]. apply (bud_event _ (pg_db w)); try done. intros; cbn; lia.
  - (* TxCommit *)
    destruct ph; [done|done|done| |done|done]. by eapply inv_commit_call.
  - (* TxRollback *)
    cbn in Ha, Hw. destruct Hinv as [Hc Hb]. simplify_eq. apply (core_end _ _ tx) in Hc.
    destruct ph; simplify_eq; case_decide; simplify_eq; stay.
  - (* QRequeueJob *)
    cbn in Ha, Hw. destruct Hinv as [Hc Hb]. destruct ph; simplify_eq. decide_in Ha. split.
    + eapply core_weaken; [exact Hi|right; split; [by left|done]|].
      eapply core_update; [exact Hw| |done].
      intros id' Hne. by rewrite status_requeue, decide_False by done.
    + eapply bud_requeue; [exact Hi|done|done| |done]. rewrite (pg_update_db _ _ _ _ _ Hw).
      destruct (is_ok r || lost); auto.
  - (* QInsertAuditEvent *)
    cbn in Ha, Hw. destruct Hinv as [Hc Hb]. simplify_eq. case_match; stay; [by apply core_on_db|].
    intros id. change (free_bit (pg_db (pg_on_db (InsertAuditEvent ev) w)) id) with (free_bit (pg_db w) id). lia.
  - (* QUpdateJobStatus *)
    cbn in Ha. simplify_eq. by eapply inv_report_call.
  - (* QSetJobBlobDeleted *)
    cbn in Ha, Hw. destruct Hinv as [Hc Hb]. simplify_eq.
    assert (forall id', status_of (pg_db w') id' = status_of (pg_db w) id') as Hst.
    { intros id'. rewrite (pg_update_db _ _ _ _ _ Hw). case_match; [|done].
      unfold SetJobBlobDeleted. rewrite status_alter. case_decide; [|done]. subst. unfold status_of.
      by destruct (jobs (pg_db w) !! _). }
    assert (core phs w') as Hc'.
    { eapply core_update; [exact Hw| |done]. intros id' Hne. unfold SetJobBlobDeleted.
      by rewrite status_alter, decide_False by done. }
    stay.
    + intros id'. unfold free_bit. rewrite Hst. lia.
    + intros id'. by rewrite Hst.
  - (* QInsertJob *)
    cbn in Ha, Hw. simplify_eq. rewrite list_insert_id by done.
    destruct r as [row|e].
    + destruct (jobs (pg_db w) !! insr_ID row) eqn:Hid; [done|].
      destruct (InsertJob now (insr_ID row) p (pg_db w)) as [[db row']|] eqn:Hins; [|done].
      simplify_eq. by eapply inv_insert.
    + assert (w' = w \/ exists db row', jobs (pg_db w) !! fresh = None
        /\ InsertJob now fresh p (pg_db w) = Some (db, row') /\ w' = pg_on_db (fun _ => db) w)
        as [->|(db & row' & Hid & Hins & ->)].
      { repeat case_match; simplify_eq; eauto 6. }
      * rewrite <- (list_insert_id phs i ph') by done. destruct Hinv as [Hc Hb]. stay.
      * by eapply inv_insert.
  - (* RPublish *)
    cbn in Hw. simplify_eq. by eapply inv_publish_call.
Qed.

End invariant.

(** ** The system theorems *)

Section system.
Context {U : UuidLib}.

Definition sys_ok (s : sys) : Prop :=
  (exists phs, Forall2 (fun ph p => lawful ph p) phs (s_threads s) /\ inv phs (s_pg s) (s_log s))
  /\ s_lost s `sublist_of` s_log s.

Lemma inv_spawn phs w log : inv phs w log -> inv (phs ++ [Free]) w log.
Proof.
  assert (forall j x, (phs ++ [Free]) !! j = Some x -> phs !! j = Some x \/ x = Free) as Hj.
  { intros j x [H|[_ H]]%lookup_app_Some; [by left|].
    apply list_lookup_singleton_Some in H as [_ <-]. by right. }
  assert (forall id, owners id (phs ++ [Free]) = owners id phs) as Ho.
  { intros id. unfold owners. rewrite sum_list_with_app. cbn. lia. }
  intros [[Hn Ht Hm Hl Hk] Hb]. split.
  - split; auto.
    + intros j x tx [Hx|Hx]%Hj Htx; [eauto|]. by subst.
    + intros j1 j2 x1 x2 tx [H1|H1]%Hj [H2|H2]%Hj Hx1 Hx2; subst; eauto; done.
    + intros j x tx id [Hx|Hx]%Hj Hh; [eauto|]. subst. by destruct Hh.
    + intros j tx id [Hx|Hx]%Hj; [eauto|done].
  - revert Hb. apply bud_step; intros id; rewrite Ho; [|split; [done|]]; lia.
Qed.

Lemma step_ok s s' : step s s' -> sys_ok s -> sys_ok s'.
Proof.
  intros Hstep [(phs & Hd & Hinv) Hl].
  destruct Hstep as [s i c k r lost now fresh w' Hi Hw|s p Hp|s i|s tx]; (split; [|try exact Hl]); cbn.
  - destruct (Forall2_lookup_r _ _ _ _ _ Hd Hi) as (ph & Hph & Hdi).
    destruct (lawful_step ph c k r Hdi) as (ph' & Ha & Hd').
    exists (<[i := ph']> phs). split; [by apply Forall2_insert|]. by eapply inv_call.
  - apply sublist_app; [done|]. destruct lost; [done|]. apply sublist_nil_l.
  - exists (phs ++ [Free]). split; [|by apply inv_spawn].
    apply Forall2_app; [done|]. by apply Forall2_cons.
  - destruct (phs !! i) as [ph|] eqn:Hph.
    + exists (<[i := Free]> phs). split; [apply Forall2_insert; [done|apply lawful_ret]|].
      destruct Hinv as [Hc Hb]. split.
      * eapply core_weaken; [exact Hph| |done]. right. split; [by left|done].
      * eapply bud_phase; [exact Hph|cbn; lia|done].
    + exists phs. split; [|done]. rewrite list_insert_ge; [done|].
      apply lookup_ge_None in Hph. by rewrite <- (Forall2_length _ _ _ Hd).
  - exists phs. split; [done|]. by apply inv_pg_end.
Qed.

Lemma reachable_ok db s : rtc step (start db) s -> sys_ok s.
Proof.
  assert (forall s1 s2, rtc step s1 s2 -> sys_ok s1 -> sys_ok s2) as H.
  { intros s1 s2 Hr. induction Hr; [done|]. intros Hs. apply IHHr. by eapply step_ok. }
  intros Hs. eapply H; [exact Hs|]. split; [|done]. exists []. split; [done|]. apply inv_start.
Qed.

Lemma count_sublist (P : event cloud_sig -> bool) t1 t2 :
  t1 `sublist_of` t2 -> (count P t1 <= count P t2)%nat.
Proof. induction 1; rewrite ?count_cons; lia. Qed.

(** C1: A job is dispatched once.  Any number of nodes run programs of the
    cloud, interleaved call by call, on any initial tables: the dispatch paths,
    printers' reports and anything else that keeps to the protocol.  Nodes may
    crash between any two calls, connections to Postgres may be lost, and
    statements and PUBLISHes may take effect although an error was reported.
    In every reachable state and for every job, (a) the PUBLISHes of its frame
    that were answered with a receiver are at most one more than the reports of
    a claimable status for it; (b) the PUBLISHes that reached a receiver,
    whatever the publisher was told, are at most one more than these reports
    and the PUBLISHes of its frame answered with an error; (c) so when no
    PUBLISH of its frame was answered with an error and no printer reported a
    claimable status, its frame was delivered at most once, and once it was,
    the row can be claimed by nobody.  Both exceptions are real:
    [Scenarios.lost_reply_dispatches_twice] and
    [Scenarios.rogue_report_reopens]. *)
Theorem at_most_one_frame db s id :
  rtc step (start db) s ->
  (count (frame_for id) (s_log s) <= 1 + count (reopens id) (s_log s))%nat
  /\ (deliveries id s <= 1 + count (unanswered id) (s_log s) + count (reopens id) (s_log s))%nat
  /\ (count (unanswered id) (s_log s) = 0%nat -> count (reopens id) (s_log s) = 0%nat ->
      (deliveries id s <= 1)%nat
      /\ (deliveries id s = 1%nat -> taken_row (pg_db (s_pg s)) id)).
Proof.
  intros [(phs & _ & _ & [Hsum Hnone]) Hl]%reachable_ok.
  apply (count_sublist (unanswered id)) in Hl. specialize (Hsum id). unfold deliveries.
  split; [lia|]. split; [lia|]. intros Hu Hr. split; [lia|]. intros Hd.
  apply taken_of_bit; [|lia]. intros H%Hnone. lia.
Qed.

(** C2: The dispatch code keeps to the protocol.  For every job reference,
    message, node and number of turns, the immediate path, the retry path and
    the dispatcher's whole loop lock the row before marking it, mark it before
    committing, roll back every transaction they do not commit, publish a
    dispatch frame only for a job whose claim they have committed, and requeue
    only such a job. *)
Theorem dispatch_code_disciplined f msg di turns fuel :
  disciplined Free (TryDispatch f) /\ disciplined Free (Retry f)
  /\ disciplined Free (handle msg) /\ disciplined Free (Run di turns fuel).
Proof.
  split; [apply try_disciplined|]. split; [apply retry_disciplined|].
  split; [apply handle_disciplined|apply run_disciplined].
Qed.

(** ** Executing schedules *)

(** A schedule names the thread that moves next and whether the reply to its
    call is lost; calls are answered from the current tables and, where these
    say nothing, by [other].  A PUBLISH whose reply is lost is an error. *)
Definition answer (other : forall c, cloud_res c) (lost : bool) (w : pg) (c : cloud_call) : cloud_res c :=
  match c as c return cloud_res c with
  | TxBegin => Ok (pg_next w)
  | TxLockJobForDispatch tx id =>
      match LockJobForDispatch id (pg_db w) with
      | None => Err ErrNoRows
      | Some row =>
          match pg_locks w !! id with
          | None => Ok row
          | Some _ => Err (ErrPq lockNotAvailable "could not obtain lock on row")
          end
      end
  | RPublish chan payload =>
      if lost then Err (ErrText "read: connection reset by peer") else other (RPublish chan payload)
  | c => other c
  end.

Fixpoint schedule (other : forall c, cloud_res c) (l : list (nat * bool)) (s : sys) : sys :=
  match l with
  | [] => s
  | (i, lost) :: l' =>
      match s_threads s !! i with
      | Some (Vis c k) =>
          let r := answer other lost (s_pg s) c in
          match pg_step lost 0 (Uuid 0) (s_pg s) c r with
          | Some w' =>
              schedule other l' {| s_threads := <[i := k r]> (s_threads s); s_pg := w';
                                   s_log := s_log s ++ [CEv c r];
                                   s_lost := s_lost s ++ (if lost then [CEv c r] else []) |}
          | None => s
          end
      | _ => s
      end
  end.

Lemma schedule_steps other l s : rtc step s (schedule other l s).
Proof.
  revert s. induction l as [|[i lost] l IH]; intros s; cbn [schedule]; [done|].
  destruct (s_threads s !! i) as [[|c k]|] eqn:Hi; [done| |done].
  destruct (pg_step _ _ _ _ _) as [w'|] eqn:Hw; [|done].
  eapply rtc_l; [|apply IH]. by eapply step_call.
Qed.

End system.
