(* ===== verification/Link.v ===== *)
(** * The printer link

    services/cloud/link: the frames a printer and the cloud exchange, the
    per-node registry of live sockets, and the hub that owns one printer
    connection from upgrade to teardown. *)

From S2P Require Import Prelude GoStrings Base64 Json Keys Db Calls Store Minio Dispatch Sql System.

(** ** Frames (frames.go) *)

(** The wire's SlotState has the shape of the cache's. *)
Record WireSlot : Type := {
  ws_Current : Z;
  ws_Max : Z
}.

Record Frame : Type := {
  f_Type : string;
  f_MailboxID : string;
  f_SlotOccupancy : gmap string WireSlot;
  f_Status : string;
  f_JobID : string;
  f_Error : string;
  f_EncryptedKey : string;
  f_BlobURL : string
}.

Definition zero_Frame : Frame :=
  {| f_Type := EmptyString; f_MailboxID := EmptyString; f_SlotOccupancy := ∅; f_Status := EmptyString;
     f_JobID := EmptyString; f_Error := EmptyString; f_EncryptedKey := EmptyString;
     f_BlobURL := EmptyString |}.

Definition zero_WireSlot : WireSlot := {| ws_Current := 0; ws_Max := 0 |}.

Definition dec_WireSlot : decoder WireSlot :=
  dec_struct
    [("current", fun s j => (fun c => {| ws_Current := c; ws_Max := ws_Max s |}) <$> dec_int (ws_Current s) j);
     ("max", fun s j => (fun m => {| ws_Current := ws_Current s; ws_Max := m |}) <$> dec_int (ws_Max s) j)].

(** The struct tags of [Frame]. *)
Definition dec_Frame : decoder Frame :=
  let str (get : Frame -> string) (set : Frame -> string -> Frame) (f : Frame) (j : json) :=
    set f <$> dec_string (get f) j in
  dec_struct
    [("type", str f_Type (fun f s => Build_Frame s (f_MailboxID f) (f_SlotOccupancy f) (f_Status f)
        (f_JobID f) (f_Error f) (f_EncryptedKey f) (f_BlobURL f)));
     ("mailbox_id", str f_MailboxID (fun f s => Build_Frame (f_Type f) s (f_SlotOccupancy f) (f_Status f)
        (f_JobID f) (f_Error f) (f_EncryptedKey f) (f_BlobURL f)));
     ("slot_occupancy", fun f j =>
        (fun m => Build_Frame (f_Type f) (f_MailboxID f) m (f_Status f)
           (f_JobID f) (f_Error f) (f_EncryptedKey f) (f_BlobURL f))
        <$> dec_map dec_WireSlot zero_WireSlot (f_SlotOccupancy f) j);
     ("status", str f_Status (fun f s => Build_Frame (f_Type f) (f_MailboxID f) (f_SlotOccupancy f) s
        (f_JobID f) (f_Error f) (f_EncryptedKey f) (f_BlobURL f)));
     ("job_id", str f_JobID (fun f s => Build_Frame (f_Type f) (f_MailboxID f) (f_SlotOccupancy f)
        (f_Status f) s (f_Error f) (f_EncryptedKey f) (f_BlobURL f)));
     ("error", str f_Error (fun f s => Build_Frame (f_Type f) (f_MailboxID f) (f_SlotOccupancy f)
        (f_Status f) (f_JobID f) s (f_EncryptedKey f) (f_BlobURL f)));
     ("encrypted_key", str f_EncryptedKey (fun f s => Build_Frame (f_Type f) (f_MailboxID f)
        (f_SlotOccupancy f) (f_Status f) (f_JobID f) (f_Error f) s (f_BlobURL f)));
     ("blob_url", str f_BlobURL (fun f s => Build_Frame (f_Type f) (f_MailboxID f) (f_SlotOccupancy f)
        (f_Status f) (f_JobID f) (f_Error f) (f_EncryptedKey f) s))].

Definition toStoreSlots (slots : gmap string WireSlot) : gmap string SlotState :=
  (fun s => {| Current := ws_Current s; Max := ws_Max s |}) <$> slots.

Definition registerToState (reg : Frame) : PrinterState :=
  {| ps_Status := "idle"; ps_SlotOccupancy := toStoreSlots (f_SlotOccupancy reg) |}.

Definition jsonStatusPayload (frame : Frame) : json :=
  JObj (("status", JStr (f_Status frame)) :: omitempty_string "error" (f_Error frame)).

(** ** The registry (registry.go)

    [reg_conns] is the map under the mutex; each operation is one critical
    section. *)

Abbreviation Registry := (gmap string conn).

Definition NewRegistry : Registry := ∅.
Definition Add (mailboxID : string) (c : conn) (r : Registry) : Registry := <[mailboxID := c]> r.
Definition Conns (r : Registry) : list conn := (map_to_list r).*2.
Definition Remove (mailboxID : string) (c : conn) (r : Registry) : Registry :=
  match r !! mailboxID with
  | Some c' => if decide (c' = c) then delete mailboxID r else r
  | None => r
  end.

(** ** The hub (hub.go) *)

(** Whether the optional dependencies were given: [Queries] and [DeleteBlob]
    may be nil.  main.go sets DeleteBlob to minioclient.RemoveBlob. *)
Record Hub : Type := {
  hub_Queries : bool;
  hub_DeleteBlob : bool
}.

Section hub.
Context {U : UuidLib} (h : Hub).

(** [wsjson.Read]: one message, decoded into a fresh frame. *)
Definition readFrame (c : conn) : cloud (result Frame) :=
  r ← ask (WsRead c);
  match r with
  | Err e => Ret (Err e)
  | Ok j =>
      match dec_Frame zero_Frame j with
      | None => Ret (Err (ErrText "failed to unmarshal JSON"))
      | Some f => Ret (Ok f)
      end
  end.

Definition mirrorLiveness (mailboxID status : string) : cloud unit :=
  if negb (hub_Queries h) then Ret tt
  else
    match uuid_parse mailboxID with
    | Err e => log "printer-link: mirror liveness: invalid mailbox id %q: %v" [LStr mailboxID; LErr e]
    | Ok id =>
        r ← ask (QUpdateMailboxLiveness status id);
        match r with
        | Err e => log "printer-link: mailbox %s: mirror liveness: %v" [LStr mailboxID; LErr e]
        | Ok _ => Ret tt
        end
    end.

Definition onState (mailboxID : string) (frame : Frame) : cloud unit :=
  let state := {| ps_Status := f_Status frame; ps_SlotOccupancy := toStoreSlots (f_SlotOccupancy frame) |} in
  r ← SetPrinterState mailboxID state;
  match r with
  | Err e => log "printer-link: mailbox %s: refresh state cache: %v" [LStr mailboxID; LErr e]
  | Ok _ =>
      mirrorLiveness mailboxID (f_Status frame);;
      if String.eqb (f_Status frame) "idle" then
        ask (RPublish (ChanAvailable mailboxID) (JRaw "1"));; Ret tt
      else Ret tt
  end.

Definition auditOf (jobID : uuid) (action : string) : AuditEvent :=
  {| audit_JobID := jobID; audit_Action := action; audit_ActorID := None |}.

Definition deleteDeliveredBlob (jobID : uuid) (blobRef : string) : cloud unit :=
  if negb (hub_DeleteBlob h) then
    log "printer-link: job %s delivered but blob deletion is not configured" [LStr (uuid_string jobID)]
  else
    r ← RemoveBlob blobRef;
    match r with
    | Err e => log "printer-link: job %s: delete blob %s: %v" [LStr (uuid_string jobID); LStr blobRef; LErr e]
    | Ok _ =>
        s ← ask (QSetJobBlobDeleted jobID);
        match s with
        | Err e => log "printer-link: job %s: mark blob_deleted_at: %v" [LStr (uuid_string jobID); LErr e]
        | Ok _ => Ret tt
        end;;
        a ← ask (QInsertAuditEvent (auditOf jobID "blob_deleted"));
        match a with
        | Err e => log "printer-link: job %s: audit blob_deleted: %v" [LStr (uuid_string jobID); LErr e]
        | Ok _ => Ret tt
        end;;
        log "printer-link: job %s: ciphertext blob deleted" [LStr (uuid_string jobID)]
    end.

Definition onStatus (frame : Frame) : cloud unit :=
  match uuid_parse (f_JobID frame) with
  | Err e => log "printer-link: status frame with invalid job_id %q: %v" [LStr (f_JobID frame); LErr e]
  | Ok jobID =>
      r ← ask (QUpdateJobStatus (f_Status frame) jobID);
      match r with
      | Err ErrNoRows => log "printer-link: status frame for unknown job %s" [LStr (f_JobID frame)]
      | Err e => log "printer-link: update job %s status: %v" [LStr (f_JobID frame); LErr e]
      | Ok job =>
          a ← ask (QInsertAuditEvent (auditOf jobID ("job_" +:+ f_Status frame)));
          match a with
          | Err e => log "printer-link: write audit event for job %s: %v" [LStr (f_JobID frame); LErr e]
          | Ok _ => Ret tt
          end;;
          ask (RPublish (ChanJobStatus (uuid_string jobID)) (jsonStatusPayload frame));;
          (if String.eqb (f_Status frame) "delivered"
           then deleteDeliveredBlob jobID (upd_BlobRef job) else Ret tt);;
          log "printer-link: job %s -> %s (mailbox %s)"
            [LStr (uuid_string (upd_ID job)); LStr (upd_Status job); LStr (uuid_string (upd_MailboxID job))]
      end
  end.

(** One turn of [readLoop]: [inr] is the error that ended it. *)
Definition readTurn (c : conn) (mailboxID : string) : cloud (unit + error) :=
  r ← readFrame c;
  match r with
  | Err e =>
      log "printer-link: mailbox %s: read loop ended: %v" [LStr mailboxID; LErr e];;
      Ret (inr e)
  | Ok frame =>
      (if String.eqb (f_Type frame) "state" then onState mailboxID frame
       else if String.eqb (f_Type frame) "status" then onStatus frame
       else log "printer-link: mailbox %s: ignoring unknown frame type %q"
              [LStr mailboxID; LStr (f_Type frame)]);;
      Ret (inl tt)
  end.

(** The loop ends only when a read fails; [None] is the fuel running out while
    the connection is still up. *)
Definition readLoop (fuel : nat) (c : conn) (mailboxID : string) : cloud (option error) :=
  loop fuel (fun _ => readTurn c mailboxID) tt.

(** [Accept], with the deferred calls on every return: CloseNow; Registry.Remove;
    cancelPump; sub.Close, last deferred first.  [None]: the connection is
    still up after [fuel] frames. *)
Definition Accept (fuel : nat) : cloud (option error) :=
  a ← ask WsAccept;
  match a with
  | Err e => Ret (Some e)
  | Ok c =>
      r ← readFrame c;
      match r with
      | Err e => ask (WsCloseNow c);; Ret (Some e)
      | Ok reg =>
          if negb (String.eqb (f_Type reg) "register") || String.eqb (f_MailboxID reg) EmptyString then
            ask (WsClose c 1008 "expected register frame");;
            ask (WsCloseNow c);;
            Ret (Some (ErrText "printer-link: first frame was not a valid register frame"))
          else
            log "printer-link: mailbox %s registered (slots: %v)"
              [LStr (f_MailboxID reg);
               LSlots ((fun s => (ws_Current s, ws_Max s)) <$> f_SlotOccupancy reg)];;
            ask (RegAdd (f_MailboxID reg) c);;
            sub ← ask (RSubscribe (ChanDispatch (f_MailboxID reg)));
            let teardown : cloud unit :=
              ask (RSubClose sub);; ask (CancelPump sub);;
              ask (RegRemove (f_MailboxID reg) c);; ask (WsCloseNow c);; Ret tt in
            k ← ask (RReceive sub);
            match k with
            | Err e =>
                log "printer-link: mailbox %s: dispatch subscribe ack: %v" [LStr (f_MailboxID reg); LErr e];;
                teardown;; Ret (Some e)
            | Ok _ =>
                ask (GoPump c sub);;
                s ← SetPrinterState (f_MailboxID reg) (registerToState reg);
                match s with
                | Err e =>
                    log "printer-link: mailbox %s: seed state cache: %v" [LStr (f_MailboxID reg); LErr e]
                | Ok _ => Ret tt
                end;;
                mirrorLiveness (f_MailboxID reg) "idle";;
                o ← readLoop fuel c (f_MailboxID reg);
                match o with
                | None => Ret None
                | Some e => teardown;; Ret (Some e)
                end
            end
      end
  end.

(** The goroutine [GoPump] starts.  [None]: still relaying. *)
Definition pumpTurn (c : conn) (sub : subid) : cloud (unit + unit) :=
  ev ← ask (SelectPump sub);
  match ev with
  | PumpDone => Ret (inr tt)
  | PumpMsg None => Ret (inr tt)
  | PumpMsg (Some payload) =>
      w ← ask (WsWrite c payload);
      match w with
      | Err e => log "printer-link: write dispatch frame: %v" [LErr e];; Ret (inr tt)
      | Ok _ => Ret (inl tt)
      end
  end.

Definition pumpDispatch (fuel : nat) (c : conn) (sub : subid) : cloud (option unit) :=
  loop fuel (fun _ => pumpTurn c sub) tt.

(** The goroutine [Close] starts for each socket. *)
Definition closeConn (c : conn) : cloud unit :=
  r ← ask (WsClose c 1001 "cloud-server shutting down");
  match r with
  | Err _ => ask (WsCloseNow c)
  | Ok _ => Ret tt
  end.

Fixpoint spawnCloses (conns : list conn) : cloud unit :=
  match conns with
  | [] => Ret tt
  | c :: cs => ask (GoCloseConn c);; spawnCloses cs
  end.

(** [Close]: [SelectClosed] answers whether every goroutine finished before the
    deadline. *)
Definition Close : cloud unit :=
  conns ← ask RegConns;
  match conns with
  | [] => Ret tt
  | _ :: _ =>
      log "printer-link: closing %d printer socket(s) with going-away" [LInt (Z.of_nat (length conns))];;
      spawnCloses conns;;
      finished ← ask SelectClosed;
      if (finished : bool) then Ret tt
      else log "printer-link: close handshake did not finish before the shutdown deadline" []
  end.

End hub.

(** ** Tests on the link's events *)

Abbreviation cevent := (event cloud_sig).

Definition seeds (e : cevent) : bool := match ev_call e with RSet _ _ _ => true | _ => false end.
Definition sub_acked (e : cevent) : bool :=
  match e with existT (RReceive _) (Ok _) => true | _ => false end.
Definition pump_starts (e : cevent) : bool := match ev_call e with GoPump _ _ => true | _ => false end.
Definition accepts (e : cevent) : bool := match e with existT WsAccept (Ok _) => true | _ => false end.
Definition closes_now (e : cevent) : bool := match ev_call e with WsCloseNow _ => true | _ => false end.
Definition registers (e : cevent) : bool := match ev_call e with RegAdd _ _ => true | _ => false end.
Definition unregisters (e : cevent) : bool := match ev_call e with RegRemove _ _ => true | _ => false end.
Definition subscribes (e : cevent) : bool := match ev_call e with RSubscribe _ => true | _ => false end.
Definition sub_closes (e : cevent) : bool := match ev_call e with RSubClose _ => true | _ => false end.
Definition removes_blob (e : cevent) : bool := match ev_call e with MRemoveObject _ _ => true | _ => false end.
Definition removed_blob (e : cevent) : bool :=
  match e with existT (MRemoveObject _ _) (Ok _) => true | _ => false end.
Definition marks_deleted (e : cevent) : bool := match ev_call e with QSetJobBlobDeleted _ => true | _ => false end.
(** The audit event of a deletion ([onStatus] also audits "job_" and the
    reported status). *)
Definition audits_deleted (e : cevent) : bool :=
  match ev_call e with QInsertAuditEvent ev => String.eqb (audit_Action ev) "blob_deleted" | _ => false end.
Definition status_updated (e : cevent) : bool :=
  match e with existT (QUpdateJobStatus _ _) (Ok _) => true | _ => false end.

(** Calls made for one frame of an established link. *)
Definition frame_call (c : cloud_call) : bool :=
  match c with
  | WsRead _ | Log _ _ | RSet _ _ _ | QUpdateMailboxLiveness _ _ | RPublish _ _
  | QUpdateJobStatus _ _ | QInsertAuditEvent _ | MRemoveObject _ _ | QSetJobBlobDeleted _ => true
  | _ => false
  end.

Abbreviation framed := (Forall (fun e : cevent => frame_call (ev_call e) = true)).

Lemma framed_count (P : cevent -> bool) t :
  (forall e : cevent, frame_call (ev_call e) = true -> P e = false) -> framed t -> count P t = 0%nat.
Proof. intros H. by apply count_quiet. Qed.

Section runs.
Context {U : UuidLib} (h : Hub).

Lemma frame_runs mailboxID f :
  wp (onState h mailboxID f) (fun t _ => framed t) /\ wp (onStatus h f) (fun t _ => framed t).
Proof.
  unfold onState, onStatus, SetPrinterState, mirrorLiveness, deleteDeliveredBlob, RemoveBlob.
  split; wp_steps; repeat constructor.
Qed.

Lemma readTurn_runs c m : wp (readTurn h c m) (fun t _ => framed t).
Proof.
  unfold readTurn, readFrame. autounfold with prog. cbn [prog_bind wp]. intros r.
  destruct r as [j|e]; [destruct (dec_Frame zero_Frame j) as [f|]|]; cbn beta iota;
    [|cbn; repeat constructor..].
  change (prog_bind ?g (Ret ?x)) with (g x). cbn beta iota.
  apply (wp_bind_spec _ _ (fun t _ => framed t)).
  - destruct (frame_runs m f) as [H1 H2].
    destruct (String.eqb (f_Type f) "state"); [exact H1|].
    destruct (String.eqb (f_Type f) "status"); [exact H2|]. cbn. repeat constructor.
  - cbn. intros t _ Ht. rewrite app_nil_r. by apply Forall_cons.
Qed.

Lemma readLoop_runs fuel c m :
  wp (readLoop h fuel c m) (fun t _ => framed t).
Proof.
  unfold readLoop.
  eapply (wp_loop _ (fun t _ => framed t) (fun t _ => framed t)) with (t := []); [done| |constructor].
  intros t s Ht. eapply wp_mono; [|apply readTurn_runs]. intros t' [[]|e] Ht'; by apply Forall_app.
Qed.

Lemma mirror_runs m s : wp (mirrorLiveness h m s) (fun t _ => framed t).
Proof. unfold mirrorLiveness. wp_steps; repeat constructor. Qed.

(** Calls that only a registered link makes. *)
Definition link_call (c : cloud_call) : bool :=
  match c with
  | RegAdd _ _ | RegRemove _ _ | RSubscribe _ | RSubClose _ | GoPump _ _ | CancelPump _ | RSet _ _ _ => true
  | _ => false
  end.

(** The deferred calls of a registered link, last deferred first. *)
Definition torn_down (mailboxID : string) (c : conn) (sub : subid) : trace cloud_sig :=
  [CEv (RSubClose sub) tt; CEv (CancelPump sub) tt; CEv (RegRemove mailboxID c) tt; CEv (WsCloseNow c) tt].

(** The link's life after its RegAdd: [a] is what Accept returned. *)
Definition linked (c : conn) (reg : Frame) (t : trace cloud_sig) (a : option error) : Prop :=
  exists sub k t2,
    t = CEv (RegAdd (f_MailboxID reg) c) tt :: CEv (RSubscribe (ChanDispatch (f_MailboxID reg))) sub
        :: CEv (RReceive sub) k :: t2
    /\ match k with
       | Err e => a = Some e /\ exists msg args,
           t2 = CEv (Log msg args) tt :: torn_down (f_MailboxID reg) c sub
       | Ok _ => exists r t3,
           t2 = CEv (GoPump c sub) tt
                :: CEv (RSet (KeyPrinterState (f_MailboxID reg)) (enc_PrinterState (registerToState reg))
                     printerStateTTL) r
                :: t3 ++ (match a with Some _ => torn_down (f_MailboxID reg) c sub | None => [] end)
           /\ framed t3
       end.

(** C13: A printer connection is set up in the order routing relies on, and
    torn down completely.  Every run of [Accept], whatever the peer sends and
    Redis and Postgres answer, is one of two.  Either the socket never
    introduced itself properly: nothing is registered, subscribed, pumped or
    cached, and the socket is closed if it was opened.  Or its first frame was a
    register frame naming a mailbox, and then, in this order and once each, the
    socket is registered for that mailbox, its dispatch channel subscribed and
    the acknowledgement awaited; only if that came are the pump started and the
    state cache seeded with what the printer reported; what follows until the
    connection ends is frame handling; and at the end, on either path, the
    subscription is closed, the pump cancelled, the same registration removed
    and the socket closed, each exactly once. *)
Theorem accept_lifecycle fuel t a :
  exec (Accept h fuel) t a ->
  (Forall (fun e : cevent => link_call (ev_call e) = false) t /\ is_Some a
   /\ count closes_now t = count accepts t)
  \/ exists c j reg msg args t',
       dec_Frame zero_Frame j = Some reg /\ f_Type reg = "register" /\ f_MailboxID reg <> EmptyString
       /\ t = CEv WsAccept (Ok c) :: CEv (WsRead c) (Ok j) :: CEv (Log msg args) tt :: t'
       /\ linked c reg t' a.
Proof.
  revert t a. apply wp_runs. unfold Accept, readFrame.
  autounfold with prog. cbn [prog_bind wp]. intros r0.
  destruct r0 as [c|e]; [|left; by split_and!; [repeat constructor|eexists|]].
  cbn [prog_bind wp]. intros r1.
  destruct r1 as [j|e]; [destruct (dec_Frame zero_Frame j) as [reg|] eqn:Hreg|].
  2, 3: cbn; intros; left; by split_and!; [repeat constructor|eexists|].
  change (prog_bind ?g (Ret ?x)) with (g x). cbn beta iota.
  destruct (String.eqb_spec (f_Type reg) "register") as [Htype|]; cbn [negb orb].
  2: by cbn; intros; left; split_and!; [repeat constructor|eexists|].
  destruct (String.eqb_spec (f_MailboxID reg) EmptyString) as [|Hmb].
  { cbn; intros; left; by split_and!; [repeat constructor|eexists|]. }
  cbn [prog_bind wp]. intros [] [] sub k.
  assert (forall t a, linked c reg t a ->
    (fun t a => (Forall (fun e : cevent => link_call (ev_call e) = false) t /\ is_Some a
       /\ count closes_now t = count accepts t)
     \/ exists c j reg msg args t',
       dec_Frame zero_Frame j = Some reg /\ f_Type reg = "register" /\ f_MailboxID reg <> EmptyString
       /\ t = CEv WsAccept (Ok c) :: CEv (WsRead c) (Ok j) :: CEv (Log msg args) tt :: t'
       /\ linked c reg t' a)
      (CEv WsAccept (Ok c) :: CEv (WsRead c) (Ok j) :: CEv (Log "printer-link: mailbox %s registered (slots: %v)"
         [LStr (f_MailboxID reg); LSlots ((fun s => (ws_Current s, ws_Max s)) <$> f_SlotOccupancy reg)]) tt :: t) a)
    as Hend by (intros t a Ht; right; eexists c, j, reg, _, _, t; done).
  destruct k as [u|e].
  2:{ cbn. intros [] [] [] [] []. apply Hend. eexists sub, (Err e), _. split; [done|]. split; [done|]. by eexists _, _. }
  cbn [prog_bind wp]. intros []. unfold SetPrinterState, ask, call. cbn [prog_bind wp]. intros s.
  apply (wp_bind_spec _ _ (fun t _ => framed t)); [destruct s; cbn; repeat constructor|].
  intros t1 _ H1.
  apply (wp_bind_spec _ _ (fun t _ => framed t)); [apply mirror_runs|]. intros t2 _ H2.
  eapply wp_bind_spec; [apply readLoop_runs|]. intros t3 o H3. cbn beta in H3.
  assert (framed (t1 ++ t2 ++ t3)) as Hf by (by repeat apply Forall_app_2).
  assert (forall tl : trace cloud_sig, t1 ++ t2 ++ t3 ++ tl = (t1 ++ t2 ++ t3) ++ tl) as Happ
    by (intros tl; by rewrite <- !app_assoc).
  destruct o as [e|]; cbn; [intros [] [] [] []|]; rewrite Happ; apply Hend;
    eexists sub, (Ok u), _; (split; [done|]); by eexists s, (t1 ++ t2 ++ t3).
Qed.

(** A state frame refreshes the cache with exactly what the printer
    reported, and wakes the dispatchers exactly when the printer is idle and
    the cache was refreshed.  [onState] makes one cache write, of the frame's
    status and occupancy under the mailbox's own key; it publishes one message
    on the mailbox's availability channel if the status is [idle] and the write
    succeeded, and none otherwise; it never publishes anywhere else. *)
Theorem onState_announces mailboxID f t a :
  exec (onState h mailboxID f) t a ->
  exists r t',
    t = CEv (RSet (KeyPrinterState mailboxID)
          (enc_PrinterState {| ps_Status := f_Status f; ps_SlotOccupancy := toStoreSlots (f_SlotOccupancy f) |})
          printerStateTTL) r :: t'
    /\ count seeds t' = 0%nat
    /\ count publishes t' = (match r with
                              | Ok _ => if String.eqb (f_Status f) "idle" then 1 else 0
                              | Err _ => 0
                              end)%nat
    /\ Forall (fun e => publishes e = true -> publishes_on (ChanAvailable mailboxID) (fun _ => True) e) t'.
Proof.
  revert t a. apply wp_runs. unfold onState, SetPrinterState, ask, call. cbn [prog_bind wp mbind prog_mbind].
  intros r. destruct r as [[]|e].
  - apply (wp_bind_spec _ _ (fun t _ => framed t /\ count seeds t = 0%nat /\ count publishes t = 0%nat)).
    { unfold mirrorLiveness. wp_steps; repeat constructor. }
    intros t1 _ (_ & Hs & Hp). destruct (String.eqb (f_Status f) "idle"); cbn; intros;
      eexists _, _; (split; [reflexivity|]).
    + split_and!; autorewrite with automail; rewrite ?Hs, ?Hp; [done|done|].
      apply Forall_app. split; [|repeat constructor].
      apply count_0 in Hp. eapply Forall_impl; [exact Hp|]. cbn. congruence.
    + split_and!; autorewrite with automail; rewrite ?Hs, ?Hp; [done|done|].
      apply count_0 in Hp. eapply Forall_impl; [exact Hp|]. cbn. congruence.
  - cbn. intros. eexists _, _. split; [reflexivity|].
    split_and!; [done|done|repeat constructor; done].
Qed.

End runs.

(** ** Status reports *)

Section status.
Context {U : UuidLib} (h : Hub).

(** C14: A delivered job's ciphertext is deleted, once, and the deletion is
    recorded exactly when it happened.  In any run of [onStatus] with deletion
    configured, one removal is issued if the frame reported [delivered] and the
    job's row was updated, and none otherwise; it comes after the row's update
    and after the browser was told, and its object is the one that row names.
    [blob_deleted_at] is set, and the deletion audited, for this job, once each
    if the removal succeeded and not at all otherwise. *)
Theorem delivered_blob_deleted f t a :
  exec (onStatus h f) t a ->
  count removes_blob t = (if String.eqb (f_Status f) "delivered" && hub_DeleteBlob h
                          then count status_updated t else 0)%nat
  /\ (count status_updated t <= 1)%nat
  /\ count marks_deleted t = count removed_blob t
  /\ count audits_deleted t = count removed_blob t
  /\ after status_updated publishes t
  /\ after publishes removes_blob t
  /\ after removed_blob marks_deleted t
  /\ Forall (fun e : cevent => match ev_call e with
       | MRemoveObject b ref =>
           b = bucket /\ f_Status f = "delivered"
           /\ exists id row, uuid_parse (f_JobID f) = Ok id
                /\ CEv (QUpdateJobStatus (f_Status f) id) (Ok row) ∈ t /\ ref = upd_BlobRef row
       | QSetJobBlobDeleted id => uuid_parse (f_JobID f) = Ok id
       | QInsertAuditEvent ev => uuid_parse (f_JobID f) = Ok (audit_JobID ev)
       | _ => True
       end) t.
Proof.
  revert t a. apply wp_runs. unfold onStatus, deleteDeliveredBlob, RemoveBlob.
  wp_steps.
  all: repeat match goal with
       | H : negb (hub_DeleteBlob h) = _ |- _ => apply (f_equal negb) in H; rewrite negb_involutive in H
       end.
  all: split_and!; try (by apply after_b_spec);
    try (unfold count; cbn; repeat match goal with H : _ = _ :> bool |- _ => rewrite H end; cbn; repeat case_match; lia).
  all: repeat apply Forall_cons_2; cbn; try done.
  all: match goal with
       | H : String.eqb _ "delivered" = true |- _ => apply String.eqb_eq in H
       end.
  all: split_and!; [done|done|].
  all: eexists _, _; split; [done|]; split; [|reflexivity]; left.
Qed.

(** C15: What the browser and the database are told of a job is what the printer
    reported, once.  Any run of [onStatus] issues at most one row update, and
    it sets the reported status on the reported job; it publishes at most one
    message, on that job's channel, with the reported status and error; a
    message is published exactly when the row was updated. *)
Theorem onStatus_relays f t a :
  exec (onStatus h f) t a ->
  (count publishes t = count status_updated t)%nat /\ (count publishes t <= 1)%nat
  /\ Forall (fun e : cevent => match ev_call e with
       | QUpdateJobStatus s id => s = f_Status f /\ uuid_parse (f_JobID f) = Ok id
       | RPublish chan payload => exists id, uuid_parse (f_JobID f) = Ok id
           /\ chan = ChanJobStatus (uuid_string id) /\ payload = jsonStatusPayload f
       | _ => True
       end) t.
Proof.
  revert t a. apply wp_runs. unfold onStatus, deleteDeliveredBlob, RemoveBlob.
  wp_steps; (split_and!; [done|unfold count; cbn; lia|]); repeat apply Forall_cons_2; try done; cbn; eauto.
Qed.

(** Whatever a printer reports, its socket's programs keep to the protocol of
    the system theorem. *)
Lemma onStatus_lawful f : lawful Free (onStatus h f).
Proof.
  apply lawful_outside. unfold onStatus, deleteDeliveredBlob, RemoveBlob.
  wp_steps; repeat apply Forall_cons_2; done.
Qed.

Lemma readTurn_lawful c mb : lawful Free (readTurn h c mb).
Proof.
  apply lawful_bind; [unfold readFrame, lawful; wp_steps; done|]. intros [frame|e]; [|done].
  apply lawful_bind; [|done]. case_match; [|case_match; [apply onStatus_lawful|done]].
  apply lawful_outside. unfold onState, SetPrinterState, mirrorLiveness.
  wp_steps; repeat apply Forall_cons_2; done.
Qed.

Lemma Accept_lawful fuel : lawful Free (Accept h fuel).
Proof.
  unfold Accept. apply lawful_bind; [done|]. intros [c|e]; [|done].
  apply lawful_bind; [unfold readFrame, lawful; wp_steps; done|]. intros [reg|e]; [|done].
  case_match; [done|]. do 2 (apply lawful_bind; [done|]; intros _).
  apply lawful_bind; [done|]. intros sub. apply lawful_bind; [done|]. intros [k|e]; [|done].
  apply lawful_bind; [done|]. intros _.
  apply lawful_bind; [unfold SetPrinterState, lawful; wp_steps; done|]. intros r.
  apply lawful_bind; [by destruct r|]. intros _.
  apply lawful_bind; [unfold mirrorLiveness, lawful; wp_steps; done|]. intros _.
  apply lawful_bind; [apply lawful_loop; intros _; apply readTurn_lawful|].
  by intros [e|].
Qed.

End status.

(** ** The pump *)

Definition ev_relayed (e : cevent) : list json :=
  match ev_call e with WsWrite _ p => [p] | _ => [] end.
Definition ev_heard (e : cevent) : list json :=
  match e with existT (SelectPump _) (PumpMsg (Some p)) => [p] | _ => [] end.
Definition relayed (t : trace cloud_sig) : list json := mjoin (ev_relayed <$> t).
Definition heard (t : trace cloud_sig) : list json := mjoin (ev_heard <$> t).
Definition write_failed (e : cevent) : bool :=
  match e with existT (WsWrite _ _) (Err _) => true | _ => false end.

(** The pump relays every dispatch frame the node hears for this printer,
    unchanged, in order and once each, to this printer's socket and no other.
    It stops at the first failed write; a run still going has had none. *)
Theorem pump_relays_in_order fuel c sub t a :
  exec (pumpDispatch fuel c sub) t a ->
  relayed t = heard t
  /\ Forall (fun e : cevent => match ev_call e with WsWrite c' _ => c' = c | _ => True end) t
  /\ (count write_failed t <= 1)%nat
  /\ (a = None -> count write_failed t = 0%nat).
Proof.
  revert t a. apply wp_runs. unfold pumpDispatch.
  pose (I := fun t : trace cloud_sig => relayed t = heard t
    /\ Forall (fun e : cevent => match ev_call e with WsWrite c' _ => c' = c | _ => True end) t
    /\ count write_failed t = 0%nat).
  apply (wp_loop _ (fun t _ => I t) (fun t a => relayed t = heard t
    /\ Forall (fun e : cevent => match ev_call e with WsWrite c' _ => c' = c | _ => True end) t
    /\ (count write_failed t <= 1)%nat
    /\ (a = None -> count write_failed t = 0%nat))) with (t := []).
  - intros t s (H1 & H2 & H3). split_and!; [done|done|lia|done].
  - intros t s (H1 & H2 & H3). unfold pumpTurn.
    assert (forall l : trace cloud_sig, relayed (t ++ l) = relayed t ++ relayed l) as Hr.
    { intros l. unfold relayed. by rewrite fmap_app, join_app. }
    assert (forall l : trace cloud_sig, heard (t ++ l) = heard t ++ heard l) as Hh.
    { intros l. unfold heard. by rewrite fmap_app, join_app. }
    wp_steps; unfold I; rewrite ?Hr, ?Hh, H1; split_and!; autorewrite with automail; rewrite ?H3;
      try done; try (apply Forall_app; split; [done|repeat constructor]); cbn; try lia; done.
  - done.
Qed.

(** ** The registry *)

(** What happened to the registry, newest first. *)
Inductive reg_op : Type :=
| OpAdd (mailboxID : string) (c : conn)
| OpRemove (mailboxID : string) (c : conn).

Fixpoint registry (ops : list reg_op) : Registry :=
  match ops with
  | [] => NewRegistry
  | OpAdd m c :: ops' => Add m c (registry ops')
  | OpRemove m c :: ops' => Remove m c (registry ops')
  end.

(** The latest connection added for [m], if it was not removed since. *)
Fixpoint latest (m : string) (removed : list conn) (ops : list reg_op) : option conn :=
  match ops with
  | [] => None
  | OpAdd m' c :: ops' =>
      if decide (m' = m) then (if decide (c ∈ removed) then None else Some c)
      else latest m removed ops'
  | OpRemove m' c :: ops' =>
      latest m (if decide (m' = m) then c :: removed else removed) ops'
  end.

Lemma latest_registry m removed ops :
  latest m removed ops = match registry ops !! m with
                         | Some c => if decide (c ∈ removed) then None else Some c
                         | None => None
                         end.
Proof.
  revert removed. induction ops as [|[m' c|m' c] ops IH]; intros removed; cbn.
  - done.
  - unfold Add. destruct (decide (m' = m)) as [->|Hm].
    + by rewrite lookup_insert_eq.
    + by rewrite lookup_insert_ne, IH.
  - rewrite IH. unfold Remove. destruct (decide (m' = m)) as [->|Hm].
    + destruct (registry ops !! m) as [c'|] eqn:Hc; [|by rewrite Hc].
      destruct (decide (c' = c)) as [->|Hne].
      * rewrite lookup_delete_eq, decide_True by set_solver. done.
      * rewrite Hc. destruct (decide (c' ∈ removed)).
        -- rewrite decide_True by set_solver. done.
        -- rewrite decide_False by set_solver. done.
    + destruct (registry ops !! m') as [c'|]; [|done].
      case_decide; [by rewrite lookup_delete_ne|done].
Qed.

(** The registry always points at a mailbox's newest live socket, however
    registrations and teardowns interleave.  After any sequence of [Add]s and
    [Remove]s, by any connections in any order, a mailbox maps to the
    connection added last for it unless that very connection was removed since;
    the late teardown of an older connection never removes a newer one. *)
Theorem registry_tracks_newest ops m : registry ops !! m = latest m [] ops.
Proof. rewrite latest_registry. destruct (registry ops !! m); [|done]. by rewrite decide_False by set_solver. Qed.
