(* ===== verification/Http.v ===== *)
(** * Requests, responses, middleware

    services/cloud/handlers/respond.go, server.go, health.go, the middleware of
    services/cloud/middleware.go, services/cloud/authctx, services/cloud/jwtutil
    and the shutdown sequence of services/cloud/shutdown.go. *)

From S2P Require Import Prelude GoStrings Base64 Json Db Calls.

(** ** Library parameters

    net/mail's address parser, Unicode lower-casing and RFC 3339 formatting. *)
Class HttpLib : Type := {
  parse_address : string -> result string;
  to_lower : string -> string;
  rfc3339 : Z -> string
}.

(** ** Requests

    The body is the first JSON value of the request body; [rq_ctx] is what the
    auth middleware put in the request context (authctx: subject and role). *)
Record Request : Type := {
  rq_body : json;
  rq_query : string -> string;
  rq_path : string -> string;
  rq_cookie : option string;
  rq_authz : string;
  rq_ctx : option (string * string)
}.

Definition WithSender (sender role : string) (r : Request) : Request :=
  {| rq_body := rq_body r; rq_query := rq_query r; rq_path := rq_path r; rq_cookie := rq_cookie r;
     rq_authz := rq_authz r; rq_ctx := Some (sender, role) |}.

Definition SenderID {U : UuidLib} (r : Request) : option uuid :=
  match rq_ctx r with
  | None => None
  | Some (raw, _) => match uuid_parse raw with Ok id => Some id | Err _ => None end
  end.

Definition Role (r : Request) : string :=
  match rq_ctx r with Some (_, role) => role | None => EmptyString end.

(** ** Responses *)

Definition enc_errorBody (message code : string) : json :=
  JObj [("error", JStr message); ("code", JStr code)].

Definition WriteJSON (status : Z) (body : json) : cloud unit :=
  ask (SetHeader "Content-Type" "application/json");;
  ask (WriteHeader status);;
  ask (WriteBody body).

Definition WriteError (status : Z) (message code : string) : cloud unit :=
  WriteJSON status (enc_errorBody message code).

#[export] Hint Unfold WriteJSON WriteError : prog.

(** ** Probes (server.go, health.go) *)

Definition draining : cloud bool := ask Draining.

Definition Healthz : cloud unit :=
  d ← draining;
  if (d : bool) then WriteError 503 "shutting down" "DRAINING"
  else
    p ← ask PgPing;
    match p with
    | Err _ => WriteError 503 "postgres unreachable" "UNAVAILABLE"
    | Ok _ =>
        q ← ask RPing;
        match q with
        | Err _ => WriteError 503 "redis unreachable" "UNAVAILABLE"
        | Ok _ => WriteJSON 200 (JObj [("status", JStr "ok")])
        end
    end.

Definition Livez : cloud unit := WriteJSON 200 (JObj [("status", JStr "ok")]).

(** ** Middleware (middleware.go)

    The wrapped handler runs with the request's context. *)

Definition NodeHeader : string := "X-Automail-Node".

Definition nodeHeader (nodeID : string) (next : Request -> cloud unit) (r : Request) : cloud unit :=
  ask (SetHeader NodeHeader nodeID);;
  next r.

Definition optionalAuth (next : Request -> cloud unit) (r : Request) : cloud unit :=
  match cut_prefix (rq_authz r) "Bearer " with
  | None => next r
  | Some raw =>
      c ← ask (JwtParse raw);
      match c with
      | Err _ => next r
      | Ok (subject, role) => next (WithSender subject role r)
      end
  end.

Definition requireAuth (next : Request -> cloud unit) (r : Request) : cloud unit :=
  match cut_prefix (rq_authz r) "Bearer " with
  | None => WriteError 401 "missing bearer token" "UNAUTHORIZED"
  | Some raw =>
      c ← ask (JwtParse raw);
      match c with
      | Err _ => WriteError 401 "invalid or expired token" "UNAUTHORIZED"
      | Ok (subject, role) => next (WithSender subject role r)
      end
  end.

Definition requireAdmin (next : Request -> cloud unit) (r : Request) : cloud unit :=
  match cut_prefix (rq_authz r) "Bearer " with
  | None => WriteError 401 "missing bearer token" "UNAUTHORIZED"
  | Some raw =>
      c ← ask (JwtParse raw);
      match c with
      | Err _ => WriteError 401 "invalid or expired token" "UNAUTHORIZED"
      | Ok (subject, role) =>
          if negb (String.eqb role "admin") then WriteError 403 "admin role required" "FORBIDDEN"
          else next (WithSender subject role r)
      end
  end.

(** ** Access tokens (jwtutil.go) *)

Definition AccessTokenTTL : Z := 15 * minute.

(** Go evaluates the expiry's clock reading before the issue time's. *)
Definition IssueAccessToken {U : UuidLib} (senderID : uuid) (role : string) : cloud (result string) :=
  t1 ← ask Now;
  t2 ← ask Now;
  ask (JwtSign (uuid_string senderID) role t2 (t1 + AccessTokenTTL)).

(** ** Shutdown (shutdown.go) *)

Definition defaultShutdownGrace : Z := 20 * second.

Record shutdownStep : Type := {
  step_name : string;
  step_run : cloud (result unit)
}.

(** [Duration.Round]: to the nearest multiple of [m > 0], half away from zero. *)
Definition Round (d m : Z) : Z :=
  let r := Z.rem d m in
  if (d <? 0)%Z then (if (- r + - r <? m)%Z then d - r else d - r - m)%Z
  else (if (r + r <? m)%Z then d - r else d - r + m)%Z.

Definition millisecond : Z := 1000000.

(** The steps share one deadline, which shows only in what their calls answer. *)
Fixpoint runShutdown (steps : list shutdownStep) : cloud unit :=
  match steps with
  | [] => Ret tt
  | step :: steps' =>
      start ← ask Now;
      r ← step_run step;
      now ← ask Now;
      match r with
      | Err e =>
          log "shutdown: %s failed after %s: %v"
            [LStr (step_name step); LInt (Round (now - start) millisecond); LErr e]
      | Ok _ =>
          log "shutdown: %s done in %s" [LStr (step_name step); LInt (Round (now - start) millisecond)]
      end;;
      runShutdown steps'
  end.

(** [SelectDone] answers whether [done] closed before the context ended. *)
Definition waitFor : cloud (result unit) :=
  d ← ask SelectDone;
  if (d : bool) then Ret (Ok tt) else Ret (Err (ErrText "context deadline exceeded")).

(** ** Statements about responses *)

Definition statuses (t : trace cloud_sig) : list Z :=
  omap (fun e : event cloud_sig => match ev_call e with WriteHeader s => Some s | _ => None end) t.

(** A run that answered exactly once, with this status and body. *)
Definition answers (t : trace cloud_sig) (status : Z) (body : json) : Prop :=
  exists t0, t = t0 ++ [CEv (SetHeader "Content-Type" "application/json") tt;
                        CEv (WriteHeader status) tt; CEv (WriteBody body) tt]
             /\ statuses t0 = [].

Lemma statuses_app t1 t2 : statuses (t1 ++ t2) = statuses t1 ++ statuses t2.
Proof. unfold statuses. apply omap_app. Qed.

#[export] Hint Rewrite statuses_app : automail.

(** The line that reports a step. *)
Definition step_report (step : shutdownStep) (took : Z) (r : result unit) : event cloud_sig :=
  match r with
  | Err e => CEv (Log "shutdown: %s failed after %s: %v"
                    [LStr (step_name step); LInt (Round took millisecond); LErr e]) tt
  | Ok _ => CEv (Log "shutdown: %s done in %s"
                   [LStr (step_name step); LInt (Round took millisecond)]) tt
  end.

(** One step: a run of it between two clock readings, and its report. *)
Definition step_trace (step : shutdownStep) (t : trace cloud_sig) : Prop :=
  exists start now run r,
    exec (step_run step) run r
    /\ t = CEv Now start :: run ++ [CEv Now now; step_report step (now - start) r].

(** Shutdown skips nothing.  Whatever the steps answer, and however many
    fail, [runShutdown] runs every step to its end exactly once, in the given
    order, and does nothing else but read the clock and report each. *)
Theorem shutdown_runs_every_step steps t a :
  exec (runShutdown steps) t a -> exists ts, Forall2 step_trace steps ts /\ t = mjoin ts.
Proof.
  revert t a. apply wp_runs. induction steps as [|step steps IH]; [by exists []|].
  cbn [runShutdown]. autounfold with prog. cbn [prog_bind wp]. intros start.
  change (wp (prog_bind ?f ?p)) with (wp (p ≫= f)).
  eapply wp_bind_spec; [apply exec_wp; intros run r Hr; exact Hr|]. intros run r Hr.
  cbn [prog_bind wp]. intros now.
  assert (forall t1 ts, t1 = [step_report step (now - start) r] -> Forall2 step_trace steps ts ->
    exists ts', Forall2 step_trace (step :: steps) ts'
      /\ CEv Now start :: run ++ CEv Now now :: t1 ++ mjoin ts = mjoin ts') as Hdone.
  { intros t1 ts -> Hts. eexists (_ :: ts). split.
    - constructor; [|exact Hts]. exists start, now, run, r. split; [exact Hr|reflexivity].
    - cbn. rewrite <- app_assoc. reflexivity. }
  destruct r as [[]|e]; cbn [prog_bind wp]; intros []; (eapply wp_mono; [|exact IH]);
    cbn beta; intros t _ (ts & Hts & ->); by apply (Hdone [_]).
Qed.

(** A placeholder for the wrapped handler, so that a run shows when it is
    entered and with what identity. *)
Definition marker (r : Request) : cloud unit := ask (NextHandler (rq_ctx r)).

Definition entered (t : trace cloud_sig) : list (option (string * string)) :=
  omap (fun e : event cloud_sig => match ev_call e with NextHandler s => Some s | _ => None end) t.

(** The admin endpoints are entered only by admins, with the identity the
    token proves.  In any run of [requireAdmin], the wrapped handler runs at
    most once; it runs exactly when the request carries a Bearer token that
    verifies with the role claim [admin], and then with that token's subject;
    otherwise the request is answered once, 403 for a verified token of another
    role and 401 for every other request. *)
Theorem requireAdmin_guards r t a :
  exec (requireAdmin marker r) t a ->
  (exists raw subject, cut_prefix (rq_authz r) "Bearer " = Some raw
     /\ CEv (JwtParse raw) (Ok (subject, "admin")) ∈ t
     /\ entered t = [Some (subject, "admin")] /\ statuses t = [])
  \/ (exists raw subject role, cut_prefix (rq_authz r) "Bearer " = Some raw /\ role <> "admin"
     /\ CEv (JwtParse raw) (Ok (subject, role)) ∈ t /\ entered t = [] /\ statuses t = [403%Z])
  \/ ((cut_prefix (rq_authz r) "Bearer " = None
       \/ exists raw e, cut_prefix (rq_authz r) "Bearer " = Some raw /\ CEv (JwtParse raw) (Err e) ∈ t)
     /\ entered t = [] /\ statuses t = [401%Z]).
Proof.
  revert t a. apply wp_runs. unfold requireAdmin, marker.
  destruct (cut_prefix (rq_authz r) "Bearer ") as [raw|]; [|wp_steps; right; right; auto].
  autounfold with prog. cbn [prog_bind wp]. intros [[subject role]|e].
  - destruct (String.eqb_spec role "admin") as [->|Hr]; cbn [negb]; cbn.
    + intros. left. exists raw, subject. split_and!; try done. by left.
    + intros. right. left. exists raw, subject, role. split_and!; try done. by left.
  - cbn. intros. right. right. split; [|done]. right. exists raw, e. split; [done|]. by left.
Qed.

(** Optional authentication never turns a request away and never invents an
    identity.  [optionalAuth] enters the wrapped handler exactly once and
    writes nothing itself; the identity it passes on is the verified token's
    subject and role if the request carries a Bearer token that verifies, and
    the request's own context otherwise. *)
Theorem optionalAuth_passes r t a :
  exec (optionalAuth marker r) t a ->
  statuses t = []
  /\ ((exists raw subject role, cut_prefix (rq_authz r) "Bearer " = Some raw
         /\ CEv (JwtParse raw) (Ok (subject, role)) ∈ t /\ entered t = [Some (subject, role)])
      \/ ((cut_prefix (rq_authz r) "Bearer " = None
           \/ exists raw e, cut_prefix (rq_authz r) "Bearer " = Some raw /\ CEv (JwtParse raw) (Err e) ∈ t)
          /\ entered t = [rq_ctx r])).
Proof.
  revert t a. apply wp_runs. unfold optionalAuth, marker.
  destruct (cut_prefix (rq_authz r) "Bearer ") as [raw|]; [|wp_steps; split; [done|right; auto]].
  autounfold with prog. cbn [prog_bind wp]. intros [[subject role]|e]; cbn; intros; (split; [done|]).
  - left. exists raw, subject, role. split_and!; try done. by left.
  - right. split; [|done]. right. exists raw, e. split; [done|]. by left.
Qed.
