(* ===== verification/Auth.v ===== *)
(** * Accounts and sessions

    services/cloud/handlers/tokens.go and auth.go: opaque tokens, the refresh
    cookie, login, refresh, logout and registration. *)

From S2P Require Import Prelude GoStrings Base64 Json Db Calls Http Sha2.
From Stdlib Require Import Ascii.

Definition refreshTokenTTL : Z := 7 * 24 * 3600 * second.
Definition refreshCookieName : string := "refresh_token".
Definition refreshCookiePath : string := "/auth/refresh".
Definition minPasswordLen : nat := 8.

Section auth.
Context {U : UuidLib} {L : HttpLib}.

(** ** Opaque tokens (tokens.go) *)

Definition hashToken (raw : string) : string := raw_url_encode (sha256_sum (string_bytes raw)).
#[global] Arguments hashToken : simpl never.

(** The raw token and the digest to store. *)
Definition newOpaqueToken : cloud (result (string * string)) :=
  r ← ask (RandRead 32);
  match r with
  | Err e => Ret (Err e)
  | Ok buf => let raw := raw_url_encode buf in Ret (Ok (raw, hashToken raw))
  end.

(** ** The refresh cookie

    Name, path and flags are the same on every use ([refreshCookie]); a call of
    [SetCookie] carries what varies: value, expiry and Max-Age. *)
Definition zero_time : Z := -62135596800 * second.

Definition setRefreshCookie (token : string) (expiresAt : Z) : cloud unit :=
  ask (SetCookie token expiresAt 0).
Definition clearRefreshCookie : cloud unit := ask (SetCookie EmptyString zero_time (-1)).

(** ** Sessions (auth.go) *)

Record tokenResponse : Type := {
  AccessToken : string;
  ExpiresIn : Z
}.

Definition enc_tokenResponse (r : tokenResponse) : json :=
  JObj [("access_token", JStr (AccessToken r)); ("expires_in", JInt (ExpiresIn r))].

Definition issueSession (senderID : uuid) (role : string) : cloud (result tokenResponse) :=
  a ← IssueAccessToken senderID role;
  match a with
  | Err e => Ret (Err e)
  | Ok access =>
      t ← newOpaqueToken;
      match t with
      | Err e => Ret (Err e)
      | Ok (rawRefresh, refreshHash) =>
          now ← ask Now;
          let expiresAt := (now + refreshTokenTTL)%Z in
          i ← ask (QInsertRefreshToken
                {| irt_SenderID := senderID; irt_TokenHash := refreshHash; irt_ExpiresAt := expiresAt |});
          match i with
          | Err e => Ret (Err e)
          | Ok _ =>
              setRefreshCookie rawRefresh expiresAt;;
              Ret (Ok {| AccessToken := access; ExpiresIn := AccessTokenTTL / second |})
          end
      end
  end.

(** The answer of the three callers once the sender is known. *)
Definition startSession (status : Z) (senderID : uuid) (role : string) : cloud unit :=
  s ← issueSession senderID role;
  match s with
  | Err _ => WriteError 500 "could not issue token" "INTERNAL"
  | Ok resp => WriteJSON status (enc_tokenResponse resp)
  end.

Record credentials : Type := {
  cr_Email : string;
  cr_Password : string
}.

(** loginRequest and registerRequest have the same fields and tags. *)
Definition dec_credentials : decoder credentials :=
  dec_struct
    [("email", fun c j => (fun s => {| cr_Email := s; cr_Password := cr_Password c |}) <$> dec_string (cr_Email c) j);
     ("password", fun c j => (fun s => {| cr_Email := cr_Email c; cr_Password := s |}) <$> dec_string (cr_Password c) j)].

Definition no_credentials : credentials := {| cr_Email := EmptyString; cr_Password := EmptyString |}.

Section server.
Variable AppKey : string.

Definition Login (r : Request) : cloud unit :=
  match dec_credentials no_credentials (rq_body r) with
  | None => WriteError 400 "invalid request body" "INVALID_BODY"
  | Some req =>
      g ← ask (QGetSenderByEmail AppKey (to_lower (cr_Email req)));
      match g with
      | Err ErrNoRows => WriteError 401 "invalid credentials" "UNAUTHORIZED"
      | Err _ => WriteError 500 "login failed" "INTERNAL"
      | Ok sender =>
          b ← ask (BcryptCompare (snd_PasswordHash sender) (cr_Password req));
          match b with
          | Err _ => WriteError 401 "invalid credentials" "UNAUTHORIZED"
          | Ok _ => startSession 200 (snd_ID sender) (snd_Role sender)
          end
      end
  end.

Definition Refresh (r : Request) : cloud unit :=
  match rq_cookie r with
  | None => WriteError 401 "missing refresh token" "UNAUTHORIZED"
  | Some value =>
      let hash := hashToken value in
      g ← ask (QGetActiveRefreshToken hash);
      let proceed (active : GetActiveRefreshTokenRow) : cloud unit :=
        v ← ask (QRevokeRefreshTokenByHash hash);
        match v with
        | Err _ => WriteError 500 "could not revoke token" "INTERNAL"
        | Ok _ =>
            s ← ask (QGetSenderByID (act_SenderID active));
            match s with
            | Err _ => WriteError 500 "lookup failed" "INTERNAL"
            | Ok sender => startSession 200 (sid_ID sender) (sid_Role sender)
            end
        end in
      match g with
      | Err ErrNoRows => WriteError 401 "expired or revoked token" "UNAUTHORIZED"
      | Err _ => WriteError 500 "refresh failed" "INTERNAL"
      | Ok active =>
          now ← ask Now;
          if (act_ExpiresAt active <? now)%Z
          then WriteError 401 "expired or revoked token" "UNAUTHORIZED"
          else proceed active
      end
  end.

Definition Logout (r : Request) : cloud unit :=
  match rq_cookie r with
  | Some value => ask (QRevokeRefreshTokenByHash (hashToken value));; Ret tt
  | None => Ret tt
  end;;
  clearRefreshCookie;;
  ask (WriteHeader 204).

(** The local part of an address, or the whole when there is none. *)
Definition local_part (email : string) : string :=
  match index_byte email "@"%char with
  | Some (S n) => String.substring 0 (S n) email
  | _ => email
  end.

Definition Register (r : Request) : cloud unit :=
  match dec_credentials no_credentials (rq_body r) with
  | None => WriteError 400 "invalid request body" "INVALID_BODY"
  | Some req =>
      match parse_address (cr_Email req) with
      | Err _ => WriteError 422 "invalid email address" "VALIDATION"
      | Ok addr =>
          let email := to_lower addr in
          if (rune_count (cr_Password req) <? minPasswordLen)%nat
          then WriteError 422 "password must be at least 8 characters" "VALIDATION"
          else
            g ← ask (QGetSenderByEmail AppKey email);
            match g with
            | Ok _ => WriteError 409 "email already registered" "EMAIL_TAKEN"
            | Err ErrNoRows =>
                h ← ask (BcryptGenerate (cr_Password req));
                match h with
                | Err _ => WriteError 500 "could not hash password" "INTERNAL"
                | Ok hash =>
                    i ← ask (QInsertSender AppKey email (local_part email) hash);
                    match i with
                    | Err _ => WriteError 500 "could not create account" "INTERNAL"
                    | Ok sender => startSession 201 (inss_ID sender) (inss_Role sender)
                    end
                end
            | Err _ => WriteError 500 "registration failed" "INTERNAL"
            end
      end
  end.

End server.
End auth.

(** ** Runs *)

Definition sets_cookie (e : event cloud_sig) : bool :=
  match ev_call e with SetCookie _ _ _ => true | _ => false end.
Definition stores_token (e : event cloud_sig) : bool :=
  match ev_call e with QInsertRefreshToken _ => true | _ => false end.
Definition token_stored (e : event cloud_sig) : bool :=
  match e with existT (QInsertRefreshToken _) (Ok _) => true | _ => false end.
Definition token_revoked (e : event cloud_sig) : bool :=
  match e with existT (QRevokeRefreshTokenByHash _) (Ok _) => true | _ => false end.
Definition inserts_sender (e : event cloud_sig) : bool :=
  match ev_call e with QInsertSender _ _ _ _ => true | _ => false end.

Section runs.
Context {U : UuidLib} {L : HttpLib}.

(** A session is an access token for the sender, a stored digest and a
    cookie, in that order or not at all.  When [issueSession] succeeds its run
    is exactly: sign a token for this sender and role that expires 15 minutes
    after the clock's reading, draw 32 random bytes, store under the sender
    the digest of the token made of them with an expiry 7 days ahead, then set
    that token, with that expiry, as the cookie; the raw token itself is never
    stored.  When it fails, no cookie was set. *)
Theorem issueSession_run sender role t r :
  exec (issueSession sender role) t r ->
  match r with
  | Ok resp => exists t1 t2 buf now,
      let raw := raw_url_encode buf in
      t = [CEv Now t1; CEv Now t2;
           CEv (JwtSign (uuid_string sender) role t2 (t1 + AccessTokenTTL)) (Ok (AccessToken resp));
           CEv (RandRead 32) (Ok buf); CEv Now now;
           CEv (QInsertRefreshToken {| irt_SenderID := sender; irt_TokenHash := hashToken raw;
                                       irt_ExpiresAt := now + refreshTokenTTL |}) (Ok tt);
           CEv (SetCookie raw (now + refreshTokenTTL) 0) tt]
      /\ ExpiresIn resp = 900%Z
  | Err _ => count sets_cookie t = 0%nat
  end.
Proof.
  revert t r. apply wp_runs.
  unfold issueSession, IssueAccessToken, newOpaqueToken, setRefreshCookie.
  wp_steps; try done. repeat match goal with u : unit |- _ => destruct u end.
  eexists _, _, _, _. split; [|reflexivity].
  repeat match goal with r : sig_res _ (SetCookie _ _ _) |- _ => destruct r end. reflexivity.
Qed.

(** What every start of a session looks like. *)
Lemma startSession_runs status sender role :
  wp (startSession status sender role) (fun t _ =>
    (statuses t = [status] \/ statuses t = [500%Z] /\ count sets_cookie t = 0%nat)
    /\ Forall (fun e : event cloud_sig => match ev_call e with
         | JwtSign s r _ _ => s = uuid_string sender /\ r = role
         | QInsertRefreshToken p => irt_SenderID p = sender
         | QGetActiveRefreshToken _ | QRevokeRefreshTokenByHash _ | QInsertSender _ _ _ _ => False
         | _ => True
         end) t).
Proof.
  unfold startSession, issueSession, IssueAccessToken, newOpaqueToken, setRefreshCookie.
  wp_steps; (split; [auto|repeat constructor]).
Qed.

(** A run that starts no session. *)
Definition sessionless (t : trace cloud_sig) : Prop :=
  count sets_cookie t = 0%nat /\ count stores_token t = 0%nat.

(** The calls a session start makes. *)
Definition session_call (sender : uuid) (role : string) (e : event cloud_sig) : Prop :=
  match ev_call e with
  | JwtSign s r _ _ => s = uuid_string sender /\ r = role
  | QInsertRefreshToken p => irt_SenderID p = sender
  | QGetActiveRefreshToken _ | QRevokeRefreshTokenByHash _ | QInsertSender _ _ _ _ => False
  | _ => True
  end.

(** A run that turned the request away, in one answer. *)
Definition refused (t : trace cloud_sig) (status : Z) (message code : string) : Prop :=
  answers t status (enc_errorBody message code) /\ sessionless t.

(** A run of [startSession]. *)
Definition started (sender : uuid) (role : string) (status : Z) (t : trace cloud_sig) : Prop :=
  (statuses t = [status] \/ statuses t = [500%Z] /\ count sets_cookie t = 0%nat)
  /\ Forall (session_call sender role) t.

Ltac refuse :=
  repeat match goal with r : sig_res _ (SetHeader _ _) |- _ => destruct r
                       | r : sig_res _ (WriteHeader _) |- _ => destruct r
                       | r : sig_res _ (WriteBody _) |- _ => destruct r end;
  split; [|done];
  match goal with |- answers ?l _ _ =>
    let t0 := eval cbn in (take (length l - 3) l) in exists t0; split; reflexivity
  end.

Definition revokes_digest (x : string) (e : event cloud_sig) : bool :=
  match e with
  | existT (QRevokeRefreshTokenByHash x') (Ok _) => bool_decide (x' = x)
  | _ => false
  end.

Lemma refresh_runs r :
  wp (Refresh r) (fun t _ =>
    (sessionless t /\ exists s, statuses t = [s] /\ s <> 200%Z)
    \/ exists value active now sender t0 t1,
       rq_cookie r = Some value
       /\ t = t0 ++ t1
       /\ t0 = [CEv (QGetActiveRefreshToken (hashToken value)) (Ok active); CEv Now now;
                CEv (QRevokeRefreshTokenByHash (hashToken value)) (Ok tt);
                CEv (QGetSenderByID (act_SenderID active)) (Ok sender)]
       /\ (now <= act_ExpiresAt active)%Z
       /\ started (sid_ID sender) (sid_Role sender) 200 t1).
Proof.
  unfold Refresh.
  destruct (rq_cookie r) as [value|]; [|wp_steps; left; split; [done|eexists; done]].
  autounfold with prog. cbn [prog_bind wp]. intros g.
  destruct g as [active|e]; [|destruct e; wp_steps; left; split; try done; eexists; done].
  cbn [prog_bind wp]. intros now.
  destruct (act_ExpiresAt active <? now)%Z eqn:Hexp; [wp_steps; left; split; [done|eexists; done]|].
  cbn [prog_bind wp]. intros v. destruct v as [[]|e]; [|wp_steps; left; split; [done|eexists; done]].
  cbn [prog_bind wp]. intros s. destruct s as [sender|e]; [|wp_steps; left; split; [done|eexists; done]].
  eapply wp_mono; [|apply startSession_runs]. cbn. intros t1 _ Ht1. right.
  exists value, active, now, sender, [CEv (QGetActiveRefreshToken (hashToken value)) (Ok active); CEv Now now;
                CEv (QRevokeRefreshTokenByHash (hashToken value)) (Ok tt);
                CEv (QGetSenderByID (act_SenderID active)) (Ok sender)], t1.
  split_and!; try done. apply Z.ltb_ge in Hexp. exact Hexp.
Qed.

(** A refresh that was answered 200 revoked its own token. *)
Lemma refresh_revokes r t a :
  exec (Refresh r) t a ->
  statuses t <> [200%Z] \/
  match rq_cookie r with
  | Some value => List.existsb (revokes_digest (hashToken value)) t = true
  | None => False
  end.
Proof.
  intros [(_ & s & Hs & Hne)|(value & active & now & sender & t0 & t1 & -> & -> & -> & _)]%(wp_exec _ _ _ _ (refresh_runs r)).
  - left. rewrite Hs. congruence.
  - right. cbn. rewrite bool_decide_eq_true_2 by done. done.
Qed.

(** C17: A refresh token buys a session only while it is active, unexpired and
    once it is revoked.  Any run of [Refresh] answers exactly once.  It sets a
    cookie or stores a token only if the request carried a cookie whose digest
    was found active with an expiry not before the clock's reading, and only
    after that digest was revoked and the token's own sender looked up; the new
    session is that sender's, with the role the senders table gives. *)
Theorem refresh_rotates r t a :
  exec (Refresh r) t a ->
  (sessionless t /\ exists s, statuses t = [s] /\ s <> 200%Z)
  \/ exists value active now sender t0 t1,
       rq_cookie r = Some value
       /\ t = t0 ++ t1
       /\ t0 = [CEv (QGetActiveRefreshToken (hashToken value)) (Ok active); CEv Now now;
                CEv (QRevokeRefreshTokenByHash (hashToken value)) (Ok tt);
                CEv (QGetSenderByID (act_SenderID active)) (Ok sender)]
       /\ (now <= act_ExpiresAt active)%Z
       /\ started (sid_ID sender) (sid_Role sender) 200 t1.
Proof.
  intros H. exact (wp_exec _ _ _ _ (refresh_runs r) H).
Qed.

(** C18: A login needs the right password, and a wrong password cannot be told
    from an unknown address.  Any run of [Login] answers exactly once.  It
    starts a session only for the sender stored under the lower-cased address,
    after bcrypt accepted the given password against that sender's hash, with
    that sender's own id and role; when the address is unknown or bcrypt
    refuses, the answer is in both cases the same 401 with the same body and no
    session is started. *)
Theorem login_checks_password appKey r t a :
  exec (Login appKey r) t a ->
  match dec_credentials no_credentials (rq_body r) with
  | None => refused t 400 "invalid request body" "INVALID_BODY"
  | Some cr => exists g t1,
      t = CEv (QGetSenderByEmail appKey (to_lower (cr_Email cr))) g :: t1
      /\ match g with
         | Err ErrNoRows => refused t 401 "invalid credentials" "UNAUTHORIZED"
         | Err _ => refused t 500 "login failed" "INTERNAL"
         | Ok row => exists b t2,
             t1 = CEv (BcryptCompare (snd_PasswordHash row) (cr_Password cr)) b :: t2
             /\ match b with
                | Err _ => refused t 401 "invalid credentials" "UNAUTHORIZED"
                | Ok _ => started (snd_ID row) (snd_Role row) 200 t2
                end
         end
  end.
Proof.
  revert t a. apply wp_runs. unfold Login.
  destruct (dec_credentials no_credentials (rq_body r)) as [cr|]; [|wp_steps; refuse].
  autounfold with prog. cbn [prog_bind wp]. intros g.
  destruct g as [row|e]; [|destruct e; wp_steps; eexists _, _; (split; [reflexivity|]); refuse].
  cbn [prog_bind wp]. intros b. destruct b as [u|e].
  - eapply wp_mono; [|apply startSession_runs]. cbn. intros t2 _ Ht2.
    eexists _, _. split; [reflexivity|]. eexists _, _. split; [reflexivity|]. exact Ht2.
  - wp_steps. eexists _, _. split; [reflexivity|]. eexists _, _. split; [reflexivity|].
    refuse.
Qed.

(** A run that turned the request away and created no account. *)
Definition turned_away (t : trace cloud_sig) (status : Z) (message code : string) : Prop :=
  refused t status message code /\ count inserts_sender t = 0%nat.

Ltac turn_away := split; [refuse|done].

(** C19: An account is created only for a valid address that is not taken, with
    a long enough password, and the request has no say in its role.  Every run of [Register]
    checks, in this order, that the body decodes, that the address parses and
    that the password has at least eight runes; the first check that fails
    turns the request away with its own status, with no account created and no
    session.  Then it looks the lower-cased address up: a sender found is a 409,
    a database error a 500, with no account.  Only then is the password hashed
    and, with that hash, one sender inserted under that address, named by its
    local part; a failed insertion is a 500 without a session, and a successful
    one starts a session with the id and role the database chose. *)
Theorem register_guards appKey r t a :
  exec (Register appKey r) t a ->
  match dec_credentials no_credentials (rq_body r) with
  | None => turned_away t 400 "invalid request body" "INVALID_BODY"
  | Some cr =>
      match parse_address (cr_Email cr) with
      | Err _ => turned_away t 422 "invalid email address" "VALIDATION"
      | Ok addr =>
          if (rune_count (cr_Password cr) <? minPasswordLen)%nat
          then turned_away t 422 "password must be at least 8 characters" "VALIDATION"
          else exists g t1,
            t = CEv (QGetSenderByEmail appKey (to_lower addr)) g :: t1
            /\ match g with
               | Ok _ => turned_away t1 409 "email already registered" "EMAIL_TAKEN"
               | Err ErrNoRows => exists h t2,
                   t1 = CEv (BcryptGenerate (cr_Password cr)) h :: t2
                   /\ match h with
                      | Err _ => turned_away t2 500 "could not hash password" "INTERNAL"
                      | Ok hash => exists i t3,
                          t2 = CEv (QInsertSender appKey (to_lower addr) (local_part (to_lower addr)) hash) i :: t3
                          /\ match i with
                             | Err _ => turned_away t3 500 "could not create account" "INTERNAL"
                             | Ok row => started (inss_ID row) (inss_Role row) 201 t3
                             end
                      end
               | Err _ => turned_away t1 500 "registration failed" "INTERNAL"
               end
      end
  end.
Proof.
  revert t a. apply wp_runs. unfold Register.
  destruct (dec_credentials no_credentials (rq_body r)) as [cr|]; [|wp_steps; turn_away].
  destruct (parse_address (cr_Email cr)) as [addr|]; [|wp_steps; turn_away].
  destruct (rune_count (cr_Password cr) <? minPasswordLen)%nat; [wp_steps; turn_away|].
  autounfold with prog. cbn [prog_bind wp]. intros g.
  destruct g as [row0|e]; [wp_steps; eexists _, _; (split; [reflexivity|]); turn_away|].
  destruct e; try (wp_steps; eexists _, _; (split; [reflexivity|]); turn_away).
  cbn [prog_bind wp]. intros h. destruct h as [hash|e].
  2:{ wp_steps. eexists _, _. split; [reflexivity|]. eexists _, _. split; [reflexivity|]. turn_away. }
  cbn [prog_bind wp]. intros i. destruct i as [row|e].
  2:{ wp_steps. do 3 (eexists _, _; split; [reflexivity|]). turn_away. }
  eapply wp_mono; [|apply startSession_runs]. cbn. intros t3 _ Ht3.
  do 3 (eexists _, _; split; [reflexivity|]). exact Ht3.
Qed.

(** Logging out revokes the presented token under the digest it was stored
    with, and always clears the cookie.  Any run of [Logout] revokes exactly
    the digest of the cookie's value, if there is one, and whatever the
    database answers then sets an empty cookie with Max-Age -1 and answers 204. *)
Theorem logout_clears r t a :
  exec (Logout r) t a ->
  exists t0, t = t0 ++ [CEv (SetCookie EmptyString zero_time (-1)) tt; CEv (WriteHeader 204) tt]
    /\ match rq_cookie r with
       | Some value => exists v, t0 = [CEv (QRevokeRefreshTokenByHash (hashToken value)) v]
       | None => t0 = []
       end.
Proof.
  revert t a. apply wp_runs. unfold Logout, clearRefreshCookie.
  destruct (rq_cookie r) as [value|]; wp_steps;
    repeat match goal with r : sig_res _ (SetCookie _ _ _) |- _ => destruct r
                         | r : sig_res _ (WriteHeader _) |- _ => destruct r end.
  - eexists [_]. split; [reflexivity|]. eauto.
  - exists []. done.
Qed.

End runs.
