(* ===== verification/TokenStore.v ===== *)
(** * Refresh tokens are single-use

    The interface the refresh handler relies on, what it gives to a refresh
    begun after another has ended, and the proof that the SQL statements implement it. *)

From S2P Require Import Prelude GoStrings Base64 Json Db Calls Http Auth Sql Env.

(** What the token statements promise about which digests are active: a lookup
    finds only active digests, a successful revocation makes its digest
    inactive, an insertion activates at most its own digest, and nothing else
    activates any. *)
Class TokenStore {W : Type} (h : W -> forall c, W * cloud_res c) (active : W -> string -> Prop) : Prop := {
  ts_get : forall w hash row,
    (h w (QGetActiveRefreshToken hash)).2 = Ok row -> active w hash;
  ts_revoke : forall w hash,
    (h w (QRevokeRefreshTokenByHash hash)).2 = Ok tt -> ~ active (h w (QRevokeRefreshTokenByHash hash)).1 hash;
  ts_insert : forall w p x,
    active (h w (QInsertRefreshToken p)).1 x -> x = irt_TokenHash p \/ active w x;
  ts_other : forall w c x,
    (forall p, c <> QInsertRefreshToken p) -> active (h w c).1 x -> active w x
}.

(** The digests a run inserts. *)
Definition inserted (t : trace cloud_sig) : list string :=
  omap (fun e : event cloud_sig =>
    match ev_call e with QInsertRefreshToken p => Some (irt_TokenHash p) | _ => None end) t.

Section single_use.
Context {U : UuidLib} {L : HttpLib} {W : Type} (h : W -> forall c, W * cloud_res c).
Context (active : W -> string -> Prop) `{!TokenStore h active}.

Lemma inactive_step w c x :
  ~ active w x -> (forall p, c = QInsertRefreshToken p -> irt_TokenHash p <> x) -> ~ active (h w c).1 x.
Proof.
  intros Hn Hc Ha. destruct c; try (apply Hn; eapply ts_other; [|exact Ha]; done).
  destruct (ts_insert w p x Ha) as [->|?]; [by eapply Hc|done].
Qed.

(** An inactive digest stays so as long as it is not inserted. *)
Lemma inactive_stays {A} (p : cloud A) w x :
  ~ active w x ->
  wps (S := cloud_sig) h p w (fun w' t _ => x ∉ inserted t -> ~ active w' x).
Proof.
  revert w. induction p as [a|c k IH]; intros w Hn; [by intros _|].
  apply wps_vis. unfold wps. intros Hin. apply IH.
  - apply inactive_step; [exact Hn|]. intros q -> Hq. apply Hin. unfold inserted. cbn. rewrite Hq. by left.
  - intros H. apply Hin. unfold inserted. cbn. destruct c; try exact H. by right.
Qed.

(** A digest revoked on the way is inactive at the end. *)
Lemma revoked_inactive {A} (p : cloud A) w x :
  wps (S := cloud_sig) h p w (fun w' t _ =>
    List.existsb (revokes_digest x) t = true -> x ∉ inserted t -> ~ active w' x).
Proof.
  revert w. induction p as [a|c k IH]; intros w; [done|].
  apply wps_vis. unfold wps. intros Hrev Hin.
  assert (x ∉ inserted (interp (S := cloud_sig) h (k (h w c).2) (h w c).1).1.2) as Hin'.
  { intros H. apply Hin. unfold inserted. cbn. destruct c; try exact H. by right. }
  cbn [List.existsb] in Hrev. apply orb_true_iff in Hrev as [Hrev|Hrev]; [|by apply IH].
  apply inactive_stays; [|exact Hin'].
  destruct c; try discriminate Hrev. cbn in Hrev. pose proof (ts_revoke w hash) as Hr.
  destruct (h w (QRevokeRefreshTokenByHash hash)) as [w1 [[]|e]]; [|done].
  apply bool_decide_eq_true in Hrev as ->. by apply Hr.
Qed.

(** Once the digest is inactive, a refresh with its cookie starts nothing. *)
Lemma refresh_inactive r w value :
  rq_cookie r = Some value -> ~ active w (hashToken value) ->
  sessionless (interp (S := cloud_sig) h (Refresh r) w).1.2.
Proof.
  intros Hval Hn. unfold Refresh. rewrite Hval. autounfold with prog. cbn [prog_bind].
  apply (wps_vis (S := cloud_sig) h (QGetActiveRefreshToken (hashToken value)) _ w
    (fun _ t _ => sessionless t)).
  pose proof (ts_get w (hashToken value)) as Hg.
  destruct (h w (QGetActiveRefreshToken (hashToken value))) as [w1 g]. cbn [fst snd] in *.
  destruct g as [row|e]; [by destruct (Hn (Hg row eq_refl))|].
  apply (wps_wp (S := cloud_sig)). destruct e; wp_steps; done.
Qed.

(** C16: A refresh token that was used works no more.  Against any token store
    that keeps its promises: if a refresh with some cookie was answered 200,
    and any requests at all were served after it ([p] is their calls, whatever
    they are), then a refresh with that cookie, begun after these, starts no
    session, provided none of the tokens issued since has the same digest.  The
    second refresh begins after the first has ended: two that overlap can both
    succeed ([HttpScenarios.refresh_race]). *)
Theorem refresh_single_use {A} r r' w value (p : cloud A) :
  rq_cookie r = Some value -> rq_cookie r' = Some value ->
  let first := interp (S := cloud_sig) h (Refresh r) w in
  let between := interp (S := cloud_sig) h p first.1.1 in
  statuses first.1.2 = [200%Z] ->
  hashToken value ∉ inserted first.1.2 -> hashToken value ∉ inserted between.1.2 ->
  sessionless (interp (S := cloud_sig) h (Refresh r') between.1.1).1.2.
Proof.
  intros Hval Hval' first between Hok Hin1 Hin2. apply (refresh_inactive _ _ value Hval').
  apply (inactive_stays p first.1.1); [|exact Hin2].
  apply revoked_inactive; [|exact Hin1].
  destruct (refresh_revokes r _ _ (interp_exec (S := cloud_sig) h (Refresh r) w)) as [H|H];
    [unfold first in Hok; congruence|].
  rewrite Hval in H. exact H.
Qed.

End single_use.

(** ** The SQL statements implement the interface *)

Definition next_id (db : database) : uuid := Uuid (N.of_nat (size (refresh_tokens db))).

(** One client at a time against the tables of [Sql]. *)
Definition sql_env (db : database) (c : cloud_call) : database * cloud_res c :=
  match c as c return database * cloud_res c with
  | QInsertRefreshToken p => (InsertRefreshToken (next_id db) p db, Ok tt)
  | QGetActiveRefreshToken hash =>
      (db, match GetActiveRefreshToken hash db with Some row => Ok row | None => Err ErrNoRows end)
  | QRevokeRefreshTokenByHash hash => (RevokeRefreshTokenByHash 0 hash db, Ok tt)
  | QGetSenderByID id =>
      (db, match GetSenderByID id db with Some row => Ok row | None => Err ErrNoRows end)
  | c => (db, default_res c)
  end.

Definition sql_active (db : database) (x : string) : Prop :=
  exists id rt, refresh_tokens db !! id = Some rt /\ active_token x rt = true.

Lemma active_hash x rt : active_token x rt = true -> rt_TokenHash rt = x.
Proof. unfold active_token. by intros [H%String.eqb_eq _]%andb_true_iff. Qed.

#[export] Instance sql_tokens : TokenStore sql_env sql_active.
Proof.
  split.
  - intros db hash row. cbn. unfold GetActiveRefreshToken.
    destruct (map_to_list _) as [|[id rt] l] eqn:Hl; [done|]. intros _.
    assert ((id, rt) ∈ map_to_list (filter (fun kv => active_token hash kv.2 = true) (refresh_tokens db))) as Hin
      by (rewrite Hl; by left).
    apply elem_of_map_to_list, map_lookup_filter_Some in Hin as [Hid Ha]. by exists id, rt.
  - intros db hash _ (id & rt & Hid & Ha). cbn in Hid.
    apply lookup_fmap_Some in Hid as (rt0 & Hrt & _).
    destruct (active_token hash rt0) eqn:H0; subst rt; unfold active_token in *; cbn in *.
    + apply andb_true_iff in Ha as [_ Ha]. discriminate Ha.
    + congruence.
  - intros db p x (id & rt & Hid & Ha). cbn in Hid.
    apply lookup_insert_Some in Hid as [(_ & <-)|(_ & Hid)].
    + left. by apply active_hash in Ha.
    + right. by exists id, rt.
  - intros db c x Hc (id & rt & Hid & Ha). destruct c; try (by exists id, rt); [by destruct (Hc p)|].
    cbn in Hid. apply lookup_fmap_Some in Hid as (rt0 & Hrt & Hid).
    exists id, rt0. split; [done|].
    destruct (active_token hash rt0) eqn:H0; subst rt; [|done].
    unfold active_token in Ha. apply andb_true_iff in Ha as [_ Ha]. discriminate Ha.
Qed.
