(* ===== verification/Jobs.v ===== *)
(** * Job submission, status streams, history

    services/cloud/handlers/jobs.go. *)

From S2P Require Import Prelude GoStrings Base64 Json Keys Db Calls Store Minio Dispatch System Http Auth.

(** ** Requests and responses *)

Definition dec_int32 : decoder Z := fun old j =>
  match j with
  | JNull => Some old
  | JInt z => if ((- 2 ^ 31 <=? z) && (z <? 2 ^ 31))%Z then Some z else None
  | _ => None
  end.

Record uploadURLRequest : Type := {
  up_RecipientID : string;
  up_Filename : string
}.

Definition dec_uploadURLRequest : decoder uploadURLRequest :=
  dec_struct
    [("recipient_id", fun u j => (fun s => {| up_RecipientID := s; up_Filename := up_Filename u |})
        <$> dec_string (up_RecipientID u) j);
     ("filename", fun u j => (fun s => {| up_RecipientID := up_RecipientID u; up_Filename := s |})
        <$> dec_string (up_Filename u) j)].

Record createJobRequest : Type := {
  cj_EncryptedKey : string;
  cj_BlobRef : string;
  cj_RecipientID : string;
  cj_PageCount : Z
}.

Definition zero_createJobRequest : createJobRequest :=
  {| cj_EncryptedKey := EmptyString; cj_BlobRef := EmptyString; cj_RecipientID := EmptyString; cj_PageCount := 0 |}.

Definition dec_createJobRequest : decoder createJobRequest :=
  dec_struct
    [("encrypted_key", fun c j => (fun s => Build_createJobRequest s (cj_BlobRef c) (cj_RecipientID c) (cj_PageCount c))
        <$> dec_string (cj_EncryptedKey c) j);
     ("blob_ref", fun c j => (fun s => Build_createJobRequest (cj_EncryptedKey c) s (cj_RecipientID c) (cj_PageCount c))
        <$> dec_string (cj_BlobRef c) j);
     ("recipient_id", fun c j => (fun s => Build_createJobRequest (cj_EncryptedKey c) (cj_BlobRef c) s (cj_PageCount c))
        <$> dec_string (cj_RecipientID c) j);
     ("page_count", fun c j => (fun z => Build_createJobRequest (cj_EncryptedKey c) (cj_BlobRef c) (cj_RecipientID c) z)
        <$> dec_int32 (cj_PageCount c) j)].

Definition enc_createJobResponse (jobID status guestToken : string) : json :=
  JObj ([("job_id", JStr jobID); ("status", JStr status)] ++ omitempty_string "guest_token" guestToken).

Definition enc_uploadURLResponse (uploadURL blobRef : string) (expiresIn : Z) : json :=
  JObj [("upload_url", JStr uploadURL); ("blob_ref", JStr blobRef); ("expires_in", JInt expiresIn)].

(** A status event of the stream. *)
Record streamEvent : Type := {
  ev_JobID : string;
  ev_Status : string;
  ev_Error : string
}.

Definition zero_streamEvent : streamEvent :=
  {| ev_JobID := EmptyString; ev_Status := EmptyString; ev_Error := EmptyString |}.

Definition dec_streamEvent : decoder streamEvent :=
  dec_struct
    [("job_id", fun e j => (fun s => Build_streamEvent s (ev_Status e) (ev_Error e)) <$> dec_string (ev_JobID e) j);
     ("status", fun e j => (fun s => Build_streamEvent (ev_JobID e) s (ev_Error e)) <$> dec_string (ev_Status e) j);
     ("error", fun e j => (fun s => Build_streamEvent (ev_JobID e) (ev_Status e) s) <$> dec_string (ev_Error e) j)].

Definition enc_streamEvent (e : streamEvent) : json :=
  JObj ([("job_id", JStr (ev_JobID e)); ("status", JStr (ev_Status e))]
        ++ omitempty_string "error" (ev_Error e)).

Definition isTerminalStatus (status : string) : bool :=
  String.eqb status "delivered" || String.eqb status "failed".

Section jobs.
Context {U : UuidLib} {L : HttpLib}.

(** ** POST /jobs/upload-url *)

Definition uploadTTL : Z := 15 * minute.

Definition UploadURL (r : Request) : cloud unit :=
  match dec_uploadURLRequest {| up_RecipientID := EmptyString; up_Filename := EmptyString |} (rq_body r) with
  | None => WriteError 400 "invalid request body" "INVALID_BODY"
  | Some _ =>
      u ← PresignedUploadURL uploadTTL;
      match u with
      | Err _ => WriteError 500 "could not generate upload URL" "INTERNAL"
      | Ok (uploadURL, blobRef) =>
          WriteJSON 200 (enc_uploadURLResponse uploadURL blobRef (uploadTTL / second))
      end
  end.

(** ** POST /jobs *)

(** The owner of a new job: the authenticated sender, or a guest token whose
    digest is stored; the string is the raw token to return. *)
Definition newOwner (r : Request) : cloud (result (option uuid * option string * string)) :=
  match SenderID r with
  | Some senderID => Ret (Ok (Some senderID, None, EmptyString))
  | None =>
      t ← newOpaqueToken;
      match t with
      | Err e => Ret (Err e)
      | Ok (raw, hash) => Ret (Ok (None, Some hash, raw))
      end
  end.

(** [CreateJob] from the insertion on. *)
Definition submit (r : Request) (p : InsertJobParams) (guestToken : string) : cloud unit :=
  i ← ask (QInsertJob p);
  match i with
  | Err _ => WriteError 500 "could not create job" "INTERNAL"
  | Ok job =>
      a ← ask (QInsertAuditEvent
            {| audit_JobID := insr_ID job; audit_Action := "job_submitted"; audit_ActorID := SenderID r |});
      match a with
      | Err _ => WriteError 500 "could not write audit event" "INTERNAL"
      | Ok _ =>
          d ← TryDispatch (FromJob (insr_ID job) (ins_MailboxID p) (ins_SlotID p) (ins_EncryptedKey p) (ins_BlobRef p));
          match d with
          | Err _ => WriteError 500 "could not dispatch job" "INTERNAL"
          | Ok status =>
              WriteJSON 202 (enc_createJobResponse (uuid_string (insr_ID job)) status guestToken)
          end
      end
  end.

Definition CreateJob (r : Request) : cloud unit :=
  match dec_createJobRequest zero_createJobRequest (rq_body r) with
  | None => WriteError 400 "invalid request body" "INVALID_BODY"
  | Some req =>
      match uuid_parse (cj_RecipientID req) with
      | Err _ => WriteError 400 "recipient not found" "RECIPIENT_NOT_FOUND"
      | Ok recipientID =>
          q ← ask (QResolveRecipient recipientID);
          match q with
          | Err ErrNoRows => WriteError 400 "recipient not found or slot unassigned" "RECIPIENT_NOT_FOUND"
          | Err _ => WriteError 500 "lookup failed" "INTERNAL"
          | Ok resolved =>
              x ← BlobExists (cj_BlobRef req);
              match x with
              | Err _ => WriteError 500 "blob check failed" "INTERNAL"
              | Ok false => WriteError 422 "blob_ref not found" "INVALID_BLOB_REF"
              | Ok true =>
                  match std_decode (cj_EncryptedKey req) with
                  | None => WriteError 400 "encrypted_key must be base64" "INVALID_BODY"
                  | Some encryptedKey =>
                      o ← newOwner r;
                      match o with
                      | Err _ => WriteError 500 "could not generate guest token" "INTERNAL"
                      | Ok (senderID, guestHash, guestToken) =>
                          submit r
                            {| ins_SenderID := senderID; ins_GuestTokenHash := guestHash;
                               ins_MailboxID := res_MailboxID resolved; ins_SlotID := res_SlotID resolved;
                               ins_EncryptedKey := encryptedKey; ins_BlobRef := cj_BlobRef req;
                               ins_PageCount := cj_PageCount req |} guestToken
                      end
                  end
              end
          end
      end
  end.

(** ** GET /jobs/{id}/stream *)

(** Whether the request may watch the job. *)
Definition streamGrant (r : Request) (job : GetJobForStreamRow) : bool :=
  match SenderID r, str_SenderID job with
  | Some senderID, Some owner => bool_decide (owner = senderID)
  | _, _ => false
  end
  || let token := rq_query r "token" in
     negb (String.eqb token EmptyString)
     && match str_GuestTokenHash job with
        | Some hash => String.eqb (hashToken token) hash
        | None => false
        end.

Definition authorizeStream (r : Request) (job : GetJobForStreamRow) : cloud bool :=
  if streamGrant r job then Ret true
  else
    (if negb (String.eqb (rq_query r "token") EmptyString) then
       WriteError 403 "invalid guest token" "GUEST_TOKEN_INVALID"
     else match SenderID r with
          | Some _ => WriteError 404 "job not found" "NOT_FOUND"
          | None => WriteError 401 "authentication required" "UNAUTHORIZED"
          end);;
    Ret false.

Definition writeSSE (ev : streamEvent) : cloud bool :=
  w ← ask (WriteText "data: " (enc_streamEvent ev));
  match w with
  | Err _ => Ret false
  | Ok _ => ask Flush;; Ret true
  end.

Definition writeSSEComment (text : string) : cloud unit :=
  w ← ask (WriteText (": " +:+ text) JNull);
  match w with
  | Err _ => Ret tt
  | Ok _ => ask Flush
  end.

(** One turn of the relay loop. *)
Definition streamTurn (jobID : uuid) (sub : subid) : cloud (unit + unit) :=
  ev ← ask (SelectStream sub);
  match ev with
  | StreamCtxDone => Ret (inr tt)
  | StreamDrain => writeSSEComment "draining: server shutting down, reconnect";; Ret (inr tt)
  | StreamMsg None => Ret (inr tt)
  | StreamMsg (Some payload) =>
      match dec_streamEvent zero_streamEvent payload with
      | None =>
          log "stream: job %s: ignoring malformed status payload (err=%v)"
            [LStr (uuid_string jobID); LErr (ErrText "json")];;
          Ret (inl tt)
      | Some e =>
          if String.eqb (ev_Status e) EmptyString then
            log "stream: job %s: ignoring malformed status payload (err=%v)" [LStr (uuid_string jobID)];;
            Ret (inl tt)
          else
            ok ← writeSSE {| ev_JobID := uuid_string jobID; ev_Status := ev_Status e; ev_Error := ev_Error e |};
            if negb (ok : bool) then Ret (inr tt)
            else if isTerminalStatus (ev_Status e) then Ret (inr tt)
            else Ret (inl tt)
      end
  end.

(** [canFlush] is whether the response writer is a Flusher.  [None]: the stream
    is still open after [fuel] events; the deferred [sub.Close] has then not
    run. *)
Definition StreamJob (canFlush : bool) (fuel : nat) (r : Request) : cloud (option unit) :=
  match uuid_parse (rq_path r "id") with
  | Err _ => WriteError 404 "job not found" "NOT_FOUND";; Ret (Some tt)
  | Ok jobID =>
      q ← ask (QGetJobForStream jobID);
      match q with
      | Err ErrNoRows => WriteError 404 "job not found" "NOT_FOUND";; Ret (Some tt)
      | Err _ => WriteError 500 "lookup failed" "INTERNAL";; Ret (Some tt)
      | Ok job =>
          granted ← authorizeStream r job;
          if negb (granted : bool) then Ret (Some tt)
          else if negb canFlush then
            WriteError 500 "streaming unsupported" "INTERNAL";; Ret (Some tt)
          else
            sub ← ask (RSubscribe (ChanJobStatus (uuid_string jobID)));
            k ← ask (RReceive sub);
            match k with
            | Err _ =>
                WriteError 500 "could not subscribe to status channel" "INTERNAL";;
                ask (RSubClose sub);; Ret (Some tt)
            | Ok _ =>
                q2 ← ask (QGetJobForStream jobID);
                match q2 with
                | Err _ =>
                    WriteError 500 "lookup failed" "INTERNAL";;
                    ask (RSubClose sub);; Ret (Some tt)
                | Ok job2 =>
                    ask (SetHeader "Content-Type" "text/event-stream");;
                    ask (SetHeader "Cache-Control" "no-cache");;
                    ask (SetHeader "Connection" "keep-alive");;
                    ask (WriteHeader 200);;
                    ok ← writeSSE {| ev_JobID := uuid_string jobID; ev_Status := str_Status job2;
                                     ev_Error := EmptyString |};
                    if negb (ok : bool) || isTerminalStatus (str_Status job2) then
                      ask (RSubClose sub);; Ret (Some tt)
                    else
                      o ← loop fuel (fun _ => streamTurn jobID sub) tt;
                      match o with
                      | None => Ret None
                      | Some _ => ask (RSubClose sub);; Ret (Some tt)
                      end
                end
            end
      end
  end.

(** ** GET /jobs *)

Definition enc_historyJob (row : GetJobsBySenderRow) : json :=
  JObj ([("job_id", JStr (uuid_string (gjs_ID row))); ("status", JStr (gjs_Status row));
         ("page_count", JInt (gjs_PageCount row)); ("created_at", JStr (rfc3339 (gjs_CreatedAt row)))]
        ++ match gjs_DeliveredAt row with
           | Some d => [("delivered_at", JStr (rfc3339 d))]
           | None => []
           end).

Definition ListMyJobs (r : Request) : cloud unit :=
  match SenderID r with
  | None => WriteError 401 "authentication required" "UNAUTHORIZED"
  | Some senderID =>
      q ← ask (QGetJobsBySender senderID);
      match q with
      | Err _ => WriteError 500 "could not list jobs" "INTERNAL"
      | Ok rows => WriteJSON 200 (JObj [("jobs", JArr (enc_historyJob <$> rows))])
      end
  end.

End jobs.

(** ** Runs *)

Definition inserts_job (e : event cloud_sig) : bool :=
  match ev_call e with QInsertJob _ => true | _ => false end.
Definition acked_subscription (e : event cloud_sig) : bool :=
  match e with existT (RReceive _) (Ok _) => true | _ => false end.
Definition sends (e : event cloud_sig) : bool :=
  match ev_call e with WriteText _ _ => true | _ => false end.
Definition opens_subscription (e : event cloud_sig) : bool :=
  match ev_call e with RSubscribe _ => true | _ => false end.
Definition closes_subscription (e : event cloud_sig) : bool :=
  match ev_call e with RSubClose _ => true | _ => false end.

Section runs.
Context {U : UuidLib} {L : HttpLib}.

Ltac unit_answers :=
  repeat match goal with
         | r : sig_res _ (SetHeader _ _) |- _ => destruct r
         | r : sig_res _ (WriteHeader _) |- _ => destruct r
         | r : sig_res _ (WriteBody _) |- _ => destruct r
         | r : unit |- _ => destruct r
         end.

(** The owner [newOwner] chose, and the raw token it will show. *)
Definition owned (r : Request) (p : InsertJobParams) (guestToken : string) (t : trace cloud_sig) : Prop :=
  match SenderID r with
  | Some sender => ins_SenderID p = Some sender /\ ins_GuestTokenHash p = None /\ guestToken = EmptyString /\ t = []
  | None => ins_SenderID p = None /\ ins_GuestTokenHash p = Some (hashToken guestToken)
      /\ exists buf, guestToken = raw_url_encode buf /\ t = [CEv (RandRead 32) (Ok buf)]
  end.

(** C20: A job is only ever created from a request that checks out, and is what
    the request asked for.  Any run of [CreateJob] either inserts nothing and
    answers once with an error, or resolved the recipient and found the blob
    first, and then goes on to submit a job for exactly the resolved mailbox
    and slot, with the decoded key, the blob and the page count of the request,
    owned by the authenticated sender or else by a fresh guest token of which
    only the digest is stored: never both, never neither. *)
Theorem createJob_validates r t a :
  exec (CreateJob r) t a ->
  (count inserts_job t = 0%nat /\ exists s, statuses t = [s] /\ s <> 202%Z)
  \/ exists req recipient resolved p guestToken t1 t2,
       dec_createJobRequest zero_createJobRequest (rq_body r) = Some req
       /\ uuid_parse (cj_RecipientID req) = Ok recipient
       /\ std_decode (cj_EncryptedKey req) = Some (ins_EncryptedKey p)
       /\ ins_MailboxID p = res_MailboxID resolved /\ ins_SlotID p = res_SlotID resolved
       /\ ins_BlobRef p = cj_BlobRef req /\ ins_PageCount p = cj_PageCount req
       /\ owned r p guestToken t1
       /\ t = CEv (QResolveRecipient recipient) (Ok resolved)
              :: CEv (MStatObject bucket (cj_BlobRef req)) (Ok tt) :: t1 ++ t2
       /\ exec (submit r p guestToken) t2 a.
Proof.
  revert t a. apply wp_runs. unfold CreateJob.
  destruct (dec_createJobRequest zero_createJobRequest (rq_body r)) as [req|];
    [|wp_steps; left; split; [done|eexists; done]].
  destruct (uuid_parse (cj_RecipientID req)) as [recipient|] eqn:Hrec;
    [|wp_steps; left; split; [done|eexists; done]].
  autounfold with prog. cbn [prog_bind wp]. intros q.
  destruct q as [resolved|e]; [|destruct e; wp_steps; left; split; try done; eexists; done].
  unfold BlobExists, ask, call. cbn [prog_bind wp mbind prog_mbind]. intros x.
  destruct x as [[]|e].
  2:{ destruct e as [| | |code msg|msg|pre e]; try (wp_steps; left; split; [done|eexists; done]).
      destruct (String.eqb code "NoSuchKey"); wp_steps; left; split; try done; eexists; done. }
  cbn [prog_bind].
  destruct (std_decode (cj_EncryptedKey req)) as [key|] eqn:Hkey; [|wp_steps; left; split; [done|eexists; done]].
  unfold newOwner. destruct (SenderID r) as [sender|] eqn:Hs.
  - change (prog_bind ?g (Ret ?x)) with (g x). cbn beta iota.
    apply exec_wp. intros t2 [] Ht2. right.
    match type of Ht2 with exec (submit _ ?p ?g) _ _ => exists req, recipient, resolved, p, g, [], t2 end.
    unfold owned. rewrite Hs. by split_and!.
  - unfold newOpaqueToken, ask, call. cbn [prog_bind wp mbind prog_mbind]. intros b.
    destruct b as [buf|e]; [|wp_steps; left; split; [done|eexists; done]].
    change (prog_bind ?g (Ret ?x)) with (g x). cbn beta iota.
    change (prog_bind ?g (Ret ?x)) with (g x). cbn beta iota.
    apply exec_wp. intros t2 [] Ht2. right.
    match type of Ht2 with exec (submit _ ?p ?g) _ _ =>
      exists req, recipient, resolved, p, g, [CEv (RandRead 32) (Ok buf)], t2 end.
    unfold owned. rewrite Hs. split_and!; try done. by exists buf.
Qed.

(** C21: The job that is dispatched is the job that was inserted, and the sender
    learns what became of it.  Any run of [submit] inserts the row first; 202 is
    answered exactly when the insertion and its audit entry succeeded and
    [TryDispatch], run on the reference of that very row, mailbox, slot, key
    and blob, returned a status, and the answer carries the row's id, that
    status and the guest token; every other run answers 500. *)
Theorem submit_dispatches_inserted r p guestToken t a :
  exec (submit r p guestToken) t a ->
  exists i t1, t = CEv (QInsertJob p) i :: t1 /\
  match i with
  | Err _ => answers t 500 (enc_errorBody "could not create job" "INTERNAL")
  | Ok job => exists b t2,
      t1 = CEv (QInsertAuditEvent {| audit_JobID := insr_ID job; audit_Action := "job_submitted";
                                     audit_ActorID := SenderID r |}) b :: t2 /\
      match b with
      | Err _ => answers t 500 (enc_errorBody "could not write audit event" "INTERNAL")
      | Ok _ => exists d td,
          exec (TryDispatch (FromJob (insr_ID job) (ins_MailboxID p) (ins_SlotID p)
                               (ins_EncryptedKey p) (ins_BlobRef p))) td d /\
          t2 = td ++ [CEv (SetHeader "Content-Type" "application/json") tt;
                      CEv (WriteHeader (match d with Ok _ => 202 | Err _ => 500 end)) tt;
                      CEv (WriteBody (match d with
                        | Ok status => enc_createJobResponse (uuid_string (insr_ID job)) status guestToken
                        | Err _ => enc_errorBody "could not dispatch job" "INTERNAL"
                        end)) tt]
      end
  end.
Proof.
  revert t a. apply wp_runs. unfold submit. autounfold with prog. cbn [prog_bind wp]. intros i.
  destruct i as [job|e].
  2:{ wp_steps. unit_answers. eexists _, _. split; [reflexivity|].
      eexists [_]. split; reflexivity. }
  cbn [prog_bind wp]. intros b. destruct b as [u|e].
  2:{ wp_steps. unit_answers. eexists _, _. split; [reflexivity|]. eexists _, _. split; [reflexivity|].
      eexists [_; _]. split; reflexivity. }
  eapply wp_bind_spec; [apply exec_wp; intros t d Ht; exact Ht|]. intros td d Hd.
  eassert (wp _ (fun t _ => t = _)) as Hw;
    [|eapply wp_mono; [|exact Hw]; cbn beta; intros t' _ ->].
  2:{ eexists _, _. split; [reflexivity|]. eexists _, _. split; [reflexivity|].
      exists d, td. split; [exact Hd|reflexivity]. }
  destruct d; cbn; intros; unit_answers; reflexivity.
Qed.

(** Who may watch: the sender that owns the job, or the bearer of the guest token
    whose digest the job stores. *)
Definition may_watch (r : Request) (job : GetJobForStreamRow) : Prop :=
  (exists owner, SenderID r = Some owner /\ str_SenderID job = Some owner)
  \/ (rq_query r "token" <> EmptyString
      /\ str_GuestTokenHash job = Some (hashToken (rq_query r "token"))).

Lemma streamGrant_spec r job : streamGrant r job = true <-> may_watch r job.
Proof.
  unfold streamGrant, may_watch.
  rewrite orb_true_iff, andb_true_iff, negb_true_iff, String.eqb_neq. f_equiv.
  - destruct (SenderID r), (str_SenderID job); try rewrite bool_decide_eq_true; naive_solver.
  - destruct (str_GuestTokenHash job); try rewrite String.eqb_eq; naive_solver.
Qed.

(** C22: Only the job's owner can watch it.  Any run of [StreamJob] that opens a
    subscription or sends anything down the stream first read the job's row and
    found that the request's sender owns it, or that the digest of the
    request's token is the stored guest digest; a run without that grant sends
    nothing, subscribes to nothing and answers once: 404 for an unknown job, 500
    when the lookup failed, 403 for a wrong token, 404 for another sender, 401
    for no credential. *)
Theorem stream_authorized canFlush fuel r t a :
  exec (StreamJob canFlush fuel r) t a ->
  (count sends t = 0%nat /\ count opens_subscription t = 0%nat
   /\ exists s, statuses t = [s] /\ s ∈ [404; 500; 403; 401]%Z)
  \/ exists jobID job t1, uuid_parse (rq_path r "id") = Ok jobID
       /\ t = CEv (QGetJobForStream jobID) (Ok job) :: t1 /\ may_watch r job.
Proof.
  revert t a. apply wp_runs. unfold StreamJob.
  assert (forall t s, count sends t = 0%nat -> count opens_subscription t = 0%nat -> statuses t = [s] ->
    s ∈ [404; 500; 403; 401]%Z ->
    count sends t = 0%nat /\ count opens_subscription t = 0%nat
    /\ exists s, statuses t = [s] /\ s ∈ [404; 500; 403; 401]%Z) as Hno by eauto 6.
  destruct (uuid_parse (rq_path r "id")) as [jobID|];
    [|wp_steps; left; eapply Hno; [done|done|reflexivity|set_solver]].
  autounfold with prog. cbn [prog_bind wp]. intros q.
  destruct q as [job|e]; [|destruct e; wp_steps; left; eapply Hno; try reflexivity; set_solver].
  unfold authorizeStream. destruct (streamGrant r job) eqn:Hg.
  - apply streamGrant_spec in Hg. apply exec_wp. intros t o _. right. exists jobID, job, t. done.
  - wp_steps; try discriminate; left; eapply Hno; try reflexivity; set_solver.
Qed.

(** *** The relay *)

(** The status events a run sent, the snapshot and the valid messages it heard. *)
Definition ev_sent (e : event cloud_sig) : list json :=
  match ev_call e with
  | WriteText pre j => if String.eqb pre "data: " then [j] else []
  | _ => []
  end.
Definition sent (t : trace cloud_sig) : list json := mjoin (ev_sent <$> t).

Definition ev_relayable (e : event cloud_sig) : list streamEvent :=
  match e with
  | existT (SelectStream _) (StreamMsg (Some p)) =>
      match dec_streamEvent zero_streamEvent p with
      | Some ev => if String.eqb (ev_Status ev) EmptyString then [] else [ev]
      | None => []
      end
  | _ => []
  end.
Definition relayable (t : trace cloud_sig) : list streamEvent := mjoin (ev_relayable <$> t).

Definition for_job (jobID : uuid) (ev : streamEvent) : json :=
  enc_streamEvent {| ev_JobID := uuid_string jobID; ev_Status := ev_Status ev; ev_Error := ev_Error ev |}.

Lemma sent_app t1 t2 : sent (t1 ++ t2) = sent t1 ++ sent t2.
Proof. unfold sent. by rewrite fmap_app, join_app. Qed.
Lemma relayable_app t1 t2 : relayable (t1 ++ t2) = relayable t1 ++ relayable t2.
Proof. unfold relayable. by rewrite fmap_app, join_app. Qed.

Definition live (ev : streamEvent) : Prop := isTerminalStatus (ev_Status ev) = false.

(** The loop: what it heard is what it sent; only the last may be terminal, and
    then the loop is over. *)
Definition relaying (jobID : uuid) (t : trace cloud_sig) : Prop :=
  sent t = for_job jobID <$> relayable t /\ Forall live (relayable t).
Definition relayed_all (jobID : uuid) (t : trace cloud_sig) (a : option unit) : Prop :=
  sent t = for_job jobID <$> relayable t
  /\ (Forall live (relayable t)
      \/ a = Some tt /\ exists l ev, relayable t = l ++ [ev] /\ Forall live l /\ ~ live ev).

Lemma stream_loop_runs jobID sub fuel :
  wp (loop fuel (fun _ => streamTurn jobID sub) tt) (fun t a => relayed_all jobID t a).
Proof.
  apply (wp_loop _ (fun t _ => relaying jobID t) (fun t a => relayed_all jobID t a)) with (t := []);
    [| |by split].
  - intros t s [H1 H2]. split; [done|by left].
  - intros t s [Hs Hl].
    assert (forall t' : trace cloud_sig, sent t' = [] -> relayable t' = [] -> relaying jobID (t ++ t')) as Hquiet.
    { intros t' H1 H2. split; rewrite ?sent_app, relayable_app, H2, ?H1, !app_nil_r; done. }
    assert (forall t', sent t' = [] -> relayable t' = [] -> relayed_all jobID (t ++ t') (Some tt)) as Hquit.
    { intros t' H1 H2. destruct (Hquiet t' H1 H2). split; [done|by left]. }
    unfold streamTurn. autounfold with prog. cbn [prog_bind wp]. intros ev.
    destruct ev as [| |[p|]]; [cbn; by apply Hquit| |  |cbn; by apply Hquit].
    + unfold writeSSEComment. wp_steps; by apply Hquit.
    + destruct (dec_streamEvent zero_streamEvent p) as [e|] eqn:Hd.
      2:{ wp_steps. apply Hquiet; cbn; [done|]. unfold relayable. cbn. by rewrite Hd. }
      destruct (String.eqb (ev_Status e) EmptyString) eqn:He.
      { wp_steps. apply Hquiet; cbn; [done|]. unfold relayable. cbn. by rewrite Hd, He. }
      assert (forall t' : trace cloud_sig, sent t' = [for_job jobID e] ->
        relayable t' = [] -> relayable (CEv (SelectStream sub) (StreamMsg (Some p)) :: t') = [e]) as Hone.
      { intros t' _ H2. change (?x :: t') with ([x] ++ t'). rewrite relayable_app, H2, app_nil_r.
        unfold relayable. cbn. by rewrite Hd, He. }
      assert (forall t' : trace cloud_sig, sent t' = [for_job jobID e] -> relayable t' = [] ->
        (live e -> relaying jobID (t ++ CEv (SelectStream sub) (StreamMsg (Some p)) :: t'))
        /\ relayed_all jobID (t ++ CEv (SelectStream sub) (StreamMsg (Some p)) :: t') (Some tt)) as Hsend.
      { intros t' H1 H2.
        assert (sent (t ++ CEv (SelectStream sub) (StreamMsg (Some p)) :: t')
          = for_job jobID <$> relayable (t ++ CEv (SelectStream sub) (StreamMsg (Some p)) :: t')) as Heq.
        { rewrite sent_app, relayable_app, (Hone t' H1 H2), fmap_app, Hs. f_equal. exact H1. }
        assert (relayable (t ++ CEv (SelectStream sub) (StreamMsg (Some p)) :: t') = relayable t ++ [e]) as Hr
          by (by rewrite relayable_app, (Hone t' H1 H2)).
        split.
        - intros Hlive. split; [exact Heq|]. rewrite Hr. apply Forall_app. by repeat constructor.
        - split; [exact Heq|]. rewrite Hr. destruct (isTerminalStatus (ev_Status e)) eqn:Ht.
          + right. split; [done|]. exists (relayable t), e. unfold live. rewrite Ht. done.
          + left. apply Forall_app. by repeat constructor. }
      unfold writeSSE, ask, call. cbn [prog_bind wp mbind prog_mbind]. intros w.
      destruct w as [u|err]; cbn.
      * intros f. destruct (Hsend [CEv (WriteText "data: " (for_job jobID e)) (Ok u); CEv Flush f]) as [H1 H2]; [done..|].
        destruct (isTerminalStatus (ev_Status e)) eqn:Ht; cbn; [exact H2|by apply H1].
      * by destruct (Hsend [CEv (WriteText "data: " (for_job jobID e)) (Err err)]) as [H1 H2].
Qed.

(** Statuses none of which, but possibly the last, ends the stream. *)
Definition ends_once (l : list string) (a : option unit) : Prop :=
  (exists l' x, l = l' ++ [x] /\ Forall (fun s => isTerminalStatus s = false) l')
  /\ (a = None -> Forall (fun s => isTerminalStatus s = false) l).

Lemma relayed_all_ends jobID t a snap :
  isTerminalStatus snap = false -> relayed_all jobID t a -> ends_once (snap :: (ev_Status <$> relayable t)) a.
Proof.
  intros Hsnap [_ [Hl|(-> & l & ev & -> & Hl & Hev)]]; (split; [|intros Ha]).
  - generalize dependent (relayable t). intros l Hl. induction l as [|ev l _] using rev_ind.
    + exists [], snap. done.
    + exists (snap :: (ev_Status <$> l)), (ev_Status ev). split; [by rewrite fmap_app|].
      apply Forall_app in Hl as [Hl _]. apply Forall_cons. split; [done|].
      apply Forall_fmap. eapply Forall_impl; [exact Hl|]. done.
  - apply Forall_cons. split; [done|]. apply Forall_fmap. eapply Forall_impl; [exact Hl|]. done.
  - exists (snap :: (ev_Status <$> l)), (ev_Status ev). split; [by rewrite fmap_app|].
    apply Forall_cons. split; [done|]. apply Forall_fmap. eapply Forall_impl; [exact Hl|]. done.
  - discriminate Ha.
Qed.

(** C23: The stream is a snapshot followed by every transition heard, and ends
    with the job.  A run of [StreamJob] either sends no status event, or: the
    snapshot was read after the subscription was acknowledged, so no transition
    falls between the two; what was sent is the snapshot followed, in order and
    once each, by every well-formed message heard since, with this job's id
    put back in; nothing was sent after a terminal status; and a stream that
    has ended closed its subscription. *)
Theorem stream_relays canFlush fuel r t a :
  exec (StreamJob canFlush fuel r) t a ->
  sent t = []
  \/ exists jobID job sub job2 b t1 t2,
       uuid_parse (rq_path r "id") = Ok jobID
       /\ t = [CEv (QGetJobForStream jobID) (Ok job);
               CEv (RSubscribe (ChanJobStatus (uuid_string jobID))) sub; CEv (RReceive sub) (Ok b);
               CEv (QGetJobForStream jobID) (Ok job2)] ++ t1 ++ t2
       /\ sent t = for_job jobID {| ev_JobID := EmptyString; ev_Status := str_Status job2; ev_Error := EmptyString |}
                   :: (for_job jobID <$> relayable t1)
       /\ ends_once (str_Status job2 :: (ev_Status <$> relayable t1)) a
       /\ t2 = match a with Some _ => [CEv (RSubClose sub) tt] | None => [] end.
Proof.
  revert t a. apply wp_runs. unfold StreamJob.
  destruct (uuid_parse (rq_path r "id")) as [jobID|]; [|wp_steps; by left].
  autounfold with prog. cbn [prog_bind wp]. intros q.
  destruct q as [job|e]; [|destruct e; wp_steps; by left].
  unfold authorizeStream. destruct (streamGrant r job); [|wp_steps; try discriminate; by left].
  change (prog_bind ?g (Ret ?x)) with (g x). cbn beta iota. cbn [negb].
  destruct canFlush; cbn [negb]; [|wp_steps; by left]. cbn [prog_bind wp]. intros sub k.
  destruct k as [b|e]; [|wp_steps; by left]. cbn [prog_bind wp]. intros q2.
  destruct q2 as [job2|e]; [|wp_steps; by left]. cbn [prog_bind wp]. intros h1 h2 h3 h4.
  unfold writeSSE, ask, call. cbn [prog_bind wp mbind prog_mbind]. intros w.
  assert (forall w, ends_once [str_Status job2] (Some w)) as Hend.
  { intros w'. split; [|done]. by exists [], (str_Status job2). }
  destruct w as [u|e]; cbn [prog_bind wp negb orb].
  - intros f. change (prog_bind ?g (Ret ?x)) with (g x). cbn beta iota. cbn [negb orb].
    destruct (isTerminalStatus (str_Status job2)) eqn:Hterm.
    + cbn. intros []. 
      right. eexists jobID, job, sub, job2, b, [_; _; _; _; _; _], _.
      split; [done|]. split; [reflexivity|]. split; [done|]. split; [apply Hend|done].
    + eapply wp_bind_spec; [apply stream_loop_runs|]. intros tl o [Hs Hl].
      assert (ends_once (str_Status job2 :: (ev_Status <$> relayable tl)) o) as He
        by (by apply (relayed_all_ends jobID)).
      destruct o as [[]|]; cbn; [intros []|].
      * right. eexists jobID, job, sub, job2, b, ([_; _; _; _; _; _] ++ tl), _.
        split; [done|]. split; [reflexivity|].
        split; [|split; [exact He|]].
        -- unfold sent in *. cbn. rewrite fmap_app, join_app, Hs. cbn. by rewrite app_nil_r.
        -- reflexivity.
      * rewrite (app_nil_r tl). right. match goal with |- context [_ :: _ :: _ :: _ :: ?e5 :: ?t1] =>
          exists jobID, job, sub, job2, b, (e5 :: t1), [] end.
        split; [done|]. split; [by rewrite app_nil_r|].
        split; [|split; [exact He|done]]. exact (f_equal (cons _) Hs).
  - intros []. right. eexists jobID, job, sub, job2, b, [_; _; _; _; _], _.
    split; [done|]. split; [reflexivity|]. split; [done|]. split; [apply Hend|done].
Qed.

(** ** The system's protocol

    A submission is one of the programs of [System.at_most_one_frame]. *)

Lemma submit_lawful r p tok : lawful Free (submit r p tok).
Proof.
  apply lawful_bind; [done|]. intros [job|e]; [|done].
  apply lawful_bind; [done|]. intros [[]|e]; [|done].
  apply lawful_bind; [apply disciplined_lawful, try_disciplined|]. by intros [].
Qed.

Lemma CreateJob_lawful r : lawful Free (CreateJob r).
Proof.
  unfold CreateJob. destruct (dec_createJobRequest _ _) as [req|]; [|done].
  destruct (uuid_parse _) as [recipient|e]; [|done].
  apply lawful_bind; [done|]. intros [resolved|[]]; [|done..].
  apply lawful_bind; [unfold BlobExists, lawful; wp_steps; done|]. intros [[]|e]; [|done..].
  destruct (std_decode _); [|done].
  apply lawful_bind.
  { unfold newOwner, newOpaqueToken, lawful. wp_steps; done. }
  intros [[[owner hash] tok]|e]; [apply submit_lawful|done].
Qed.

End runs.
