(* ===== verification/Admin.v ===== *)
(** * The operator's and the directory's read-only endpoints

    services/cloud/handlers/admin.go and recipients.go. *)

From S2P Require Import Prelude GoStrings Base64 Json Keys Db Calls Store Sql Http.

(** ** Pagination *)

Definition defaultPerPage : Z := 50.
Definition maxPerPage : Z := 200.
Definition MaxInt32 : Z := 2 ^ 31 - 1.

Definition atoiDefault (s : string) (def : Z) : Z :=
  if String.eqb s EmptyString then def
  else match atoi s with Some n => n | None => def end.

(** The page and page size a request asks for, and the row offset computed in
    Go's 64-bit int and then narrowed to int32. *)
Definition pageOf (r : Request) : Z :=
  let page := atoiDefault (rq_query r "page") 1 in
  if (page <? 1)%Z then 1%Z else page.

Definition perPageOf (r : Request) : Z :=
  let perPage := atoiDefault (rq_query r "per_page") defaultPerPage in
  let perPage := if (perPage <? 1)%Z then defaultPerPage else perPage in
  if (maxPerPage <? perPage)%Z then maxPerPage else perPage.

Definition offsetOf (page perPage : Z) : Z :=
  let offset := int64 (int64 (page - 1) * perPage) in
  if (MaxInt32 <? offset)%Z then MaxInt32 else offset.

Section admin.
Context {U : UuidLib} {L : HttpLib}.

Definition optional_time (name : string) (t : option Z) : list (string * json) :=
  match t with Some d => [(name, JStr (rfc3339 d))] | None => [] end.

Definition enc_adminJob (row : AdminListJobsRow) : json :=
  JObj ([("job_id", JStr (uuid_string (aljr_ID row))); ("slot_id", JStr (uuid_string (aljr_SlotID row)));
         ("slot_number", JInt (aljr_SlotNumber row)); ("status", JStr (aljr_Status row));
         ("page_count", JInt (aljr_PageCount row)); ("created_at", JStr (rfc3339 (aljr_CreatedAt row)))]
        ++ optional_time "delivered_at" (aljr_DeliveredAt row)).

Definition AdminJobs (r : Request) : cloud unit :=
  let status := rq_query r "status" in
  q ← ask (QAdminListJobs {| alj_Status := status; alj_RowOffset := int32 (offsetOf (pageOf r) (perPageOf r));
                             alj_RowLimit := int32 (perPageOf r) |});
  match q with
  | Err _ => WriteError 500 "could not list jobs" "INTERNAL"
  | Ok rows =>
      n ← ask (QAdminCountJobs status);
      match n with
      | Err _ => WriteError 500 "could not count jobs" "INTERNAL"
      | Ok total =>
          WriteJSON 200 (JObj [("jobs", JArr (enc_adminJob <$> rows)); ("total", JInt total);
                               ("page", JInt (pageOf r))])
      end
  end.

(** ** Mailboxes *)

Record slotOccupancy : Type := {
  so_SlotNumber : Z;
  so_Current : Z;
  so_Max : Z
}.

Definition enc_slotOccupancy (s : slotOccupancy) : json :=
  JObj [("slot_number", JInt (so_SlotNumber s)); ("current", JInt (so_Current s)); ("max", JInt (so_Max s))].

Record adminMailbox : Type := {
  am_MailboxID : string;
  am_BuildingAddress : string;
  am_Status : string;
  am_LastHeartbeatAt : option Z;
  am_SlotOccupancy : gmap string slotOccupancy
}.

Definition enc_adminMailbox (m : adminMailbox) : json :=
  JObj ([("mailbox_id", JStr (am_MailboxID m)); ("building_address", JStr (am_BuildingAddress m));
         ("status", JStr (am_Status m))]
        ++ optional_time "last_heartbeat_at" (am_LastHeartbeatAt m)
        ++ [("slot_occupancy", enc_map enc_slotOccupancy (am_SlotOccupancy m))]).

(** The slots of one mailbox, in the order listed (slotsByMailbox). *)
Definition slotsOf (mbID : string) (slots : list AdminListSlotsRow) : list AdminListSlotsRow :=
  List.filter (fun s => String.eqb (uuid_string (als_MailboxID s)) mbID) slots.

Definition occupancyOf (live : option PrinterState) (slots : list AdminListSlotsRow) : gmap string slotOccupancy :=
  foldl (fun m s =>
    let id := uuid_string (als_ID s) in
    <[id := {| so_SlotNumber := als_SlotNumber s;
               so_Current := match live with
                             | Some state => match ps_SlotOccupancy state !! id with
                                             | Some x => Current x
                                             | None => 0%Z
                                             end
                             | None => 0%Z
                             end;
               so_Max := als_MaxCount s |}]> m) ∅ slots.

(** What one mailbox row becomes, given the live cache entry. *)
Definition mailboxView (live : option PrinterState) (slots : list AdminListSlotsRow)
    (mb : AdminListMailboxesRow) : adminMailbox :=
  let mbID := uuid_string (alm_MailboxID mb) in
  {| am_MailboxID := mbID;
     am_BuildingAddress := alm_BuildingAddress mb;
     am_Status := match live with
                  | None => "offline"
                  | Some state => if String.eqb (ps_Status state) EmptyString then "idle" else ps_Status state
                  end;
     am_LastHeartbeatAt := alm_LastHeartbeatAt mb;
     am_SlotOccupancy := occupancyOf live (slotsOf mbID slots) |}.

(** The loop over mailboxes; an error ends the request. *)
Fixpoint mailboxViews (slots : list AdminListSlotsRow) (mbs : list AdminListMailboxesRow)
    : cloud (result (list adminMailbox)) :=
  match mbs with
  | [] => Ret (Ok [])
  | mb :: mbs' =>
      s ← LookupPrinterState (uuid_string (alm_MailboxID mb));
      match s with
      | Err e => Ret (Err e)
      | Ok live =>
          rest ← mailboxViews slots mbs';
          match rest with
          | Err e => Ret (Err e)
          | Ok out => Ret (Ok (mailboxView live slots mb :: out))
          end
      end
  end.

Definition AdminMailboxes : cloud unit :=
  q ← ask QAdminListMailboxes;
  match q with
  | Err _ => WriteError 500 "could not list mailboxes" "INTERNAL"
  | Ok mailboxes =>
      p ← ask QAdminListSlots;
      match p with
      | Err _ => WriteError 500 "could not list slots" "INTERNAL"
      | Ok slots =>
          v ← mailboxViews slots mailboxes;
          match v with
          | Err _ => WriteError 500 "could not read printer state" "INTERNAL"
          | Ok out => WriteJSON 200 (JObj [("mailboxes", JArr (enc_adminMailbox <$> out))])
          end
      end
  end.

(** ** Summary *)

Definition waiting (status : string) : bool :=
  String.eqb status "submitted" || String.eqb status "queued" || String.eqb status "dispatching".

(** The counts by status, and the queue depth, a 64-bit sum. *)
Definition tally (counts : list AdminJobStatusCountsRow) : gmap string Z * Z :=
  foldl (fun acc c =>
    (<[ajs_Status c := ajs_Count c]> acc.1,
     if waiting (ajs_Status c) then int64 (acc.2 + ajs_Count c) else acc.2)) (∅, 0%Z) counts.

Definition day : Z := 24 * 3600 * second.

(** Midnight UTC: Unix time has days of equal length. *)
Definition startOfDay (now : Z) : Z := now - now mod day.

Definition AdminSummary : cloud unit :=
  q ← ask QAdminJobStatusCounts;
  match q with
  | Err _ => WriteError 500 "could not count jobs" "INTERNAL"
  | Ok counts =>
      now ← ask Now;
      d ← ask (QAdminCountDeliveredSince (startOfDay now));
      match d with
      | Err _ => WriteError 500 "could not count deliveries" "INTERNAL"
      | Ok completedToday =>
          WriteJSON 200 (JObj [("status_counts", enc_map JInt (tally counts).1);
                               ("queue_depth", JInt (tally counts).2);
                               ("completed_today", JInt completedToday)])
      end
  end.

(** ** Recipients (recipients.go) *)

Definition maskName (full : string) : string :=
  match fields full with
  | [] => EmptyString
  | [only] => only
  | first :: rest =>
      String.substring 0 (rune_size first) first +:+ ". " +:+ List.last rest EmptyString
  end.

Definition enc_recipient (row : SearchRecipientsRow) : json :=
  JObj [("recipient_id", JStr (uuid_string (sr_RecipientID row)));
        ("display_name", JStr (maskName (sr_FullName row)));
        ("building_address", JStr (sr_BuildingAddress row))].

(** [results] is a JSON array, not an object. *)
Definition SearchRecipients (appKey : string) (r : Request) : cloud unit :=
  let q := rq_query r "q" in
  if (String.length q <? 2)%nat then
    WriteError 400 "q must be at least 2 characters" "INVALID_QUERY"
  else
    s ← ask (QSearchRecipients appKey q);
    match s with
    | Err _ => WriteError 500 "search failed" "INTERNAL"
    | Ok rows => WriteJSON 200 (JArr (enc_recipient <$> rows))
    end.

Definition RecipientPublicKey (r : Request) : cloud unit :=
  match uuid_parse (rq_path r "id") with
  | Err _ => WriteError 404 "recipient not found" "RECIPIENT_NOT_FOUND"
  | Ok recipientID =>
      q ← ask (QResolveRecipient recipientID);
      match q with
      | Err ErrNoRows => WriteError 404 "recipient not found or slot unassigned" "RECIPIENT_NOT_FOUND"
      | Err _ => WriteError 500 "lookup failed" "INTERNAL"
      | Ok resolved =>
          WriteJSON 200 (JObj [("recipient_id", JStr (uuid_string (res_RecipientID resolved)));
                               ("public_key_pem", JStr (res_PublicKeyPem resolved))])
      end
  end.

End admin.

Example mask_three : maskName "Ada Byron Lovelace" = "A. Lovelace".
Proof. reflexivity. Qed.

(** ** Pagination stays in bounds *)

Lemma perPage_bounds r : (1 <= perPageOf r <= 200)%Z.
Proof.
  unfold perPageOf, maxPerPage, defaultPerPage.
  repeat case_match; repeat match goal with
    | H : (_ <? _)%Z = true |- _ => apply Z.ltb_lt in H
    | H : (_ <? _)%Z = false |- _ => apply Z.ltb_ge in H
    end; lia.
Qed.

Lemma page_bounds r : (1 <= pageOf r)%Z.
Proof.
  unfold pageOf. case_match; [lia|]. match goal with H : (_ <? _)%Z = false |- _ => apply Z.ltb_ge in H end. lia.
Qed.

Lemma page_range r : (1 <= pageOf r < 2 ^ 63)%Z.
Proof.
  split; [apply page_bounds|]. unfold pageOf, atoiDefault.
  assert (1 < 2 ^ 63)%Z by done.
  destruct (String.eqb _ _); [case_match; done|].
  destruct (atoi (rq_query r "page")) as [n|] eqn:Hn; [apply atoi_range in Hn|]; case_match; lia.
Qed.

(** The page a request asks for becomes a page Postgres accepts, as long as
    the row it starts at fits a 64-bit integer.  The page size sent is between
    1 and 200 whatever the query string says; and if the offset
    (page - 1) * per_page is below 2^63, then the offset sent is that product,
    capped at the largest int32, and never negative. *)
Theorem admin_page_bounds r :
  let page := pageOf r in let perPage := perPageOf r in
  (1 <= int32 perPage <= 200)%Z /\ int32 perPage = perPage
  /\ ((page - 1) * perPage < 2 ^ 63 ->
       int32 (offsetOf page perPage) = Z.min ((page - 1) * perPage) MaxInt32
       /\ 0 <= int32 (offsetOf page perPage))%Z.
Proof.
  cbn zeta. pose proof (perPage_bounds r) as Hper. pose proof (page_range r) as Hpage.
  assert (2 ^ 31 = 2147483648)%Z as H31 by done. assert (0 < 2 ^ 63)%Z as H63 by done.
  assert (int32 (perPageOf r) = perPageOf r) as Hn.
  { apply wrap_signed_id; [lia|]. change (32 - 1)%Z with 31%Z. lia. }
  rewrite Hn. split; [lia|]. split; [done|]. intros Hlt.
  assert (0 <= (pageOf r - 1) * perPageOf r)%Z as Hge by nia.
  assert (offsetOf (pageOf r) (perPageOf r) = Z.min ((pageOf r - 1) * perPageOf r) MaxInt32) as Ho.
  { unfold offsetOf.
    assert (int64 (pageOf r - 1) = pageOf r - 1)%Z as Hp.
    { apply wrap_signed_id; [lia|]. change (64 - 1)%Z with 63%Z. lia. }
    rewrite Hp, wrap_signed_id; [|lia|change (64 - 1)%Z with 63%Z; lia].
    destruct (Z.ltb_spec MaxInt32 ((pageOf r - 1) * perPageOf r)); lia. }
  rewrite Ho. unfold MaxInt32 in *. rewrite wrap_signed_id; [|lia|change (32 - 1)%Z with 31%Z; lia]. lia.
Qed.

(** The clamp does not stop an overflow below it.  A request for page
    9223372036854775807 with the default page size makes (page - 1) * per_page
    wrap around to -100, which is below the clamp, so the query sent has a
    negative OFFSET and Postgres refuses it whatever the tables hold. *)
Theorem huge_page_rejected {P : Planner} r db :
  rq_query r "page" = "9223372036854775807" -> rq_query r "per_page" = EmptyString ->
  int32 (offsetOf (pageOf r) (perPageOf r)) = (-100)%Z
  /\ exists e, AdminListJobs {| alj_Status := rq_query r "status";
                               alj_RowOffset := int32 (offsetOf (pageOf r) (perPageOf r));
                               alj_RowLimit := int32 (perPageOf r) |} db = Err e.
Proof.
  intros Hp Hpp.
  assert (int32 (offsetOf (pageOf r) (perPageOf r)) = (-100)%Z) as ->.
  { unfold pageOf, perPageOf. rewrite Hp, Hpp. by vm_compute. }
  split; [done|]. by eexists.
Qed.

(** ** The summary *)

(** The queue depth is the number of jobs waiting to reach a printer.  If
    the counts add up to less than 2^63, the depth [tally] reports is the sum
    of the counts of the statuses submitted, queued and dispatching, and of no
    others; and the count reported for each status listed once is its own. *)
Theorem tally_queue_depth counts :
  Forall (fun c => 0 <= ajs_Count c)%Z counts ->
  (foldr (fun c s => ajs_Count c + s) 0 counts < 2 ^ 63)%Z ->
  NoDup (ajs_Status <$> counts) ->
  (tally counts).2 = foldr (fun c s => if waiting (ajs_Status c) then ajs_Count c + s else s)%Z 0%Z counts
  /\ Forall (fun c => (tally counts).1 !! ajs_Status c = Some (ajs_Count c)) counts.
Proof.
  unfold tally. intros Hpos Hlt Hnd.
  assert (forall m d, (0 <= d)%Z -> (d + foldr (fun c s => ajs_Count c + s) 0 counts < 2 ^ 63)%Z ->
    let r := foldl (fun (acc : gmap string Z * Z) c =>
      (<[ajs_Status c := ajs_Count c]> acc.1,
       if waiting (ajs_Status c) then int64 (acc.2 + ajs_Count c) else acc.2)) (m, d) counts in
    r.2 = (d + foldr (fun c s => if waiting (ajs_Status c) then ajs_Count c + s else s) 0 counts)%Z
    /\ (forall k, k ∉ ajs_Status <$> counts -> r.1 !! k = m !! k)
    /\ Forall (fun c => r.1 !! ajs_Status c = Some (ajs_Count c)) counts) as H.
  { clear Hlt. induction counts as [|c cs IH]; intros m d Hd Hlt; cbn.
    - split_and!; [lia|done|done].
    - apply Forall_cons in Hpos as [Hc Hpos]. rewrite fmap_cons in Hnd. apply NoDup_cons in Hnd as [Hnc Hnd].
      cbn in Hlt.
      assert (0 <= foldr (fun c s => ajs_Count c + s) 0 cs)%Z as Hrest.
      { clear -Hpos. induction Hpos; cbn; lia. }
      assert (int64 (d + ajs_Count c) = d + ajs_Count c)%Z as Hi.
      { apply wrap_signed_id; [lia|]. change (64 - 1)%Z with 63%Z. lia. }
      destruct (IH Hpos Hnd (<[ajs_Status c := ajs_Count c]> m)
                 (if waiting (ajs_Status c) then int64 (d + ajs_Count c) else d)) as (H1 & H2 & H3).
      { destruct (waiting _); lia. } { destruct (waiting _); lia. }
      split_and!.
      + rewrite H1. destruct (waiting _); lia.
      + intros k Hk. rewrite H2 by set_solver. apply lookup_insert_ne. set_solver.
      + apply Forall_cons. split; [|exact H3]. rewrite H2 by done. apply lookup_insert_eq. }
  destruct (H ∅ 0%Z ltac:(lia) Hlt) as (H1 & _ & H3). split; [rewrite H1; lia|exact H3].
Qed.

(** ** Live occupancy *)

Section view.
Context {U : UuidLib} `{!UuidLaws} {L : HttpLib}.

Lemma uuid_string_inj u v : uuid_string u = uuid_string v -> u = v.
Proof. intros Heq. pose proof (uuid_parse_string u) as Hu. rewrite Heq, uuid_parse_string in Hu. congruence. Qed.

Definition slotView (live : option PrinterState) (s : AdminListSlotsRow) : slotOccupancy :=
  {| so_SlotNumber := als_SlotNumber s;
     so_Current := match live ≫= fun st => ps_SlotOccupancy st !! uuid_string (als_ID s) with
                   | Some x => Current x
                   | None => 0%Z
                   end;
     so_Max := als_MaxCount s |}.

Lemma occupancy_lookup live slots (m : gmap string slotOccupancy) id :
  NoDup (als_ID <$> slots) ->
  foldl (fun m s => <[uuid_string (als_ID s) := slotView live s]> m) m slots !! uuid_string id
  = match List.find (fun s => bool_decide (als_ID s = id)) slots with
    | Some s => Some (slotView live s)
    | None => m !! uuid_string id
    end.
Proof.
  revert m. induction slots as [|s ss IH]; intros m Hnd; cbn; [done|].
  rewrite fmap_cons in Hnd. apply NoDup_cons in Hnd as [Hn Hnd]. rewrite IH by done.
  destruct (decide (als_ID s = id)) as [<-|Hne].
  - rewrite bool_decide_eq_true_2, lookup_insert_eq by done.
    destruct (List.find _ ss) as [s'|] eqn:Hf; [|done].
    apply find_some in Hf as [Hin Heq%bool_decide_eq_true]. exfalso. apply Hn. rewrite <- Heq.
    apply list_elem_of_fmap. exists s'. split; [done|]. by apply list_elem_of_In.
  - rewrite bool_decide_eq_false_2 by done. destruct (List.find _ ss); [done|].
    apply lookup_insert_ne. intros Heq%uuid_string_inj. done.
Qed.

(** The dashboard shows a mailbox's stored capacity and its live contents.
    The view of a mailbox is [offline] exactly when the cache has no entry, and
    otherwise shows the printer's own status ([idle] when it reported none);
    every slot of the mailbox in the database is listed, with the database's
    number and capacity and the cache's current count, 0 if the printer did not
    report that slot; and no other slot is listed. *)
Theorem mailbox_view live slots mb id :
  NoDup (als_ID <$> slots) ->
  let v := mailboxView live slots mb in
  (am_Status v = "offline" <-> live = None \/ exists st, live = Some st /\ ps_Status st = "offline")
  /\ (am_SlotOccupancy v !! uuid_string id
      = slotView live <$> List.find (fun s => bool_decide (als_ID s = id))
          (slotsOf (uuid_string (alm_MailboxID mb)) slots)).
Proof.
  intros Hnd. cbn zeta. split.
  - cbn. destruct live as [st|]; [|naive_solver].
    destruct (String.eqb_spec (ps_Status st) EmptyString) as [He|He]; naive_solver congruence.
  - cbn [am_SlotOccupancy mailboxView].
    assert (occupancyOf live (slotsOf (uuid_string (alm_MailboxID mb)) slots)
      = foldl (fun m s => <[uuid_string (als_ID s) := slotView live s]> m) ∅
          (slotsOf (uuid_string (alm_MailboxID mb)) slots)) as ->.
    { unfold occupancyOf, slotView. by destruct live. }
    rewrite occupancy_lookup; [by destruct (List.find _ _)|].
    eapply sublist_NoDup; [exact Hnd|].
    unfold slotsOf. clear. induction slots as [|s ss IH]; cbn; [constructor|].
    case_match; by constructor.
Qed.

End view.
