(* ===== verification/Main.v ===== *)
(** * The cloud server's process

    services/cloud/main.go, pprof.go and handlers/printerlink.go: start-up from
    the environment, the two route tables, the mTLS listener, and the shutdown
    sequence.  The goroutines that [main] starts are their own programs; what
    they report comes back through [SelectServe]. *)

From S2P Require Import Prelude GoStrings Base64 Json Keys Db Calls Store Minio Dispatch Dispatcher.
From S2P Require Import Link Http Auth Jobs Admin.

(** ** Library parameters

    PEM, x509 and [time.ParseDuration].  A parsed key is [None] when it is not
    an RSA key. *)
Class BootLib : Type := {
  rsa_private : Type;
  rsa_public : Type;
  pem_decode : bytes -> option bytes;
  ParsePKCS8PrivateKey : bytes -> result (option rsa_private);
  ParsePKIXPublicKey : bytes -> result (option rsa_public);
  append_certs : bytes -> bool;
  ParseDuration : string -> result Z
}.

(** ** Programs that may exit

    [log.Fatalf] ends the process without running deferred calls: [None]. *)
Definition boot (A : Type) : Type := cloud (option A).

#[export] Instance boot_ret : MRet boot := fun A a => Ret (Some a).
#[export] Instance boot_bind : MBind boot := fun A B f m =>
  prog_bind (fun o => match o with None => Ret None | Some a => f a end) m.

Definition lift {A} (p : cloud A) : boot A := prog_bind (fun a => Ret (Some a)) p.
Definition getenv (key : string) : boot string := lift (ask (Getenv key)).

Definition fatalf {A} (fmt : string) (args : list logarg) : boot A := log fmt args;; Ret None.

Definition orFatal {A} (fmt : string) (p : cloud (result A)) : boot A :=
  prog_bind (fun r => match r with Ok a => Ret (Some a) | Err e => fatalf fmt [LErr e] end) p.

Definition mustEnv (key : string) : boot string :=
  v ← getenv key;
  if String.eqb v EmptyString then fatalf "required env var %s is not set" [LStr key] else mret v.

#[export] Hint Unfold boot_ret boot_bind lift getenv fatalf orFatal : prog.

Section main.
Context {U : UuidLib} {L : HttpLib} {B : BootLib}.

Definition loadRSAPrivateKey (path : string) : cloud (result rsa_private) :=
  f ← ask (OsReadFile path);
  Ret (match f with
       | Err e => Err e
       | Ok raw =>
           match pem_decode raw with
           | None => Err (ErrText ("no PEM block in " +:+ path))
           | Some block =>
               match ParsePKCS8PrivateKey block with
               | Err e => Err e
               | Ok None => Err (ErrText (path +:+ " is not an RSA private key"))
               | Ok (Some rsaKey) => Ok rsaKey
               end
           end
       end).

Definition loadRSAPublicKey (path : string) : cloud (result rsa_public) :=
  f ← ask (OsReadFile path);
  Ret (match f with
       | Err e => Err e
       | Ok raw =>
           match pem_decode raw with
           | None => Err (ErrText ("no PEM block in " +:+ path))
           | Some block =>
               match ParsePKIXPublicKey block with
               | Err e => Err e
               | Ok None => Err (ErrText (path +:+ " is not an RSA public key"))
               | Ok (Some rsaKey) => Ok rsaKey
               end
           end
       end).

(** ** The internal listener *)

Inductive ClientAuthType : Type := NoClientCert | RequireAndVerifyClientCert.

Record tlsConfig : Type := {
  tls_ClientAuth : ClientAuthType;
  tls_ClientCAs : bytes;          (* the PEM the pool was filled from *)
  tls_MinVersion : Z
}.

Definition internalTLSConfig (caPool : bytes) : tlsConfig :=
  {| tls_ClientAuth := RequireAndVerifyClientCert; tls_ClientCAs := caPool; tls_MinVersion := 771 |}.

Definition internalHealthzHandler : cloud unit :=
  ask (SetHeader "Content-Type" "application/json");;
  ask (WriteBody (JObj [("status", JStr "ok")])).

Definition newMTLSServer (addr : string) : cloud (result (string * tlsConfig)) :=
  path ← ask (Getenv "MTLS_CA_CERT_PATH");
  f ← ask (OsReadFile path);
  Ret (match f with
       | Err e => Err e
       | Ok caCert =>
           if negb (append_certs caCert) then Err (ErrText "failed to parse internal CA cert")
           else Ok (addr, internalTLSConfig caCert)
       end).

(** [PrinterLink] (printerlink.go).  [None]: the link is still up. *)
Definition PrinterLink (hub : Hub) (fuel : nat) : cloud (option unit) :=
  o ← Accept hub fuel;
  match o with
  | None => Ret None
  | Some e => log "printer-link: connection ended: %v" [LErr e];; Ret (Some tt)
  end.

(** ** Start-up *)

Record Server : Type := {
  srv_Minio : client;
  srv_UploadPresigner : option client;
  srv_AppKey : string;
  srv_JWTPriv : rsa_private;
  srv_JWTPub : rsa_public;
  srv_Hub : Hub
}.

(** [uploadPresigner] (server.go) *)
Definition uploadPresigner (s : Server) : client := default (srv_Minio s) (srv_UploadPresigner s).

Definition openStores : boot client :=
  dsn ← mustEnv "DATABASE_URL";
  orFatal "postgres open: %v" (ask (SqlOpen dsn));;
  url ← mustEnv "REDIS_URL";
  orFatal "redis URL: %v" (ask (RedisParseURL url));;
  endpoint ← mustEnv "MINIO_ENDPOINT";
  accessKey ← mustEnv "MINIO_ACCESS_KEY";
  secretKey ← mustEnv "MINIO_SECRET_KEY";
  secure ← getenv "MINIO_SECURE";
  minioClient ← orFatal "minio client: %v"
    (ask (MinioNew endpoint accessKey secretKey (String.eqb secure "true") EmptyString));
  orFatal "minio bucket: %v" EnsureBucket;;
  mret minioClient.

(** The browser-facing endpoint, when one is configured. *)
Definition openPresigner (minioClient : client) : boot client :=
  pub ← getenv "MINIO_PUBLIC_ENDPOINT";
  if String.eqb pub EmptyString then mret minioClient
  else
    r ← getenv "MINIO_REGION";
    accessKey ← mustEnv "MINIO_ACCESS_KEY";
    secretKey ← mustEnv "MINIO_SECRET_KEY";
    secure ← getenv "MINIO_PUBLIC_SECURE";
    orFatal "minio public client: %v"
      (ask (MinioNew pub accessKey secretKey (String.eqb secure "true")
              (if String.eqb r EmptyString then "us-east-1" else r))).

Definition newServer (minioClient presigner : client) : boot Server :=
  privPath ← mustEnv "JWT_PRIVATE_KEY_PATH";
  jwtPriv ← orFatal "JWT private key: %v" (loadRSAPrivateKey privPath);
  pubPath ← mustEnv "JWT_PUBLIC_KEY_PATH";
  jwtPub ← orFatal "JWT public key: %v" (loadRSAPublicKey pubPath);
  appKey ← mustEnv "APP_ENCRYPTION_KEY";
  mret {| srv_Minio := minioClient; srv_UploadPresigner := Some presigner; srv_AppKey := appKey;
          srv_JWTPriv := jwtPriv; srv_JWTPub := jwtPub; srv_Hub := {| hub_Queries := true; hub_DeleteBlob := true |} |}.

Definition chooseNodeID : cloud string :=
  id ← ask (Getenv "NODE_ID");
  if String.eqb id EmptyString then
    h ← ask OsHostname;
    match h with
    | Ok hostname => Ret hostname
    | Err _ => u ← ask UuidNew; Ret (uuid_string u)
    end
  else Ret id.

Definition newDispatcher (nodeID : string) : Dispatcher :=
  {| di_NodeID := nodeID; di_SweepInt := 0; di_ReapIdle := 0 |}.

(** [startPprof] (pprof.go) *)
Definition startPprof (addr : string) : cloud unit :=
  if String.eqb addr EmptyString then Ret tt
  else
    log "pprof profiler listening on %s (load-profile only)" [LStr addr];;
    ask (GoPprof addr).

(** ** Routes

    Go's ServeMux: a pattern is an optional method and a list of segments, of
    which a wildcard matches exactly one non-empty segment; GET also serves
    HEAD.  No two patterns of a table overlap (see [routes_disjoint]). *)

Inductive segment : Type := Lit (s : string) | Wild (name : string).

Record route : Type := {
  rt_method : option string;
  rt_path : list segment;
  rt_handler : Request -> cloud unit
}.

Fixpoint match_path (pattern : list segment) (path : list string) : option (list (string * string)) :=
  match pattern, path with
  | [], [] => Some []
  | Lit s :: pattern', p :: path' => if String.eqb s p then match_path pattern' path' else None
  | Wild name :: pattern', p :: path' =>
      if String.eqb p EmptyString then None
      else (fun binds => (name, p) :: binds) <$> match_path pattern' path'
  | _, _ => None
  end.

Definition method_ok (allowed : option string) (method : string) : bool :=
  match allowed with
  | None => true
  | Some m => String.eqb m method || (String.eqb m "GET" && String.eqb method "HEAD")
  end.

Definition with_path (binds : list (string * string)) (r : Request) : Request :=
  {| rq_body := rq_body r; rq_query := rq_query r;
     rq_path := fun name => match List.find (fun b => String.eqb b.1 name) binds with
                            | Some b => b.2
                            | None => EmptyString
                            end;
     rq_cookie := rq_cookie r; rq_authz := rq_authz r; rq_ctx := rq_ctx r |}.

(** [http.Error] *)
Definition httpError (text : string) (code : Z) : cloud unit :=
  ask (SetHeader "Content-Type" "text/plain; charset=utf-8");;
  ask (SetHeader "X-Content-Type-Options" "nosniff");;
  ask (WriteHeader code);;
  ask (WriteText text JNull);;
  Ret tt.

(** The methods a path answers, in the order of the Allow header. *)
Definition allowed_methods (routes : list route) (path : list string) : list string :=
  List.filter (fun m => List.existsb (fun rt =>
      method_ok (rt_method rt) m && bool_decide (is_Some (match_path (rt_path rt) path))) routes)
    ["GET"; "HEAD"; "POST"].

Definition join_methods (ms : list string) : string := String.concat ", " ms.

Fixpoint find_route (routes : list route) (method : string) (path : list string)
    : option (route * list (string * string)) :=
  match routes with
  | [] => None
  | rt :: routes' =>
      match match_path (rt_path rt) path with
      | Some binds => if method_ok (rt_method rt) method then Some (rt, binds)
                      else find_route routes' method path
      | None => find_route routes' method path
      end
  end.

Definition mux (routes : list route) (method : string) (path : list string) (r : Request) : cloud unit :=
  match find_route routes method path with
  | Some (rt, binds) => rt_handler rt (with_path binds r)
  | None =>
      match allowed_methods routes path with
      | [] => httpError "404 page not found" 404
      | ms => ask (SetHeader "Allow" (join_methods ms));; httpError "Method Not Allowed" 405
      end
  end.

Definition on (method : string) (path : list segment) (h : Request -> cloud unit) : route :=
  {| rt_method := Some method; rt_path := path; rt_handler := h |}.

(** [canFlush] and [fuel] are StreamJob's. *)
Definition publicRoutes (srv : Server) (canFlush : bool) (fuel : nat) : list route := [
  on "GET" [Lit "healthz"] (fun _ => Healthz);
  on "GET" [Lit "livez"] (fun _ => Livez);
  on "GET" [Lit "recipients"] (SearchRecipients (srv_AppKey srv));
  on "GET" [Lit "recipients"; Wild "id"; Lit "public-key"] RecipientPublicKey;
  on "POST" [Lit "jobs"; Lit "upload-url"] (optionalAuth UploadURL);
  on "POST" [Lit "jobs"] (optionalAuth CreateJob);
  on "GET" [Lit "jobs"] (requireAuth ListMyJobs);
  on "GET" [Lit "jobs"; Wild "id"; Lit "stream"]
    (optionalAuth (fun r => StreamJob canFlush fuel r;; Ret tt));
  on "POST" [Lit "auth"; Lit "register"] (Register (srv_AppKey srv));
  on "POST" [Lit "auth"; Lit "login"] (Login (srv_AppKey srv));
  on "POST" [Lit "auth"; Lit "refresh"] Refresh;
  on "POST" [Lit "auth"; Lit "logout"] (requireAuth Logout);
  on "GET" [Lit "admin"; Lit "summary"] (requireAdmin (fun _ => AdminSummary));
  on "GET" [Lit "admin"; Lit "jobs"] (requireAdmin AdminJobs);
  on "GET" [Lit "admin"; Lit "mailboxes"] (requireAdmin (fun _ => AdminMailboxes))
].

Definition internalRoutes (srv : Server) (fuel : nat) : list route := [
  {| rt_method := None; rt_path := [Lit "internal"; Lit "healthz"];
     rt_handler := fun _ => internalHealthzHandler |};
  on "GET" [Lit "internal"; Lit "printer-link"] (fun _ => PrinterLink (srv_Hub srv) fuel;; Ret tt)
].

(** The public listener's handler. *)
Definition publicHandler (srv : Server) (nodeID : string) (canFlush : bool) (fuel : nat)
    (method : string) (path : list string) : Request -> cloud unit :=
  nodeHeader nodeID (mux (publicRoutes srv canFlush fuel) method path).

(** ** The goroutines *)

Fixpoint is_server_closed (e : error) : bool :=
  match e with
  | ErrText s => String.eqb s "http: Server closed"
  | ErrWrap _ e' => is_server_closed e'
  | _ => false
  end.

(** What each listener sends to [serveErr], if anything. *)
Definition servePublic (addr : string) : cloud (option error) :=
  e ← ask (ListenAndServe addr);
  Ret (if is_server_closed e then None else Some (ErrWrap "public listener" e)).

Definition serveInternal (addr : string) : cloud (option error) :=
  cert ← ask (Getenv "MTLS_CLOUD_CERT_PATH");
  key ← ask (Getenv "MTLS_CLOUD_KEY_PATH");
  e ← ask (ListenAndServeTLS addr cert key);
  Ret (if is_server_closed e then None else Some (ErrWrap "internal mTLS listener" e)).

Definition servePprof (addr : string) : cloud unit :=
  e ← ask (ListenAndServe addr);
  log "pprof listener stopped: %v" [LErr e].

(** ** Shutdown *)

Definition shutdownSteps (di : Dispatcher) (addr : string) (mtls : option string) : list shutdownStep := [
  {| step_name := "signal-drain"; step_run := ask StartDraining;; Ret (Ok tt) |};
  {| step_name := "dispatcher-loop"; step_run := ask StopDispatcher;; waitFor |};
  {| step_name := "consumer-group"; step_run := RemoveConsumer di |};
  {| step_name := "printer-sockets"; step_run := Close;; Ret (Ok tt) |};
  {| step_name := "public-listener"; step_run := ask (ServerShutdown addr) |};
  {| step_name := "internal-listener";
     step_run := match mtls with None => Ret (Ok tt) | Some a => ask (ServerShutdown a) end |}
].

Definition shutdownGrace : cloud Z :=
  v ← ask (Getenv "SHUTDOWN_TIMEOUT");
  if String.eqb v EmptyString then Ret defaultShutdownGrace
  else
    match ParseDuration v with
    | Ok d => Ret d
    | Err e =>
        log "shutdown: ignoring unparseable SHUTDOWN_TIMEOUT %q: %v" [LStr v; LErr e];;
        Ret defaultShutdownGrace
    end.

(** From the signal to the return of [main], deferred calls included. *)
Definition drainAndExit (di : Dispatcher) (addr : string) (mtls : option string) : cloud unit :=
  ask StopSignals;;
  grace ← shutdownGrace;
  log "cloud-server: signal received, draining (grace %s)" [LInt grace];;
  ask (SetDeadline grace);;
  runShutdown (shutdownSteps di addr mtls);;
  log "cloud-server: shutdown complete" [];;
  ask CancelDeadline;; ask StopDispatcher;; ask RedisClose;; ask SqlClose;; ask StopSignals.

(** ** [main] *)

(** The internal listener, if MTLS_PORT names a port. *)
Definition startMTLS : boot (option string) :=
  mtlsPort ← getenv "MTLS_PORT";
  if String.eqb mtlsPort EmptyString then mret None
  else
    s ← orFatal "internal mTLS listener: %v" (newMTLSServer (":" +:+ mtlsPort));
    lift (log "cloud-server internal mTLS listener on %s" [LStr s.1];; ask (GoServeTLS s.1));;
    mret (Some s.1).

(** Everything before the first goroutine. *)
Definition configure : boot (Server * Dispatcher) :=
  minioClient ← openStores;
  presigner ← openPresigner minioClient;
  srv ← newServer minioClient presigner;
  nodeID ← lift chooseNodeID;
  orFatal "dispatch: create consumer group: %v" (EnsureGroup);;
  mret (srv, newDispatcher nodeID).

(** From the first goroutine to the select that ends [main]'s wait. *)
Definition serve (di : Dispatcher) (addr : string) : boot (option string) :=
  lift (ask (GoDispatcher (di_NodeID di)));;
  mtls ← startMTLS;
  pprofAddr ← getenv "PPROF_ADDR";
  lift (startPprof pprofAddr);;
  lift (log "cloud-server listening on %s" [LStr addr];; ask GoServe);;
  ev ← lift (ask SelectServe);
  match ev with
  | Some e => fatalf "cloud-server: %v" [LErr e]
  | None => mret mtls
  end.

(** [None] is an exit through [log.Fatalf]. *)
Definition main : boot unit :=
  p ← getenv "PORT";
  lift (ask SignalNotify);;
  sd ← configure;
  let addr := ":" +:+ (if String.eqb p EmptyString then "8080" else p) in
  mtls ← serve sd.2 addr;
  lift (drainAndExit sd.2 addr mtls).

End main.

(** ** Who gets through the public listener *)

(** The bearer token of the request was verified, with a role in [P]. *)
Definition token_event (P : string -> bool) (r : Request) (e : event cloud_sig) : bool :=
  match e with
  | existT (JwtParse raw) (Ok (_, role)) => bool_decide (cut_prefix (rq_authz r) "Bearer " = Some raw) && P role
  | _ => false
  end.

Lemma token_parsed P r raw subject role :
  cut_prefix (rq_authz r) "Bearer " = Some raw ->
  token_event P r (CEv (JwtParse raw) (Ok (subject, role))) = P role.
Proof. intros H. cbn -[cut_prefix]. by rewrite bool_decide_eq_true_2. Qed.

Definition admin_token := token_event (fun role => String.eqb role "admin").
Definition some_token := token_event (fun _ => true).

(** Any call but parsing a token and writing a response: every query, cache
    access, publish, clock reading and log line. *)
Definition touches (e : event cloud_sig) : bool :=
  match ev_call e with
  | JwtParse _ | SetHeader _ _ | WriteHeader _ | WriteBody _ | WriteText _ _ => false
  | _ => true
  end.

(** What a guard promises of a run it lets through only with a [P] event. *)
Definition guarded (P : event cloud_sig -> bool) (refusals : list Z) (t : trace cloud_sig) : Prop :=
  after_b P touches false t = true
  /\ (count P t = 0%nat -> exists s, statuses t = [s] /\ s ∈ refusals).

Lemma guarded_entered P refusals e t : P e = true -> touches e = false -> guarded P refusals (e :: t).
Proof.
  intros HP Ht. split; [|rewrite count_cons, HP; lia].
  cbn. rewrite Ht, HP. apply after_b_seen.
Qed.

Lemma guarded_mono P l l' t : l ⊆ l' -> guarded P l t -> guarded P l' t.
Proof. intros Hl [H1 H2]. split; [done|]. intros H. destruct (H2 H) as (s & Hs & Hin). eauto. Qed.

Section guards.
Context {U : UuidLib} {L : HttpLib} {B : BootLib}.

Lemma requireAdmin_guarded next r :
  wp (requireAdmin next r) (fun t _ => guarded (admin_token r) [401; 403]%Z t).
Proof.
  unfold requireAdmin. destruct (cut_prefix (rq_authz r) "Bearer ") as [raw|] eqn:Hraw.
  2:{ wp_steps. split; [done|]. intros _. exists 401%Z. split; [done|]. by left. }
  autounfold with prog. cbn [prog_bind wp]. intros [[subject role]|e].
  2:{ wp_steps. split; [done|]. intros _. exists 401%Z. split; [done|]. by left. }
  destruct (String.eqb role "admin") eqn:Hrole; cbn [negb].
  - apply exec_wp. intros t _ _. apply guarded_entered; [|done].
    unfold admin_token. by rewrite token_parsed.
  - wp_steps. split; [done|]. intros _. exists 403%Z. split; [done|]. right. by left.
Qed.

Lemma requireAuth_guarded next r :
  wp (requireAuth next r) (fun t _ => guarded (some_token r) [401]%Z t).
Proof.
  unfold requireAuth. destruct (cut_prefix (rq_authz r) "Bearer ") as [raw|] eqn:Hraw.
  2:{ wp_steps. split; [done|]. intros _. exists 401%Z. split; [done|]. by left. }
  autounfold with prog. cbn [prog_bind wp]. intros [[subject role]|e].
  2:{ wp_steps. split; [done|]. intros _. exists 401%Z. split; [done|]. by left. }
  apply exec_wp. intros t _ _. apply guarded_entered; [|done].
  unfold some_token. by rewrite token_parsed.
Qed.

Lemma find_route_spec routes method path rt binds :
  find_route routes method path = Some (rt, binds) ->
  rt ∈ routes /\ match_path (rt_path rt) path = Some binds /\ method_ok (rt_method rt) method = true.
Proof.
  induction routes as [|rt' routes IH]; [done|]. cbn.
  destruct (match_path (rt_path rt') path) eqn:Hm.
  - destruct (method_ok (rt_method rt') method) eqn:Ho.
    + intros [= -> ->]. split_and!; [by left|done|done].
    + intros H. destruct (IH H) as (?&?&?). split_and!; [by right|done|done].
  - intros H. destruct (IH H) as (?&?&?). split_and!; [by right|done|done].
Qed.

Lemma method_ok_POST method : method_ok (Some "POST") method = true -> method = "POST".
Proof.
  unfold method_ok. intros [->%String.eqb_eq|[[=] _]%andb_true_iff]%orb_true_iff. done.
Qed.

(** A request no route takes reads nothing and is answered 404 or 405. *)
Lemma mux_miss_guarded P routes method path r :
  find_route routes method path = None ->
  wp (mux routes method path r) (fun t _ => guarded P [404; 405]%Z t).
Proof.
  intros Hf. unfold mux, httpError. rewrite Hf.
  destruct (allowed_methods routes path); wp_steps; (split; [reflexivity|]); intros _.
  - exists 404%Z. split; [done|]. by left.
  - exists 405%Z. split; [done|]. right. by left.
Qed.

(** A request to a table all of whose routes that can take it are guarded. *)
Lemma mux_guarded P refusals routes method path r :
  (forall rt binds, find_route routes method path = Some (rt, binds) ->
     wp (rt_handler rt (with_path binds r)) (fun t _ => guarded P refusals t)) ->
  wp (mux routes method path r) (fun t _ => guarded P (404 :: 405 :: refusals)%Z t).
Proof.
  intros Hr. destruct (find_route routes method path) as [[rt binds]|] eqn:Hf.
  - unfold mux. rewrite Hf. eapply wp_mono; [|by apply Hr]. cbn. intros t _. apply guarded_mono. set_solver.
  - eapply wp_mono; [|by apply mux_miss_guarded]. cbn. intros t _. apply guarded_mono. set_solver.
Qed.

Lemma node_header_guarded P refusals nodeID next r :
  (forall name v u, P (CEv (SetHeader name v) u) = false) ->
  wp (next r) (fun t _ => guarded P refusals t) ->
  wp (nodeHeader nodeID next r) (fun t _ => guarded P refusals t).
Proof.
  intros HP Hn. unfold nodeHeader. autounfold with prog. cbn [prog_bind wp]. intros u.
  eapply wp_mono; [|exact Hn]. cbn beta. intros t _ [H1 H2].
  assert (P (@Ev cloud_sig (SetHeader NodeHeader nodeID) u) = false) as He by apply HP. split.
  - cbn. by rewrite He.
  - rewrite count_cons, He. exact H2.
Qed.

(** C24: The account and operator routes let nobody through without a verified
    token.  For every request to the public listener: if its path is under
    /admin, nothing at all is queried, read, written, published or logged before
    a bearer token of that very request was verified with the role admin, and a
    run that verifies none answers once, with 401, 403, 404 or 405; if it is a
    job listing or a logout, the same holds of any verified token, with 401, 404
    or 405. *)
Theorem guarded_routes srv nodeID canFlush fuel method path r t a :
  exec (publicHandler srv nodeID canFlush fuel method path r) t a ->
  (head path = Some "admin" ->
     after (admin_token r) touches t
     /\ (count (admin_token r) t = 0%nat -> exists s, statuses t = [s] /\ s ∈ [404; 405; 401; 403]%Z))
  /\ (path = ["jobs"] /\ method <> "POST" \/ path = ["auth"; "logout"] ->
     after (some_token r) touches t
     /\ (count (some_token r) t = 0%nat -> exists s, statuses t = [s] /\ s ∈ [404; 405; 401]%Z)).
Proof.
  intros Hrun.
  assert (forall P refusals,
    (forall name v u, P (CEv (SetHeader name v) u) = false) ->
    (forall rt binds, find_route (publicRoutes srv canFlush fuel) method path = Some (rt, binds) ->
       wp (rt_handler rt (with_path binds r)) (fun t _ => guarded P refusals t)) ->
    after P touches t
    /\ (count P t = 0%nat -> exists s, statuses t = [s] /\ s ∈ (404 :: 405 :: refusals)%Z)) as Hguard.
  { intros P refusals HP Hr.
    destruct (wp_exec _ _ _ _ (node_header_guarded P _ nodeID _ r HP (mux_guarded P refusals _ method path r Hr)) Hrun)
      as [H1 H2]. split; [by apply after_b_spec|exact H2]. }
  split; intros Hpath; apply Hguard; try done; intros rt binds (Hin & Hm & Ho)%find_route_spec.
  - destruct path as [|p path]; [done|]. injection Hpath as ->. unfold publicRoutes in Hin.
    repeat (apply elem_of_cons in Hin as [->|Hin]; [cbn in Hm; try discriminate Hm; apply (requireAdmin_guarded _ (with_path binds r))|]).
    by apply elem_of_nil in Hin.
  - unfold publicRoutes in Hin. destruct Hpath as [[-> Hmethod]| ->].
    + repeat (apply elem_of_cons in Hin as [->|Hin];
        [cbn in Hm; try discriminate Hm; try apply (requireAuth_guarded _ (with_path binds r))|]).
      * by apply method_ok_POST in Ho.
      * by apply elem_of_nil in Hin.
    + repeat (apply elem_of_cons in Hin as [->|Hin]; [cbn in Hm; try discriminate Hm; apply (requireAuth_guarded _ (with_path binds r))|]).
      by apply elem_of_nil in Hin.
Qed.

(** *** The tables are unambiguous *)

Fixpoint paths_overlap (p q : list segment) : bool :=
  match p, q with
  | [], [] => true
  | Lit a :: p', Lit b :: q' => String.eqb a b && paths_overlap p' q'
  | _ :: p', _ :: q' => paths_overlap p' q'
  | _, _ => false
  end.

Lemma match_path_overlap p q path :
  is_Some (match_path p path) -> is_Some (match_path q path) -> paths_overlap p q = true.
Proof.
  revert q path. induction p as [|[a|a] p IH]; intros [|[b|b] q] [|s path]; cbn;
    try (intros [? H]; discriminate H); try (intros ? [? H]; discriminate H); try done.
  - destruct (String.eqb_spec a s) as [->|]; [|intros [? H]; discriminate H].
    destruct (String.eqb_spec b s) as [->|]; [|intros ? [? H]; discriminate H].
    rewrite String.eqb_refl. apply IH.
  - destruct (String.eqb_spec a s) as [->|]; [|intros [? H]; discriminate H].
    destruct (String.eqb s EmptyString); [intros ? [? H]; discriminate H|].
    rewrite fmap_is_Some. apply IH.
  - destruct (String.eqb s EmptyString); [intros [? H]; discriminate H|].
    destruct (String.eqb_spec b s) as [->|]; [|intros ? [? H]; discriminate H].
    rewrite fmap_is_Some. apply IH.
  - destruct (String.eqb s EmptyString); [intros [? H]; discriminate H|].
    rewrite !fmap_is_Some. apply IH.
Qed.

Definition takes (method : string) (path : list string) (rt : route) : Prop :=
  method_ok (rt_method rt) method = true /\ is_Some (match_path (rt_path rt) path).

Definition shape (rt : route) : option string * list segment := (rt_method rt, rt_path rt).

Definition clash (a b : option string * list segment) : bool :=
  paths_overlap a.2 b.2
  && match a.1, b.1 with
     | Some m, Some m' => String.eqb m m' || (String.eqb m "GET" && String.eqb m' "HEAD")
                          || (String.eqb m "HEAD" && String.eqb m' "GET")
     | _, _ => true
     end.

Lemma takes_clash method path a b :
  takes method path a -> takes method path b -> clash (shape a) (shape b) = true.
Proof.
  intros [Ha Hpa] [Hb Hpb]. unfold clash, shape. cbn [fst snd].
  rewrite (match_path_overlap _ _ _ Hpa Hpb). unfold method_ok in *.
  destruct (rt_method a) as [m|], (rt_method b) as [m'|]; try reflexivity.
  cbn [andb]. rewrite !orb_true_iff, !andb_true_iff, !String.eqb_eq in *. naive_solver.
Qed.

(** No two patterns at different places clash. *)
Definition table_ok (shapes : list (option string * list segment)) : bool :=
  forallb (fun i => forallb (fun j =>
      Nat.eqb i j || negb (match shapes !! i, shapes !! j with
                           | Some a, Some b => clash a b
                           | _, _ => false
                           end)) (seq 0 (length shapes))) (seq 0 (length shapes)).

Lemma table_ok_disjoint routes method path i j a b :
  table_ok (shape <$> routes) = true -> routes !! i = Some a -> routes !! j = Some b ->
  takes method path a -> takes method path b -> i = j.
Proof.
  unfold table_ok. rewrite length_fmap, forallb_forall. intros Hok Hi Hj Ha Hb.
  assert (forall k rt, routes !! k = Some rt -> In k (seq 0 (length routes))) as Hin.
  { intros k rt Hk%lookup_lt_Some. apply in_seq. lia. }
  specialize (Hok i (Hin _ _ Hi)). rewrite forallb_forall in Hok. specialize (Hok j (Hin _ _ Hj)).
  rewrite !list_lookup_fmap, Hi, Hj in Hok. cbn in Hok.
  rewrite (takes_clash _ _ _ _ Ha Hb), orb_false_r in Hok. by apply Nat.eqb_eq.
Qed.

(** At most one pattern of each table takes a request, so the order in which
    [mux] tries them does not matter. *)
Theorem routes_disjoint srv canFlush fuel method path i j a b :
  takes method path a -> takes method path b ->
  (publicRoutes srv canFlush fuel !! i = Some a -> publicRoutes srv canFlush fuel !! j = Some b -> i = j)
  /\ (internalRoutes srv fuel !! i = Some a -> internalRoutes srv fuel !! j = Some b -> i = j).
Proof.
  intros Ha Hb. split; intros Hi Hj; eapply table_ok_disjoint; try exact Hi; try eassumption; reflexivity.
Qed.

End guards.

(** ** What must be in place before anything is served *)

(** A goroutine that takes work: the dispatcher or a listener. *)
Definition starts (e : event cloud_sig) : bool :=
  match ev_call e with GoDispatcher _ | GoServe | GoServeTLS _ | GoPprof _ => true | _ => false end.

(** A step of the shutdown sequence that ends something. *)
Definition closing (e : event cloud_sig) : bool :=
  match ev_call e with
  | StopDispatcher | RXGroupDelConsumer _ _ _ | GoCloseConn _ | ServerShutdown _ => true
  | _ => false
  end.

Definition env_set (key : string) (t : trace cloud_sig) : Prop :=
  exists v, v <> EmptyString /\ CEv (Getenv key) v ∈ t.

Definition store_vars : list string :=
  ["DATABASE_URL"; "REDIS_URL"; "MINIO_ENDPOINT"; "MINIO_ACCESS_KEY"; "MINIO_SECRET_KEY"].
Definition server_vars : list string :=
  ["JWT_PRIVATE_KEY_PATH"; "JWT_PUBLIC_KEY_PATH"; "APP_ENCRYPTION_KEY"].

Record stores_ready (t : trace cloud_sig) : Prop := {
  sr_env : Forall (fun key => env_set key t) store_vars;
  sr_sql : exists dsn, CEv (SqlOpen dsn) (Ok tt) ∈ t;
  sr_redis : exists url, CEv (RedisParseURL url) (Ok tt) ∈ t;
  sr_bucket : CEv (MBucketExists bucket) (Ok true) ∈ t \/ CEv (MMakeBucket bucket) (Ok tt) ∈ t
}.

Definition group_ready (t : trace cloud_sig) : Prop :=
  exists r, CEv (RXGroupCreateMkStream PendingStream ConsumerGroup "$") r ∈ t
    /\ match r with Ok _ => True | Err e => contains (err_text e) "BUSYGROUP" = true end.

Lemma env_set_mono key t t' : t ⊆ t' -> env_set key t -> env_set key t'.
Proof. intros Ht (v & Hv & Hin). exists v. auto. Qed.

Lemma stores_ready_mono t t' : t ⊆ t' -> stores_ready t -> stores_ready t'.
Proof.
  intros Ht [He [dsn Hs] [url Hr] Hb]. split; [|by exists dsn; auto|by exists url; auto|naive_solver].
  eapply Forall_impl; [exact He|]. intros key. by apply env_set_mono.
Qed.

Lemma group_ready_mono t t' : t ⊆ t' -> group_ready t -> group_ready t'.
Proof. intros Ht (r & Hr & H). exists r. auto. Qed.

Section boot.
Context {U : UuidLib} {L : HttpLib} {B : BootLib}.

Record server_ready (srv : Server) (t : trace cloud_sig) : Prop := {
  vr_env : Forall (fun key => env_set key t) server_vars;
  vr_priv : exists path raw block, CEv (OsReadFile path) (Ok raw) ∈ t
    /\ pem_decode raw = Some block /\ ParsePKCS8PrivateKey block = Ok (Some (srv_JWTPriv srv));
  vr_pub : exists path raw block, CEv (OsReadFile path) (Ok raw) ∈ t
    /\ pem_decode raw = Some block /\ ParsePKIXPublicKey block = Ok (Some (srv_JWTPub srv))
}.

Lemma server_ready_mono srv t t' : t ⊆ t' -> server_ready srv t -> server_ready srv t'.
Proof.
  intros Ht [He (p & raw & b & H1 & H2) (p' & raw' & b' & H1' & H2')]. split.
  - eapply Forall_impl; [exact He|]. intros key. by apply env_set_mono.
  - exists p, raw, b. auto.
  - exists p', raw', b'. auto.
Qed.

(** A stage of [configure]: nothing is started, and what it returns is ready. *)
Definition stage {A} (P : trace cloud_sig -> A -> Prop) (t : trace cloud_sig) (o : option A) : Prop :=
  count starts t = 0%nat /\ count closing t = 0%nat /\ match o with Some a => P t a | None => True end.

Lemma stage_bind {A A'} (m : boot A) (f : A -> boot A') P P' :
  wp m (stage P) ->
  (forall t a, P t a -> wp (f a) (stage (fun t' => P' (t ++ t')))) ->
  wp (m ≫= f) (stage P').
Proof.
  intros Hm Hf. eapply wp_bind_spec; [exact Hm|]. intros t [a|] (Hs & Hc & HP); cbn.
  - eapply wp_mono; [|exact (Hf t a HP)]. cbn beta. intros t' o (Hs' & Hc' & HP').
    split_and!; [by rewrite count_app, Hs, Hs'|by rewrite count_app, Hc, Hc'|done].
  - rewrite app_nil_r. by split.
Qed.

(** Find an event in a concrete trace. *)
Ltac in_trace := solve [repeat first [apply list_elem_of_here | apply list_elem_of_further]].

(** Calls that answer nothing. *)
Ltac unit_replies :=
  repeat match goal with
  | x : sig_res cloud_sig ?c |- _ =>
      let T := eval cbn in (sig_res cloud_sig c) in
      lazymatch T with unit => change unit in x; destruct x end
  | x : unit |- _ => destruct x
  end.

(** Close the leaves of a stage: no goroutine, and the environment it read. *)
Ltac stage_leaf :=
  unit_replies; split_and!; [reflexivity|reflexivity|]; try exact I.
Ltac env_read :=
  repeat (apply Forall_cons_2; [eexists; split; [|in_trace]; by apply String.eqb_neq|]); apply Forall_nil_2; exact I.

Lemma openStores_ready : wp openStores (stage (fun t _ => stores_ready t)).
Proof.
  unfold openStores, mustEnv, EnsureBucket. autounfold with prog. wp_steps; stage_leaf.
  all: split; [env_read|eexists; in_trace|eexists; in_trace|first [left; in_trace|right; in_trace]].
Qed.

Lemma openPresigner_ready c : wp (openPresigner c) (stage (fun _ _ => True)).
Proof. unfold openPresigner, mustEnv. autounfold with prog. wp_steps; by stage_leaf. Qed.

Lemma newServer_ready c p : wp (newServer c p) (stage (fun t srv => server_ready srv t)).
Proof.
  unfold newServer, mustEnv, loadRSAPrivateKey, loadRSAPublicKey. autounfold with prog.
  wp_steps; stage_leaf.
  repeat case_match; simplify_eq.
  split; [env_read|..]; 
    (eexists _, _, _; split_and!; cycle 2; [eassumption|..]; cycle 1; [eassumption|in_trace]).
Qed.

Lemma chooseNodeID_ready : wp (lift chooseNodeID) (stage (fun _ _ => True)).
Proof. unfold chooseNodeID. autounfold with prog. wp_steps; by stage_leaf. Qed.

Lemma EnsureGroup_ready :
  wp (orFatal "dispatch: create consumer group: %v" EnsureGroup) (stage (fun t _ => group_ready t)).
Proof.
  unfold EnsureGroup. autounfold with prog. wp_steps; stage_leaf; (eexists; split; [in_trace|]); first [exact I|by apply negb_false_iff].
Qed.

Record ready (srv : Server) (t : trace cloud_sig) : Prop := {
  rd_stores : stores_ready t;
  rd_server : server_ready srv t;
  rd_group : group_ready t
}.

Lemma configure_ready : wp configure (stage (fun t sd => ready sd.1 t)).
Proof.
  unfold configure.
  eapply stage_bind; [apply openStores_ready|]. intros t1 c Hstores.
  eapply stage_bind; [apply openPresigner_ready|]. intros t2 p _.
  eapply stage_bind; [apply newServer_ready|]. intros t3 srv Hsrv.
  eapply stage_bind; [apply chooseNodeID_ready|]. intros t4 id _.
  eapply stage_bind; [apply EnsureGroup_ready|]. intros t5 u Hgroup.
  split_and!; [reflexivity|reflexivity|]. split.
  - eapply stores_ready_mono; [|exact Hstores]. set_solver.
  - eapply server_ready_mono; [|exact Hsrv]. set_solver.
  - eapply group_ready_mono; [|exact Hgroup]. set_solver.
Qed.

Lemma ready_mono srv t t' : t ⊆ t' -> ready srv t -> ready srv t'.
Proof.
  intros Ht [H1 H2 H3].
  split; [by eapply stores_ready_mono|by eapply server_ready_mono|by eapply group_ready_mono].
Qed.

(** An event after a part without such events. *)
Lemma after_part (P : event cloud_sig -> bool) ta tb t1 e t2 :
  count P ta = 0%nat -> ta ++ tb = t1 ++ e :: t2 -> P e = true -> ta ⊆ t1.
Proof.
  intros H0 Heq He. apply app_eq_inv in Heq as [(k & -> & Hk)|(k & -> & _)]; [|set_solver].
  destruct k as [|e' k]; [by rewrite app_nil_r|]. injection Hk as <- _.
  rewrite count_app, count_cons, He in H0. lia.
Qed.

Lemma boot_exec_bind {A A'} (m : boot A) (f : A -> boot A') t o :
  exec (m ≫= f) t o -> exists t1 t2 oa, t = t1 ++ t2 /\ exec m t1 oa
    /\ match oa with Some a => exec (f a) t2 o | None => t2 = [] /\ o = None end.
Proof. intros (t1 & t2 & [a|] & -> & Hm & Hf)%exec_bind; eauto 6. Qed.

Lemma exec_lift {A} (p : cloud A) t o : exec (lift p) t o -> exists a, o = Some a /\ exec p t a.
Proof. intros (t1 & t2 & a & -> & Hp & [-> ->])%exec_bind. rewrite app_nil_r. eauto. Qed.

Lemma exec_lift_ask c t o : exec (lift (ask c)) t o -> exists x, o = Some x /\ t = [CEv c x].
Proof.
  intros (x & -> & H)%exec_lift. exists x. split; [done|]. cbn in H.
  destruct t as [|e t]; [done|]. destruct H as (r & -> & -> & ->). done.
Qed.

(** The address of the public listener. *)
Definition public_addr (port : string) : string :=
  ":" +:+ (if String.eqb port EmptyString then "8080" else port).

(** The three phases of a run of [main]. *)
Lemma main_parts t o :
  exec main t o ->
  exists port tc oc t', t = [CEv (Getenv "PORT") port; CEv SignalNotify tt] ++ tc ++ t' /\ exec configure tc oc
    /\ match oc with
       | None => t' = [] /\ o = None
       | Some sd =>
           exists ts om td, t' = ts ++ td /\ exec (serve sd.2 (public_addr port)) ts om
             /\ match om with
                | None => td = [] /\ o = None
                | Some mtls => o = Some tt /\ exec (drainAndExit sd.2 (public_addr port) mtls) td tt
                end
       end.
Proof.
  unfold main. intros (t1 & t2 & ? & -> & (port & -> & ->)%exec_lift_ask & H2)%boot_exec_bind.
  apply boot_exec_bind in H2 as (t3 & t4 & ? & -> & ([] & -> & ->)%exec_lift_ask & H4).
  apply boot_exec_bind in H4 as (tc & t' & oc & -> & Hc & H5).
  exists port, tc, oc, t'. split; [reflexivity|]. split; [exact Hc|].
  destruct oc as [sd|]; [|done].
  apply boot_exec_bind in H5 as (ts & td & om & -> & Hs & H6).
  exists ts, om, td. split; [done|]. split; [exact Hs|].
  destruct om as [mtls|]; [|done]. apply exec_lift in H6 as ([] & -> & H6). done.
Qed.

(** C27: Nothing is served before everything is in place.  Whenever [main] starts
    a goroutine that takes work (the dispatcher, either listener, the profiler),
    every required variable has been read and is not empty, Postgres, Redis and
    the object store were opened, the bucket exists, both JWT keys were read and
    parsed as RSA keys, and the consumer group exists; a process that lacks any
    of these exits before it takes work. *)
Theorem serves_only_when_ready t o t1 e t2 :
  exec main t o -> t = t1 ++ e :: t2 -> starts e = true -> exists srv, ready srv t1.
Proof.
  intros (port & tc & oc & t' & -> & Hc & H)%main_parts Ht He.
  apply (wp_exec _ _ _ _ configure_ready) in Hc as (Hs & _ & Hready).
  destruct oc as [[srv di]|].
  - exists srv. eapply ready_mono; [|exact Hready].
    assert (forall port, count starts [CEv (Getenv "PORT") port; CEv SignalNotify tt] = 0%nat) as H0 by done.
    rewrite app_assoc in Ht. etransitivity; [|eapply (after_part starts); [|exact Ht|exact He]].
    + intros x Hx. apply elem_of_app. by right.
    + by rewrite count_app, Hs.
  - destruct H as [-> _]. rewrite app_nil_r in Ht.
    assert (count starts ([CEv (Getenv "PORT") port; CEv SignalNotify tt] ++ tc) = 0%nat) as H0
      by by rewrite count_app, Hs.
    rewrite Ht, count_app, count_cons, He in H0. lia.
Qed.

(** *** The drain *)

Definition start_draining (e : event cloud_sig) : bool :=
  match ev_call e with StartDraining => true | _ => false end.
Definition stop_dispatcher (e : event cloud_sig) : bool :=
  match ev_call e with StopDispatcher => true | _ => false end.
Definition deletes_consumer (e : event cloud_sig) : bool :=
  match ev_call e with RXGroupDelConsumer _ _ _ => true | _ => false end.

Lemma after_b_tail (P Q : event cloud_sig -> bool) ta tb :
  count Q ta = 0%nat -> after_b P Q false tb = true -> after_b P Q false (ta ++ tb) = true.
Proof.
  intros Ha Hb. rewrite after_b_app, (after_b_quiet _ _ _ _ Ha). cbn [andb orb].
  destruct (List.existsb P ta); [apply after_b_seen|done].
Qed.

Lemma closing_count (Q : event cloud_sig -> bool) t :
  (forall e, Q e = true -> closing e = true) -> count closing t = 0%nat -> count Q t = 0%nat.
Proof.
  intros HQ H%count_0. apply count_0. eapply Forall_impl; [exact H|]. cbn. intros e He.
  destruct (Q e) eqn:Hq; [|done]. by rewrite (HQ e Hq) in He.
Qed.

(** The serving phase closes nothing. *)
Lemma serve_quiet di addr : wp (serve di addr) (fun t o =>
  count closing t = 0%nat
  /\ match o with
     | None => True
     | Some mtls => CEv (GoDispatcher (di_NodeID di)) tt ∈ t /\ CEv GoServe tt ∈ t /\ CEv SelectServe None ∈ t
         /\ forall a, mtls = Some a -> CEv (GoServeTLS a) tt ∈ t
     end).
Proof.
  unfold serve, startMTLS, newMTLSServer, startPprof. autounfold with prog.
  wp_steps; unit_replies; (split; [reflexivity|]); try exact I.
  all: repeat case_match; simplify_eq.
  all: (split_and!; [in_trace|in_trace|in_trace|intros; simplify_eq; in_trace]).
Qed.

(** How [main] ends after a signal: what was closed, and in which order. *)
Record drained (di : Dispatcher) (addr : string) (mtls : option string) (t : trace cloud_sig) : Prop := {
  dr_steps : exists t0 ts, Forall2 step_trace (shutdownSteps di addr mtls) ts
    /\ count closing t0 = 0%nat
    /\ t = t0 ++ mjoin ts ++ [CEv (Log "cloud-server: shutdown complete" []) tt; CEv CancelDeadline tt;
                              CEv StopDispatcher tt; CEv RedisClose tt; CEv SqlClose tt; CEv StopSignals tt];
  dr_drain_first : after start_draining closing t;
  dr_stop_first : after stop_dispatcher deletes_consumer t
}.

(** The first call of a step whose program starts with one. *)
Lemma step_first_call (step : shutdownStep) (c : cloud_call) (k : cloud_res c -> cloud (result unit)) t :
  step_run step = Vis (S := cloud_sig) c k -> step_trace step t ->
  exists start x t', t = CEv Now start :: CEv c x :: t'.
Proof.
  intros Hstep (start & now & run & r & Hr & ->). rewrite Hstep in Hr.
  destruct run as [|e run]; [done|]. destruct Hr as (x & -> & _). by eexists _, x, _.
Qed.

Lemma drain_decomposes di addr mtls :
  wp (drainAndExit di addr mtls) (fun t _ => exists t0 ts, Forall2 step_trace (shutdownSteps di addr mtls) ts
    /\ count closing t0 = 0%nat
    /\ t = t0 ++ mjoin ts ++ [CEv (Log "cloud-server: shutdown complete" []) tt; CEv CancelDeadline tt;
          CEv StopDispatcher tt; CEv RedisClose tt; CEv SqlClose tt; CEv StopSignals tt]).
Proof.
  unfold drainAndExit. autounfold with prog. cbn [prog_bind wp]. intros [].
  apply (wp_bind_spec _ _ (fun t _ => count closing t = 0%nat)).
  { unfold shutdownGrace. autounfold with prog. wp_steps; reflexivity. }
  intros tg grace Hg. cbn [prog_bind wp]. intros [] [].
  eapply wp_bind_spec; [apply exec_wp, shutdown_runs_every_step|]. intros tr _ (ts & Hts & ->).
  cbn [prog_bind wp]. intros [] [] [] [] [] [].
  exists (CEv StopSignals tt :: tg ++ [CEv (Log "cloud-server: signal received, draining (grace %s)" [LInt grace]) tt;
     CEv (SetDeadline grace) tt]), ts.
  split; [exact Hts|]. split.
  - rewrite count_cons, count_app, Hg. reflexivity.
  - cbn. by rewrite <- app_assoc.
Qed.

Lemma step_quiet (Q : event cloud_sig -> bool) step t :
  (forall n, Q (CEv Now n) = false) -> (forall took r, Q (step_report step took r) = false) ->
  wp (step_run step) (fun t _ => count Q t = 0%nat) -> step_trace step t -> count Q t = 0%nat.
Proof.
  intros Hn Hr Hw (start & now & run & r & Hrun & ->).
  apply (wp_exec _ _ _ _ Hw) in Hrun. by rewrite count_cons, count_app, !count_cons, count_nil, Hrun, !Hn, Hr.
Qed.

Lemma drain_in_order di addr mtls t :
  exec (drainAndExit di addr mtls) t tt -> drained di addr mtls t.
Proof.
  intros (t0 & ts & Hts & H0 & Ht)%(wp_exec _ _ _ _ (drain_decomposes di addr mtls)).
  split; [by exists t0, ts|..].
  all: inversion Hts as [|? s1 ? ts1 Hs1 Hts1]; subst ts; inversion Hts1 as [|? s2 ? ts2 Hs2 _]; subst ts1.
  all: apply after_b_spec; rewrite Ht; apply after_b_tail.
  - exact H0.
  - eapply (step_first_call _ StartDraining) in Hs1 as (n1 & x1 & r1 & ->); [|reflexivity]. cbn. apply after_b_seen.
  - apply closing_count; [|exact H0]. by intros [[] ?].
  - cbn [mjoin list_join]. rewrite <- app_assoc. apply after_b_tail.
    + eapply step_quiet; [| | |exact Hs1]; [done|by intros ? []|]. autounfold with prog. by wp_steps.
    + eapply (step_first_call _ StopDispatcher) in Hs2 as (n2 & x2 & r2 & ->); [|reflexivity]. cbn. apply after_b_seen.
Qed.

(** C26: A signal drains the node in order.  When [main] returns, that is, when it
    got a signal rather than a listener's failure, it had started the dispatcher
    and the public listener and then ran the six shutdown steps one after the
    other, each to its end whatever the others answered; nothing was stopped,
    deleted or closed before draining was announced; and this node's consumer is
    not deleted before its dispatcher loop was told to stop. *)
Theorem signal_drains_in_order t :
  exec main t (Some tt) ->
  exists di addr mtls t0 td, t = t0 ++ td
    /\ CEv (GoDispatcher (di_NodeID di)) tt ∈ t0 /\ CEv GoServe tt ∈ t0 /\ CEv SelectServe None ∈ t0
    /\ (forall a, mtls = Some a -> CEv (GoServeTLS a) tt ∈ t0)
    /\ count closing t0 = 0%nat
    /\ drained di addr mtls td.
Proof.
  intros (port & tc & oc & t' & -> & Hc & H)%main_parts.
  apply (wp_exec _ _ _ _ configure_ready) in Hc as (_ & Hc & _).
  destruct oc as [[srv di]|]; [|by destruct H].
  destruct H as (ts & om & td & -> & Hs & H). destruct om as [mtls|]; [|by destruct H].
  destruct H as [_ Htd]. apply (wp_exec _ _ _ _ (serve_quiet _ _)) in Hs as (Hq & H1 & H2 & H3 & H4).
  exists di, (public_addr port), mtls, ([CEv (Getenv "PORT") port; CEv SignalNotify tt] ++ tc ++ ts), td.
  split; [by rewrite <- !app_assoc|]. cbn [snd] in *.
  assert (forall e, e ∈ ts -> e ∈ [CEv (Getenv "PORT") port; CEv SignalNotify tt] ++ tc ++ ts) as Hin
    by (intros e He; rewrite !elem_of_app; auto).
  split_and!; [by apply Hin..| | |by apply drain_in_order].
  - intros a Ha. by apply Hin, H4.
  - by rewrite !count_app, Hc, Hq.
Qed.

(** A process that ends any other way, a listener's failure after start-up
    included, runs no step of the shutdown sequence and no deferred call. *)
Theorem fatal_exit_drains_nothing t : exec main t None -> count closing t = 0%nat.
Proof.
  intros (port & tc & oc & t' & -> & Hc & H)%main_parts.
  apply (wp_exec _ _ _ _ configure_ready) in Hc as (_ & Hc & _). rewrite !count_app, Hc.
  destruct oc as [[srv di]|]; [|by destruct H as [-> _]].
  destruct H as (ts & om & td & -> & Hs & H). destruct om as [mtls|]; [by destruct H|].
  destruct H as [-> _]. apply (wp_exec _ _ _ _ (serve_quiet _ _)) in Hs as [Hq _].
  by rewrite count_app, Hq.
Qed.

End boot.
