(* ===== verification/Printer.v ===== *)
(** * The printer service: frames, configuration, slots

    services/printer/frames.go, config.go and the slot state of print.go: the
    frames the printer exchanges with the cloud, its environment variables, its
    slot counters; and the calls the printer makes of its environment, for the
    programs of [Pipeline] and [Client]. *)

From S2P Require Import Prelude GoStrings Base64 Json Memory Sha2 Crypto.
From stdpp Require Import pretty.
From Stdlib Require Import Init.Byte.

(** ** Frames (frames.go) *)

Record SlotInfo : Type := {
  si_Current : Z;
  si_Max : Z
}.

Record Frame : Type := {
  pf_Type : string;
  pf_MailboxID : string;
  pf_SlotOccupancy : gmap string SlotInfo;
  pf_Status : string;
  pf_JobID : string;
  pf_Error : string;
  pf_EncryptedKey : string;
  pf_BlobURL : string
}.

Definition zero_Frame : Frame :=
  {| pf_Type := EmptyString; pf_MailboxID := EmptyString; pf_SlotOccupancy := ∅; pf_Status := EmptyString;
     pf_JobID := EmptyString; pf_Error := EmptyString; pf_EncryptedKey := EmptyString;
     pf_BlobURL := EmptyString |}.

Definition zero_SlotInfo : SlotInfo := {| si_Current := 0; si_Max := 0 |}.

Definition enc_SlotInfo (s : SlotInfo) : json :=
  JObj [("current", JInt (si_Current s)); ("max", JInt (si_Max s))].

Definition dec_SlotInfo : decoder SlotInfo :=
  dec_struct
    [("current", fun s j => (fun c => {| si_Current := c; si_Max := si_Max s |}) <$> dec_int (si_Current s) j);
     ("max", fun s j => (fun m => {| si_Current := si_Current s; si_Max := m |}) <$> dec_int (si_Max s) j)].

Definition enc_Frame (f : Frame) : json :=
  JObj (("type", JStr (pf_Type f))
        :: omitempty_string "mailbox_id" (pf_MailboxID f)
        ++ omitempty_map "slot_occupancy" enc_SlotInfo (pf_SlotOccupancy f)
        ++ omitempty_string "status" (pf_Status f)
        ++ omitempty_string "job_id" (pf_JobID f)
        ++ omitempty_string "error" (pf_Error f)
        ++ omitempty_string "encrypted_key" (pf_EncryptedKey f)
        ++ omitempty_string "blob_url" (pf_BlobURL f)).

Definition dec_Frame : decoder Frame :=
  let str (get : Frame -> string) (set : Frame -> string -> Frame) (f : Frame) (j : json) :=
    set f <$> dec_string (get f) j in
  dec_struct
    [("type", str pf_Type (fun f s => Build_Frame s (pf_MailboxID f) (pf_SlotOccupancy f) (pf_Status f)
        (pf_JobID f) (pf_Error f) (pf_EncryptedKey f) (pf_BlobURL f)));
     ("mailbox_id", str pf_MailboxID (fun f s => Build_Frame (pf_Type f) s (pf_SlotOccupancy f) (pf_Status f)
        (pf_JobID f) (pf_Error f) (pf_EncryptedKey f) (pf_BlobURL f)));
     ("slot_occupancy", fun f j =>
        (fun m => Build_Frame (pf_Type f) (pf_MailboxID f) m (pf_Status f)
           (pf_JobID f) (pf_Error f) (pf_EncryptedKey f) (pf_BlobURL f))
        <$> dec_map dec_SlotInfo zero_SlotInfo (pf_SlotOccupancy f) j);
     ("status", str pf_Status (fun f s => Build_Frame (pf_Type f) (pf_MailboxID f) (pf_SlotOccupancy f) s
        (pf_JobID f) (pf_Error f) (pf_EncryptedKey f) (pf_BlobURL f)));
     ("job_id", str pf_JobID (fun f s => Build_Frame (pf_Type f) (pf_MailboxID f) (pf_SlotOccupancy f)
        (pf_Status f) s (pf_Error f) (pf_EncryptedKey f) (pf_BlobURL f)));
     ("error", str pf_Error (fun f s => Build_Frame (pf_Type f) (pf_MailboxID f) (pf_SlotOccupancy f)
        (pf_Status f) (pf_JobID f) s (pf_EncryptedKey f) (pf_BlobURL f)));
     ("encrypted_key", str pf_EncryptedKey (fun f s => Build_Frame (pf_Type f) (pf_MailboxID f)
        (pf_SlotOccupancy f) (pf_Status f) (pf_JobID f) (pf_Error f) s (pf_BlobURL f)));
     ("blob_url", str pf_BlobURL (fun f s => Build_Frame (pf_Type f) (pf_MailboxID f)
        (pf_SlotOccupancy f) (pf_Status f) (pf_JobID f) (pf_Error f) (pf_EncryptedKey f) s))].

(** The frames the printer builds. *)
Definition registerFrame (mailboxID : string) (slots : gmap string SlotInfo) : Frame :=
  {| pf_Type := "register"; pf_MailboxID := mailboxID; pf_SlotOccupancy := slots; pf_Status := EmptyString;
     pf_JobID := EmptyString; pf_Error := EmptyString; pf_EncryptedKey := EmptyString; pf_BlobURL := EmptyString |}.
Definition stateFrame (status : string) (slots : gmap string SlotInfo) : Frame :=
  {| pf_Type := "state"; pf_MailboxID := EmptyString; pf_SlotOccupancy := slots; pf_Status := status;
     pf_JobID := EmptyString; pf_Error := EmptyString; pf_EncryptedKey := EmptyString; pf_BlobURL := EmptyString |}.
Definition statusFrame (jobID status error : string) : Frame :=
  {| pf_Type := "status"; pf_MailboxID := EmptyString; pf_SlotOccupancy := ∅; pf_Status := status;
     pf_JobID := jobID; pf_Error := error; pf_EncryptedKey := EmptyString; pf_BlobURL := EmptyString |}.

(** ** Slot counters (print.go)

    Each operation is one critical section of the state's mutex; the map it
    answers is a copy. *)

Record slotState : Type := {
  st_status : string;
  st_slotID : string;
  st_slots : gmap string SlotInfo
}.

Definition newSlotState (slotID : string) : slotState :=
  {| st_status := "idle"; st_slotID := slotID; st_slots := {[ slotID := {| si_Current := 0; si_Max := 5 |} ]} |}.

Definition snapshot (s : slotState) : string * gmap string SlotInfo := (st_status s, st_slots s).

Definition recordDelivery (slotID : string) (s : slotState) : slotState * (string * gmap string SlotInfo) :=
  let info := default zero_SlotInfo (st_slots s !! slotID) in
  let info := if (si_Current info <? si_Max info)%Z
              then {| si_Current := int64 (si_Current info + 1); si_Max := si_Max info |} else info in
  let s' := {| st_status := st_status s; st_slotID := st_slotID s; st_slots := <[slotID := info]> (st_slots s) |} in
  (s', snapshot s').

(** ** Configuration (config.go)

    [getenv] is the process environment, the empty string where a variable is
    unset; log.Fatalf ends the process, here an [Err] with its text. *)

Record config : Type := {
  MailboxID : string;
  SlotID : string;
  CloudServerWSURL : string;
  MTLSCACertPath : string;
  MTLSCertPath : string;
  MTLSKeyPath : string;
  HeartbeatInterval : Z;
  ReconnectMaxBack : Z;
  DevMode : bool;
  ListenAddr : string;
  PrinterName : string;
  PrinterPrivateKeyPath : string
}.

Section config.
Variable getenv : string -> string.

Definition mustEnv (key : string) : result string :=
  let val := getenv key in
  if String.eqb val EmptyString then Err (ErrText ("required env var " +:+ key +:+ " is not set")) else Ok val.

Definition envDurationSeconds (key : string) (def : Z) : result Z :=
  let val := getenv key in
  if String.eqb val EmptyString then Ok def
  else
    match atoi val with
    | None => Err (ErrText ("env var " +:+ key +:+ " must be an integer number of seconds, got " +:+ val))
    | Some secs => Ok (int64 (secs * second))
    end.

Definition loadConfig : result config :=
  let listenAddr := getenv "LISTEN_ADDR" in
  let listenAddr := if String.eqb listenAddr EmptyString then ":8444" else listenAddr in
  let slotID := getenv "SLOT_ID" in
  let slotID := if String.eqb slotID EmptyString then "slot-1" else slotID in
  mailboxID ← mustEnv "MAILBOX_ID";
  url ← mustEnv "CLOUD_SERVER_WS_URL";
  ca ← mustEnv "MTLS_CA_CERT_PATH";
  cert ← mustEnv "MTLS_CERT_PATH";
  key ← mustEnv "MTLS_KEY_PATH";
  heartbeat ← envDurationSeconds "HEARTBEAT_INTERVAL" (30 * second);
  back ← envDurationSeconds "RECONNECT_MAX_BACKOFF" (30 * second);
  docKey ← mustEnv "PRINTER_PRIVATE_KEY_PATH";
  Ok {| MailboxID := mailboxID; SlotID := slotID; CloudServerWSURL := url; MTLSCACertPath := ca;
        MTLSCertPath := cert; MTLSKeyPath := key; HeartbeatInterval := heartbeat; ReconnectMaxBack := back;
        DevMode := String.eqb (getenv "DEV_MODE") "true"; ListenAddr := listenAddr;
        PrinterName := getenv "PRINTER_NAME"; PrinterPrivateKeyPath := docKey |}.

End config.

(** ** What the printer asks of its environment *)

(** What the blocking select statements wait for. *)
Inductive tick_event : Type := TickDone | TickFired.
Inductive wait_event : Type := WaitDone | WaitElapsed.

Inductive printer_call : Type :=
(* HTTP client *)
| NewRequest (url : string)
| HttpDo (url : string)
| ReadAll
| BodyClose
(* files and processes *)
| OsReadFile (path : string)
| OsWriteFile (path : string) (data : bytes) (mode : Z)
| OsRemove (path : string)
| LpRun (printerName path : string)
| Getenv (key : string)
| Unsetenv (key : string)
| LoadX509KeyPair (cert key : string)
| RuntimeGC
(* the socket *)
| WsDial (url : string)
| WsWriteFrame (frame : json)
| WsReadFrame
| WsPing (timeout : Z)
| WsCloseNow
(* shared state: the slot counters under their mutex, the connected flag *)
| Snapshot
| RecordDelivery (slotID : string)
| SetConnected (v : bool)
| LoadConnected
(* goroutines, contexts, clocks, randomness *)
| GoHandleDispatch (f : Frame)
| GoKeepalive
| GoReadLoop
| WaitErrCh
| CancelConn
| CtxErr
| SelectTick (interval : Z)
| SelectBackoff (wait : Z)
| RandInt63n (n : Z)
(* the process *)
| SignalNotify
| StopSignals
| NewSlotState (slotID : string)
| GoHealthServer (addr : string)
| ListenAndServe (addr : string)
(* responses and logs *)
| SetHeader (name value : string)
| WriteBody (body : json)
| Log (fmt : string) (args : list string).

Definition printer_res (c : printer_call) : Type :=
  match c with
  | NewRequest _ | OsWriteFile _ _ _ | OsRemove _ | LpRun _ _ => result unit
  | LoadX509KeyPair _ _ => result unit
  | HttpDo _ => result Z
  | ReadAll | OsReadFile _ => result bytes
  | Getenv _ => string
  | WsDial _ | WsWriteFrame _ | WsPing _ => result unit
  | WsReadFrame => result json
  | Snapshot | RecordDelivery _ => (string * gmap string SlotInfo)%type
  | LoadConnected | CtxErr => bool
  | WaitErrCh | ListenAndServe _ => error
  | SelectTick _ => tick_event
  | SelectBackoff _ => wait_event
  | RandInt63n _ => Z
  | BodyClose | Unsetenv _ | RuntimeGC | WsCloseNow | SetConnected _ | GoHandleDispatch _ | GoKeepalive
  | SignalNotify | StopSignals | NewSlotState _ | GoHealthServer _
  | GoReadLoop | CancelConn | SetHeader _ _ | WriteBody _ | Log _ _ => unit
  end.

Definition printer_sig : sig := Sig printer_call printer_res.
Abbreviation printer := (prog printer_sig).
Abbreviation pevent := (event printer_sig).
Definition do (c : printer_call) : printer (printer_res c) := @call printer_sig c.
Definition PEv (c : printer_call) (r : printer_res c) : pevent := @Ev printer_sig c r.
Definition log (fmt : string) (args : list string) : printer unit := do (Log fmt args).

#[export] Hint Unfold do log : prog.

(** A program that also works on byte buffers. *)
Definition hprog (A : Type) : Type := heap -> printer (heap * A).
#[export] Instance hprog_ret : MRet hprog := fun A a h => Ret (h, a).
#[export] Instance hprog_bind : MBind hprog := fun A B f m h => prog_bind (fun x => f x.2 x.1) (m h).
Definition io {A} (p : printer A) : hprog A := fun h => prog_bind (fun a => Ret (h, a)) p.
Definition on_mem {A} (m : mem A) : hprog A := fun h => Ret (m h).

(** [defer d()] around the rest of a function. *)
Definition defer {A} (d : hprog unit) (body : hprog A) : hprog A := r ← body; d;; mret r.

(** ** The counters *)

(** The slot counter counts deliveries and never exceeds the slot's capacity.
    After n deliveries a fresh printer reports min(n, 5) of 5 for its own slot,
    no other slot, and the status idle. *)
Theorem slots_after_deliveries n id :
  snapshot (Nat.iter n (fun s => (recordDelivery id s).1) (newSlotState id))
  = ("idle", {[ id := {| si_Current := Z.min (Z.of_nat n) 5; si_Max := 5 |} ]}).
Proof.
  assert (Nat.iter n (fun s => (recordDelivery id s).1) (newSlotState id)
    = {| st_status := "idle"; st_slotID := id;
         st_slots := {[ id := {| si_Current := Z.min (Z.of_nat n) 5; si_Max := 5 |} ]} |}) as ->; [|done].
  induction n as [|n IH]; [done|]. rewrite Nat.iter_succ, IH. unfold recordDelivery.
  cbn [st_status st_slotID st_slots fst]. rewrite lookup_singleton_eq. cbn [default Datatypes.id si_Current si_Max].
  f_equal. rewrite insert_singleton_eq. f_equal.
  destruct (Z.ltb_spec (Z.min (Z.of_nat n) 5) 5).
  - f_equal. rewrite wrap_signed_id; [lia|lia|].
    change (64 - 1)%Z with 63%Z. assert (2 ^ 63 = 9223372036854775808)%Z as -> by done. lia.
  - f_equal. lia.
Qed.

(** ** Frames *)

Definition slot_fits (s : SlotInfo) : Prop :=
  (- 2 ^ 63 <= si_Current s < 2 ^ 63)%Z /\ (- 2 ^ 63 <= si_Max s < 2 ^ 63)%Z.
Definition frame_fits (f : Frame) : Prop := map_Forall (fun _ => slot_fits) (pf_SlotOccupancy f).
