(* ===== verification/Pipeline.v ===== *)
(** * The printer service: one job

    services/printer/print.go from fetchBlob on, and main.go's loadDocKey. *)

From S2P Require Import Prelude GoStrings Base64 Json Memory Sha2 Crypto Printer.
From stdpp Require Import pretty.
From Stdlib Require Import Ascii Init.Byte.

(** ** The file a document is printed from *)

Definition tmpfsDir : string := "/dev/shm".

(** The elements of a slash-separated path. *)
Fixpoint split_slash (cur s : string) : list string :=
  match s with
  | EmptyString => [cur]
  | String c s' =>
      if Ascii.eqb c "/"%char then cur :: split_slash EmptyString s' else split_slash (cur +:+ String c EmptyString) s'
  end.

(** [filepath.Clean] on a rooted path, element by element; the stack has the
    last element first. *)
Definition clean_elem (stack : list string) (e : string) : list string :=
  if String.eqb e EmptyString || String.eqb e "." then stack
  else if String.eqb e ".." then tail stack
  else e :: stack.

Definition clean_rooted (path : string) : string :=
  foldr (fun e s => "/" +:+ e +:+ s) EmptyString (rev (foldl clean_elem [] (split_slash EmptyString path))).

(** [filepath.Join] of a rooted directory and a name. *)
Definition filepath_Join (dir name : string) : string := clean_rooted (dir +:+ "/" +:+ name).

Definition tmpfsPath (jobID : string) : string :=
  filepath_Join tmpfsDir ("automail-" +:+ jobID +:+ ".pdf").

Section pipeline.
Context {C : CryptoLib}.

Definition fetchBlob (blobURL : string) : printer (result bytes) :=
  q ← do (NewRequest blobURL);
  match q with
  | Err e => Ret (Err e)
  | Ok _ =>
      r ← do (HttpDo blobURL);
      match r with
      | Err e => Ret (Err e)
      | Ok status =>
          if (400 <=? status)%Z then
            do BodyClose;;
            Ret (Err (ErrText ("blob fetch returned status " +:+ pretty status)))
          else
            b ← do ReadAll;
            do BodyClose;;
            Ret b
      end
  end.

Definition printDocument (printerName path : string) : printer (result unit) := do (LpRun printerName path).

(** Steps 5 to 7 of processJob: write, print, unlink. *)
Definition printPlain (frame : Frame) (cfg : config) (plainPDF : slice) : hprog (option error) :=
  let path := tmpfsPath (pf_JobID frame) in
  pdf ← on_mem (read plainPDF);
  w ← io (do (OsWriteFile path pdf 384));
  match w with
  | Err e => mret (Some (ErrWrap "write tmpfs" e))
  | Ok _ =>
      p ← (if DevMode cfg then
             io (log "job %s: dev: would print %s (%d bytes)" [pf_JobID frame; path; pretty (length pdf)]);;
             mret None
           else
             r ← io (printDocument (PrinterName cfg) path);
             match r with
             | Ok _ => mret None
             | Err e =>
                 m ← io (do (OsRemove path));
                 match m with
                 | Err rmErr =>
                     io (log "job %s: WARNING could not remove tmpfs after print failure: %v"
                           [pf_JobID frame; err_text rmErr])
                 | Ok _ => mret tt
                 end;;
                 mret (Some (ErrWrap "print" e))
             end);
      match p with
      | Some e => mret (Some e)
      | None =>
          m ← io (do (OsRemove path));
          match m with
          | Err e => mret (Some (ErrWrap "remove tmpfs" e))
          | Ok _ => mret None
          end
      end
  end.

(** [None] is the nil error. *)
Definition processJob (frame : Frame) (cfg : config) (key : printerKey) : hprog (option error) :=
  defer (io (do RuntimeGC))
    (b ← io (fetchBlob (pf_BlobURL frame));
     match b with
     | Err e => mret (Some (ErrWrap "fetch blob" e))
     | Ok blob =>
         ciphertextBlob ← on_mem (new blob);
         defer (on_mem (wipe ciphertextBlob))
           (match std_decode (pf_EncryptedKey frame) with
            | None => mret (Some (ErrWrap "decode encrypted_key" (ErrText "illegal base64 data")))
            | Some ek =>
                encryptedKey ← on_mem (new ek);
                defer (on_mem (wipe encryptedKey))
                  (ekb ← on_mem (read encryptedKey);
                   match DecryptAESKey key ekb with
                   | Err e => mret (Some (ErrWrap "unwrap AES key" e))
                   | Ok k =>
                       rawAESKey ← on_mem (new k);
                       defer (on_mem (wipe rawAESKey))
                         (ct ← on_mem (read ciphertextBlob);
                          kb ← on_mem (read rawAESKey);
                          match DecryptDocument ct kb with
                          | Err e => mret (Some (ErrWrap "decrypt document" e))
                          | Ok pdf =>
                              plainPDF ← on_mem (new pdf);
                              defer (on_mem (wipe plainPDF)) (printPlain frame cfg plainPDF)
                          end)
                   end)
            end)
     end).

(** The [send] closure of connectAndServe. *)
Definition send (frame : Frame) : printer unit :=
  r ← do (WsWriteFrame (enc_Frame frame));
  match r with
  | Err e => log "printer: failed to send %s frame: %v" [pf_Type frame; err_text e]
  | Ok _ => Ret tt
  end.

(** [slotID] is the slot state's own id. *)
Definition handleDispatch (frame : Frame) (cfg : config) (slotID : string) (key : printerKey) : hprog unit :=
  io (send (statusFrame (pf_JobID frame) "printing" EmptyString));;
  r ← processJob frame cfg key;
  match r with
  | Some e =>
      io (log "job %s: processing failed: %v" [pf_JobID frame; err_text e];;
          send (statusFrame (pf_JobID frame) "failed" "processing failed"))
  | None =>
      io (send (statusFrame (pf_JobID frame) "delivered" EmptyString);;
          s ← do (RecordDelivery slotID);
          send (stateFrame s.1 s.2))
  end.

(** [loadDocKey] (main.go). *)
Definition loadDocKey (keyPath : string) : hprog (result printerKey) :=
  pass ← io (do (Getenv "PRINTER_KEY_PASSPHRASE"));
  if String.eqb pass EmptyString then mret (Err (ErrText "PRINTER_KEY_PASSPHRASE is not set"))
  else
    io (do (Unsetenv "PRINTER_KEY_PASSPHRASE"));;
    passBytes ← on_mem (new (string_bytes pass));
    defer (on_mem (wipe passBytes))
      (f ← io (do (OsReadFile keyPath));
       match f with
       | Err e => mret (Err e)
       | Ok pemBytes => on_mem (loadPrinterPrivateKey pemBytes passBytes)
       end).

End pipeline.

(** ** Runs of a program with a heap *)

Definition hwp {A} (m : hprog A) (h : heap) (Q : trace printer_sig -> heap -> A -> Prop) : Prop :=
  wp (m h) (fun t x => Q t x.1 x.2).

Lemma hwp_mono {A} (m : hprog A) h (Q Q' : trace printer_sig -> heap -> A -> Prop) :
  (forall t h' a, Q t h' a -> Q' t h' a) -> hwp m h Q -> hwp m h Q'.
Proof. intros H. apply wp_mono. intros t [h' a]. apply H. Qed.

Lemma hwp_ret {A} (a : A) h (Q : trace printer_sig -> heap -> A -> Prop) : Q [] h a -> hwp (mret a) h Q.
Proof. done. Qed.

Lemma hwp_bind {A B} (m : hprog A) (f : A -> hprog B) h Q :
  hwp m h (fun t1 h1 a => hwp (f a) h1 (fun t2 h2 b => Q (t1 ++ t2) h2 b)) -> hwp (m ≫= f) h Q.
Proof. intros H. apply (wp_bind (m h) (fun x => f x.2 x.1)). exact H. Qed.

Lemma hwp_io {A} (p : printer A) h (Q : trace printer_sig -> heap -> A -> Prop) :
  wp p (fun t a => Q t h a) -> hwp (io p) h Q.
Proof.
  intros H. apply (wp_bind p (fun a => Ret (h, a))). eapply wp_mono; [|exact H].
  cbn. intros t a. by rewrite app_nil_r.
Qed.

Lemma hwp_mem {A} (m : mem A) h (Q : trace printer_sig -> heap -> A -> Prop) :
  Q [] (m h).1 (m h).2 -> hwp (on_mem m) h Q.
Proof. done. Qed.

Lemma hwp_exec {A} (m : hprog A) h Q t h' a : hwp m h Q -> exec (m h) t (h', a) -> Q t h' a.
Proof. intros Hm He. exact (wp_exec _ _ _ _ Hm He). Qed.

(** Allocating, deferring the wipe, and going on. *)
Lemma hwp_new_defer {A} (b : bytes) (body : slice -> hprog A) h (Q : trace printer_sig -> heap -> A -> Prop) :
  hwp (body (Slice (length h) 0 (length b))) (h ++ [b])
    (fun t h' a => Q t (zeroBytes (Slice (length h) 0 (length b)) h') a) ->
  hwp (s ← on_mem (new b); defer (on_mem (wipe s)) (body s)) h Q.
Proof.
  intros H. apply hwp_bind, hwp_mem. cbn [fst snd new alloc]. apply hwp_bind.
  eapply hwp_mono; [|exact H]. cbn beta. intros t h' a HQ.
  apply hwp_bind, hwp_mem, hwp_ret. cbn. by rewrite app_nil_r.
Qed.

(** ** One job's runs *)

Section runs.
Context {C : CryptoLib}.

(** The event that stands for printing: the lp command, or in dev mode a log
    line. *)
Definition print_event (frame : Frame) (cfg : config) (path : string) (pdf : bytes) : pevent :=
  if DevMode cfg then
    PEv (Log "job %s: dev: would print %s (%d bytes)" [pf_JobID frame; path; pretty (length pdf)]) tt
  else PEv (LpRun (PrinterName cfg) path) (Ok tt).

(** The ways steps 5 to 7 can go. *)
Inductive print_run (frame : Frame) (cfg : config) (path : string) (pdf : bytes)
    : trace printer_sig -> option error -> Prop :=
| write_fails e :
    print_run frame cfg path pdf [PEv (OsWriteFile path pdf 384) (Err e)] (Some (ErrWrap "write tmpfs" e))
| print_fails e (m : result unit) w :
    DevMode cfg = false ->
    w = match m with
        | Err rmErr => [PEv (Log "job %s: WARNING could not remove tmpfs after print failure: %v"
                               [pf_JobID frame; err_text rmErr]) tt]
        | Ok _ => []
        end ->
    print_run frame cfg path pdf
      (PEv (OsWriteFile path pdf 384) (Ok tt) :: PEv (LpRun (PrinterName cfg) path) (Err e)
       :: PEv (OsRemove path) m :: w) (Some (ErrWrap "print" e))
| remove_fails e :
    print_run frame cfg path pdf
      [PEv (OsWriteFile path pdf 384) (Ok tt); print_event frame cfg path pdf; PEv (OsRemove path) (Err e)]
      (Some (ErrWrap "remove tmpfs" e))
| printed :
    print_run frame cfg path pdf
      [PEv (OsWriteFile path pdf 384) (Ok tt); print_event frame cfg path pdf; PEv (OsRemove path) (Ok tt)] None.

Lemma printPlain_runs frame cfg plain h :
  hwp (printPlain frame cfg plain) h (fun t h' r =>
    h' = h /\ print_run frame cfg (tmpfsPath (pf_JobID frame)) (load h plain) t r).
Proof.
  unfold hwp, printPlain, mbind, hprog_bind, io, on_mem, read, mret, hprog_ret, printDocument.
  set (path := tmpfsPath _). set (pdf := load h plain).
  destruct (DevMode cfg) eqn:Hdev; cbn.
  - intros [[]|e]; cbn; [|split; [done|constructor]]. intros [] [[]|e]; (split; [done|]).
    + pose proof (printed frame cfg path pdf) as H. unfold print_event in H. by rewrite Hdev in H.
    + pose proof (remove_fails frame cfg path pdf e) as H. unfold print_event in H. by rewrite Hdev in H.
  - intros [[]|e]; cbn; [|split; [done|constructor]]. intros [[]|e]; cbn.
    + intros [[]|e]; (split; [done|]).
      * pose proof (printed frame cfg path pdf) as H. unfold print_event in H. by rewrite Hdev in H.
      * pose proof (remove_fails frame cfg path pdf e) as H. unfold print_event in H. by rewrite Hdev in H.
    + intros [[]|e']; cbn.
      * split; [done|]. by apply (print_fails frame cfg path pdf e (Ok tt)).
      * intros []. split; [done|]. by apply (print_fails frame cfg path pdf e (Err e')).
Qed.

(** The calls of a successful fetch. *)
Definition fetched (url : string) (status : Z) (blob : bytes) : trace printer_sig :=
  [PEv (NewRequest url) (Ok tt); PEv (HttpDo url) (Ok status); PEv ReadAll (Ok blob); PEv BodyClose tt].

Definition fetch_call (c : printer_call) : bool :=
  match c with NewRequest _ | HttpDo _ | ReadAll | BodyClose => true | _ => false end.

(** An answer that makes the fetch fail. *)
Definition fetch_bad (e : pevent) : Prop :=
  match e with
  | existT (NewRequest _) (Err _) | existT (HttpDo _) (Err _) | existT ReadAll (Err _) => True
  | existT (HttpDo _) (Ok status) => (400 <= status)%Z
  | _ => False
  end.

Lemma fetchBlob_runs url :
  wp (fetchBlob url) (fun t r =>
    Forall (fun e : pevent => fetch_call (ev_call e) = true) t
    /\ match r with
       | Ok blob => exists status, (status < 400)%Z /\ t = fetched url status blob
       | Err _ => Exists fetch_bad t
       end).
Proof.
  unfold fetchBlob. cbn. intros [[]|e]; cbn; [|split; [by repeat constructor|by constructor]].
  intros [status|e]; cbn; [|split; [by repeat constructor|right; by constructor]].
  destruct (400 <=? status)%Z eqn:Hs; cbn; [apply Z.leb_le in Hs|apply Z.leb_gt in Hs].
  - intros []; split; [by repeat constructor|right; by constructor].
  - intros [blob|e] []; (split; [by repeat constructor|]); [by exists status|do 2 right; by constructor].
Qed.

(** A run of processJob: a fetch, then nothing or a print, then the collector. *)
Inductive job_run (frame : Frame) (cfg : config) (key : printerKey) : trace printer_sig -> option error -> Prop :=
| job_fetch_fails t e :
    Forall (fun ev : pevent => fetch_call (ev_call ev) = true) t -> Exists fetch_bad t ->
    job_run frame cfg key (t ++ [PEv RuntimeGC tt]) (Some e)
| job_decrypt_fails status blob e :
    (forall ek k pdf, std_decode (pf_EncryptedKey frame) = Some ek -> DecryptAESKey key ek = Ok k ->
       DecryptDocument blob k = Ok pdf -> False) ->
    job_run frame cfg key (fetched (pf_BlobURL frame) status blob ++ [PEv RuntimeGC tt]) (Some e)
| job_prints status blob ek k pdf t r :
    (status < 400)%Z -> std_decode (pf_EncryptedKey frame) = Some ek -> DecryptAESKey key ek = Ok k ->
    DecryptDocument blob k = Ok pdf -> print_run frame cfg (tmpfsPath (pf_JobID frame)) pdf t r ->
    job_run frame cfg key (fetched (pf_BlobURL frame) status blob ++ t ++ [PEv RuntimeGC tt]) r.

Lemma processJob_runs frame cfg key h :
  hwp (processJob frame cfg key) h (fun t h' r => wiped_since h h' /\ job_run frame cfg key t r).
Proof.
  unfold processJob. apply hwp_bind.
  eapply (hwp_mono _ _ (fun t h' r => wiped_since h h' /\
    forall u, job_run frame cfg key (t ++ [PEv RuntimeGC u]) r)).
  { intros t h' r [Hw Hr]. apply hwp_bind, hwp_io. cbn. intros []. auto. }
  apply hwp_bind, hwp_io. eapply wp_mono; [|apply fetchBlob_runs]. cbn beta.
  intros t [blob|e] [Hq Ht].
  2:{ apply hwp_ret. split; [apply wiped_refl|]. intros []. rewrite app_nil_r. by constructor. }
  destruct Ht as (status & Hs & ->).
  set (h1 := h ++ [blob]). apply hwp_new_defer. fold h1.
  eapply (hwp_mono _ _ (fun t h' r => wiped_since h1 h' /\
    forall u, job_run frame cfg key ((fetched (pf_BlobURL frame) status blob ++ t) ++ [PEv RuntimeGC u]) r)).
  { intros t h' r [Hw Hr]. split; [by apply wiped_defer|done]. }
  assert (forall e, (forall ek k pdf, std_decode (pf_EncryptedKey frame) = Some ek -> DecryptAESKey key ek = Ok k ->
       DecryptDocument blob k = Ok pdf -> False) -> forall u,
    job_run frame cfg key ((fetched (pf_BlobURL frame) status blob ++ []) ++ [PEv RuntimeGC u]) (Some e)) as Hstop.
  { intros e He []. rewrite app_nil_r. by constructor. }
  destruct (std_decode (pf_EncryptedKey frame)) as [ek|] eqn:Hek.
  2:{ apply hwp_ret. split; [apply wiped_refl|by apply Hstop]. }
  apply hwp_new_defer. apply hwp_bind, hwp_mem. cbn [fst snd read]. rewrite load_new, firstn_all.
  destruct (DecryptAESKey key ek) as [k|e] eqn:Hk.
  2:{ apply hwp_ret. split; [apply wiped_defer, wiped_refl|]. apply Hstop. intros; simplify_eq; congruence. }
  apply hwp_new_defer. apply hwp_bind, hwp_mem. cbn [fst snd read]. apply hwp_bind, hwp_mem. cbn [fst snd read].
  rewrite load_new, firstn_all. unfold h1 at 1. rewrite <- !app_assoc. cbn [app]. rewrite load_new, firstn_all.
  destruct (DecryptDocument blob k) as [pdf|e] eqn:Hpdf.
  2:{ apply hwp_ret. split; [|apply Hstop; intros; simplify_eq; congruence].
      apply wiped_defer, wiped_defer. rewrite <- app_assoc. apply wiped_refl. }
  apply hwp_new_defer. eapply hwp_mono; [|apply printPlain_runs]. cbn beta.
  intros t h' r [-> Hr]. rewrite load_new, firstn_all in Hr. split.
  - apply wiped_defer, wiped_defer. rewrite <- app_assoc. apply wiped_defer, wiped_refl.
  - intros []. rewrite <- app_assoc. cbn [app]. by eapply job_prints.
Qed.

Lemma fetched_calls url status blob :
  Forall (fun ev : pevent => fetch_call (ev_call ev) = true) (fetched url status blob).
Proof. repeat constructor. Qed.

(** The three phases of a run. *)
Lemma job_run_parts frame cfg key t r :
  job_run frame cfg key t r ->
  exists t0 tp, t = t0 ++ tp ++ [PEv RuntimeGC tt]
    /\ Forall (fun ev : pevent => fetch_call (ev_call ev) = true) t0
    /\ (tp = [] /\ is_Some r \/ exists pdf, print_run frame cfg (tmpfsPath (pf_JobID frame)) pdf tp r).
Proof.
  intros [t0 e Hq _|status blob e _|status blob ek k pdf tp r' _ _ _ _ Hp].
  - exists t0, []. eauto.
  - eexists _, []. split_and!; [done|apply fetched_calls|by left].
  - eexists _, tp. split_and!; [done|apply fetched_calls|eauto].
Qed.

(** ** Properties *)

(** C11: A job succeeds in exactly one way.  If processJob returns nil, it fetched
    the blob with a status below 400, decoded and unwrapped the frame's key,
    decrypted the blob with it, wrote exactly the decrypted document to the tmpfs
    file with mode 0600, printed that file (or logged, in dev mode), removed it
    successfully, and did nothing else; and every buffer it allocated is zero. *)
Theorem job_success frame cfg key h t h' :
  exec (processJob frame cfg key h) t (h', None) ->
  wiped_since h h'
  /\ exists status blob ek k pdf,
      let path := tmpfsPath (pf_JobID frame) in
      t = fetched (pf_BlobURL frame) status blob
          ++ [PEv (OsWriteFile path pdf 384) (Ok tt); print_event frame cfg path pdf;
              PEv (OsRemove path) (Ok tt); PEv RuntimeGC tt]
      /\ (status < 400)%Z /\ std_decode (pf_EncryptedKey frame) = Some ek
      /\ DecryptAESKey key ek = Ok k /\ DecryptDocument blob k = Ok pdf.
Proof.
  intros [Hw Hr]%(hwp_exec _ _ _ _ _ _ (processJob_runs frame cfg key h)). split; [done|].
  inversion Hr as [| |status blob ek k pdf t2 r Hs Hek Hk Hpdf Hp Ht]. inversion Hp. subst.
  by exists status, blob, ek, k, pdf.
Qed.

(** Whether a file may still be there at the end of the run.  A write may leave
    a file whatever it answers, since os.WriteFile can fail after creating the
    file or writing part of it; only a removal that succeeded makes it certain
    that there is none. *)
Definition file_step (path : string) (there : bool) (e : pevent) : bool :=
  match e with
  | existT (OsWriteFile p _ _) _ => there || bool_decide (p = path)
  | existT (OsRemove p) (Ok _) => there && negb (bool_decide (p = path))
  | _ => there
  end.
Definition file_after (path : string) (t : trace printer_sig) : bool := foldl (file_step path) false t.

(** The file operations a job may make. *)
Definition job_files (frame : Frame) (cfg : config) (e : pevent) : Prop :=
  match ev_call e with
  | OsWriteFile p _ mode => p = tmpfsPath (pf_JobID frame) /\ mode = 384%Z
  | OsRemove p => p = tmpfsPath (pf_JobID frame)
  | LpRun name p => p = tmpfsPath (pf_JobID frame) /\ name = PrinterName cfg /\ DevMode cfg = false
  | _ => True
  end.

Lemma fetch_no_file frame cfg path there (t : trace printer_sig) :
  Forall (fun ev : pevent => fetch_call (ev_call ev) = true) t ->
  foldl (file_step path) there t = there /\ Forall (job_files frame cfg) t.
Proof.
  intros Ht. induction Ht as [|[c r] t Hc _ IH]; [done|]. destruct IH as [IH1 IH2]. cbn in Hc |- *.
  split; [|constructor; [|done]]; destruct c; try done.
Qed.

(** The job is an error, because the removal of the file or its writing failed. *)
Definition left_behind (path : string) (t : trace printer_sig) (r : option error) : Prop :=
  is_Some r /\ exists e, PEv (OsRemove path) (Err e) ∈ t
    \/ exists pdf, PEv (OsWriteFile path pdf 384) (Err e) ∈ t.

Lemma print_run_files frame cfg pdf t r path :
  print_run frame cfg (tmpfsPath (pf_JobID frame)) pdf t r ->
  Forall (job_files frame cfg) t
  /\ (foldl (file_step path) false t = true -> left_behind path t r).
Proof.
  set (p := tmpfsPath _). assert (forall b, b && negb b = false) as Hb by (by intros []).
  intros [e|e m w Hdev ->|e|]; unfold print_event; split.
  - repeat constructor.
  - cbn. intros ->%bool_decide_eq_true. split; [done|]. exists e. right. exists pdf. set_solver.
  - repeat constructor; try done. destruct m; repeat constructor.
  - destruct m as [[]|em]; cbn; [by rewrite Hb|]. intros ->%bool_decide_eq_true. split; [done|].
    exists em. left. set_solver.
  - destruct (DevMode cfg) eqn:Hdev; repeat constructor; done.
  - destruct (DevMode cfg); cbn; intros ->%bool_decide_eq_true; (split; [done|]); exists e; left; set_solver.
  - destruct (DevMode cfg) eqn:Hdev; repeat constructor; done.
  - destruct (DevMode cfg); cbn; by rewrite Hb.
Qed.

(** C12: No path leaves plaintext behind silently.  However processJob ends, every
    buffer it allocated is zero and no other buffer was written; it writes,
    prints and removes no file but the job's tmpfs file; and if a file may still
    be there at the end, then either its removal failed or writing it did (a
    failed write is not cleaned up, [write_error_no_cleanup]), and the job is
    reported as an error, never as delivered. *)
Theorem job_leaves_no_plaintext frame cfg key h t h' r :
  exec (processJob frame cfg key h) t (h', r) ->
  wiped_since h h' /\ Forall (job_files frame cfg) t
  /\ forall path, file_after path t = true -> left_behind path t r.
Proof.
  intros [Hw Hr]%(hwp_exec _ _ _ _ _ _ (processJob_runs frame cfg key h)). split; [done|].
  apply job_run_parts in Hr as (t0 & tp & -> & Hq & Hp). destruct (fetch_no_file frame cfg EmptyString false t0 Hq) as [_ Hf].
  split.
  - apply Forall_app. split; [done|]. apply Forall_app. split; [|by repeat constructor].
    destruct Hp as [[-> _]|[pdf Hp]]; [done|]. by apply (print_run_files frame cfg pdf tp r EmptyString).
  - intros path. unfold file_after. rewrite !foldl_app.
    destruct (fetch_no_file frame cfg path false t0 Hq) as [-> _].
    destruct Hp as [[-> _]|[pdf Hp]]; [done|].
    destruct (print_run_files frame cfg pdf tp r path Hp) as [_ Hpf]. cbn. intros Ht.
    destruct (Hpf Ht) as [Hr (e & He)]. split; [done|]. exists e.
    destruct He as [He|[pdf' He]]; [left|right; exists pdf']; set_solver.
Qed.

Definition failed_write (e : pevent) : bool :=
  match e with existT (OsWriteFile _ _ _) (Err _) => true | _ => false end.
Definition removes (e : pevent) : bool := match ev_call e with OsRemove _ => true | _ => false end.

(** A failed write is not cleaned up.  When os.WriteFile reports an error,
    which it can after having written part of the document, processJob returns
    an error without ever trying to remove the file. *)
Theorem write_error_no_cleanup frame cfg key h t h' r :
  exec (processJob frame cfg key h) t (h', r) -> List.existsb failed_write t = true ->
  is_Some r /\ List.existsb removes t = false.
Proof.
  intros [Hw Hr]%(hwp_exec _ _ _ _ _ _ (processJob_runs frame cfg key h)) Hin.
  assert (forall t0 : trace printer_sig, Forall (fun ev : pevent => fetch_call (ev_call ev) = true) t0 ->
    List.existsb failed_write t0 = false /\ List.existsb removes t0 = false) as Hq.
  { intros t0 Ht0. induction Ht0 as [|[c x] t0 Hc _ [IH1 IH2]]; [done|]. cbn in *. rewrite IH1, IH2. by destruct c. }
  apply job_run_parts in Hr as (t0 & tp & -> & Ht0 & Hp). rewrite !existsb_app in *.
  destruct (Hq t0 Ht0) as [Hn ->]. rewrite Hn in Hin.
  destruct Hp as [[-> _]|[pdf Hp]]; [done|].
  destruct Hp as [e'|e' m w Hdev ->|e'|]; [done| | |]; exfalso; unfold print_event in Hin.
  - by destruct m.
  - by destruct (DevMode cfg).
  - by destruct (DevMode cfg).
Qed.

(** An environment in which nothing outside the printer fails: the answers it
    gives during the run. *)
Definition cooperative (blob : bytes) (e : pevent) : Prop :=
  match e with
  | existT (NewRequest _) r | existT (OsWriteFile _ _ _) r | existT (OsRemove _) r | existT (LpRun _ _) r => r = Ok tt
  | existT (HttpDo _) r => exists status, r = Ok status /\ (status < 400)%Z
  | existT ReadAll r => r = Ok blob
  | _ => True
  end.

Lemma good_job_is_printed frame cfg key h t h' r blob ek k pdf :
  exec (processJob frame cfg key h) t (h', r) -> Forall (cooperative blob) t ->
  std_decode (pf_EncryptedKey frame) = Some ek -> DecryptAESKey key ek = Ok k -> DecryptDocument blob k = Ok pdf ->
  r = None /\ PEv (OsWriteFile (tmpfsPath (pf_JobID frame)) pdf 384) (Ok tt) ∈ t
  /\ print_event frame cfg (tmpfsPath (pf_JobID frame)) pdf ∈ t.
Proof.
  intros [_ Hr]%(hwp_exec _ _ _ _ _ _ (processJob_runs frame cfg key h)) Hco Hek Hk Hpdf.
  assert (forall status b, Forall (cooperative blob) (fetched (pf_BlobURL frame) status b) -> b = blob) as Hblob.
  { intros status b Hf. unfold fetched in Hf. rewrite !Forall_cons in Hf. destruct Hf as (_ & _ & Hb & _).
    cbn in Hb. congruence. }
  destruct Hr as [t e _ Hbad|status b e Hno|status b ek' k' pdf' t r Hs Hek' Hk' Hpdf' Hp].
  - exfalso. apply Forall_app in Hco as [Hco _]. apply Exists_exists in Hbad as (x & Hx & Hb).
    rewrite Forall_forall in Hco. specialize (Hco x Hx). destruct x as [[] res]; cbn in *; try done.
    + by subst res.
    + destruct Hco as (s & -> & Hs). cbn in Hb. lia.
    + by subst res.
  - apply Forall_app in Hco as [Hco _]. apply Hblob in Hco as ->. exfalso. eauto.
  - apply Forall_app in Hco as [Hf Hco]. apply Hblob in Hf as ->. simplify_eq.
    apply Forall_app in Hco as [Hco _].
    assert (k' = k) as -> by congruence. assert (pdf' = pdf) as -> by congruence.
    destruct Hp as [e|e m w Hdev ->|e|]; rewrite ?Forall_cons in Hco.
    + by destruct Hco as [Hc _].
    + by destruct Hco as (_ & Hc & _).
    + by destruct Hco as (_ & _ & Hc & _).
    + split_and!; [done|set_solver|set_solver].
Qed.

(** ** What the cloud is told *)

(** The frames the run tried to write. *)
Definition sent (t : trace printer_sig) : list json :=
  omap (fun e : pevent => match ev_call e with WsWriteFrame j => Some j | _ => None end) t.

Definition recorded (t : trace printer_sig) : list string :=
  omap (fun e : pevent => match ev_call e with RecordDelivery id => Some id | _ => None end) t.

Lemma send_runs frame :
  wp (send frame) (fun t _ => sent t = [enc_Frame frame] /\ recorded t = []).
Proof. unfold send. cbn. intros [[]|e]; cbn; done. Qed.

Lemma job_sends_nothing frame cfg key t r : job_run frame cfg key t r -> sent t = [] /\ recorded t = [].
Proof.
  assert (forall t0 : trace printer_sig, Forall (fun ev : pevent => fetch_call (ev_call ev) = true) t0 ->
    sent t0 = [] /\ recorded t0 = []) as Hq.
  { intros t0 Ht0. induction Ht0 as [|[c x] t0 Hc _ [IH1 IH2]]; [done|]. by destruct c. }
  unfold sent, recorded in *. intros (t0 & tp & -> & H0 & Hp)%job_run_parts.
  rewrite !omap_app. destruct (Hq t0 H0) as [-> ->]. destruct Hp as [[-> _]|[pdf Hp]]; [done|].
  destruct Hp as [e|e m w Hdev ->|e|]; [done|by destruct m| |]; unfold print_event; by destruct (DevMode cfg).
Qed.

(** C10: The printer says [delivered] only after the document is printed, gone
    from the tmpfs and wiped from memory.  Handling a dispatch frame sends
    [printing], then runs the whole pipeline, during which nothing is sent; the
    pipeline's wipes are done by then.  If the pipeline returned nil it sends
    [delivered], then records the delivery once, then sends a state frame with
    exactly the status and counters that recording answered; otherwise it sends one [failed] frame whose error text is the same
    whatever went wrong, and records nothing. *)
Theorem delivered_after_wipe frame cfg slotID key h t h' :
  exec (handleDispatch frame cfg slotID key h) t (h', tt) ->
  exists t0 t1 t2 r,
    t = t0 ++ t1 ++ t2
    /\ sent t0 = [enc_Frame (statusFrame (pf_JobID frame) "printing" EmptyString)] /\ recorded t0 = []
    /\ exec (processJob frame cfg key h) t1 (h', r) /\ wiped_since h h' /\ sent t1 = [] /\ recorded t1 = []
    /\ match r with
       | Some _ => sent t2 = [enc_Frame (statusFrame (pf_JobID frame) "failed" "processing failed")]
                   /\ recorded t2 = []
       | None => exists ta s tb, t2 = ta ++ PEv (RecordDelivery slotID) s :: tb
                   /\ sent ta = [enc_Frame (statusFrame (pf_JobID frame) "delivered" EmptyString)]
                   /\ sent tb = [enc_Frame (stateFrame s.1 s.2)]
                   /\ recorded ta = [] /\ recorded tb = []
       end.
Proof.
  unfold handleDispatch, mbind, hprog_bind, io. intros He.
  apply exec_bind in He as (t0 & t' & [h0 []] & -> & H0 & He).
  apply exec_bind in H0 as (t0' & t0'' & [] & -> & H0 & [-> [= ->]]).
  apply exec_bind in He as (t1 & t2 & [h1 r] & -> & H1 & H2). cbn [fst snd] in *.
  pose proof (wp_exec _ _ _ _ (send_runs _) H0) as [Hs0 Hr0].
  pose proof (hwp_exec _ _ _ _ _ _ (processJob_runs frame cfg key h) H1) as [Hw Hj].
  destruct (job_sends_nothing _ _ _ _ _ Hj) as [Hs1 Hr1].
  assert (h1 = h' /\ match r with
    | Some _ => sent t2 = [enc_Frame (statusFrame (pf_JobID frame) "failed" "processing failed")] /\ recorded t2 = []
    | None => exists ta s tb, t2 = ta ++ PEv (RecordDelivery slotID) s :: tb
        /\ sent ta = [enc_Frame (statusFrame (pf_JobID frame) "delivered" EmptyString)]
        /\ sent tb = [enc_Frame (stateFrame s.1 s.2)] /\ recorded ta = [] /\ recorded tb = []
    end) as [-> Hend].
  { destruct r as [e|].
    - apply exec_bind in H2 as (t2' & t2'' & [] & -> & H2 & [-> [= ->]]). split; [done|]. rewrite app_nil_r.
      unfold log in H2. apply exec_bind in H2 as (ta & tb & [] & -> & Ha & Hb).
      destruct ta as [|? [|? ?]]; [done| |by destruct Ha as (? & _ & ? & _)].
      destruct Ha as (u & -> & _). destruct (wp_exec _ _ _ _ (send_runs _) Hb) as [Hs Hr]. by split.
    - apply exec_bind in H2 as (t2' & t2'' & [] & -> & H2 & [-> [= ->]]). split; [done|]. rewrite app_nil_r.
      apply exec_bind in H2 as (ta & tb & [] & -> & Ha & Hb).
      destruct (wp_exec _ _ _ _ (send_runs _) Ha) as [Hsa Hra].
      destruct tb as [|e tb]; [done|]. destruct Hb as (s & -> & Hb). exists ta, s, tb.
      by destruct (wp_exec _ _ _ _ (send_runs _) Hb). }
  exists t0', t1, t2, r. by rewrite app_nil_r.
Qed.

End runs.

(** ** The path stays on the tmpfs *)

Lemma split_no_slash cur a : index_byte a "/" = None -> split_slash cur a = [cur +:+ a].
Proof.
  revert cur. induction a as [|c a IH]; intros cur Ha; cbn in *; [by rewrite append_nil_r|].
  destruct (Ascii.eqb c "/") eqn:Hc; [done|]. destruct (index_byte a "/") eqn:Hi; [done|].
  rewrite IH by done. by rewrite append_assoc.
Qed.

(** A job whose id has no slash is printed from its own file on the tmpfs.
    Every id the cloud dispatches is a UUID and has none. *)
Theorem tmpfs_path_confined jobID :
  index_byte jobID "/" = None -> tmpfsPath jobID = "/dev/shm/automail-" +:+ jobID +:+ ".pdf".
Proof.
  intros Hj. unfold tmpfsPath, filepath_Join, tmpfsDir, clean_rooted.
  assert (index_byte ("automail-" +:+ jobID +:+ ".pdf") "/" = None) as Hn.
  { assert (forall a b, index_byte a "/" = None -> index_byte b "/" = None -> index_byte (a +:+ b) "/" = None) as Happ.
    { intros a b Ha Hb. induction a as [|c a IH]; [done|]. rewrite append_cons. cbn [index_byte] in *.
      destruct (Ascii.eqb c "/"); [done|]. destruct (index_byte a "/"); [done|]. by rewrite IH. }
    repeat apply Happ; done. }
  set (name := "automail-" +:+ jobID +:+ ".pdf") in *.
  assert (split_slash EmptyString ("/dev/shm" +:+ "/" +:+ name) = [EmptyString; "dev"; "shm"; name]) as ->.
  { change (split_slash EmptyString ("/dev/shm" +:+ "/" +:+ name))
      with (EmptyString :: "dev" :: "shm" :: split_slash EmptyString name).
    by rewrite split_no_slash. }
  cbn. assert (clean_elem ["shm"; "dev"] name = [name; "shm"; "dev"]) as -> by done.
  cbn [rev foldr app]. rewrite append_nil_r. done.
Qed.

(** A job id from elsewhere is not sanitised. *)
Example job_id_escapes_tmpfs : tmpfsPath "x/../../../etc/passwd" = "/etc/passwd.pdf".
Proof. reflexivity. Qed.

(** ** The passphrase *)

(** C32: The printer forgets its passphrase.  Loading the document key reads the
    passphrase from the environment once, removes it from the environment before
    anything else, reads the key file, and when it returns, on every path, the
    copy of the passphrase is zero; arrays that existed before are untouched. *)
Theorem passphrase_forgotten `{!CryptoLib} `{!CryptoLaws _} keyPath h t h' r :
  exec (loadDocKey keyPath h) t (h', r) ->
  (t = [PEv (Getenv "PRINTER_KEY_PASSPHRASE") EmptyString] /\ h' = h /\ exists e, r = Err e)
  \/ exists pass file,
       pass <> EmptyString
       /\ t = [PEv (Getenv "PRINTER_KEY_PASSPHRASE") pass; PEv (Unsetenv "PRINTER_KEY_PASSPHRASE") tt;
               PEv (OsReadFile keyPath) file]
       /\ h' !! length h = Some (replicate (length (string_bytes pass)) x00)
       /\ (forall i, i < length h -> h' !! i = h !! i)
       /\ r = match file with
              | Err e => Err e
              | Ok pem => (loadPrinterPrivateKey pem (Slice (length h) 0 (length (string_bytes pass)))
                             (h ++ [string_bytes pass])).2
              end.
Proof.
  unfold loadDocKey, mbind, hprog_bind, io, on_mem, defer, mret, hprog_ret. cbn.
  destruct t as [|e0 t]; [done|]. intros (pass & -> & He).
  destruct (String.eqb_spec pass EmptyString) as [Hp|Hp]; [subst pass|].
  { destruct He as [-> [= -> ->]]. left. eauto. }
  right. cbn in He. destruct t as [|e1 t]; [done|]. destruct He as ([] & -> & He).
  cbn in He. destruct t as [|e2 t]; [done|]. destruct He as (file & -> & He). exists pass, file.
  set (b := string_bytes pass) in *. set (h1 := h ++ [b]) in *.
  assert (forall g : heap, g !! length h = Some b -> (forall i, i < length h -> g !! i = h !! i) ->
    zeroBytes (Slice (length h) 0 (length b)) g !! length h = Some (replicate (length b) x00)
    /\ forall i, i < length h -> zeroBytes (Slice (length h) 0 (length b)) g !! i = h !! i) as Hz.
  { intros g Hg Hold. split.
    - rewrite zeroBytes_spec by (exists b; split; [done|cbn; lia]). cbn. rewrite list_lookup_alter, decide_True, Hg by done.
      cbn. by rewrite drop_all, app_nil_r.
    - intros i Hi. rewrite zeroBytes_other by (cbn; lia). auto. }
  assert (forall i, i < length h -> h1 !! i = h !! i) as Hold by (intros i Hi; by apply lookup_app_l).
  assert (h1 !! length h = Some b) as Hb by (unfold h1; by rewrite lookup_app_r, Nat.sub_diag by lia).
  destruct file as [pem|e]; cbn in He; destruct He as [-> [= -> ->]].
  - pose proof (loadPrinterPrivateKey_keeps pem (Slice (length h) 0 (length b)) h1) as Hk. unfold keeps in Hk.
    assert (length h1 = length h + 1) as Hl by (unfold h1; by rewrite length_app).
    destruct (Hz (loadPrinterPrivateKey pem (Slice (length h) 0 (length b)) h1).1) as [H1 H2].
    + rewrite Hk by lia. done.
    + intros i Hi. rewrite Hk by lia. auto.
    + done.
  - by destruct (Hz h1 Hb Hold) as [H1 H2].
Qed.
