(* ===== verification/Client.v ===== *)
(** * The printer service: its connection to the cloud

    services/printer/wsclient.go, keepalive.go, mtls.go, health.go and the main
    function of main.go. *)

From S2P Require Import Prelude GoStrings Base64 Json Memory Sha2 Crypto Printer Pipeline.
From stdpp Require Import pretty.

(** ** Backoff *)

(** [1 << n] on an int64. *)
Definition shl64 (x n : Z) : Z := if (64 <=? n)%Z then 0%Z else int64 (Z.shiftl x n).

(** The bound the jitter is drawn below. *)
Definition backoffBase (attempt maxBackoff : Z) : Z :=
  let attempt := if (attempt <? 1)%Z then 1%Z else attempt in
  let base := int64 (shl64 1 (attempt - 1) * second) in
  if (maxBackoff <? base)%Z || (base <=? 0)%Z then maxBackoff else base.

Definition backoffWithJitter (attempt maxBackoff : Z) : printer Z :=
  let base := backoffBase attempt maxBackoff in
  if (base <=? 0)%Z then Ret 0%Z else do (RandInt63n base).

(** ** One connection *)

Section client.
(** Whether a PEM file holds at least one certificate. *)
Context (append_certs : bytes -> bool).

(** [Ok tt]: a configuration with the CA pool and the client certificate. *)
Definition newMTLSClientConfig (cfg : config) : printer (result unit) :=
  ca ← do (OsReadFile (MTLSCACertPath cfg));
  match ca with
  | Err e => Ret (Err (ErrWrap "read CA cert" e))
  | Ok caCert =>
      if negb (append_certs caCert) then
        Ret (Err (ErrText ("failed to parse internal CA cert at " +:+ MTLSCACertPath cfg)))
      else
        c ← do (LoadX509KeyPair (MTLSCertPath cfg) (MTLSKeyPath cfg));
        match c with
        | Err e => Ret (Err (ErrWrap "load client cert/key" e))
        | Ok _ => Ret (Ok tt)
        end
  end.

(** The error the connection ended with; [WsCloseNow] is deferred after the dial
    and [CancelConn] after the two first frames (and called once more by hand). *)
Definition connectAndServe (cfg : config) : printer error :=
  tls ← newMTLSClientConfig cfg;
  match tls with
  | Err e => Ret e
  | Ok _ =>
      d ← do (WsDial (CloudServerWSURL cfg));
      match d with
      | Err e => Ret e
      | Ok _ =>
          s ← do Snapshot;
          r ← do (WsWriteFrame (enc_Frame (registerFrame (MailboxID cfg) s.2)));
          match r with
          | Err e => do WsCloseNow;; Ret e
          | Ok _ =>
              log "printer: registered mailbox %s with cloud server" [MailboxID cfg];;
              do (SetConnected true);;
              w ← do (WsWriteFrame (enc_Frame (stateFrame s.1 s.2)));
              match w with
              | Err e => do WsCloseNow;; Ret e
              | Ok _ =>
                  do GoKeepalive;;
                  do GoReadLoop;;
                  err ← do WaitErrCh;
                  do CancelConn;;
                  do CancelConn;;
                  do WsCloseNow;;
                  Ret err
              end
          end
      end
  end.

(** One turn of the goroutine [GoReadLoop] starts. *)
Definition readTurn : printer (unit + error) :=
  r ← do WsReadFrame;
  match r with
  | Err e => Ret (inr e)
  | Ok j =>
      match dec_Frame zero_Frame j with
      | None => Ret (inr (ErrText "failed to unmarshal JSON"))
      | Some frame =>
          (if String.eqb (pf_Type frame) "dispatch" then do (GoHandleDispatch frame)
           else log "printer: ignoring unknown frame type %q" [pf_Type frame]);;
          Ret (inl tt)
      end
  end.

Definition readLoop (fuel : nat) : printer (option error) := loop fuel (fun _ => readTurn) tt.

(** One turn of the goroutine [GoKeepalive] starts. *)
Definition keepaliveTurn (interval : Z) : printer (unit + error) :=
  ev ← do (SelectTick interval);
  match ev with
  | TickDone => Ret (inr (ErrText "context canceled"))
  | TickFired =>
      s ← do Snapshot;
      send (stateFrame s.1 s.2);;
      p ← do (WsPing interval);
      match p with
      | Err e => log "printer: ping failed: %v" [err_text e];; Ret (inr e)
      | Ok _ => Ret (inl tt)
      end
  end.

Definition runKeepalive (fuel : nat) (interval : Z) : printer (option error) :=
  loop fuel (fun _ => keepaliveTurn interval) tt.

(** ** The reconnect loop *)

Definition clientTurn (cfg : config) (attempt : Z) : printer (Z + unit) :=
  c ← do CtxErr;
  if (c : bool) then Ret (inr tt)
  else
    err ← connectAndServe cfg;
    log "printer: connection attempt failed: %v" [err_text err];;
    do (SetConnected false);;
    let attempt := int64 (attempt + 1) in
    wait ← backoffWithJitter attempt (ReconnectMaxBack cfg);
    log "printer: reconnecting in %s (attempt %d)" [pretty wait; pretty attempt];;
    ev ← do (SelectBackoff wait);
    match ev with
    | WaitDone => Ret (inr tt)
    | WaitElapsed => Ret (inl attempt)
    end.

(** [None]: the process still runs after [fuel] attempts. *)
Definition runClient (fuel : nat) (cfg : config) : printer (option unit) := loop fuel (clientTurn cfg) 0%Z.

End client.

(** ** Health *)

Definition setConnected (v : bool) : printer unit := do (SetConnected v).

Definition healthzHandler : printer unit :=
  do (SetHeader "Content-Type" "application/json");;
  c ← do LoadConnected;
  do (WriteBody (JObj [("connected", JBool c); ("status", JStr "ok")])).

(** The goroutine [GoHealthServer] starts; its last line ends the process. *)
Definition startHealthServer (addr : string) : printer unit :=
  log "printer: healthcheck listener on %s" [addr];;
  e ← do (ListenAndServe addr);
  log "healthcheck listener failed: %v" [err_text e].

(** ** The process (main.go)

    [None] is an exit through [log.Fatalf]; [Some None] says that the client
    still runs after [fuel] connections.  [NewSlotState] makes the counters that
    [Snapshot] and [RecordDelivery] work on. *)
Section process.
Context {C : CryptoLib} (append_certs : bytes -> bool).

(** Everything after the configuration is read. *)
Definition startPrinter (fuel : nat) (cfg : config) : hprog (option (option unit)) :=
  io (do SignalNotify);;
  k ← loadDocKey (PrinterPrivateKeyPath cfg);
  match k with
  | Err e => io (log "printer: load document private key: %v" [err_text e]);; mret None
  | Ok key =>
      io (do (NewSlotState (SlotID cfg)));;
      io (do (GoHealthServer (ListenAddr cfg)));;
      io (log "printer: starting (mailbox_id=%s dev_mode=%v)"
            [MailboxID cfg; if DevMode cfg then "true" else "false"]);;
      r ← io (runClient append_certs fuel cfg);
      match r with
      | None => mret (Some None)
      | Some _ =>
          io (log "printer: shutting down" []);;
          io (do StopSignals);;
          mret (Some (Some tt))
      end
  end.

Definition main (getenv : string -> string) (fuel : nat) : hprog (option (option unit)) :=
  match loadConfig getenv with
  | Err e => io (log "%s" [err_text e]);; mret None
  | Ok cfg => startPrinter fuel cfg
  end.

(** Anything the outside can see: a socket, a listener, a job. *)
Definition outward (e : pevent) : bool :=
  match ev_call e with
  | GoHealthServer _ | WsDial _ | WsWriteFrame _ | WsReadFrame | GoHandleDispatch _ | LpRun _ _ | HttpDo _ => true
  | _ => false
  end.

Definition forgets_passphrase (e : pevent) : bool :=
  match ev_call e with Unsetenv k => String.eqb k "PRINTER_KEY_PASSPHRASE" | _ => false end.

Lemma loadDocKey_inward path h :
  wp (loadDocKey path h) (fun t x => count outward t = 0%nat
    /\ match x.2 with Ok _ => List.existsb forgets_passphrase t = true | Err _ => True end).
Proof.
  unfold loadDocKey, mbind, hprog_bind, io, on_mem, defer, mret, hprog_ret. cbn. intros pass.
  destruct (String.eqb pass EmptyString); cbn; [done|]. intros [] [pem|e]; cbn; [|done].
  split; [done|]. by destruct (loadPrinterPrivateKey _ _ _) as [? []].
Qed.

(** The printer opens nothing before it holds its key and has removed the
    passphrase from its environment, so no child process can inherit it; a
    process without configuration or key exits having opened nothing. *)
Theorem main_loads_key_first getenv fuel h t h' o :
  exec (main getenv fuel h) t (h', o) ->
  after forgets_passphrase outward t /\ (o = None -> count outward t = 0%nat).
Proof.
  unfold main. destruct (loadConfig getenv) as [cfg|e].
  2:{ intros H. destruct t as [|ev t]; [done|]. destruct H as ([] & -> & -> & _). split; [|done].
      by apply after_b_spec. }
  unfold startPrinter, mbind, hprog_bind, io. cbn.
  destruct t as [|ev t]; [done|]. intros ([] & -> & H).
  apply exec_bind in H as (t1 & t2 & [h1 k] & -> & Hk & H).
  apply (wp_exec _ _ _ _ (loadDocKey_inward _ _)) in Hk as [Hq Hpass]. cbn in H, Hpass.
  destruct k as [key|e].
  - split.
    + apply after_b_spec. cbn. rewrite after_b_app, (after_b_quiet _ _ _ _ Hq), Hpass. apply after_b_seen.
    + intros ->. exfalso.
      match type of H with exec ?p _ _ => assert (wp p (fun _ x => x.2 <> None)) as Hw end.
      { cbn. intros [] [] []. apply wp_bind, wp_bind, exec_wp. intros t3 [r|] _; [|done]. cbn. by intros [] []. }
      by apply (wp_exec _ _ _ _ Hw) in H.
  - cbn in H. destruct t2 as [|e2 t2]; [done|]. destruct H as ([] & -> & -> & _).
    assert (count outward (PEv SignalNotify tt :: t1 ++ [PEv (Log "printer: load document private key: %v"
      [err_text e]) tt]) = 0%nat) as H0 by by rewrite count_cons, count_app, Hq.
    split; [|done]. by apply after_b_spec, after_b_quiet.
Qed.

End process.

(** ** Backoff stays in bounds *)

Lemma int64_multiple z k : (0 <= k <= 63)%Z -> (z mod 2 ^ k = 0)%Z -> (int64 z mod 2 ^ k = 0)%Z.
Proof.
  intros Hk Hz. unfold wrap_signed. change (64 - 1)%Z with 63%Z.
  apply Z.mod_divide in Hz as [q ->]; [|apply Z.pow_nonzero; lia].
  assert (2 ^ 63 = 2 ^ (63 - k) * 2 ^ k)%Z as H63 by (rewrite <- Z.pow_add_r by lia; f_equal; lia).
  assert (2 ^ 64 = 2 ^ (64 - k) * 2 ^ k)%Z as H64 by (rewrite <- Z.pow_add_r by lia; f_equal; lia).
  rewrite H63, H64, <- Z.mul_add_distr_r, Z.mul_mod_distr_r, <- Z.mul_sub_distr_r by (apply Z.pow_nonzero; lia).
  apply Z.mod_mul, Z.pow_nonzero; lia.
Qed.

(** A shifted duration that no longer fits is a multiple of 2^43 ns. *)
Lemma shifted_large k : (34 <= k)%Z -> (int64 (shl64 1 k * second) mod 2 ^ 43 = 0)%Z.
Proof.
  intros Hk. apply int64_multiple; [lia|]. unfold shl64. destruct (Z.leb_spec 64 k); [done|].
  assert (int64 (Z.shiftl 1 k) mod 2 ^ 34 = 0)%Z as H34.
  { apply int64_multiple; [lia|]. rewrite Z.shiftl_1_l. replace k with ((k - 34) + 34)%Z by lia.
    rewrite Z.pow_add_r by lia. apply Z.mod_mul. done. }
  apply Z.mod_divide in H34 as [q ->]; [|done]. apply Z.mod_divide; [done|].
  exists (q * 1953125)%Z. unfold second. change (2 ^ 34)%Z with 17179869184%Z. change (2 ^ 43)%Z with 8796093022208%Z. lia.
Qed.

(** C34: The reconnect backoff doubles and is capped, with no overflow to escape
    the cap.  For every attempt number and every cap up to 2^43 ns (about two
    hours), the bound the jitter is drawn below is the smaller of 2^(attempt-1)
    seconds and the cap, although the shift and the product wrap around for large
    attempts; the random draw is always asked for a positive range, and the wait
    is inside it. *)
Theorem backoff_bounds attempt maxBackoff t w :
  (1 <= attempt)%Z -> (0 < maxBackoff <= 2 ^ 43)%Z ->
  exec (backoffWithJitter attempt maxBackoff) t w ->
  let bound := Z.min (2 ^ (attempt - 1) * second) maxBackoff in
  t = [PEv (RandInt63n bound) w] /\ (0 < bound)%Z.
Proof.
  intros Ha Hm He. cbn zeta. set (k := (attempt - 1)%Z).
  assert (0 < 2 ^ k)%Z as Hpow by (apply Z.pow_pos_nonneg; lia).
  assert (backoffBase attempt maxBackoff = Z.min (2 ^ k * second) maxBackoff) as Hb.
  { unfold backoffBase. destruct (Z.ltb_spec attempt 1); [lia|]. fold k.
    change (2 ^ 43)%Z with 8796093022208%Z in *. unfold second in *.
    destruct (Z.le_gt_cases k 33) as [Hk|Hk].
    - assert (2 ^ k <= 2 ^ 33)%Z as Hle by (apply Z.pow_le_mono_r; lia). change (2 ^ 33)%Z with 8589934592%Z in Hle.
      assert (shl64 1 k = 2 ^ k)%Z as ->.
      { unfold shl64. destruct (Z.leb_spec 64 k); [lia|]. rewrite Z.shiftl_1_l. apply wrap_signed_id; [lia|].
        change (2 ^ (64 - 1))%Z with 9223372036854775808%Z. lia. }
      rewrite wrap_signed_id; [|lia|change (2 ^ (64 - 1))%Z with 9223372036854775808%Z; lia].
      destruct (Z.ltb_spec maxBackoff (2 ^ k * 1000000000)); destruct (Z.leb_spec (2 ^ k * 1000000000) 0); cbn; lia.
    - assert (2 ^ 34 <= 2 ^ k)%Z as Hle by (apply Z.pow_le_mono_r; lia). change (2 ^ 34)%Z with 17179869184%Z in Hle.
      pose proof (shifted_large k ltac:(lia)) as Hmul. unfold second in Hmul.
      apply Z.mod_divide in Hmul as [q Hq]; [|done]. change (2 ^ 43)%Z with 8796093022208%Z in Hq. rewrite Hq.
      destruct (Z.ltb_spec maxBackoff (q * 8796093022208)); destruct (Z.leb_spec (q * 8796093022208) 0); cbn; lia. }
  unfold backoffWithJitter in He. rewrite Hb in He. unfold second in *.
  destruct (Z.leb_spec (Z.min (2 ^ k * 1000000000) maxBackoff) 0); [lia|].
  destruct t as [|e [|e' t]]; [done| |by destruct He as (? & _ & ? & _)].
  destruct He as (r & -> & _ & ->). split; [done|lia].
Qed.

(** ** The connection *)





Section props.
Context (append_certs : bytes -> bool).



(** ** Receiving *)

(** The frames read, and the frames handed to a goroutine. *)
Definition read_frames (t : trace printer_sig) : list Frame :=
  omap (fun e : pevent => match e with existT WsReadFrame (Ok j) => dec_Frame zero_Frame j | _ => None end) t.
Definition handed (t : trace printer_sig) : list Frame :=
  omap (fun e : pevent => match ev_call e with GoHandleDispatch f => Some f | _ => None end) t.

Definition is_dispatch (f : Frame) : bool := String.eqb (pf_Type f) "dispatch".

(** Every dispatch frame is handed to exactly one goroutine, in the order
    received, and nothing else is.  The loop sends nothing itself, and it leaves
    only with the error of a read. *)
Theorem readLoop_hands_over fuel t r :
  exec (readLoop fuel) t r ->
  handed t = List.filter is_dispatch (read_frames t) /\ sent t = [].
Proof.
  revert t r. apply wp_runs. unfold readLoop.
  apply (wp_loop (fun _ => readTurn)
    (fun t _ => handed t = List.filter is_dispatch (read_frames t) /\ sent t = [])
    (fun t _ => handed t = List.filter is_dispatch (read_frames t) /\ sent t = [])) with (t := []); [auto| |done].
  intros t [] [Hh Hs]. unfold handed, read_frames, sent in *. unfold readTurn. cbn.
  intros [j|e]; cbn; [|by rewrite !omap_app, Hh, Hs, !app_nil_r].
  destruct (dec_Frame zero_Frame j) as [f|] eqn:Hj; cbn.
  - assert (handed [PEv WsReadFrame (Ok j)] = []) as _ by done.
    destruct (String.eqb (pf_Type f) "dispatch") eqn:Hd; cbn; intros [];
      rewrite !omap_app, Hh, Hs, List.filter_app; cbn; unfold is_dispatch; rewrite Hj; cbn; by rewrite Hd.
  - rewrite !omap_app, Hh, Hs, !app_nil_r. cbn. by rewrite Hj, app_nil_r.
Qed.

(** ** Keeping alive *)

Definition ticks (e : pevent) : bool := match e with existT (SelectTick _) TickFired => true | _ => false end.
Definition pings (e : pevent) : bool := match ev_call e with WsPing _ => true | _ => false end.

(** The state frames the counters' snapshots call for. *)
Definition snapshots (t : trace printer_sig) : list json :=
  omap (fun e : pevent => match e with existT Snapshot s => Some (enc_Frame (stateFrame s.1 s.2)) | _ => None end) t.

(** Every heartbeat refreshes the cloud's view of the printer.  Each tick
    sends exactly one state frame with the counters as they were at that tick,
    followed by one ping; and the loop ends only when its context is cancelled or
    a ping fails. *)
Theorem keepalive_refreshes fuel interval t r :
  exec (runKeepalive fuel interval) t r ->
  sent t = snapshots t /\ length (sent t) = count ticks t /\ count pings t = count ticks t.
Proof.
  revert t r. apply wp_runs. unfold runKeepalive.
  set (I := fun t : trace printer_sig => sent t = snapshots t /\ length (sent t) = count ticks t /\ count pings t = count ticks t).
  apply (wp_loop (fun _ => keepaliveTurn interval) (fun t _ => I t) (fun t _ => I t)) with (t := []); [auto| |done].
  intros t [] (H1 & H2 & H3).
  assert (forall t', sent t' = snapshots t' -> length (sent t') = count ticks t' -> count pings t' = count ticks t' ->
    I (t ++ t')) as Happ.
  { intros t' H1' H2' H3'. unfold I. rewrite !count_app. unfold sent, snapshots in *.
    rewrite !omap_app, H1, H1', length_app, <- H1, <- H1'. split_and!; [done| |]; lia. }
  unfold keepaliveTurn. cbn. intros []; cbn; [by apply Happ|].
  intros s [[]|e]; cbn.
  - intros [[]|e']; cbn; [by apply Happ|]. intros []. by apply Happ.
  - intros [] [[]|e']; cbn; [by apply Happ|]. intros []. by apply Happ.
Qed.

(** ** Reconnecting *)

Definition marks_down (e : pevent) : bool := match ev_call e with SetConnected false => true | _ => false end.

(** The client only stops when its context is cancelled, and counts every
    connection that ended, however long it lived.  A turn that goes on has added
    one to the attempt counter, whether the connection failed at once or served
    for hours: the counter is never reset.  It has first marked the service as
    not connected and then waited out a backoff drawn for the new attempt. *)
Theorem client_turn cfg attempt t x :
  exec (clientTurn append_certs cfg attempt) t x ->
  match x with
  | inr _ => t = [PEv CtxErr true] \/ exists t0 w, t = t0 ++ [PEv (SelectBackoff w) WaitDone]
  | inl a =>
      a = int64 (attempt + 1)
      /\ exists t1 t2 w l1 l2, t = t1 ++ PEv (SetConnected false) tt :: t2 ++ [PEv (Log l1 l2) tt; PEv (SelectBackoff w) WaitElapsed]
         /\ exec (backoffWithJitter a (ReconnectMaxBack cfg)) t2 w
  end.
Proof.
  unfold clientTurn. intros He. destruct t as [|e0 t]; [done|]. destruct He as ([] & -> & He).
  { destruct He as [-> ->]. by left. }
  change (exec (connectAndServe append_certs cfg ≫= fun err =>
    log "printer: connection attempt failed: %v" [err_text err];; do (SetConnected false);;
    wait ← backoffWithJitter (int64 (attempt + 1)) (ReconnectMaxBack cfg);
    log "printer: reconnecting in %s (attempt %d)" [pretty wait; pretty (int64 (attempt + 1))];;
    ev ← do (SelectBackoff wait);
    match ev with WaitDone => Ret (inr tt) | WaitElapsed => Ret (inl (int64 (attempt + 1))) end) t x) in He.
  apply exec_bind in He as (t1 & t2 & err & -> & H1 & He).
  destruct t2 as [|e1 t2]; [done|]. destruct He as ([] & -> & He). destruct t2 as [|e2 t2]; [done|].
  destruct He as ([] & -> & He).
  change (exec (backoffWithJitter (int64 (attempt + 1)) (ReconnectMaxBack cfg) ≫= fun wait =>
    log "printer: reconnecting in %s (attempt %d)" [pretty wait; pretty (int64 (attempt + 1))];;
    ev ← do (SelectBackoff wait);
    match ev with WaitDone => Ret (inr tt) | WaitElapsed => Ret (inl (int64 (attempt + 1))) end) t2 x) in He.
  apply exec_bind in He as (t3 & t4 & w & -> & Hw & He).
  destruct t4 as [|e4 t4]; [done|]. destruct He as ([] & -> & He).
  destruct t4 as [|e5 t4]; [done|]. destruct He as ([] & -> & [-> ->]).
  - right. eexists (_ :: t1 ++ [_; _] ++ t3 ++ [_]), w. cbn. rewrite <- !app_assoc. cbn. rewrite <- !app_assoc. done.
  - split; [done|]. eexists (_ :: t1 ++ [_]), t3, w, _, _. split; [|exact Hw]. cbn. rewrite <- !app_assoc. done.
Qed.

End props.
