(* ===== verification/Wire.v ===== *)
(** * The wire between the cloud and the printer

    The two services are separate programs with their own frame types; the JSON
    they exchange is the interface.  This file relates the encoders of one side
    to the decoders of the other, and puts the cloud's dispatch frame in front of
    the printer's pipeline. *)

From S2P Require Import Prelude GoStrings Base64 Json Keys Db Calls Store Minio Dispatch Link.
From S2P Require Import Memory Sha2 Crypto Printer Pipeline.

(** ** Printer to cloud *)

Definition toWire (f : Printer.Frame) : Link.Frame :=
  {| f_Type := pf_Type f; f_MailboxID := pf_MailboxID f;
     f_SlotOccupancy := (fun s => {| ws_Current := si_Current s; ws_Max := si_Max s |}) <$> pf_SlotOccupancy f;
     f_Status := pf_Status f; f_JobID := pf_JobID f; f_Error := pf_Error f;
     f_EncryptedKey := pf_EncryptedKey f; f_BlobURL := pf_BlobURL f |}.

Definition enc_WireSlot (s : WireSlot) : json := JObj [("current", JInt (ws_Current s)); ("max", JInt (ws_Max s))].

Definition wire_fits (s : WireSlot) : Prop :=
  (- 2 ^ 63 <= ws_Current s < 2 ^ 63)%Z /\ (- 2 ^ 63 <= ws_Max s < 2 ^ 63)%Z.

Lemma dec_enc_WireSlot : dec_enc Link.dec_WireSlot enc_WireSlot wire_fits.
Proof.
  intros old [c m] [Hc Hm]. cbn in Hc, Hm.
  unfold Link.dec_WireSlot, enc_WireSlot. cbn -[dec_int].
  rewrite dec_int_int64 by exact Hc. cbn -[dec_int].
  by rewrite dec_int_int64 by exact Hm.
Qed.

(** The object the printer writes for its counters is the one the cloud's type
    would write. *)
Lemma enc_slots_wire (m : gmap string SlotInfo) :
  enc_map enc_SlotInfo m = enc_map enc_WireSlot ((fun s => {| ws_Current := si_Current s; ws_Max := si_Max s |}) <$> m).
Proof.
  unfold enc_map. f_equal. rewrite dom_fmap_L.
  induction (sort_strings (elements (dom m))) as [|k ks IH]; cbn; [done|].
  rewrite lookup_fmap, IH. by destruct (m !! k).
Qed.

Lemma omitempty_map_wire (m : gmap string SlotInfo) (name : string) (ms : list (string * json)) :
  omitempty_map name enc_SlotInfo m ++ ms
  = (if decide (m = ∅) then ms
     else (name, enc_map enc_WireSlot ((fun s => {| ws_Current := si_Current s; ws_Max := si_Max s |}) <$> m)) :: ms).
Proof. unfold omitempty_map. rewrite enc_slots_wire. by case_decide. Qed.

(** C33: The cloud reads every frame the printer can write, field by field, as the
    frame the printer meant; fields left out by omitempty read back as the zero
    values they stand for. *)
Theorem printer_frames_understood f :
  frame_fits f -> Link.dec_Frame Link.zero_Frame (Printer.enc_Frame f) = Some (toWire f).
Proof.
  intros Hf. destruct f as [ty mb slots st job er key url]. unfold Printer.enc_Frame. cbn [pf_Type pf_MailboxID
    pf_SlotOccupancy pf_Status pf_JobID pf_Error pf_EncryptedKey pf_BlobURL].
  rewrite omitempty_map_wire. unfold toWire. cbn [pf_Type pf_MailboxID
    pf_SlotOccupancy pf_Status pf_JobID pf_Error pf_EncryptedKey pf_BlobURL].
  set (ws := _ <$> slots).
  assert (map_Forall (fun _ => wire_fits) ws) as Hws.
  { unfold ws. apply map_Forall_fmap. exact Hf. }
  pose proof (dec_map_enc _ _ Link.zero_WireSlot _ dec_enc_WireSlot ws Hws) as Hdec.
  destruct (decide (slots = ∅)) as [->|Hne].
  - assert (ws = ∅) as -> by apply fmap_empty.
    destruct mb, st, job, er, key, url; reflexivity.
  - destruct mb, st, job, er, key, url; unfold Link.dec_Frame; cbn -[enc_map dec_map]; rewrite Hdec; reflexivity.
Qed.

(** ** Cloud to printer *)

(** The frame a dispatch becomes on the printer. *)
Definition dispatchFrame (jobID encryptedKey blobURL : string) : Printer.Frame :=
  {| pf_Type := "dispatch"; pf_MailboxID := EmptyString; pf_SlotOccupancy := ∅; pf_Status := EmptyString;
     pf_JobID := jobID; pf_Error := EmptyString; pf_EncryptedKey := encryptedKey; pf_BlobURL := blobURL |}.

Lemma dispatch_received jobID encryptedKey blobURL :
  Printer.dec_Frame Printer.zero_Frame (enc_dispatchPayload jobID encryptedKey blobURL)
  = Some (dispatchFrame jobID encryptedKey blobURL).
Proof. reflexivity. Qed.

Section end_to_end.
Context {C : CryptoLib}.

(** C4: What the sender encrypted is what the printer prints.  Take a document
    the sender encrypted under a 32-byte key, the blob being the 12-byte IV and
    the GCM ciphertext, and the key wrapped for this printer.  The frame the
    cloud publishes for the job, with the wrapped key in base64, is read by the
    printer as a dispatch; and every run of the printer's pipeline on it in which
    fetching, writing, printing and removing succeed returns nil, having written
    exactly that document to the job's file and printed it. *)
Theorem sent_document_is_printed jobID wrapped url key k iv ct pdf blob :
  DecryptAESKey key wrapped = Ok k -> length k = 32%nat -> length iv = 12%nat ->
  blob = iv ++ ct -> gcm_open k iv ct = Ok pdf ->
  exists frame,
    Printer.dec_Frame Printer.zero_Frame (enc_dispatchPayload jobID (std_encode wrapped) url) = Some frame
    /\ pf_Type frame = "dispatch"
    /\ forall cfg h t h' r,
        exec (processJob frame cfg key h) t (h', r) -> Forall (cooperative blob) t ->
        r = None /\ PEv (OsWriteFile (tmpfsPath jobID) pdf 384) (Ok tt) ∈ t
        /\ print_event frame cfg (tmpfsPath jobID) pdf ∈ t.
Proof.
  intros Hk Hlen Hiv -> Hopen. eexists. split; [apply dispatch_received|]. split; [done|].
  intros cfg h t h' r He Hco.
  apply (good_job_is_printed _ _ _ _ _ _ _ _ wrapped k pdf He Hco); [apply std_decode_encode|done|].
  unfold DecryptDocument, aes_NewCipher, gcm_nonce_size. rewrite Hlen. cbn [Nat.eqb negb].
  rewrite length_app, Hiv. destruct (Nat.ltb_spec (12 + length ct) 12); [lia|].
  by rewrite <- Hiv, take_app_length, drop_app_length.
Qed.

End end_to_end.
