(* ===== verification/Scenarios.v ===== *)
(** * Concrete runs of the dispatch path

    Every theorem about runs of the store and dispatch packages, applied to a
    run against the reference environment in which its hypotheses hold. *)

From S2P Require Import Prelude GoStrings Base64 Json Keys Db Calls Store Minio Dispatch Dispatcher Env Groups Sql System Link.
From Stdlib Require Import Ascii.

(** Job 1 for slot 1 of mailbox 1. *)
Definition job1 : JobRef := FromJob (Uuid 1) (Uuid 1) (Uuid 1) [Byte.x01; Byte.x02] "blobs/1".

Definition idle_state : PrinterState :=
  {| ps_Status := "idle"; ps_SlotOccupancy := <["0b1" := {| Current := 3; Max := 4 |}]> ∅ |}.

(** The printer is connected and idle and the job is fresh. *)
Definition ready : world :=
  {| w_kv := <[KeyPrinterState "0b1" := enc_PrinterState idle_state]> ∅; w_new := []; w_pel := ∅;
     w_next := 1; w_subs := [ChanDispatch "0b1"]; w_jobs := <[Uuid 1 := "submitted"]> ∅; w_marked := [] |}.

(** The printer's state is cached but nothing subscribes to its channel. *)
Definition unheard : world :=
  {| w_kv := w_kv ready; w_new := []; w_pel := ∅; w_next := 1; w_subs := [];
     w_jobs := w_jobs ready; w_marked := [] |}.

Definition queued_entry (id : string) : XMessage := {| msg_ID := id; msg_Values := xvalues (toXAddValues job1) |}.
Definition malformed_entry : XMessage := {| msg_ID := "0b10"; msg_Values := ∅ |}.

(** One entry owned by a dead consumer, one not yet delivered, one of them
    malformed. *)
Definition backlog : world :=
  {| w_kv := w_kv ready; w_new := [malformed_entry; queued_entry "0b11"];
     w_pel := <["0b1" := (queued_entry "0b1", "node-b")]> ∅;
     w_next := 4; w_subs := w_subs ready; w_jobs := w_jobs ready; w_marked := [] |}.

Abbreviation run_exec := (interp_exec (S := cloud_sig) env).

Definition node_a : Dispatcher := {| di_NodeID := "node-a"; di_SweepInt := 0; di_ReapIdle := 0 |}.

Lemma attempt_claim_accounted_witness :
  (run (attemptDispatch job1) unheard).2 = Ok blocked
  /\ (count commits (run (attemptDispatch job1) unheard).1.2 <= 1)%nat
  /\ count commits (run (attemptDispatch job1) unheard).1.2
     = (count reaches (run (attemptDispatch job1) unheard).1.2
        + count (requeues (Uuid 1)) (run (attemptDispatch job1) unheard).1.2)%nat.
Proof.
  destruct (attempt_claim_accounted job1 _ _ (run_exec (attemptDispatch job1) unheard))
    as (H1 & _ & H2 & _).
  split; [vm_compute; reflexivity|]. split; [exact H1|]. apply H2. vm_compute. reflexivity.
Defined.

Lemma publish_follows_claim_witness :
  count publishes (run (attemptDispatch job1) ready).1.2 = 1%nat
  /\ exists tx, after (locks tx (Uuid 1)) (marks tx (Uuid 1)) (run (attemptDispatch job1) ready).1.2
       /\ after (marks tx (Uuid 1)) tries_commit (run (attemptDispatch job1) ready).1.2
       /\ after commits publishes (run (attemptDispatch job1) ready).1.2.
Proof.
  split; [vm_compute; reflexivity|].
  destruct (publish_follows_claim job1 _ _ (run_exec (attemptDispatch job1) ready)) as [H _].
  replace (uuid_parse (jr_JobID job1)) with (Ok (Uuid 1)) in H by (vm_compute; reflexivity).
  exact H.
Defined.

Lemma fresh_job_out_or_queued_witness :
  (run (TryDispatch job1) ready).2 = Ok "dispatching"
  /\ (run (TryDispatch job1) unheard).2 = Ok "queued"
  /\ (count xadds (run (TryDispatch job1) ready).1.2 + count reaches (run (TryDispatch job1) ready).1.2 <= 1)%nat
  /\ (count xadds (run (TryDispatch job1) unheard).1.2 + count reaches (run (TryDispatch job1) unheard).1.2 <= 1)%nat.
Proof.
  split; [vm_compute; reflexivity|]. split; [vm_compute; reflexivity|]. split.
  - exact (proj1 (fresh_job_out_or_queued job1 _ _ (run_exec (TryDispatch job1) ready))).
  - exact (proj1 (fresh_job_out_or_queued job1 _ _ (run_exec (TryDispatch job1) unheard))).
Defined.

Lemma retry_outcome_witness :
  (run (Retry job1) ready).2 = Ok true
  /\ count on_stream (run (Retry job1) ready).1.2 = 0%nat.
Proof.
  split; [vm_compute; reflexivity|].
  exact (proj1 (retry_outcome job1 _ _ (run_exec (Retry job1) ready))).
Defined.

Lemma drain_bounded_witness :
  acked (run (drain node_a) backlog).1.2 = ["0b10"; "0b11"]
  /\ (count reads (run (drain node_a) backlog).1.2 <= maxDrainBatches)%nat.
Proof.
  split; [vm_compute; reflexivity|].
  exact (proj1 (drain_bounded node_a _ _ (run_exec (drain node_a) backlog))).
Defined.

Lemma handle_acks_settled_only_witness :
  acked (run (handle (queued_entry "0b11")) ready).1.2 = ["0b11"]
  /\ count stream_not_ack (run (handle (queued_entry "0b11")) ready).1.2 = 0%nat.
Proof.
  split; [vm_compute; reflexivity|].
  exact (proj1 (proj2 (handle_acks_settled_only (queued_entry "0b11") _ _
    (run_exec (handle (queued_entry "0b11")) ready)))).
Defined.

Lemma run_accounted_witness :
  acked (run (Run node_a 2 70) backlog).1.2 `sublist_of`
    (msg_ID <$> received (run (Run node_a 2 70) backlog).1.2).
Proof.
  exact (proj1 (proj2 (run_accounted node_a 2 70 _ _ (run_exec (Run node_a 2 70) backlog)))).
Defined.

Lemma drain_never_retries_pending_witness :
  env_pel backlog !! "0b1" = Some "node-b"
  /\ (msg_ID <$> received (run (drain node_a) backlog).1.2) = ["0b10"; "0b11"]
  /\ env_pel backlog ⊆ env_pel (run (drain node_a) backlog).1.1.
Proof.
  split; [vm_compute; reflexivity|]. split; [vm_compute; reflexivity|].
  exact (proj1 (drain_never_retries_pending env env_pel env_group node_a backlog)).
Defined.

Lemma reclaim_terminates_witness :
  (run (reclaim node_a (S max_id)) backlog).2 = Some tt
  /\ acked (run (reclaim node_a (S max_id)) backlog).1.2 = ["0b1"].
Proof.
  split; [|vm_compute; reflexivity].
  apply (reclaim_terminates env id_rank max_id env_cursor node_a (S max_id) backlog). lia.
Defined.

(** A sweep of [node-a] finds [node-b] stale. *)
Definition sweeping (n : nat) (c : cloud_call) : nat * cloud_res c :=
  match c as c return nat * cloud_res c with
  | SelectRun _ => (S n, if (n =? 0)%nat then RunSweep else RunDone)
  | RXInfoConsumers _ _ => (n, Ok [{| xic_Name := "node-b"; xic_Pending := 0; xic_Idle := 3600 * second |}])
  | c => (n, default_res c)
  end.

Definition sweep : trace cloud_sig := (interp (S := cloud_sig) sweeping (Run node_a 2 70) 0%nat).1.2.

Lemma sweep_runs : exec (Run node_a 2 70) sweep (interp (S := cloud_sig) sweeping (Run node_a 2 70) 0%nat).2.
Proof. exact (interp_exec (S := cloud_sig) sweeping (Run node_a 2 70) 0%nat). Qed.

(** The same run, and after its check of [node-b] that node comes back and is
    given the entry ["0b1"]. *)
Definition reap_race : list item :=
  mjoin ((fun e => if deletes e then [Other (OGive "0b1" "node-b"); Mine e] else [Mine e]) <$> sweep).

Definition pending (pel : pending_list) : group_state := {| g_pel := pel; g_gone := ∅ |}.

Lemma reap_race_mine : mine reap_race = sweep.
Proof. vm_compute. reflexivity. Qed.

Lemma reap_race_history : history (pending {["0b1" := "node-c"]}) reap_race (pending ∅).
Proof.
  let l := eval vm_compute in reap_race in change reap_race with l.
  do 7 (apply (history_cons _ _ (pending {["0b1" := "node-c"]}));
    [split; [done|first [reflexivity | by intros; left | by split; [|intros; apply map_Forall_singleton]]]|]).
  apply (history_cons _ _ (pending {["0b1" := "node-b"]})); [vm_compute; reflexivity|].
  apply (history_cons _ _ (pending ∅)); [split; [done|right; vm_compute; reflexivity]|].
  do 3 (apply (history_cons _ _ (pending ∅)); [by split|]). constructor.
Qed.

Lemma pending_entries_accounted_witness :
  exists l1 x l2 s1 owner, reap_race = l1 ++ x :: l2
    /\ history (pending {["0b1" := "node-c"]}) l1 s1 /\ g_pel s1 !! "0b1" = Some owner
    /\ match x with Other (ORemove id) => id = "0b1" | Other (ODelConsumer c) => c = owner
       | Other _ => False | Mine _ => True end.
Proof.
  destruct (pending_entries_accounted node_a 2 70 reap_race (pending {["0b1" := "node-c"]}) (pending ∅) "0b1")
    as (l1 & x & l2 & s1 & owner & Hl & Hh & Ho & Hx).
  - left. rewrite reap_race_mine. eexists. exact sweep_runs.
  - exact reap_race_history.
  - exists "node-c". vm_compute. reflexivity.
  - vm_compute. reflexivity.
  - exists l1, x, l2, s1, owner. split; [exact Hl|]. split; [exact Hh|]. split; [exact Ho|].
    destruct x; [exact I|exact Hx].
Defined.

(** The entry is gone, no node acknowledged it, nobody else removed it, and its
    message is still in the stream: the comment of [ReapStaleConsumers] that
    reaping can never destroy work is not so. *)
Example reap_race_loses_entry :
  exec (Run node_a 2 70) (mine reap_race) (interp (S := cloud_sig) sweeping (Run node_a 2 70) 0%nat).2
  /\ history (pending {["0b1" := "node-c"]}) reap_race (pending ∅)
  /\ acked (mine reap_race) = []
  /\ Forall (fun x => match x with Other o => o = OGive "0b1" "node-b" | Mine _ => True end) reap_race.
Proof.
  split; [rewrite reap_race_mine; exact sweep_runs|]. split; [exact reap_race_history|].
  split; [vm_compute; reflexivity|].
  let l := eval vm_compute in reap_race in change reap_race with l. repeat constructor.
Qed.

(** Without other clients, what a run takes out it acknowledged. *)
Example run_alone_keeps :
  acked (run (Run node_a 2 70) backlog).1.2 = ["0b10"; "0b11"]
  /\ env_pel (run (Run node_a 2 70) backlog).1.1 !! "0b1" = Some "node-b"
  /\ history (env_state backlog) (Mine <$> (run (Run node_a 2 70) backlog).1.2)
       (env_state (run (Run node_a 2 70) backlog).1.1).
Proof. split; [vm_compute; reflexivity|]. split; [vm_compute; reflexivity|]. apply env_history. Qed.

Definition stored : world := (run (SetPrinterState "0b1" idle_state) empty_world).1.1.

Lemma set_answers : (run (SetPrinterState "0b1" idle_state) empty_world).2 = Ok tt.
Proof. reflexivity. Qed.

Lemma stored_run : run (SetPrinterState "0b1" idle_state) empty_world
  = (stored, (run (SetPrinterState "0b1" idle_state) empty_world).1.2, Ok tt).
Proof. rewrite <- set_answers. unfold stored. by destruct (run _ empty_world) as [[w t] a]. Qed.

Lemma idle_int64 : state_int64 idle_state.
Proof. apply map_Forall_insert_2; [by vm_compute|apply map_Forall_empty]. Qed.

Lemma printer_state_roundtrip_witness :
  match (run (LookupPrinterState "0b1") stored).2 with Ok found => found = Some idle_state | Err _ => False end.
Proof.
  pose proof (printer_state_roundtrip env w_kv env_kv "0b1" "0b1" idle_state empty_world _ _
    idle_int64 stored_run) as H1.
  assert (match (run (LookupPrinterState "0b1") stored).2 with Ok _ => true | Err _ => false end = true) as Hok
    by (vm_compute; reflexivity).
  destruct (run (LookupPrinterState "0b1") stored).2 as [f1|e]; [|discriminate Hok].
  exact H1.
Defined.

(** ** Two nodes race for one job *)

Definition fresh_row : Job :=
  {| job_ID := Uuid 1; job_SenderID := None; job_GuestTokenHash := Some "t"; job_MailboxID := Uuid 1;
     job_SlotID := Uuid 1; job_EncryptedKey := []; job_BlobRef := "blobs/1"; job_PageCount := 1;
     job_Status := "submitted"; job_RetryCount := 0; job_BlobExpiresAt := None;
     job_BlobDeletedAt := None; job_CreatedAt := 0; job_DeliveredAt := None |}.

Definition one_job : database :=
  {| jobs := <[Uuid 1 := fresh_row]> ∅; audit_events := []; refresh_tokens := ∅; senders := ∅;
     mailboxes := ∅; mailbox_slots := ∅; residents := ∅; buildings := ∅ |}.

(** Redis knows the printer idle, and one node holds its socket. *)
Definition printer_up (c : cloud_call) : cloud_res c :=
  match c as c return cloud_res c with
  | RGet _ => Ok (enc_PrinterState idle_state)
  | RPublish _ _ => Ok 1%Z
  | c => default_res c
  end.

Definition node_try : cloud unit := TryDispatch job1 ≫= fun _ => Ret tt.

Definition two_nodes : sys :=
  {| s_threads := [node_try; node_try]; s_pg := s_pg (start one_job); s_log := []; s_lost := [] |}.

Lemma node_try_lawful : lawful Free node_try.
Proof. apply disciplined_lawful, disciplined_bind; [apply try_disciplined|]. intros a. done. Qed.

(** Both nodes see the printer idle and open a transaction; the first locks the
    row, the second is refused by NOWAIT and queues the job, the first
    publishes. *)
Definition answered (l : list nat) : list (nat * bool) := (fun i => (i, false)) <$> l.
Definition race : list (nat * bool) := answered [0; 1; 0; 1; 0; 1; 1; 1; 0; 0; 0; 0; 0; 0]%nat.
Definition raced : sys := schedule printer_up race two_nodes.

Lemma at_most_one_frame_witness :
  deliveries (Uuid 1) raced = 1%nat
  /\ count xadds (s_log raced) = 1%nat
  /\ taken_row (pg_db (s_pg raced)) (Uuid 1).
Proof.
  split; [vm_compute; reflexivity|]. split; [vm_compute; reflexivity|].
  apply (at_most_one_frame one_job raced (Uuid 1)); [|vm_compute; reflexivity..].
  eapply rtc_l; [exact (step_spawn (start one_job) node_try node_try_lawful)|].
  eapply rtc_l; [exact (step_spawn _ node_try node_try_lawful)|].
  exact (schedule_steps printer_up race two_nodes).
Defined.

(** The reply to a PUBLISH that the printer's node received is lost: the first
    node takes the error for a failure and hands the claim back, and the second
    sends the job again. *)
Definition lost_reply : list (nat * bool) :=
  answered (repeat 0%nat 7) ++ [(0%nat, true)] ++ answered (repeat 0%nat 1 ++ repeat 1%nat 9).
Definition sent_twice : sys := schedule printer_up lost_reply two_nodes.

Example lost_reply_dispatches_twice :
  deliveries (Uuid 1) sent_twice = 2%nat
  /\ count (unanswered (Uuid 1)) (s_log sent_twice) = 1%nat
  /\ count (reopens (Uuid 1)) (s_log sent_twice) = 0%nat.
Proof. vm_compute. done. Qed.

(** ** A printer's socket *)

(** The messages still to come; every job is known. *)
Definition socket_env (w : list json) (c : cloud_call) : list json * cloud_res c :=
  match c as c return list json * cloud_res c with
  | WsRead _ => match w with j :: w' => (w', Ok j) | [] => ([], Err (ErrText "EOF")) end
  | SelectPump _ => match w with j :: w' => (w', PumpMsg (Some j)) | [] => ([], PumpDone) end
  | QUpdateJobStatus s id =>
      (w, Ok {| upd_ID := id; upd_MailboxID := Uuid 1; upd_BlobRef := "blobs/1"; upd_Status := s |})
  | c => (w, default_res c)
  end.

Definition register_msg : json :=
  JObj [("type", JStr "register"); ("mailbox_id", JStr "0b1");
        ("slot_occupancy", JObj [("0b1", JObj [("current", JInt 0); ("max", JInt 4)])])].
Definition state_msg : json := JObj [("type", JStr "state"); ("status", JStr "idle")].
Definition delivered_msg : json :=
  JObj [("type", JStr "status"); ("job_id", JStr "0b1"); ("status", JStr "delivered")].

Definition hub : Hub := {| hub_Queries := true; hub_DeleteBlob := true |}.
Abbreviation socket p w := (interp (S := cloud_sig) socket_env p w).
Abbreviation socket_exec := (interp_exec (S := cloud_sig) socket_env).

Definition link_session : list json := [register_msg; state_msg; delivered_msg].

Lemma accept_lifecycle_witness :
  (socket (Accept hub 9) link_session).2 = Some (ErrText "EOF")
  /\ count removed_blob (socket (Accept hub 9) link_session).1.2 = 1%nat
  /\ exists c reg t', linked c reg t' (socket (Accept hub 9) link_session).2 /\ f_MailboxID reg <> EmptyString.
Proof.
  split; [vm_compute; reflexivity|]. split; [vm_compute; reflexivity|].
  destruct (accept_lifecycle hub 9 _ _ (socket_exec (Accept hub 9) link_session))
    as [[H _]|(c & j & reg & msg & args & t' & _ & _ & Hmb & _ & Hl)].
  - apply (count_0 (S := cloud_sig) (fun e => link_call (ev_call e))) in H. vm_compute in H. discriminate H.
  - exists c, reg, t'. split; [exact Hl|exact Hmb].
Defined.

Definition idle_frame : Frame :=
  {| f_Type := "state"; f_MailboxID := EmptyString; f_SlotOccupancy := ∅; f_Status := "idle";
     f_JobID := EmptyString; f_Error := EmptyString; f_EncryptedKey := EmptyString; f_BlobURL := EmptyString |}.
Definition status_frame (status : string) : Frame :=
  {| f_Type := "status"; f_MailboxID := EmptyString; f_SlotOccupancy := ∅; f_Status := status;
     f_JobID := "0b1"; f_Error := EmptyString; f_EncryptedKey := EmptyString; f_BlobURL := EmptyString |}.

Lemma onState_announces_witness :
  count publishes (socket (onState hub "0b1" idle_frame) []).1.2 = 1%nat
  /\ exists r t', (socket (onState hub "0b1" idle_frame) []).1.2
       = CEv (RSet (KeyPrinterState "0b1")
           (enc_PrinterState {| ps_Status := f_Status idle_frame;
              ps_SlotOccupancy := toStoreSlots (f_SlotOccupancy idle_frame) |}) printerStateTTL) r :: t'.
Proof.
  split; [vm_compute; reflexivity|].
  destruct (onState_announces hub "0b1" idle_frame _ _ (socket_exec (onState hub "0b1" idle_frame) []))
    as (r & t' & Ht & _).
  exists r, t'. exact Ht.
Defined.

Lemma delivered_blob_deleted_witness :
  count removes_blob (socket (onStatus hub (status_frame "delivered")) []).1.2 = 1%nat
  /\ count removes_blob (socket (onStatus hub (status_frame "printing")) []).1.2 = 0%nat
  /\ count marks_deleted (socket (onStatus hub (status_frame "delivered")) []).1.2
     = count removed_blob (socket (onStatus hub (status_frame "delivered")) []).1.2.
Proof.
  split; [vm_compute; reflexivity|]. split; [vm_compute; reflexivity|].
  exact (proj1 (proj2 (proj2 (delivered_blob_deleted hub (status_frame "delivered") _ _
    (socket_exec (onStatus hub (status_frame "delivered")) []))))).
Defined.

Lemma onStatus_relays_witness :
  count publishes (socket (onStatus hub (status_frame "failed")) []).1.2
  = count status_updated (socket (onStatus hub (status_frame "failed")) []).1.2
  /\ count status_updated (socket (onStatus hub (status_frame "failed")) []).1.2 = 1%nat.
Proof.
  split; [|vm_compute; reflexivity].
  exact (proj1 (onStatus_relays hub (status_frame "failed") _ _
    (socket_exec (onStatus hub (status_frame "failed")) []))).
Defined.

Lemma pump_relays_in_order_witness :
  relayed (socket (pumpDispatch 9 7 1) [JStr "a"; JStr "b"]).1.2 = [JStr "a"; JStr "b"]
  /\ relayed (socket (pumpDispatch 9 7 1) [JStr "a"; JStr "b"]).1.2
     = heard (socket (pumpDispatch 9 7 1) [JStr "a"; JStr "b"]).1.2.
Proof.
  split; [vm_compute; reflexivity|].
  exact (proj1 (pump_relays_in_order 9 7 1 _ _ (socket_exec (pumpDispatch 9 7 1) [JStr "a"; JStr "b"]))).
Defined.

(** A printer that reports the status [queued] for a job it was sent makes the
    row claimable again, and the job goes out a second time. *)
Definition rogue_printer : sys :=
  {| s_threads := [node_try; onStatus hub (status_frame "queued"); node_try];
     s_pg := s_pg (start one_job); s_log := []; s_lost := [] |}.
Definition reopened : sys :=
  schedule (fun c => match c as c return cloud_res c with
                     | QUpdateJobStatus s id =>
                         Ok {| upd_ID := id; upd_MailboxID := Uuid 1; upd_BlobRef := "blobs/1"; upd_Status := s |}
                     | c => printer_up c
                     end)
    (answered (repeat 0 9 ++ repeat 1 4 ++ repeat 2 9)%nat) rogue_printer.

Example rogue_report_reopens :
  deliveries (Uuid 1) reopened = 2%nat
  /\ count (unanswered (Uuid 1)) (s_log reopened) = 0%nat
  /\ count (reopens (Uuid 1)) (s_log reopened) = 1%nat.
Proof. vm_compute. done. Qed.
