(* ===== verification/HttpScenarios.v ===== *)
(** * Concrete requests

    Runs of the HTTP handlers on concrete requests: each theorem about the
    accounts, jobs and shutdown code is applied to a run whose result is
    evaluated. *)

From S2P Require Import Prelude GoStrings Base64 Json Keys Db Calls Store Minio Dispatch Env Sql.
From S2P Require Import Http Auth TokenStore Jobs Admin Sha2.

(** ** The library parameters, instantiated *)

Definition lower (c : Ascii.ascii) : Ascii.ascii :=
  let n := Ascii.N_of_ascii c in
  if (65 <=? n)%N && (n <=? 90)%N then Ascii.ascii_of_N (n + 32) else c.

Fixpoint string_map (f : Ascii.ascii -> Ascii.ascii) (s : string) : string :=
  match s with EmptyString => EmptyString | String c s' => String (f c) (string_map f s') end.

(** An address is anything with an at sign; ASCII lower-casing. *)
#[export] Instance ref_http : HttpLib := {|
  parse_address := fun s => if contains s "@" then Ok s else Err (ErrText "mail: missing '@' or angle-addr");
  to_lower := string_map lower;
  rfc3339 := fun _ => "1970-01-01T00:00:00Z"
|}.

(** The stored digest format, against the values handlers/tokens_test.go pins. *)
Example hashToken_pinned :
  hashToken "automail-token-hash-guard-vector" = "Km_bwemrdty7q5wxs2iNmYSDCcVpqRSUEZaJaIMEaoA"
  /\ hashToken EmptyString = "47DEQpj8HBSa-_TImW-5JCeuQeRkm5NMpJWZG3hSuFU".
Proof. split; vm_compute; reflexivity. Qed.

(** ** A world with one sender, one recipient and one job *)

Definition ada : uuid := Uuid 5.

Definition http_env (w : list json) (c : cloud_call) : list json * cloud_res c :=
  match c as c return list json * cloud_res c with
  | QGetSenderByEmail _ email =>
      (w, if String.eqb email "ada@example.com"
          then Ok {| snd_ID := ada; snd_EmailEnc := []; snd_PasswordHash := "hash"; snd_Role := "user" |}
          else Err ErrNoRows)
  | QGetSenderByID id => (w, Ok {| sid_ID := id; sid_PasswordHash := "hash"; sid_Role := "user" |})
  | QGetActiveRefreshToken hash =>
      (w, if String.eqb hash (hashToken "opaque")
          then Ok {| act_ID := Uuid 9; act_SenderID := ada; act_ExpiresAt := 100 |} else Err ErrNoRows)
  | QResolveRecipient id =>
      (w, Ok {| res_RecipientID := id; res_SlotID := Uuid 1; res_MailboxID := Uuid 1; res_PublicKeyPem := "pem" |})
  | QGetJobForStream id =>
      (w, Ok {| str_ID := id; str_SenderID := Some ada; str_GuestTokenHash := None; str_Status := "printing" |})
  | SelectStream _ => match w with j :: w' => (w', StreamMsg (Some j)) | [] => ([], StreamCtxDone) end
  | c => (w, default_res c)
  end.

Abbreviation http p w := (interp (S := cloud_sig) http_env p w).
Abbreviation http_exec := (interp_exec (S := cloud_sig) http_env).

Definition no_request : Request :=
  {| rq_body := JNull; rq_query := fun _ => EmptyString; rq_path := fun _ => EmptyString;
     rq_cookie := None; rq_authz := EmptyString; rq_ctx := None |}.
Definition with_body (j : json) : Request :=
  {| rq_body := j; rq_query := fun _ => EmptyString; rq_path := fun _ => EmptyString;
     rq_cookie := None; rq_authz := EmptyString; rq_ctx := None |}.
Definition with_cookie (v : string) : Request :=
  {| rq_body := JNull; rq_query := fun _ => EmptyString; rq_path := fun _ => EmptyString;
     rq_cookie := Some v; rq_authz := EmptyString; rq_ctx := None |}.
Definition as_ada (path : string) (j : json) : Request :=
  {| rq_body := j; rq_query := fun _ => EmptyString; rq_path := fun _ => path;
     rq_cookie := None; rq_authz := EmptyString; rq_ctx := Some (uuid_string ada, "user") |}.

(** ** Accounts *)

Definition login_body : json := JObj [("email", JStr "Ada@Example.com"); ("password", JStr "correct horse")].

Lemma login_checks_password_witness :
  statuses (http (Login "k" (with_body login_body)) []).1.2 = [200%Z]
  /\ exists g t1, (http (Login "k" (with_body login_body)) []).1.2
       = CEv (QGetSenderByEmail "k" "ada@example.com") g :: t1.
Proof.
  split; [vm_compute; reflexivity|].
  pose proof (login_checks_password "k" (with_body login_body) _ _ (http_exec (Login "k" (with_body login_body)) [])) as H.
  destruct H as (g & t1 & Ht & _). exists g, t1. exact Ht.
Defined.

Definition new_user : json := JObj [("email", JStr "bob@example.com"); ("password", JStr "longenough")].
Definition short_password : json := JObj [("email", JStr "bob@example.com"); ("password", JStr "short")].

Example short_password_refused :
  statuses (http (Register "k" (with_body short_password)) []).1.2 = [422%Z]
  /\ count inserts_sender (http (Register "k" (with_body short_password)) []).1.2 = 0%nat.
Proof. split; vm_compute; reflexivity. Qed.

Lemma register_guards_witness :
  statuses (http (Register "k" (with_body new_user)) []).1.2 = [201%Z]
  /\ count inserts_sender (http (Register "k" (with_body new_user)) []).1.2 = 1%nat
  /\ turned_away (http (Register "k" (with_body short_password)) []).1.2
       422 "password must be at least 8 characters" "VALIDATION".
Proof.
  split; [vm_compute; reflexivity|]. split; [vm_compute; reflexivity|].
  exact (register_guards "k" (with_body short_password) _ _
    (http_exec (Register "k" (with_body short_password)) [])).
Defined.

Lemma refresh_rotates_witness :
  statuses (http (Refresh (with_cookie "opaque")) []).1.2 = [200%Z]
  /\ ((sessionless (http (Refresh (with_cookie "opaque")) []).1.2
       /\ exists s, statuses (http (Refresh (with_cookie "opaque")) []).1.2 = [s] /\ s <> 200%Z)
      \/ exists value active now sender t1,
           (http (Refresh (with_cookie "opaque")) []).1.2
           = [CEv (QGetActiveRefreshToken (hashToken value)) (Ok active); CEv Now now;
              CEv (QRevokeRefreshTokenByHash (hashToken value)) (Ok tt);
              CEv (QGetSenderByID (act_SenderID active)) (Ok sender)] ++ t1).
Proof.
  split; [vm_compute; reflexivity|].
  destruct (refresh_rotates (with_cookie "opaque") _ _ (http_exec (Refresh (with_cookie "opaque")) []))
    as [H|(value & active & now & sender & t0 & t1 & _ & Ht & Ht0 & _)]; [left; exact H|].
  right. exists value, active, now, sender, t1. rewrite Ht, Ht0. reflexivity.
Defined.

(** Against the token statements themselves: the tables hold one sender and one
    active token. *)
Definition token_db : database :=
  {| jobs := ∅; audit_events := [];
     refresh_tokens := {[ Uuid 9 := {| rt_SenderID := ada; rt_TokenHash := hashToken "opaque";
                                       rt_ExpiresAt := 100; rt_RevokedAt := None |} ]};
     senders := {[ ada := {| sender_EmailEnc := []; sender_NameEnc := []; sender_PasswordHash := "hash";
                             sender_Role := "user" |} ]};
     mailboxes := ∅; mailbox_slots := ∅; residents := ∅; buildings := ∅ |}.

Abbreviation sql p w := (interp (S := cloud_sig) sql_env p w).

(** The cookie is used, another session is logged out, and the cookie comes
    again. *)
Definition other_cookie : Request := with_cookie "another".

Lemma refresh_single_use_witness :
  statuses (sql (Refresh (with_cookie "opaque")) token_db).1.2 = [200%Z]
  /\ sessionless (sql (Refresh (with_cookie "opaque"))
       (sql (Logout other_cookie) (sql (Refresh (with_cookie "opaque")) token_db).1.1).1.1).1.2.
Proof.
  split; [vm_compute; reflexivity|].
  apply (refresh_single_use sql_env sql_active (with_cookie "opaque") (with_cookie "opaque") token_db "opaque"
    (Logout other_cookie) eq_refl eq_refl).
  - vm_compute; reflexivity.
  - apply (bool_decide_eq_true_1 _). vm_compute; reflexivity.
  - apply (bool_decide_eq_true_1 _). vm_compute; reflexivity.
Defined.

(** Two requests whose calls interleave as the schedule says. *)
Fixpoint interleave {W A} (h : W -> forall c, W * cloud_res c) (sched : list bool) (p q : cloud A)
    (tp tq : trace cloud_sig) (w : W) : trace cloud_sig * trace cloud_sig :=
  match sched with
  | [] => (tp, tq)
  | true :: sched' =>
      match p with
      | Ret _ => interleave h sched' p q tp tq w
      | Vis c k => let '(w', r) := h w c in interleave h sched' (k r) q (tp ++ [CEv c r]) tq w'
      end
  | false :: sched' =>
      match q with
      | Ret _ => interleave h sched' p q tp tq w
      | Vis c k => let '(w', r) := h w c in interleave h sched' p (k r) tp (tq ++ [CEv c r]) w'
      end
  end.

(** Overlapping requests can both use one token: when each has looked it up
    before the other revokes it, both are answered 200 with a session. *)
Example refresh_race :
  let '(t1, t2) := interleave sql_env ([true; false] ++ repeat true 20 ++ repeat false 20)
                     (Refresh (with_cookie "opaque")) (Refresh (with_cookie "opaque")) [] [] token_db in
  statuses t1 = [200%Z] /\ statuses t2 = [200%Z].
Proof. vm_compute. done. Qed.

(** ** Jobs *)

Definition job_body : json :=
  JObj [("encrypted_key", JStr "AAEC"); ("blob_ref", JStr "blobs/1"); ("recipient_id", JStr "0b1");
        ("page_count", JInt 2)].

Lemma createJob_validates_witness :
  statuses (http (CreateJob (as_ada "" job_body)) []).1.2 = [202%Z]
  /\ ((count inserts_job (http (CreateJob (as_ada "" job_body)) []).1.2 = 0%nat
       /\ exists s, statuses (http (CreateJob (as_ada "" job_body)) []).1.2 = [s] /\ s <> 202%Z)
      \/ exists req recipient, dec_createJobRequest zero_createJobRequest job_body = Some req
           /\ uuid_parse (cj_RecipientID req) = Ok recipient).
Proof.
  split; [vm_compute; reflexivity|].
  destruct (createJob_validates (as_ada "" job_body) _ _ (http_exec (CreateJob (as_ada "" job_body)) []))
    as [H|(req & recipient & resolved & p & g & t1 & t2 & Hreq & Hrec & _)]; [left; exact H|].
  right. exists req, recipient. split; [exact Hreq|exact Hrec].
Defined.

Definition job_params : InsertJobParams :=
  {| ins_SenderID := Some ada; ins_GuestTokenHash := None; ins_MailboxID := Uuid 1; ins_SlotID := Uuid 1;
     ins_EncryptedKey := []; ins_BlobRef := "blobs/1"; ins_PageCount := 2 |}.

Lemma submit_dispatches_inserted_witness :
  statuses (http (submit (as_ada "" JNull) job_params "") []).1.2 = [202%Z]
  /\ exists i t1, (http (submit (as_ada "" JNull) job_params "") []).1.2 = CEv (QInsertJob job_params) i :: t1.
Proof.
  split; [vm_compute; reflexivity|].
  destruct (submit_dispatches_inserted (as_ada "" JNull) job_params "" _ _
    (http_exec (submit (as_ada "" JNull) job_params "") [])) as (i & t1 & Ht & _).
  exists i, t1. exact Ht.
Defined.

Definition status_msg (s : string) : json := JObj [("status", JStr s)].
Definition watch : Request := as_ada "0b111" JNull.
Definition to_the_end : list json := [status_msg "printing"; status_msg "delivered"; status_msg "printing"].

(** A stream by somebody else's session. *)
Definition stranger : Request :=
  {| rq_body := JNull; rq_query := fun _ => EmptyString; rq_path := fun _ => "0b111";
     rq_cookie := None; rq_authz := EmptyString; rq_ctx := Some (uuid_string (Uuid 6), "user") |}.

Lemma stream_authorized_witness :
  statuses (http (StreamJob true 9 stranger) to_the_end).1.2 = [404%Z]
  /\ ((count sends (http (StreamJob true 9 stranger) to_the_end).1.2 = 0%nat
       /\ count opens_subscription (http (StreamJob true 9 stranger) to_the_end).1.2 = 0%nat
       /\ exists s, statuses (http (StreamJob true 9 stranger) to_the_end).1.2 = [s] /\ s ∈ [404; 500; 403; 401]%Z)
      \/ exists jobID job t1, uuid_parse (rq_path stranger "id") = Ok jobID
           /\ (http (StreamJob true 9 stranger) to_the_end).1.2 = CEv (QGetJobForStream jobID) (Ok job) :: t1
           /\ may_watch stranger job).
Proof.
  split; [vm_compute; reflexivity|].
  exact (stream_authorized true 9 stranger _ _ (http_exec (StreamJob true 9 stranger) to_the_end)).
Defined.

Lemma stream_relays_witness :
  length (sent (http (StreamJob true 9 watch) to_the_end).1.2) = 3%nat
  /\ (sent (http (StreamJob true 9 watch) to_the_end).1.2 = []
      \/ exists jobID t1, sent (http (StreamJob true 9 watch) to_the_end).1.2
           = for_job jobID {| ev_JobID := EmptyString; ev_Status := "printing"; ev_Error := EmptyString |}
             :: (for_job jobID <$> relayable t1)).
Proof.
  split; [vm_compute; reflexivity|].
  destruct (stream_relays true 9 watch _ _ (http_exec (StreamJob true 9 watch) to_the_end))
    as [H|(jobID & job & sub & job2 & b & t1 & t2 & Hid & Ht & Hs & _)]; [left; exact H|].
  right. exists jobID, t1. rewrite Hs. f_equal. f_equal. f_equal.
  assert (nth 3 (http (StreamJob true 9 watch) to_the_end).1.2 (CEv Now 0%Z)
    = CEv (QGetJobForStream (Uuid 7)) (Ok {| str_ID := Uuid 7; str_SenderID := Some ada;
         str_GuestTokenHash := None; str_Status := "printing" |})) as H3 by (vm_compute; reflexivity).
  rewrite Ht in H3. cbn [nth app] in H3.
  apply (f_equal (fun e : event cloud_sig =>
    match e with existT (QGetJobForStream _) (Ok j) => str_Status j | _ => EmptyString end)) in H3.
  cbn in H3. exact H3.
Defined.
