(* ===== verification/MainScenarios.v ===== *)
(** * The process on concrete inputs

    Start-up, a signal, and requests to the public listener, evaluated. *)

From S2P Require Import Prelude GoStrings Base64 Json Keys Db Calls Store Minio Dispatch Dispatcher Env Sql.
From S2P Require Import Link Http Auth Jobs Admin Main HttpScenarios.

(** A PEM file is the text "key" or not PEM at all. *)
#[export] Instance ref_boot : BootLib := {|
  rsa_private := bytes;
  rsa_public := bytes;
  pem_decode := fun raw => match raw with [] => None | _ :: _ => Some raw end;
  ParsePKCS8PrivateKey := fun b => Ok (Some b);
  ParsePKIXPublicKey := fun b => Ok (Some b);
  append_certs := fun b => negb (bool_decide (b = []));
  ParseDuration := fun s => if String.eqb s "5s" then Ok (5 * second)%Z else Err (ErrText "time: invalid duration")
|}.

(** Every variable set but those in [missing]. *)
Definition main_env (missing : list string) (c : cloud_call) : list string * cloud_res c :=
  match c as c return list string * cloud_res c with
  | Getenv key => (missing, if bool_decide (key ∈ missing) then EmptyString else "value")
  | OsReadFile _ => (missing, Ok [Byte.x2d])
  | JwtParse raw => (missing, if String.eqb raw "admin" then Ok ("0b1", "admin") else Ok ("0b1", "sender"))
  | c => (missing, default_res c)
  end.

Abbreviation boot missing := (interp (S := cloud_sig) main_env main missing).
Abbreviation boot_exec := (interp_exec (S := cloud_sig) main_env main).

Definition optional_vars : list string :=
  ["PORT"; "NODE_ID"; "MINIO_PUBLIC_ENDPOINT"; "PPROF_ADDR"; "SHUTDOWN_TIMEOUT"].

(** A process without its encryption key exits and has started nothing. *)
Example no_key_no_service :
  (boot ["APP_ENCRYPTION_KEY"]).2 = None /\ count starts (boot ["APP_ENCRYPTION_KEY"]).1.2 = 0%nat.
Proof. split; vm_compute; reflexivity. Qed.

(** Where the first goroutine starts in the run of [optional_vars]. *)
Fixpoint first_start (t : trace cloud_sig) : nat :=
  match t with
  | [] => O
  | e :: t' => if starts e then O else S (first_start t')
  end.

Definition started : trace cloud_sig := (boot optional_vars).1.2.
Definition at_start : nat := Eval vm_compute in first_start started.

Lemma serves_only_when_ready_witness :
  (at_start < length started)%nat /\ exists srv, ready srv (take at_start started).
Proof.
  split; [vm_compute; lia|].
  apply (serves_only_when_ready started _ (take at_start started) (CEv (GoDispatcher "node") tt)
           (drop (S at_start) started) (boot_exec optional_vars)); [vm_compute; reflexivity|reflexivity].
Defined.

Lemma signal_drains_in_order_witness :
  (boot optional_vars).2 = Some tt
  /\ exists di addr mtls t0 td, started = t0 ++ td
    /\ CEv (GoDispatcher (di_NodeID di)) tt ∈ t0 /\ drained di addr mtls td.
Proof.
  split; [vm_compute; reflexivity|].
  assert (exec main started (Some tt)) as Hrun.
  { replace (Some tt) with (boot optional_vars).2 by (vm_compute; reflexivity). apply (boot_exec optional_vars). }
  destruct (signal_drains_in_order started Hrun) as (di & addr & mtls & t0 & td & Ht & Hd & _ & _ & _ & _ & H).
  exists di, addr, mtls, t0, td. auto.
Defined.

(** The routes of a server, and the admin table with and without a token. *)
Definition srv : Server :=
  {| srv_Minio := 1; srv_UploadPresigner := None; srv_AppKey := "k"; srv_JWTPriv := []; srv_JWTPub := [];
     srv_Hub := {| hub_Queries := true; hub_DeleteBlob := true |} |}.

Definition bearer (token : string) : Request :=
  {| rq_body := JNull; rq_query := fun _ => EmptyString; rq_path := fun _ => EmptyString;
     rq_cookie := None; rq_authz := token; rq_ctx := None |}.

Definition admin_request (token method last : string) : trace cloud_sig :=
  (interp (S := cloud_sig) main_env (publicHandler srv "node" true 9 method ["admin"; last] (bearer token)) []).1.2.

Example admin_answers :
  statuses (admin_request "Bearer admin" "GET" "jobs") = [200%Z]
  /\ statuses (admin_request "Bearer ada" "GET" "jobs") = [403%Z]
  /\ statuses (admin_request "Bearer admin" "POST" "jobs") = [405%Z]
  /\ statuses (admin_request "Bearer admin" "GET" "users") = [404%Z].
Proof. split_and!; vm_compute; reflexivity. Qed.

Lemma guarded_routes_witness :
  statuses (admin_request EmptyString "GET" "jobs") = [401%Z]
  /\ after (admin_token (bearer EmptyString)) touches (admin_request EmptyString "GET" "jobs").
Proof.
  split; [vm_compute; reflexivity|].
  refine (proj1 (proj1 (guarded_routes srv "node" true 9 "GET" ["admin"; "jobs"] (bearer EmptyString) _ _
           (interp_exec (S := cloud_sig) main_env
              (publicHandler srv "node" true 9 "GET" ["admin"; "jobs"] (bearer EmptyString)) [])) _)).
  reflexivity.
Defined.

(** ** The admin listing *)

Definition slot9 : MailboxSlot := {| slot_MailboxID := Uuid 2; slot_Number := 3; slot_MaxCount := 5 |}.

Definition job_at (created : Z) (status : string) : Job :=
  {| job_ID := Uuid 0; job_SenderID := Some (Uuid 5); job_GuestTokenHash := None;
     job_MailboxID := Uuid 2; job_SlotID := Uuid 9; job_EncryptedKey := []; job_BlobRef := EmptyString;
     job_PageCount := 1; job_Status := status; job_RetryCount := 0; job_BlobExpiresAt := None;
     job_BlobDeletedAt := None; job_CreatedAt := created; job_DeliveredAt := None |}.

Definition three_jobs : database :=
  {| jobs := {[ Uuid 11 := job_at 1 "queued"; Uuid 12 := job_at 3 "delivered"; Uuid 13 := job_at 2 "queued" ]};
     audit_events := []; refresh_tokens := ∅; senders := ∅; mailboxes := ∅;
     mailbox_slots := {[ Uuid 9 := slot9 ]}; residents := ∅; buildings := ∅ |}.

#[local] Existing Instance as_found.

Example three_jobs_pages :
  (fun p => match AdminListJobs {| alj_Status := EmptyString; alj_RowLimit := 2; alj_RowOffset := p |} three_jobs with
            | Ok rows => aljr_ID <$> rows
            | Err _ => []
            end) <$> [0; 2; 4]%Z = [[Uuid 12; Uuid 13]; [Uuid 11]; []]
  /\ Sql.AdminJobStatusCounts three_jobs =
       [{| ajs_Status := "queued"; ajs_Count := 2 |}; {| ajs_Status := "delivered"; ajs_Count := 1 |}]
  /\ gjs_ID <$> GetJobsBySender (Uuid 5) three_jobs = [Uuid 12; Uuid 13; Uuid 11]
  /\ GetJobsBySender (Uuid 6) three_jobs = [].
Proof. split_and!; vm_compute; reflexivity. Qed.

(** Every other page is planned the other way round. *)
Definition alternating (k : nat) : Planner := if Nat.even k then as_found else backwards.

Lemma three_jobs_distinct : distinct_times EmptyString three_jobs.
Proof.
  assert (map_Forall (fun id1 j1 => map_Forall (fun id2 j2 =>
    job_CreatedAt j1 = job_CreatedAt j2 -> id1 = id2) (jobs three_jobs)) (jobs three_jobs)) as H
    by (apply (bool_decide_unpack _); vm_compute; exact I).
  intros id1 id2 j1 j2 H1 H2 _ _. exact (H id1 j1 H1 id2 j2 H2).
Qed.

Lemma admin_pages_partition_witness :
  exists pages : list (list AdminListJobsRow),
    Forall2 (fun k page => AdminListJobs (P := alternating k)
        {| alj_Status := EmptyString; alj_RowLimit := int32 2; alj_RowOffset := int32 (2 * Z.of_nat k) |} three_jobs
      = Ok page) (seq 0 2) pages
    /\ Z.of_nat (length (mjoin pages)) = AdminCountJobs EmptyString three_jobs.
Proof.
  destruct (admin_pages_partition alternating three_jobs EmptyString 2 2) as (pages & Hp & Hl & _).
  - lia.
  - lia.
  - apply (bool_decide_unpack _). vm_compute. exact I.
  - exact three_jobs_distinct.
  - vm_compute. discriminate.
  - exists pages. split; [exact Hp|exact Hl].
Defined.

(** Two jobs created at the same instant, one to a page: the first page's
    execution and the second's choose differently, and one job comes twice
    while the other never comes. *)
Definition tied_jobs : database :=
  {| jobs := {[ Uuid 11 := job_at 1 "queued"; Uuid 12 := job_at 1 "queued" ]};
     audit_events := []; refresh_tokens := ∅; senders := ∅; mailboxes := ∅;
     mailbox_slots := {[ Uuid 9 := slot9 ]}; residents := ∅; buildings := ∅ |}.

Example tied_jobs_repeat :
  exists id, (fun k => match AdminListJobs (P := alternating k)
        {| alj_Status := EmptyString; alj_RowLimit := 1; alj_RowOffset := Z.of_nat k |} tied_jobs with
      | Ok rows => aljr_ID <$> rows | Err _ => [] end) <$> seq 0 2 = [[id]; [id]].
Proof. eexists. vm_compute. reflexivity. Qed.
