(* ===== verification/PrinterScenarios.v ===== *)
(** * Concrete runs of the printer

    Reference instances of the printer's cryptographic library and environment,
    the repository's test vectors, and each theorem about the printer applied to
    a run whose result is evaluated. *)

From S2P Require Import Prelude GoStrings Base64 Json Keys Db Calls Store Minio Dispatch Link.
From S2P Require Import Memory Sha2 Crypto Printer Pipeline Client Wire.
From Stdlib Require Import Init.Byte.

(** ** The library parameters, instantiated

    SHA-256 itself; the other hashes, the ciphers and the parsers are stand-ins
    with the shape the laws ask for: reversing for encryption, and a DER that is
    nothing but its encrypted part. *)

Definition no_der (o : oid) : algorithmIdentifier := {| ai_Algorithm := o; ai_FullBytes := [] |}.
Definition ref_salt : bytes := string_bytes "salt".
Definition ref_iv : bytes := replicate 16 x2a.

#[export] Instance ref_crypto : CryptoLib := {|
  hash_sum := fun f m => match f with
    | SHA1 => take 20 (sha256_sum m)
    | SHA256 => sha256_sum m
    | SHA512 => sha256_sum m ++ sha256_sum (x00 :: m)
    end;
  cbc_decrypt := fun _ _ ct => rev ct;
  gcm_open := fun _ _ ct => Ok (rev ct);
  rsa_key := bytes;
  rsa_decrypt_oaep := fun _ c => Ok (rev c);
  pem_decode := fun b => Some ("ENCRYPTED PRIVATE KEY", b);
  parse_pkcs8 := fun der => Ok (Some der);
  unmarshal_epki := fun b => Ok {| epki_Algo := no_der oidPBES2; epki_EncryptedData := b |};
  unmarshal_pbes2 := fun _ => Ok {| pb_KDF := no_der oidPBKDF2; pb_Enc := no_der oidAES256CBC |};
  unmarshal_pbkdf2 := fun _ => Ok {| kd_Salt := ref_salt; kd_Iterations := 2; kd_KeyLength := 0;
                                     kd_PRF := no_der oidHMACWithSHA256 |};
  unmarshal_octets := fun _ => Ok ref_iv
|}.

#[export] Instance ref_crypto_laws : CryptoLaws ref_crypto.
Proof.
  split.
  - intros [] m; cbn [hash_sum ref_crypto hash_size].
    + rewrite length_take, sha256_length. done.
    + apply sha256_length.
    + by rewrite length_app, !sha256_length.
  - intros k iv ct. apply length_rev.
Qed.

(** ** Key derivation *)

(** The vector of TestPBKDF2_SHA256_Vectors. *)
Lemma pbkdf2_is_rfc8018_witness :
  let '(h', dk) := pbkdf2Key SHA256 (Slice 0 0 8) ref_salt 1 32 [string_bytes "password"] in
  hex (load h' dk) = "120fb6cffcf8b32c43e7225256c4f837a86548c92ccc35480805987cb70be17b"
  /\ length (load h' dk) = 32%nat.
Proof.
  pose proof (pbkdf2_is_rfc8018 SHA256 [string_bytes "password"] (Slice 0 0 8) ref_salt 1 32 ltac:(lia) ltac:(lia)) as H.
  destruct (pbkdf2Key SHA256 (Slice 0 0 8) ref_salt 1 32 [string_bytes "password"]) as [h' dk] eqn:Hdk.
  split; [|exact (proj1 (proj2 H))].
  assert (hex (load (pbkdf2Key SHA256 (Slice 0 0 8) ref_salt 1 32 [string_bytes "password"]).1
                    (pbkdf2Key SHA256 (Slice 0 0 8) ref_salt 1 32 [string_bytes "password"]).2)
    = "120fb6cffcf8b32c43e7225256c4f837a86548c92ccc35480805987cb70be17b") as Hv by (vm_compute; reflexivity).
  rewrite Hdk in Hv. exact Hv.
Defined.

Lemma pkcs7_unpad_exact_witness :
  (pkcs7Unpad (Slice 0 0 4) 4 [[x61; x03; x03; x03]]).2 = Ok (Slice 0 0 1)
  /\ exists x, load [[x61; x03; x03; x03]] (Slice 0 0 4) = pkcs7Pad 4 x /\ Slice 0 0 1 = subslice (Slice 0 0 4) 0 (length x).
Proof.
  split; [vm_compute; reflexivity|].
  apply (pkcs7_unpad_exact [[x61; x03; x03; x03]] (Slice 0 0 4) 4 (Slice 0 0 1)).
  - exists [x61; x03; x03; x03]. split; [reflexivity|cbn; lia].
  - lia.
  - vm_compute; reflexivity.
Defined.

(** ** Loading a key *)

Definition passphrase_heap : heap := [string_bytes "pw"].
Definition passphrase : slice := Slice 0 0 2.
Definition a_key : bytes := string_bytes "the document key".
Definition key_file : bytes := rev (pkcs7Pad aes_BlockSize a_key).

(** The key a loader run returned. *)
Definition loaded (r : result printerKey) : option bytes :=
  match r with Ok k => @Some bytes (pk_rsa k) | Err _ => None end.

Lemma openssl_key_loads_witness :
  loaded (loadPrinterPrivateKey key_file passphrase passphrase_heap).2 = Some a_key
  /\ let '(h', r) := loadPrinterPrivateKey key_file passphrase passphrase_heap in
     r = parsedKey a_key /\ h' !! 1%nat = Some (replicate 32 x00).
Proof.
  split; [vm_compute; reflexivity|].
  pose proof (openssl_key_loads (fun _ _ x => rev x) key_file key_file passphrase passphrase_heap a_key ref_salt 2 ref_iv) as H.
  cbv beta in H. destruct (loadPrinterPrivateKey key_file passphrase passphrase_heap) as [h' r].
  destruct H as (Hr & Hdk & _).
  - intros k iv x _. split; [apply rev_involutive|apply length_rev].
  - lia.
  - reflexivity.
  - reflexivity.
  - exists [], [], [], []. split_and!; reflexivity.
  - split; [exact Hr|exact Hdk].
Defined.

(** A file whose padding is broken: the error path wipes what was decrypted. *)
Definition broken_file : bytes := replicate 32 x41.

Lemma broken_parses : parsePBES2 broken_file
  = Ok {| pl_prf := SHA256; pl_salt := ref_salt; pl_iter := 2; pl_keyLen := 32; pl_iv := ref_iv; pl_ct := broken_file |}.
Proof. vm_compute. reflexivity. Qed.

Lemma loadKey_leaves_witness :
  match (loadPrinterPrivateKey broken_file passphrase passphrase_heap).2 with
  | Ok _ => EmptyString
  | Err e => err_text e
  end = "decrypt private key: pkcs7: invalid padding length"
  /\ let b := pbkdf2Bytes SHA256 (load passphrase_heap passphrase) ref_salt 2 32 in
     b.2 = take 32 b.1.1
     /\ exists rest, (loadPrinterPrivateKey broken_file passphrase passphrase_heap).1
          = passphrase_heap ++ (replicate 32 x00 ++ drop 32 b.1.1) :: b.1.2 :: b.2 :: rest.
Proof.
  split; [vm_compute; reflexivity|].
  pose proof (loadKey_leaves broken_file broken_file passphrase passphrase_heap eq_refl) as H.
  rewrite broken_parses in H. cbn zeta in H.
  destruct H as [(rest & Hh & _) Ht].
  - intros pl [= <-]. cbn. lia.
  - split; [apply Ht; reflexivity|]. exists rest. exact Hh.
Defined.

(** ** An environment in which everything works *)

Definition sent_pdf : bytes := string_bytes "%PDF".
Definition sent_key : bytes := replicate 32 x6b.
Definition sent_blob : bytes := replicate 12 x69 ++ rev sent_pdf.
Definition wrapped_key : bytes := rev sent_key.

Definition printer_default (c : printer_call) : printer_res c :=
  match c with
  | NewRequest _ | OsWriteFile _ _ _ | OsRemove _ | LpRun _ _ => Ok tt
  | LoadX509KeyPair _ _ => Ok tt
  | HttpDo _ => Ok 200%Z
  | ReadAll => Ok sent_blob
  | OsReadFile _ => Ok key_file
  | Getenv _ => "pw"
  | WsDial _ | WsWriteFrame _ | WsPing _ => Ok tt
  | WsReadFrame => Err (ErrText "EOF")
  | Snapshot | RecordDelivery _ => snapshot (newSlotState "0b1")
  | LoadConnected => true
  | CtxErr => false
  | WaitErrCh | ListenAndServe _ => ErrText "EOF"
  | SelectTick _ => TickDone
  | SelectBackoff _ => WaitElapsed
  | RandInt63n _ => 0%Z
  | BodyClose | Unsetenv _ | RuntimeGC | WsCloseNow | SetConnected _ | GoHandleDispatch _ | GoKeepalive
  | SignalNotify | StopSignals | NewSlotState _ | GoHealthServer _
  | GoReadLoop | CancelConn | SetHeader _ _ | WriteBody _ | Log _ _ => tt
  end.

Definition printer_env (w : unit) (c : printer_call) : unit * printer_res c := (w, printer_default c).
(** The same, with a tmpfs that does not let go of files. *)
Definition stuck_env (w : unit) (c : printer_call) : unit * printer_res c :=
  match c as c return unit * printer_res c with
  | OsRemove _ => (w, Err (ErrText "remove: device busy"))
  | c => (w, printer_default c)
  end.

Abbreviation works p := (interp (S := printer_sig) printer_env p tt).
Abbreviation works_exec := (interp_exec (S := printer_sig) printer_env).

Definition a_config : config :=
  {| MailboxID := "0b1"; SlotID := "0b1"; CloudServerWSURL := "wss://cloud"; MTLSCACertPath := "/ca";
     MTLSCertPath := "/cert"; MTLSKeyPath := "/key"; HeartbeatInterval := 30 * second;
     ReconnectMaxBack := 30 * second; DevMode := false; ListenAddr := ":8444"; PrinterName := "office";
     PrinterPrivateKeyPath := "/doc" |}.
Definition doc_key : printerKey := {| pk_rsa := a_key |}.
Definition a_frame : Printer.Frame := dispatchFrame "0b111" (std_encode wrapped_key) "https://minio/blobs/1".

Lemma works_run {A} (m : hprog A) h :
  exec (m h) (works (m h)).1.2 ((works (m h)).2.1, (works (m h)).2.2).
Proof. pose proof (works_exec (m h) tt) as H. destruct (works (m h)).2. exact H. Qed.

Lemma job_success_witness :
  (works (processJob a_frame a_config doc_key [])).2.2 = None
  /\ wiped_since [] (works (processJob a_frame a_config doc_key [])).2.1.
Proof.
  assert ((works (processJob a_frame a_config doc_key [])).2.2 = None) as Hnone by (vm_compute; reflexivity).
  split; [exact Hnone|].
  pose proof (works_run (processJob a_frame a_config doc_key) []) as He. rewrite Hnone in He.
  exact (proj1 (job_success a_frame a_config doc_key [] _ _ He)).
Defined.

Abbreviation stuck p := (interp (S := printer_sig) stuck_env p tt).

Lemma job_leaves_no_plaintext_witness :
  file_after "/dev/shm/automail-0b111.pdf" (stuck (processJob a_frame a_config doc_key [])).1.2 = true
  /\ is_Some (stuck (processJob a_frame a_config doc_key [])).2.2.
Proof.
  assert (file_after "/dev/shm/automail-0b111.pdf" (stuck (processJob a_frame a_config doc_key [])).1.2 = true)
    as Hfile by (vm_compute; reflexivity).
  split; [exact Hfile|].
  pose proof (interp_exec (S := printer_sig) stuck_env (processJob a_frame a_config doc_key []) tt) as He.
  destruct (stuck (processJob a_frame a_config doc_key [])) as [[w t] [h' r]]. cbn [fst snd] in *.
  destruct (job_leaves_no_plaintext a_frame a_config doc_key [] t h' r He) as (_ & _ & H).
  exact (proj1 (H _ Hfile)).
Defined.

Lemma delivered_after_wipe_witness :
  length (Pipeline.sent (works (handleDispatch a_frame a_config "0b1" doc_key [])).1.2) = 3%nat
  /\ exists t0 t1 t2, (works (handleDispatch a_frame a_config "0b1" doc_key [])).1.2 = t0 ++ t1 ++ t2
       /\ Pipeline.sent t1 = [].
Proof.
  split; [vm_compute; reflexivity|].
  pose proof (works_exec (handleDispatch a_frame a_config "0b1" doc_key []) tt) as He.
  destruct (works (handleDispatch a_frame a_config "0b1" doc_key [])) as [[w t] [h' []]]. cbn [fst snd] in *.
  destruct (delivered_after_wipe a_frame a_config "0b1" doc_key [] t h' He)
    as (t0 & t1 & t2 & r & Ht & _ & _ & _ & _ & Hs & _).
  exists t0, t1, t2. split; [exact Ht|exact Hs].
Defined.

Lemma sent_document_is_printed_witness :
  DecryptAESKey doc_key wrapped_key = Ok sent_key
  /\ exists frame,
       Printer.dec_Frame Printer.zero_Frame (enc_dispatchPayload "0b111" (std_encode wrapped_key) "https://minio/blobs/1")
         = Some frame
       /\ pf_Type frame = "dispatch".
Proof.
  assert (DecryptAESKey doc_key wrapped_key = Ok sent_key) as Hk by (vm_compute; reflexivity).
  split; [exact Hk|].
  destruct (sent_document_is_printed "0b111" wrapped_key "https://minio/blobs/1" doc_key sent_key
    (replicate 12 x69) (rev sent_pdf) sent_pdf sent_blob Hk eq_refl eq_refl eq_refl eq_refl) as (frame & Hd & Ht & _).
  exists frame. split; [exact Hd|exact Ht].
Defined.

Lemma passphrase_forgotten_witness :
  loaded (works (loadDocKey "/doc" [])).2.2 = Some a_key
  /\ ((works (loadDocKey "/doc" [])).1.2 = [PEv (Getenv "PRINTER_KEY_PASSPHRASE") EmptyString]
      \/ exists pass, (works (loadDocKey "/doc" [])).2.1 !! 0%nat = Some (replicate (length (string_bytes pass)) x00)).
Proof.
  split; [vm_compute; reflexivity|].
  destruct (passphrase_forgotten "/doc" [] _ _ _ (works_run (loadDocKey "/doc") []))
    as [(Ht & _)|(pass & file & _ & _ & Hz & _)]; [left; exact Ht|right; exists pass; exact Hz].
Defined.

(** ** The connection *)


(** The fortieth attempt, whose shift no longer fits. *)
Lemma backoff_bounds_witness :
  (works (backoffWithJitter 40 (30 * second))).1.2 = [PEv (RandInt63n (30 * second)) 0%Z]
  /\ (0 < Z.min (2 ^ (40 - 1) * second) (30 * second))%Z.
Proof.
  split; [vm_compute; reflexivity|].
  exact (proj2 (backoff_bounds 40 (30 * second) _ _ ltac:(lia) ltac:(unfold second; lia)
    (works_exec (backoffWithJitter 40 (30 * second)) tt))).
Defined.

Lemma printer_frames_understood_witness :
  Link.dec_Frame Link.zero_Frame (Printer.enc_Frame (stateFrame "idle" (snapshot (newSlotState "0b1")).2))
  = Some (toWire (stateFrame "idle" (snapshot (newSlotState "0b1")).2)).
Proof.
  apply (printer_frames_understood (stateFrame "idle" (snapshot (newSlotState "0b1")).2)).
  unfold frame_fits. cbn. apply map_Forall_singleton. split; cbn; lia.
Defined.
